(** * mindl: descrambler engines, key-table cipher and download coordinator

    A shallow embedding of the Go sources

      - [plugins/binb/scrambling.go]  (BinB descrambler and the BinB API
        helper that holds [decryptData]),
      - the BookWalker descrambler (package [bookwalker]),
      - [downloadmanager.go]          (the download coordinator),

    together with the properties the specification states about them.

    Conventions of the embedding.
      - Go's [int] is the 64-bit two's-complement integer of the usual
        build targets; it is a [Z] kept in range by [Go.wrap64].  [uint32]
        is a [Z] kept in range by [Go.u32].
      - A Go [string] is a sequence of bytes: Rocq's [string], whose
        characters are 8-bit [ascii] values.  [for i, c := range s] decodes
        UTF-8 and is [Go.range_string].
      - A call that can return an error or panic returns [Go.result]. *)

From Stdlib Require Import ZArith List String Ascii Bool Lia Arith Permutation.
From Stdlib Require Import DecimalString.
Import ListNotations.

Open Scope Z_scope.

(* ================================================================== *)
(** * The Go fragment the sources rely on                               *)
(* ================================================================== *)

Module Go.

(** Run-time panics the modelled code can raise. *)
Inductive panic : Type :=
| DivideByZero
| IndexOutOfRange
| MakeSliceLenOutOfRange
| TypeAssertion
| PanicValue (msg : string).

(** Outcome of a call: a value, a returned [error], or a panic. *)
Inductive result (A : Type) : Type :=
| Ok (a : A)
| Err (e : string)
| Panic (p : panic).

Arguments Ok {A} a.
Arguments Err {A} e.
Arguments Panic {A} p.

Definition bind {A B : Type} (m : result A) (f : A -> result B) : result B :=
  match m with
  | Ok a => f a
  | Err e => Err e
  | Panic p => Panic p
  end.

Definition is_ok {A : Type} (m : result A) : bool :=
  match m with Ok _ => true | _ => false end.

Definition is_err {A : Type} (m : result A) : bool :=
  match m with Err _ => true | _ => false end.

Definition is_panic {A : Type} (m : result A) : bool :=
  match m with Panic _ => true | _ => false end.

(** ** Machine integers *)

Definition wrap64 (z : Z) : Z := (z + 2 ^ 63) mod 2 ^ 64 - 2 ^ 63.
Definition maxInt64 : Z := 2 ^ 63 - 1.

Definition add (a b : Z) : Z := wrap64 (a + b).
Definition sub (a b : Z) : Z := wrap64 (a - b).
Definition mul (a b : Z) : Z := wrap64 (a * b).

(** [a / b] and [a % b] on [int]: truncated, panicking on a zero divisor. *)
Definition div (a b : Z) : result Z :=
  if b =? 0 then Panic DivideByZero else Ok (wrap64 (Z.quot a b)).
Definition rem (a b : Z) : result Z :=
  if b =? 0 then Panic DivideByZero else Ok (Z.rem a b).

Definition u32 (z : Z) : Z := z mod 2 ^ 32.
Definition add32 (a b : Z) : Z := u32 (a + b).
Definition sub32 (a b : Z) : Z := u32 (a - b).
Definition neg32 (a : Z) : Z := u32 (- a).
Definition shl32 (a n : Z) : Z := u32 (Z.shiftl a n).
(** [byte(x)] for an unsigned [x]. *)
Definition to_byte (z : Z) : Z := z mod 256.

(** ** Strings *)

Definition byte_val (c : ascii) : Z := Z.of_N (N_of_ascii c).
Definition bytes_of (s : string) : list Z := map byte_val (list_ascii_of_string s).
Definition len (s : string) : Z := Z.of_nat (String.length s).

(** [s[i]]: the byte at index [i], panicking out of range. *)
Definition index_byte (s : string) (i : Z) : result Z :=
  if (0 <=? i) && (i <? len s)
  then match nth_error (bytes_of s) (Z.to_nat i) with
       | Some b => Ok b
       | None => Panic IndexOutOfRange
       end
  else Panic IndexOutOfRange.

(** [l[i]] on a slice. *)
Definition index {A : Type} (l : list A) (i : Z) : result A :=
  if (0 <=? i) && (i <? Z.of_nat (List.length l))
  then match nth_error l (Z.to_nat i) with
       | Some a => Ok a
       | None => Panic IndexOutOfRange
       end
  else Panic IndexOutOfRange.

(** [l[i] = v]: store [v] at position [i] (callers index in range first). *)
Fixpoint store {A : Type} (l : list A) (i : nat) (v : A) : list A :=
  match l, i with
  | [], _ => []
  | _ :: t, O => v :: t
  | a :: t, S j => a :: store t j v
  end.

(** ** UTF-8 decoding, as [unicode/utf8.DecodeRuneInString] does it *)

Definition RuneError : Z := 0xFFFD.

(** Continuation-byte ranges allowed after the first byte [b0]; [None] for
    a byte that cannot start a multi-byte sequence.  The triple is
    (size, lowest second byte, highest second byte). *)
Definition first (b0 : Z) : option (nat * Z * Z) :=
  if b0 <? 0xC2 then None
  else if b0 <? 0xE0 then Some (2%nat, 0x80, 0xBF)
  else if b0 =? 0xE0 then Some (3%nat, 0xA0, 0xBF)
  else if b0 <? 0xED then Some (3%nat, 0x80, 0xBF)
  else if b0 =? 0xED then Some (3%nat, 0x80, 0x9F)
  else if b0 <? 0xF0 then Some (3%nat, 0x80, 0xBF)
  else if b0 =? 0xF0 then Some (4%nat, 0x90, 0xBF)
  else if b0 <? 0xF4 then Some (4%nat, 0x80, 0xBF)
  else if b0 =? 0xF4 then Some (4%nat, 0x80, 0x8F)
  else None.

Definition is_cont (b : Z) : bool := (0x80 <=? b) && (b <=? 0xBF).
Definition maskx (b : Z) : Z := Z.land b 0x3F.

(** The rune at the start of a non-empty byte sequence and its width. *)
Definition decodeRune (s : list Z) : Z * nat :=
  match s with
  | [] => (RuneError, 0%nat)
  | s0 :: t =>
    if s0 <? 0x80 then (s0, 1%nat)
    else match first s0 with
    | None => (RuneError, 1%nat)
    | Some (sz, lo, hi) =>
      if (List.length s <? sz)%nat then (RuneError, 1%nat)
      else match t with
      | [] => (RuneError, 1%nat)
      | s1 :: t1 =>
        if (s1 <? lo) || (hi <? s1) then (RuneError, 1%nat)
        else if (sz <=? 2)%nat
        then (Z.lor (Z.shiftl (Z.land s0 0x1F) 6) (maskx s1), 2%nat)
        else match t1 with
        | [] => (RuneError, 1%nat)
        | s2 :: t2 =>
          if negb (is_cont s2) then (RuneError, 1%nat)
          else if (sz <=? 3)%nat
          then (Z.lor (Z.lor (Z.shiftl (Z.land s0 0x0F) 12)
                             (Z.shiftl (maskx s1) 6)) (maskx s2), 3%nat)
          else match t2 with
          | [] => (RuneError, 1%nat)
          | s3 :: _ =>
            if negb (is_cont s3) then (RuneError, 1%nat)
            else (Z.lor (Z.lor (Z.lor (Z.shiftl (Z.land s0 0x07) 18)
                                      (Z.shiftl (maskx s1) 12))
                               (Z.shiftl (maskx s2) 6)) (maskx s3), 4%nat)
          end
        end
      end
    end
  end.

(** [for i, c := range s]: the pairs (byte offset, rune) in order.  [skip]
    counts the bytes of the current rune still to step over. *)
Fixpoint range_from (skip : nat) (i : Z) (s : list Z) : list (Z * Z) :=
  match s with
  | [] => []
  | _ :: t =>
    match skip with
    | S k => range_from k (i + 1) t
    | O => let '(r, sz) := decodeRune s in
           (i, r) :: range_from (Nat.pred sz) (i + 1) t
    end
  end.

Definition range_string (s : string) : list (Z * Z) :=
  range_from 0 0 (bytes_of s).

(** The runes of a string, in order. *)
Definition runes (s : string) : list Z := map snd (range_string s).

(** Number of characters (code points) [range] yields for [s]. *)
Definition rune_count (s : string) : nat := List.length (range_string s).

Definition is_ascii (s : string) : bool :=
  forallb (fun b => b <? 0x80) (bytes_of s).

Definition is_byte (b : Z) : Prop := 0 <= b < 256.
(** Every rune [range] yields fits in 21 bits. *)
Definition is_rune (r : Z) : Prop := 0 <= r < 2 ^ 21.

(** A call that can fail only by dividing by zero. *)
Definition div_only {A : Type} (m : result A) : Prop :=
  m = Panic DivideByZero \/ exists a, m = Ok a.

End Go.

Notation "x <- m ;; k" := (Go.bind m (fun x => k))
  (at level 61, m at next level, right associativity).

(* ================================================================== *)
(** * Key-table cipher ([decryptData] of the BinB API helper)           *)
(* ================================================================== *)

Module Cipher.
Import Go.

(** The closure [makeKey] inside [decryptData]. *)
Definition makeKey (cid k : string) : Z :=
  let s := (cid ++ ":" ++ k)%string in
  let res :=
    fold_left (fun res ic => add32 res (shl32 (u32 (snd ic)) (Z.rem (fst ic) 16)))
              (range_string s) 0 in
  let res := Z.land res 0x7FFFFFFF in
  if negb (res =? 0) then res else 0x12345678.

(** One turn of the loop body: the key update. *)
Definition nextKey (key : Z) : Z :=
  Z.lxor (Z.shiftr key 1) (Z.land (neg32 (Z.land key 1)) 0x48200004).

(** The byte written for input rune [char] under the updated [key]. *)
Definition outByte (char key : Z) : Z :=
  to_byte (add32 (Z.rem (add32 (sub32 (u32 char) 0x20) key) 0x5E) 0x20).

(** The loop [for _, char := range data], threading [key] and the buffer. *)
Fixpoint decryptLoop (key : Z) (chars : list Z) (buf : list Z) : list Z :=
  match chars with
  | [] => buf
  | char :: rest =>
    let key := nextKey key in
    decryptLoop key rest (buf ++ [outByte char key])
  end.

Definition decryptData (cid k data : string) : result (list Z) :=
  let key := makeKey cid k in
  Ok (decryptLoop key (runes data) []).

(** ** The cipher as the specification words it *)

(** Seed: the sum of [char_code << (i mod 16)] in a 32-bit accumulator,
    masked with [0x7FFFFFFF], zero replaced by [0x12345678]. *)
Definition spec_seed (cid k : string) : Z :=
  let s := (cid ++ ":" ++ k)%string in
  let acc :=
    (fold_right (fun ic acc => snd ic * 2 ^ (fst ic mod 16) + acc) 0
                (range_string s)) mod 2 ^ 32 in
  let masked := Z.land acc 0x7FFFFFFF in
  if masked =? 0 then 0x12345678 else masked.

(** Keystream step: [-(state AND 1)] in 32-bit two's complement is all
    ones when the state is odd and zero when it is even. *)
Definition spec_step (state : Z) : Z :=
  Z.lxor (Z.shiftr state 1) (if Z.odd state then 0x48200004 else 0).

(** The state after [n] steps. *)
Definition spec_state (seed : Z) (n : nat) : Z := Nat.iter n spec_step seed.

(** Combine, in 32-bit unsigned arithmetic. *)
Definition spec_combine (inp state : Z) : Z :=
  ((inp - 0x20 + state) mod 2 ^ 32) mod 0x5E + 0x20.

(** ** The key and the alphabet of the cipher *)

(** The key as the loop holds it after [n] turns. *)
Definition keyAfter (cid k : string) (n : nat) : Z :=
  Nat.iter n nextKey (makeKey cid k).

(** Text written with the 94 characters the cipher writes, from the space
    [0x20] up to [0x7D]. *)
Definition printable (s : string) : bool :=
  forallb (fun b => (0x20 <=? b) && (b <? 0x7E)) (bytes_of s).

End Cipher.

(* ================================================================== *)
(** * The fragment of Go's [image] package the descramblers use         *)
(* ================================================================== *)

Module Img.

Record Point : Type := mkPoint { X : Z; Y : Z }.

Record Rectangle : Type := mkRectangle { Min : Point; Max : Point }.

(** [image.Rect]: the corners are swapped where needed so that the
    rectangle is well formed. *)
Definition Rect (x0 y0 x1 y1 : Z) : Rectangle :=
  let '(x0, x1) := if x0 >? x1 then (x1, x0) else (x0, x1) in
  let '(y0, y1) := if y0 >? y1 then (y1, y0) else (y0, y1) in
  mkRectangle (mkPoint x0 y0) (mkPoint x1 y1).

Definition Dx (r : Rectangle) : Z := Go.sub (X (Max r)) (X (Min r)).
Definition Dy (r : Rectangle) : Z := Go.sub (Y (Max r)) (Y (Min r)).

Definition inside (x y : Z) (r : Rectangle) : bool :=
  (X (Min r) <=? x) && (x <? X (Max r)) && (Y (Min r) <=? y) && (y <? Y (Max r)).

Inductive Color : Type := RGBA (r g b a : Z).

(** An image: its bounds and the colour [At] returns at each point. *)
Record Image : Type := mkImage { Bounds : Rectangle; At : Z -> Z -> Color }.

(** [image.NewRGBA]: every pixel is the zero colour. *)
Definition NewRGBA (r : Rectangle) : Image :=
  mkImage r (fun _ _ => RGBA 0 0 0 0).

(** [Set] on an RGBA image ([Set] is reserved, hence the name): a point outside the bounds is ignored. *)
Definition RGBA_Set (img : Image) (x y : Z) (c : Color) : Image :=
  if inside x y (Bounds img)
  then mkImage (Bounds img)
               (fun x' y' => if (x' =? x) && (y' =? y) then c else At img x' y')
  else img.

(** A plain 128 x 128 picture, and the decoder that hands a picture over
    as it is. *)
Definition picture_128 : Image :=
  mkImage (Rect 0 0 128 128) (fun _ _ => RGBA 0 0 0 255).

Definition decode_id (img : Image) : Go.result Image := Go.Ok img.

(** A plain picture of any size. *)
Definition picture (w h : Z) : Image :=
  mkImage (Rect 0 0 w h) (fun _ _ => RGBA 0 0 0 255).

End Img.

(* ================================================================== *)
(** * Loops                                                             *)
(* ================================================================== *)

Module Loop.
Import Go.

(** The values a counter takes in [for s := 0; s < n; s++]. *)
Definition upto (n : Z) : list Z := map Z.of_nat (seq 0 (Z.to_nat n)).

(** Run [f] on each element in order, stopping at the first error or panic. *)
Fixpoint mapM {A B : Type} (f : A -> result B) (l : list A) : result (list B) :=
  match l with
  | [] => Ok []
  | a :: t => b <- f a ;; bs <- mapM f t ;; Ok (b :: bs)
  end.

Fixpoint foldM {A S : Type} (f : S -> A -> result S) (l : list A) (s : S) : result S :=
  match l with
  | [] => Ok s
  | a :: t => s' <- f s a ;; foldM f t s'
  end.

End Loop.

(* ================================================================== *)
(** * What the two packages declare alike                               *)
(* ================================================================== *)

(** Packages [binb] and [bookwalker] each declare [scrambleRectangle] and
    [scrambleRectanglesCollection] with the same fields, and end
    [Descramble] with the same pixel-copy loop. *)
Module Scramble.
Import Go Img Loop.

Record scrambleRectangle : Type := mkRect {
  src : Point;
  dst : Point;
  width : Z;
  height : Z
}.

Record scrambleRectanglesCollection : Type := mkCollection {
  rectangles : list scrambleRectangle;
  srcWidth : Z;
  srcHeight : Z;
  dstWidth : Z;
  dstHeight : Z
}.

(** The pixel copy:
    [res.Set(x+rect.dst.X, y+rect.dst.Y, img.At(x+rect.src.X, y+rect.src.Y))]
    for every [x < rect.width], [y < rect.height], rectangle by rectangle. *)
Definition blit (img : Image) (rects : list scrambleRectangle) (res : Image) : Image :=
  fold_left (fun res rect =>
    fold_left (fun res x =>
      fold_left (fun res y =>
        RGBA_Set res (add x (X (dst rect))) (add y (Y (dst rect)))
            (At img (add x (X (src rect))) (add y (Y (src rect)))))
        (upto (height rect)) res)
      (upto (width rect)) res)
    rects res.

End Scramble.

(* ================================================================== *)
(** * BookWalker descrambler (package [bookwalker])                     *)
(* ================================================================== *)

Module BookWalker.
Import Go Img Loop Scramble.

Definition rectangleWidth : Z := 64.
Definition rectangleHeight : Z := 64.
Definition patternCount : Z := 4.

Definition jsa : Z := 61.
Definition jsb : Z := 73.
Definition jsc : Z := 4.
Definition jsd : Z := 43.
Definition jse : Z := 47.
Definition jsf : Z := 53.
Definition jsg : Z := 59.
Definition jsh : Z := 67.
Definition jsi : Z := 71.
Definition jsj : Z := 29.
Definition jsk : Z := 37.
Definition jsl : Z := 31.
Definition jsm : Z := 41.

(** The sum of the code points of a string, as a mathematical integer. *)
Definition code_point_sum (s : string) : Z := fold_right Z.add 0 (runes s).

Definition getPattern (filePath : string) : Z :=
  let res := fold_left (fun res c => add res c) (runes filePath) 0 in
  add (Z.rem res patternCount) 1.

Definition calcPositionWithRest (coordX i remainderX rectangleSize : Z) : Z :=
  let res := mul coordX rectangleSize in
  if res >=? i then add res remainderX else res.

Definition calcXCoordinateXRest (index rectangleCountX pattern : Z) : result Z :=
  rem (add index (mul jsa pattern)) rectangleCountX.

Definition calcYCoordinateXRest (coordX unk1 unk2 rectangleCountY pattern : Z)
  : result Z :=
  let l := Z.rem pattern 2 =? 1 in
  let k := if coordX <? unk1 then l else negb l in
  let '(modulo, extra) :=
    if k then (unk2, 0) else (sub rectangleCountY unk2, unk2) in
  m <- rem (add (add coordX (mul pattern jsf)) (mul unk2 jsg)) modulo ;;
  Ok (add m extra).

Definition calcXCoordinateYRest (coordY unk1 unk2 rectangleCountX pattern : Z)
  : result Z :=
  let l := Z.rem pattern 2 =? 1 in
  let k := if coordY <? unk2 then l else negb l in
  let '(modulo, extra) :=
    if k then (sub rectangleCountX unk1, unk1) else (unk1, 0) in
  m <- rem (add (add (add coordY (mul pattern jsh)) unk1) jsi) modulo ;;
  Ok (add m extra).

Definition calcYCoordinateYRest (index rectangleCountY pattern : Z) : result Z :=
  rem (add index (mul jsb pattern)) rectangleCountY.

(** The anchor index [i] (and [n]) for [rects] tiles along one axis, with
    [c] the constant [jsd] (resp. [jse]). *)
Definition anchor (c rects pattern : Z) : result Z :=
  m <- rem (mul c pattern) rects ;;
  let i := sub rects m in
  z <- rem i rects ;;
  i <- (if z =? 0 then rem (sub rects jsc) rects else Ok i) ;;
  Ok (if i =? 0 then sub rects 1 else i).

Definition generateRectangles (srcWidth srcHeight pattern : Z)
  : result (list scrambleRectangle) :=
  let rectsX := Z.quot srcWidth rectangleWidth in
  let rectsY := Z.quot srcHeight rectangleHeight in
  let remainderX := Z.rem srcWidth rectangleWidth in
  let remainderY := Z.rem srcHeight rectangleHeight in
  (* the [make] with capacity [rectsX * rectsY] *)
  _ <- (if mul rectsX rectsY <? 0 then Panic MakeSliceLenOutOfRange else Ok tt) ;;
  i <- anchor jsd rectsX pattern ;;
  n <- anchor jse rectsY pattern ;;
  let corner :=
    if (remainderX >? 0) && (remainderY >? 0)
    then let o := mul i rectangleWidth in
         let p := mul n rectangleHeight in
         [mkRect (mkPoint o p) (mkPoint o p) remainderX remainderY]
    else [] in
  top <-
    (if remainderY >? 0
     then mapM (fun s =>
            u <- calcXCoordinateXRest s rectsX pattern ;;
            v <- calcYCoordinateXRest u i n rectsY pattern ;;
            let q := calcPositionWithRest u i remainderX rectangleWidth in
            let r := mul v rectangleHeight in
            let o := calcPositionWithRest s i remainderX rectangleWidth in
            let p := mul n rectangleHeight in
            Ok (mkRect (mkPoint q r) (mkPoint o p) rectangleWidth remainderY))
          (upto rectsX)
     else Ok []) ;;
  side <-
    (if remainderX >? 0
     then mapM (fun t =>
            v <- calcYCoordinateYRest t rectsY pattern ;;
            u <- calcXCoordinateYRest v i n rectsX pattern ;;
            let q := mul u rectangleWidth in
            let r := calcPositionWithRest v n remainderY rectangleHeight in
            let o := mul i rectangleWidth in
            let p := calcPositionWithRest t n remainderY rectangleHeight in
            Ok (mkRect (mkPoint q r) (mkPoint o p) remainderX rectangleHeight))
          (upto rectsY)
     else Ok []) ;;
  bulk <-
    mapM (fun s =>
      mapM (fun t =>
        u <- rem (add (add s (mul pattern jsj)) (mul jsl t)) rectsX ;;
        v <- rem (add (add t (mul pattern jsk)) (mul jsm u)) rectsY ;;
        xr <- calcXCoordinateYRest v i n rectsX pattern ;;
        let w := if u >=? xr then remainderX else 0 in
        yr <- calcYCoordinateXRest u i n rectsY pattern ;;
        let x := if v >=? yr then remainderY else 0 in
        let q := add (mul u rectangleWidth) w in
        let r := add (mul v rectangleHeight) x in
        let o := mul s rectangleWidth in
        let o := if s >=? i then add o remainderX else o in
        let p := mul t rectangleHeight in
        let p := if t >=? n then add p remainderY else p in
        Ok (mkRect (mkPoint q r) (mkPoint o p) rectangleWidth rectangleHeight))
      (upto rectsY))
    (upto rectsX) ;;
  Ok (corner ++ top ++ side ++ List.concat bulk).

(** The zero value [descrambler{}] has no collection cached; the array has
    [patternCount] slots.  This is the cache alone: the mutex [m] of the
    struct is the field [locked] of [guarded] below, which puts the two
    together. *)
Record descrambler : Type := mkDescrambler {
  rectangleCollections : list (option scrambleRectanglesCollection)
}.

Definition new_descrambler : descrambler :=
  mkDescrambler (repeat None (Z.to_nat patternCount)).

Section Descramble.

(** [image.Decode] belongs to Go's library: a reader either decodes to an
    image or yields an error. *)
Variable Reader : Type.
Variable image_Decode : Reader -> result Image.

(** [Descramble] returns its result together with the descrambler state it
    leaves behind. *)
Definition Descramble (ds : descrambler) (filename : string) (reader : Reader)
  (dummyWidth dummyHeight : Z) : result (Image * descrambler) :=
  img <- image_Decode reader ;;
  let bounds := Bounds img in
  let srcWidth := Dx bounds in
  let srcHeight := Dy bounds in
  let pattern := getPattern filename in
  slot <- index (rectangleCollections ds) (sub pattern 1) ;;
  cd <-
    (let fresh :=
       rects <- generateRectangles srcWidth srcHeight pattern ;;
       let c := mkCollection rects srcWidth srcHeight
                  (sub srcWidth dummyWidth) (sub srcHeight dummyHeight) in
       Ok (c, mkDescrambler
                (store (rectangleCollections ds) (Z.to_nat (sub pattern 1)) (Some c)))
     in
     match slot with
     | None => fresh
     | Some col =>
       if negb (srcWidth =? Scramble.srcWidth col)
          || negb (srcHeight =? Scramble.srcHeight col)
       then fresh
       else Ok (col, ds)
     end) ;;
  let '(col, ds') := cd in
  let res := NewRGBA (Rect 0 0 (dstWidth col) (dstHeight col)) in
  Ok (blit img (rectangles col) res, ds').

(** The states a descrambler goes through: the zero value, and what a
    returning call leaves behind. *)
Inductive reachable : descrambler -> Prop :=
| reach_init : reachable new_descrambler
| reach_step ds filename reader dw dh img ds' :
    reachable ds ->
    Descramble ds filename reader dw dh = Ok (img, ds') ->
    reachable ds'.

End Descramble.

(** What holds of every descrambler state: four slots, and a cached
    collection records dimensions for which the rectangles could be
    generated. *)
Definition cache_ok (ds : descrambler) : Prop :=
  List.length (rectangleCollections ds) = 4%nat
  /\ forall col, In (Some col) (rectangleCollections ds) ->
       exists pattern,
         is_ok (generateRectangles (srcWidth col) (srcHeight col) pattern) = true.

(** Dimensions of the image a call returned, and the state it left. *)
Definition result_dims (r : result (Image * descrambler)) : option (Z * Z) :=
  match r with
  | Ok (img, _) => Some (Dx (Bounds img), Dy (Bounds img))
  | _ => None
  end.

Definition result_state (r : result (Image * descrambler)) : option descrambler :=
  match r with
  | Ok (_, ds) => Some ds
  | _ => None
  end.







(** ** What the generated list and the cache are measured against *)

(** The number of rectangles [generateRectangles] appends for a [sw] x [sh]
    image: the corner, one per tile of the bottom strip, one per tile of
    the right strip, and one per full tile. *)
Definition rectangle_count (sw sh : Z) : Z :=
  let rectsX := Z.quot sw rectangleWidth in
  let rectsY := Z.quot sh rectangleHeight in
  let remainderX := Z.rem sw rectangleWidth in
  let remainderY := Z.rem sh rectangleHeight in
  (if (remainderX >? 0) && (remainderY >? 0) then 1 else 0)
  + (if remainderY >? 0 then rectsX else 0)
  + (if remainderX >? 0 then rectsY else 0)
  + rectsX * rectsY.

(** Both footprints of [r] lie inside a [sw] x [sh] image. *)
Definition within (sw sh : Z) (r : scrambleRectangle) : Prop :=
  0 < width r /\ 0 < height r
  /\ 0 <= X (src r) /\ X (src r) + width r <= sw
  /\ 0 <= Y (src r) /\ Y (src r) + height r <= sh
  /\ 0 <= X (dst r) /\ X (dst r) + width r <= sw
  /\ 0 <= Y (dst r) /\ Y (dst r) + height r <= sh.

(** Slot [k] of the cache serves pattern [k + 1]: a collection cached
    there holds the rectangles of its own source dimensions. *)
Definition cache_exact (ds : descrambler) : Prop :=
  List.length (rectangleCollections ds) = 4%nat
  /\ forall k col,
       nth_error (rectangleCollections ds) k = Some (Some col) ->
       generateRectangles (srcWidth col) (srcHeight col) (Z.of_nat k + 1)
       = Ok (rectangles col).

(** Every cached collection was stored by a call with dummy sizes
    [(dw, dh)]. *)
Definition cache_dummy (dw dh : Z) (ds : descrambler) : Prop :=
  forall col, In (Some col) (rectangleCollections ds) ->
    dstWidth col = sub (srcWidth col) dw /\ dstHeight col = sub (srcHeight col) dh.

(** The image a call returned, without the state. *)
Definition result_image (r : result (Image * descrambler)) : result Image :=
  match r with
  | Ok (img, _) => Ok img
  | Err e => Err e
  | Panic q => Panic q
  end.

(** ** The mutex *)

(** [Descramble] locks [ds.m] once the image is decoded and unlocks it when
    the collection is chosen, without [defer]: a panic in between, from the
    index or from [generateRectangles], leaves the mutex locked, and a
    later call that gets as far as [ds.m.Lock()] waits for ever.  After the
    unlock a call works on the collection it chose and on nothing shared,
    so the calls of several workers take effect one after the other, in
    the order in which they take the lock. *)
Inductive outcome : Type :=
| Returns (r : result Image)
| Blocks.

(** The descrambler with its mutex. *)
Record guarded : Type := mkGuarded { state : descrambler; locked : bool }.

Section Guarded.

Variable Reader : Type.
Variable image_Decode : Reader -> result Image.
Variables dummyWidth dummyHeight : Z.

Definition Descramble_guarded (g : guarded) (filename : string) (reader : Reader)
  : outcome * guarded :=
  match image_Decode reader with
  | Err e => (Returns (Err e), g)
  | Panic q => (Returns (Panic q), g)
  | Ok _ =>
    if locked g then (Blocks, g)
    else
      match Descramble Reader image_Decode (state g) filename reader
              dummyWidth dummyHeight with
      | Ok (img, ds') => (Returns (Ok img), mkGuarded ds' false)
      | Err e => (Returns (Err e), g)
      | Panic q => (Returns (Panic q), mkGuarded (state g) true)
      end
  end.

(** The states of a descrambler all of whose calls pass the same dummy
    sizes, whatever the calls do: return an image, return an error, panic
    or wait for the mutex. *)
Inductive reachable_guarded : guarded -> Prop :=
| guarded_init : reachable_guarded (mkGuarded new_descrambler false)
| guarded_step g filename reader :
    reachable_guarded g ->
    reachable_guarded (snd (Descramble_guarded g filename reader)).

End Guarded.

End BookWalker.

(* ================================================================== *)
(** * BinB descrambler ([plugins/binb/scrambling.go])                   *)
(* ================================================================== *)

Module BinB.
Import Go Img Loop Scramble.

(** ** The two key patterns *)

Definition is_digit (c : ascii) : bool :=
  (0x30 <=? byte_val c) && (byte_val c <=? 0x39).
Definition is_upper (c : ascii) : bool :=
  (0x41 <=? byte_val c) && (byte_val c <=? 0x5A).
Definition is_lower (c : ascii) : bool :=
  (0x61 <=? byte_val c) && (byte_val c <=? 0x7A).
Definition is_alpha (c : ascii) : bool := is_upper c || is_lower c.
(** The class [[-_0-9A-Za-z]]. *)
Definition is_word (c : ascii) : bool :=
  (byte_val c =? 0x2D) || (byte_val c =? 0x5F) || is_digit c || is_alpha c.
(** The class [[-+]]. *)
Definition is_sign (c : ascii) : bool :=
  (byte_val c =? 0x2D) || (byte_val c =? 0x2B).

Fixpoint all_of (f : ascii -> bool) (s : string) : bool :=
  match s with
  | EmptyString => true
  | String c t => f c && all_of f t
  end.

Definition nonempty (s : string) : bool :=
  match s with EmptyString => false | _ => true end.

(** The longest prefix of [s] in the class [f], and what follows it. *)
Fixpoint span (f : ascii -> bool) (s : string) : string * string :=
  match s with
  | EmptyString => (EmptyString, EmptyString)
  | String c t =>
    if f c
    then let '(a, b) := span f t in (String c a, b)
    else (EmptyString, s)
  end.

(** The submatches of a key, as [FindStringSubmatch] lists them after the
    whole match. *)
Record type1Match : Type := mkType1Match {
  m1 : string; m2 : string; m3 : string; m4 : string; m5 : string
}.

(** [reType1Key], ["^=([0-9]+)-([0-9]+)([-+])([0-9]+)-([-_0-9A-Za-z]+)$"]:
    [None] is the [nil] of a failed match.  Each group is followed by a
    character outside its class, so the leftmost match takes the longest
    run of digits. *)
Definition reType1Key (s : string) : option type1Match :=
  match s with
  | String "="%char r0 =>
    let '(g1, r1) := span is_digit r0 in
    match r1 with
    | String "-"%char r2 =>
      let '(g2, r3) := span is_digit r2 in
      match r3 with
      | String sg r4 =>
        let '(g4, r5) := span is_digit r4 in
        match r5 with
        | String "-"%char g5 =>
          if nonempty g1 && nonempty g2 && is_sign sg && nonempty g4
             && nonempty g5 && all_of is_word g5
          then Some (mkType1Match g1 g2 (String sg EmptyString) g4 g5)
          else None
        | _ => None
        end
      | _ => None
      end
    | _ => None
    end
  | _ => None
  end.

Record type2Match : Type := mkType2Match { n1 : string; n2 : string; n3 : string }.

(** [reType2Key], ["^([0-9]+?)-([0-9]+?)-([A-Za-z]+)$"]: the reluctant
    groups still have to reach the next ['-']. *)
Definition reType2Key (s : string) : option type2Match :=
  let '(g1, r1) := span is_digit s in
  match r1 with
  | String "-"%char r2 =>
    let '(g2, r3) := span is_digit r2 in
    match r3 with
    | String "-"%char g3 =>
      if nonempty g1 && nonempty g2 && nonempty g3 && all_of is_alpha g3
      then Some (mkType2Match g1 g2 g3)
      else None
    | _ => None
    end
  | _ => None
  end.

(** The number a string of decimal digits denotes. *)
Definition digits_value (s : string) : Z :=
  fold_left (fun acc c => 10 * acc + (byte_val c - 0x30)) (list_ascii_of_string s) 0.

(** [strconv.Atoi] on a non-empty string of digits, its error dropped as
    the callers drop it: a value out of range comes back as the largest
    [int]. *)
Definition Atoi (s : string) : Z := Z.min (digits_value s) maxInt64.

Definition tnpConstants : list Z := [
  (-1); (-1); (-1); (-1); (-1); (-1); (-1); (-1); (-1); (-1); (-1); (-1); (-1); (-1); (-1); (-1);
  (-1); (-1); (-1); (-1); (-1); (-1); (-1); (-1); (-1); (-1); (-1); (-1); (-1); (-1); (-1); (-1);
  (-1); (-1); (-1); (-1); (-1); (-1); (-1); (-1); (-1); (-1); (-1); (-1); (-1); 62; (-1); (-1);
  52; 53; 54; 55; 56; 57; 58; 59; 60; 61; (-1); (-1); (-1); (-1); (-1); (-1);
  (-1); 0; 1; 2; 3; 4; 5; 6; 7; 8; 9; 10; 11; 12; 13; 14;
  15; 16; 17; 18; 19; 20; 21; 22; 23; 24; 25; (-1); (-1); (-1); (-1); 63;
  (-1); 26; 27; 28; 29; 30; 31; 32; 33; 34; 35; 36; 37; 38; 39; 40;
  41; 42; 43; 44; 45; 46; 47; 48; 49; 50; 51; (-1); (-1); (-1); (-1); (-1) ].

Inductive scrambleKeyType : Type := typeUnset | type1 | type2.

Definition keyType_eqb (a b : scrambleKeyType) : bool :=
  match a, b with
  | typeUnset, typeUnset | type1, type1 | type2, type2 => true
  | _, _ => false
  end.

Definition scrambleAlphabet : string := "ABCDEFGHIJKLMNOPQRSTUVWXYZ".
Definition scrambleAlphabetLower : string := "abcdefghijklmnopqrstuvwxyz".

Record scrambleDataType1 : Type := mkData1 {
  h : Z; v : Z; padding : Z;
  src1 : string; dst1 : string
}.

Record scrambleDataType2Piece : Type := mkPiece {
  pos : Point; pwidth : Z; pheight : Z
}.

Record scrambleDataType2 : Type := mkData2 {
  ndx : Z; ndy : Z; pieces : list scrambleDataType2Piece
}.

Record scrambleDataType2Pair : Type := mkPair {
  pair_c : scrambleDataType2; pair_p : scrambleDataType2
}.

(** An element of [data []interface{}]: [nil] until [init] fills it. *)
Inductive keyData : Type :=
| NoData
| DataType1 (d : scrambleDataType1)
| DataType2 (d : scrambleDataType2Pair).

Record Descrambler : Type := mkDescrambler {
  Ctbl : list string;
  Ptbl : list string;
  keyType : scrambleKeyType;
  data : list keyData;
  rectangleCollections : list (list (option scrambleRectanglesCollection))
}.

Definition set_keyType (ds : Descrambler) (t : scrambleKeyType) : Descrambler :=
  mkDescrambler (Ctbl ds) (Ptbl ds) t (data ds) (rectangleCollections ds).

Definition set_data (ds : Descrambler) (i : Z) (d : keyData) : Descrambler :=
  mkDescrambler (Ctbl ds) (Ptbl ds) (keyType ds)
                (store (data ds) (Z.to_nat i) d) (rectangleCollections ds).

Definition set_collection (ds : Descrambler) (c p : Z)
  (col : option scrambleRectanglesCollection) : Descrambler :=
  mkDescrambler (Ctbl ds) (Ptbl ds) (keyType ds) (data ds)
    (store (rectangleCollections ds) (Z.to_nat c)
       (store (nth (Z.to_nat c) (rectangleCollections ds) []) (Z.to_nat p) col)).

Definition processType1 (ds : Descrambler) (i : Z) : result scrambleDataType1 :=
  ci <- index (Ctbl ds) i ;;
  pi <- index (Ptbl ds) i ;;
  match reType1Key ci, reType1Key pi with
  | Some c, Some p =>
    if negb (m1 c =? m1 p)%string || negb (m2 c =? m2 p)%string
       || negb (m4 c =? m4 p)%string
       || negb (m3 c =? "+")%string || negb (m3 p =? "-")%string
    then Err "Invalid type 1 scramble key."
    else
      let h := Atoi (m1 c) in
      let v := Atoi (m2 c) in
      let padding := Atoi (m4 c) in
      if (h >? 8) || (v >? 8) || (mul h v >? 64)
      then Err "Invalid h and v values."
      else
        let src := m5 c in
        let dst := m5 p in
        let target_len := add (add h v) (mul h v) in
        if negb (len src =? target_len) || negb (len dst =? target_len)
        then Err "Invalid h or v length."
        else Ok (mkData1 h v padding src dst)
  | _, _ => Err "Invalid type 1 scramble key."
  end.

(** [strings.IndexByte]: the first position of [c] in [s], or -1. *)
Fixpoint IndexByte_from (s : string) (c : Z) (i : Z) : Z :=
  match s with
  | EmptyString => -1
  | String a t => if byte_val a =? c then i else IndexByte_from t c (i + 1)
  end.
Definition IndexByte (s : string) (c : Z) : Z := IndexByte_from s c 0.

Definition decodeType2Key (char : Z) : Z :=
  let c := IndexByte scrambleAlphabet char in
  if c =? -1
  then mul (IndexByte scrambleAlphabetLower char) 2
  else add 1 (mul c 2).

Definition processType2 (key : string) : result scrambleDataType2 :=
  match reType2Key key with
  | None => Err "Invalid format of a type 2 key."
  | Some re =>
    let ndx := Atoi (n1 re) in
    let ndy := Atoi (n2 re) in
    let data := n3 re in
    if negb (len data =? mul (mul ndx ndy) 2)
    then Err "Invalid key. Key data length does not match the rest."
    else
      let f := sub (mul (sub ndx 1) (sub ndy 1)) 1 in
      let g := add f (sub ndx 1) in
      let h := add g (sub ndy 1) in
      let j := add h 1 in
      let n := mul ndx ndy in
      _ <- (if n <? 0 then Panic MakeSliceLenOutOfRange else Ok tt) ;;
      pieces <-
        mapM (fun i =>
          x <- index_byte data (mul i 2) ;;
          y <- index_byte data (add (mul i 2) 1) ;;
          let pos := mkPoint (decodeType2Key x) (decodeType2Key y) in
          let '(w, ht) :=
            if i <=? f then (2, 2)
            else if i <=? g then (2, 1)
            else if i <=? h then (1, 2)
            else if i <=? j then (1, 1)
            else (0, 0) in
          Ok (mkPiece pos w ht))
        (upto n) ;;
      Ok (mkData2 ndx ndy pieces)
  end.

Definition startsWithDigit (s : string) : result bool :=
  a <- index_byte s 0 ;;
  if negb (0x30 <=? a) then Ok false
  else b <- index_byte s 0 ;; Ok (b <=? 0x39).

(** One turn of the loop of [init], for index [i]. *)
Definition init_step (ds : Descrambler) (i : Z) : result Descrambler :=
  ci <- index (Ctbl ds) i ;;
  c0 <- index_byte ci 0 ;;
  is1 <- (if c0 =? 0x3D
          then pi <- index (Ptbl ds) i ;;
               p0 <- index_byte pi 0 ;;
               Ok (p0 =? 0x3D)
          else Ok false) ;;
  parsed <-
    (if is1 : bool
     then Ok (type1, match processType1 ds i with
                     | Ok d => Ok (DataType1 d)
                     | Err e => Err e
                     | Panic p => Panic p
                     end)
     else
       cd <- startsWithDigit ci ;;
       pd <- (if cd : bool
              then pi <- index (Ptbl ds) i ;; startsWithDigit pi
              else Ok false) ;;
       if pd : bool
       then
         pi <- index (Ptbl ds) i ;;
         Ok (type2,
             c <- processType2 ci ;;
             p <- processType2 pi ;;
             Ok (DataType2 (mkPair c p)))
       else Err "Unknown key type.") ;;
  let '(newType, r) := parsed in
  (* a panic while a key is processed ends the loop there *)
  _ <- (match r with Panic p => Panic p | _ => Ok tt end) ;;
  ds <- (if keyType_eqb (keyType ds) typeUnset
         then Ok (set_keyType ds newType)
         else if negb (keyType_eqb (keyType ds) newType)
              then Err "Mixed key types."
              else Ok ds) ;;
  d <- r ;;
  Ok (set_data ds i d).

Definition init (ds : Descrambler) : result Descrambler :=
  foldM init_step (upto (Z.of_nat (List.length (Ctbl ds)))) ds.

Definition NewDescrambler (ctbl ptbl : list string) : result Descrambler :=
  if negb (List.length ctbl =? List.length ptbl)%nat
  then Err "ctbl and ptbl need to be of the same size."
  else if (List.length ctbl =? 0)%nat
  then Err "ctbl cannot be empty."
  else if (List.length ptbl =? 0)%nat
  then Err "ptbl cannot be empty."
  else
    let res := mkDescrambler ctbl ptbl typeUnset
                 (repeat NoData (List.length ctbl))
                 (repeat (repeat None (List.length ptbl)) (List.length ctbl)) in
    init res.

(** ** Initialisation as the specification words it *)

(** A non-empty run of decimal digits. *)
Definition is_number (s : string) : Prop :=
  nonempty s = true /\ all_of is_digit s = true.

(** A Type-1 pair: source key [=h-v+p-<payload>] and destination key
    [=h-v-p-<payload>] with matching [h], [v], [p], where [h, v <= 8],
    [h * v <= 64] and each payload has length [h + v + h * v]. *)
Definition spec_type1_pair (c p : string) : Prop :=
  exists hs vs ps src dst : string,
    c = ("=" ++ hs ++ "-" ++ vs ++ "+" ++ ps ++ "-" ++ src)%string
    /\ p = ("=" ++ hs ++ "-" ++ vs ++ "-" ++ ps ++ "-" ++ dst)%string
    /\ is_number hs /\ is_number vs /\ is_number ps
    /\ nonempty src = true /\ all_of is_word src = true
    /\ nonempty dst = true /\ all_of is_word dst = true
    /\ digits_value hs <= 8 /\ digits_value vs <= 8
    /\ digits_value hs * digits_value vs <= 64
    /\ len src = digits_value hs + digits_value vs + digits_value hs * digits_value vs
    /\ len dst = digits_value hs + digits_value vs + digits_value hs * digits_value vs.

(** A Type-2 key: [ndx-ndy-<payload>] with a payload of letters of length
    [2 * ndx * ndy]. *)
Definition spec_type2_key (k : string) : Prop :=
  exists xs ys payload : string,
    k = (xs ++ "-" ++ ys ++ "-" ++ payload)%string
    /\ is_number xs /\ is_number ys
    /\ nonempty payload = true /\ all_of is_alpha payload = true
    /\ len payload = 2 * digits_value xs * digits_value ys.

(** The tables [Initialise] accepts: equal non-zero length, and every
    pair of one and the same scheme. *)
Definition spec_accepts (ctbl ptbl : list string) : Prop :=
  List.length ctbl = List.length ptbl /\ ctbl <> []
  /\ (Forall2 spec_type1_pair ctbl ptbl
      \/ Forall2 (fun c p => spec_type2_key c /\ spec_type2_key p) ctbl ptbl).

(** The pair at index [i] of the tables is of Type 1 (resp. of Type 2). *)
Definition pair1 (ctbl ptbl : list string) (i : nat) : Prop :=
  forall c p, nth_error ctbl i = Some c -> nth_error ptbl i = Some p ->
              spec_type1_pair c p.
Definition pair2 (ctbl ptbl : list string) (i : nat) : Prop :=
  forall c p, nth_error ctbl i = Some c -> nth_error ptbl i = Some p ->
              spec_type2_key c /\ spec_type2_key p.

(** Tables on which the 64-bit arithmetic of [processType2] is exact and
    no key is the empty string. *)
Definition small_grid (k : string) : Prop :=
  forall m, reType2Key k = Some m ->
    digits_value (n1 m) < 2 ^ 31 /\ digits_value (n2 m) < 2 ^ 31.

Definition plain_tables (ctbl ptbl : list string) : Prop :=
  Forall (fun k => k <> EmptyString /\ small_grid k) (ctbl ++ ptbl).

(** What [init] leaves in [data[i]] under key type [t]: the outcome of
    processing the keys at index [i]. *)
Definition entry_ok (ds : Descrambler) (t : scrambleKeyType) (i : Z) (d : keyData)
  : Prop :=
  match t, d with
  | type1, DataType1 d1 => processType1 ds i = Ok d1
  | type2, DataType2 pr =>
    exists ckey pkey,
      index (Ctbl ds) i = Ok ckey /\ index (Ptbl ds) i = Ok pkey
      /\ processType2 ckey = Ok (pair_c pr) /\ processType2 pkey = Ok (pair_p pr)
  | _, _ => False
  end.

(** The state [init] has reached once the indices below [k] are done,
    starting from [ds0]. *)
Definition init_inv (ds0 : Descrambler) (k : nat) (ds : Descrambler) : Prop :=
  Ctbl ds = Ctbl ds0 /\ Ptbl ds = Ptbl ds0
  /\ rectangleCollections ds = rectangleCollections ds0
  /\ List.length (data ds) = List.length (data ds0)
  /\ (k = 0%nat -> keyType ds = keyType ds0)
  /\ (k <> 0%nat -> keyType ds <> typeUnset)
  /\ forall i, (i < k)%nat ->
       exists d, nth_error (data ds) i = Some d
                 /\ entry_ok ds (keyType ds) (Z.of_nat i) d.

(** [make([]T, n)]: a negative length panics. *)
Definition make_len (n : Z) : result unit :=
  if n <? 0 then Panic MakeSliceLenOutOfRange else Ok tt.

Definition tnp (data : string) (h v : Z)
  : result (list Z * list Z * list Z) :=
  _ <- make_len h ;;
  _ <- make_len v ;;
  _ <- make_len (mul h v) ;;
  t <- mapM (fun i => b <- index_byte data i ;; index tnpConstants b) (upto h) ;;
  n <- mapM (fun i => b <- index_byte data (add h i) ;; index tnpConstants b)
            (upto v) ;;
  p <- mapM (fun i => b <- index_byte data (add (add h v) i) ;;
                      index tnpConstants b)
            (upto (mul h v)) ;;
  Ok (t, n, p).

(** The working dimensions [rectanglesType1] settles on. *)
Definition workingSize (h v padding srcWidth srcHeight : Z) : Z * Z :=
  let x := mul (mul h 2) padding in
  let y := mul (mul v 2) padding in
  if (srcWidth >=? add 64 x) && (srcHeight >=? add 64 y)
     && (mul srcWidth srcHeight >=? mul (add 320 x) (add 320 y))
  then (sub srcWidth (mul (mul h 2) padding), sub srcHeight (mul (mul v 2) padding))
  else (srcWidth, srcHeight).

(** [rectanglesType1] from the point where [h], [v], [padding] have been
    read; [src] stands for [cData.src] and [dst] for [pData.dst]. *)
Definition rectanglesType1_body (h v padding : Z) (src dst : string)
  (srcWidth srcHeight : Z) : result scrambleRectanglesCollection :=
  let '(width, height) := workingSize h v padding srcWidth srcHeight in
  s <- tnp src h v ;;
  let '(srcT, srcN, srcP) := s in
  d <- tnp dst h v ;;
  let '(dstT, dstN, dstP) := d in
  _ <- make_len (mul h v) ;;
  p <- mapM (fun i => k <- index dstP i ;; index srcP k) (upto (mul h v)) ;;
  sliceWidth <- div (sub (add width h) 1) h ;;
  sliceHeight <- div (sub (add height v) 1) v ;;
  let lastSliceWidth := sub width (mul (sub h 1) sliceWidth) in
  let lastSliceHeight := sub height (mul (sub v 1) sliceHeight) in
  _ <- make_len (mul h v) ;;
  res <-
    mapM (fun i =>
      dstColumn <- rem i h ;;
      dstRow <- div i h ;;
      let dstX := add padding (mul dstColumn (add sliceWidth (mul 2 padding))) in
      nr <- index dstN dstRow ;;
      let dstX := if nr <? dstColumn
                  then add dstX (sub lastSliceWidth sliceWidth) else dstX in
      let dstY := add padding (mul dstRow (add sliceHeight (mul 2 padding))) in
      tc <- index dstT dstColumn ;;
      let dstY := if tc <? dstRow
                  then add dstY (sub lastSliceHeight sliceHeight) else dstY in
      pi <- index p i ;;
      srcColumn <- rem pi h ;;
      srcRow <- div pi h ;;
      let srcX := mul srcColumn sliceWidth in
      snr <- index srcN srcRow ;;
      let srcX := if snr <? srcColumn
                  then add srcX (sub lastSliceWidth sliceWidth) else srcX in
      let srcY := mul srcRow sliceHeight in
      stc <- index srcT srcColumn ;;
      let srcY := if stc <? srcRow
                  then add srcY (sub lastSliceHeight sliceHeight) else srcY in
      nr' <- index dstN dstRow ;;
      let pWidth := if nr' =? dstColumn then lastSliceWidth else sliceWidth in
      tc' <- index dstT dstColumn ;;
      let pHeight := if tc' =? dstRow then lastSliceHeight else sliceHeight in
      (* dst and src switch places here, as in the source *)
      Ok (mkRect (mkPoint dstX dstY) (mkPoint srcX srcY) pWidth pHeight))
    (upto (mul h v)) ;;
  Ok (mkCollection res srcWidth srcHeight width height).

(** The type assertion on [ds.data[i]] to a pointer to [scrambleDataType1]. *)
Definition asType1 (ds : Descrambler) (i : Z) : result scrambleDataType1 :=
  d <- index (data ds) i ;;
  match d with
  | DataType1 d1 => Ok d1
  | _ => Panic TypeAssertion
  end.

Definition asType2 (ds : Descrambler) (i : Z) : result scrambleDataType2Pair :=
  d <- index (data ds) i ;;
  match d with
  | DataType2 d2 => Ok d2
  | _ => Panic TypeAssertion
  end.

Definition rectanglesType1 (ds : Descrambler) (cIndex pIndex srcWidth srcHeight : Z)
  : result scrambleRectanglesCollection :=
  cData <- asType1 ds cIndex ;;
  pData <- asType1 ds pIndex ;;
  let h := h cData in
  let v := v pData in
  let padding := padding cData in
  rectanglesType1_body h v padding (src1 cData) (dst1 pData) srcWidth srcHeight.

Definition rectanglesType2 (ds : Descrambler) (cIndex pIndex srcWidth srcHeight : Z)
  : result scrambleRectanglesCollection :=
  if negb ((srcWidth >=? 64) && (srcHeight >=? 64)
           && (mul srcWidth srcHeight >=? 320 * 320))
  then Err "Invalid input image dimensions."
  else
    let e := sub srcWidth (Z.rem srcWidth 8) in
    let f := sub (Z.quot (sub e 1) 7) (Z.rem (Z.quot (sub e 1) 7) 8) in
    let g := sub e (mul f 7) in
    let h := sub srcHeight (Z.rem srcHeight 8) in
    let j := sub (Z.quot (sub h 1) 7) (Z.rem (Z.quot (sub h 1) 7) 8) in
    let k := sub h (mul j 7) in
    pair <- asType2 ds cIndex ;;
    let cData := pair_c pair in
    pair <- asType2 ds pIndex ;;
    let pData := pair_p pair in
    res <-
      mapM (fun i =>
        cPiece <- index (pieces cData) i ;;
        pPiece <- index (pieces pData) i ;;
        let srcX := add (mul (Z.quot (X (pos cPiece)) 2) f)
                        (mul (Z.rem (X (pos cPiece)) 2) g) in
        let srcY := add (mul (Z.quot (Y (pos cPiece)) 2) j)
                        (mul (Z.rem (Y (pos cPiece)) 2) k) in
        let dstX := add (mul (Z.quot (X (pos pPiece)) 2) f)
                        (mul (Z.rem (X (pos pPiece)) 2) g) in
        let dstY := add (mul (Z.quot (Y (pos pPiece)) 2) j)
                        (mul (Z.rem (Y (pos pPiece)) 2) k) in
        let width := add (mul (Z.quot (pwidth cPiece) 2) f)
                         (mul (Z.rem (pwidth cPiece) 2) g) in
        let height := add (mul (Z.quot (pheight cPiece) 2) j)
                          (mul (Z.rem (pheight cPiece) 2) k) in
        Ok (mkRect (mkPoint srcX srcY) (mkPoint dstX dstY) width height))
      (upto (Z.of_nat (List.length (pieces cData)))) ;;
    let e := add (mul f (sub (ndx cData) 1)) g in
    let h := add (mul j (sub (ndy cData) 1)) k in
    let res := if e <? srcWidth
               then res ++ [mkRect (mkPoint e 0) (mkPoint e 0) (sub srcWidth e) h]
               else res in
    let res := if h <? srcHeight
               then res ++ [mkRect (mkPoint 0 h) (mkPoint 0 h) srcWidth (sub srcHeight h)]
               else res in
    Ok (mkCollection res srcWidth srcHeight srcWidth srcHeight).

(** The working dimensions as the specification words them, over the
    integers. *)
Definition spec_workingSize (h v padding sw sh : Z) : Z * Z :=
  if (sw >=? 64 + 2 * h * padding) && (sh >=? 64 + 2 * v * padding)
     && (sw * sh >=? (320 + 2 * h * padding) * (320 + 2 * v * padding))
  then (sw - 2 * h * padding, sh - 2 * v * padding)
  else (sw, sh).

Definition cpIndex (filename : string) : Z * Z :=
  let '(c, p) :=
    fold_left (fun cp ic =>
                 let '(c, p) := cp in
                 if Z.rem (fst ic) 2 =? 0
                 then (c, add p (snd ic))
                 else (add c (snd ic), p))
              (range_string filename) (0, 0) in
  (Z.rem c 8, Z.rem p 8).

Section Descramble.

Variable Reader : Type.
Variable image_Decode : Reader -> result Image.

(** [Descramble] with the state it leaves behind: a failed recomputation
    stores [nil] in the cache slot before the error is returned. *)
Definition Descramble (ds : Descrambler) (filename : string) (reader : Reader)
  : result Image * Descrambler :=
  match image_Decode reader with
  | Err e => (Err e, ds)
  | Panic q => (Panic q, ds)
  | Ok img =>
    let bounds := Bounds img in
    let srcWidth := Dx bounds in
    let srcHeight := Dy bounds in
    let '(c, p) := cpIndex filename in
    match (row <- index (rectangleCollections ds) c ;; index row p) with
    | Err e => (Err e, ds)
    | Panic q => (Panic q, ds)
    | Ok slot =>
      let finish (col : scrambleRectanglesCollection) (ds' : Descrambler) :=
        let res := NewRGBA (Rect 0 0 (dstWidth col) (dstHeight col)) in
        (Ok (blit img (rectangles col) res), ds') in
      let recompute (r : result scrambleRectanglesCollection) :=
        match r with
        | Ok col => finish col (set_collection ds c p (Some col))
        | Err e => (Err e, set_collection ds c p None)
        | Panic q => (Panic q, ds)
        end in
      let fresh :=
        match keyType ds with
        | type1 => recompute (rectanglesType1 ds c p srcWidth srcHeight)
        | type2 => recompute (rectanglesType2 ds c p srcWidth srcHeight)
        | typeUnset => (Err "Tried to descramble with unknown key type.", ds)
        end in
      match slot with
      | None => fresh
      | Some col =>
        if negb (srcWidth =? Scramble.srcWidth col)
           || negb (srcHeight =? Scramble.srcHeight col)
        then fresh
        else finish col ds
      end
    end
  end.

(** The states a descrambler goes through from [ds0] on when its calls
    come one after the other: every call leaves a state behind, whatever
    its outcome.  The calls of workers that run at the same time are those
    of [pool_reachable] below. *)
Inductive reachable (ds0 : Descrambler) : Descrambler -> Prop :=
| reach_init : reachable ds0 ds0
| reach_step ds filename reader :
    reachable ds0 ds ->
    reachable ds0 (snd (Descramble ds filename reader)).

End Descramble.

(** The cache is an [n] x [n] table. *)
Definition square (n : nat) (ds : Descrambler) : Prop :=
  List.length (rectangleCollections ds) = n
  /\ Forall (fun row => List.length row = n) (rectangleCollections ds).

(** ** What the cache and the key data are measured against *)

(** The collection [Descramble] computes for cell [(c, p)] when the cache
    does not serve it. *)
Definition rectangles_for (ds : Descrambler) (c p srcWidth srcHeight : Z)
  : result scrambleRectanglesCollection :=
  match keyType ds with
  | type1 => rectanglesType1 ds c p srcWidth srcHeight
  | type2 => rectanglesType2 ds c p srcWidth srcHeight
  | typeUnset => Err "Tried to descramble with unknown key type."
  end.

(** From [ds0] on only the cache has changed, and a collection cached in
    cell [(c, p)] is the one a miss would compute for its dimensions. *)
Definition cache_exact (ds0 ds : Descrambler) : Prop :=
  Ctbl ds = Ctbl ds0 /\ Ptbl ds = Ptbl ds0
  /\ keyType ds = keyType ds0 /\ data ds = data ds0
  /\ forall c p row col,
       nth_error (rectangleCollections ds) c = Some row ->
       nth_error row p = Some (Some col) ->
       rectangles_for ds0 (Z.of_nat c) (Z.of_nat p) (srcWidth col) (srcHeight col)
       = Ok col.


Section Uncached.

Variable Reader : Type.
Variable image_Decode : Reader -> result Image.

(** [Descramble] without its cache: the cell is looked up only for the
    bounds checks of the two index expressions, and the collection is
    computed on every call. *)
Definition Descramble_uncached (ds : Descrambler) (filename : string)
  (reader : Reader) : result Image :=
  img <- image_Decode reader ;;
  let srcWidth := Dx (Bounds img) in
  let srcHeight := Dy (Bounds img) in
  let '(c, p) := cpIndex filename in
  _ <- (row <- index (rectangleCollections ds) c ;; index row p) ;;
  col <- rectangles_for ds c p srcWidth srcHeight ;;
  Ok (blit img (rectangles col)
        (NewRGBA (Rect 0 0 (dstWidth col) (dstHeight col)))).

End Uncached.

(** A call that does not fail on a type assertion. *)
Definition no_assertion_failure {A : Type} (m : result A) : Prop :=
  m <> Panic TypeAssertion.

(** A call that returns a value or panics, and never returns an error. *)
Definition ok_or_panic {A : Type} (m : result A) : Prop := is_err m = false.

(** A call that returns a value or panics on an index, and nothing else. *)
Definition index_only {A : Type} (m : result A) : Prop :=
  m = Panic IndexOutOfRange \/ exists a, m = Ok a.

(** ** Calls in progress at the same time *)

(** [Descramble] takes no lock, and the workers of a download call it on
    one [Descrambler].  What a call reads that another call writes is the
    cache cell [*col] alone: the tables, the key type and the key data are
    written by [NewDescrambler] only.  Below a call is taken apart at its
    reads and its write of the cell, each of them one step, and the steps
    of the calls in progress interleave in any order (every step sees the
    last value written to the cell).  What a call does in between, which is
    decoding, deriving the collection and copying the pixels, touches
    nothing shared and takes no step of its own. *)

(** [runtime error: invalid memory address or nil pointer dereference]. *)
Definition NilDereference : panic :=
  PanicValue "invalid memory address or nil pointer dereference".

(** The access of [*col] a call is about to make. *)
Inductive call_pc : Type :=
| AtNil                  (* the test of the cell against nil *)
| AtNotNil               (* the second test of the cell against nil *)
| AtWidth                (* the read of the cached srcWidth *)
| AtHeight               (* the read of the cached srcHeight *)
| AtStore                (* the derivation and the store of its result *)
| AtDstWidth             (* the read of the cached dstWidth *)
| AtDstHeight (w : Z)    (* the read of the cached dstHeight; [w] was read *)
| AtRectangles (w h : Z) (* the read of the cached rectangles *).

(** A call: on its way with the decoded image and the cell [col] points
    to, or over. *)
Inductive call : Type :=
| Running (img : Image) (c p : Z) (pc : call_pc)
| Returned (r : result Image).

(** [*col]: what the cell holds. *)
Definition load (ds : Descrambler) (c p : Z)
  : option scrambleRectanglesCollection :=
  match (row <- index (rectangleCollections ds) c ;; index row p) with
  | Ok slot => slot
  | _ => None
  end.

(** One access of the cell by a call, with what follows it up to the next
    access. *)
Definition step_call (ds : Descrambler) (k : call) : Descrambler * call :=
  match k with
  | Returned _ => (ds, k)
  | Running img c p pc =>
    let srcWidth := Dx (Bounds img) in
    let srcHeight := Dy (Bounds img) in
    let goto (pc' : call_pc) := (ds, Running img c p pc') in
    let nil_dereference := (ds, Returned (Panic NilDereference)) in
    let recompute (r : result scrambleRectanglesCollection) :=
      match r with
      | Ok col => (set_collection ds c p (Some col), Running img c p AtDstWidth)
      | Err e => (set_collection ds c p None, Returned (Err e))
      | Panic q => (ds, Returned (Panic q))
      end in
    match pc with
    | AtNil =>
      match load ds c p with
      | None => goto AtStore
      | Some _ => goto AtNotNil
      end
    | AtNotNil =>
      match load ds c p with
      | None => goto AtDstWidth
      | Some _ => goto AtWidth
      end
    | AtWidth =>
      match load ds c p with
      | None => nil_dereference
      | Some col =>
        if negb (srcWidth =? Scramble.srcWidth col) then goto AtStore
        else goto AtHeight
      end
    | AtHeight =>
      match load ds c p with
      | None => nil_dereference
      | Some col =>
        if negb (srcHeight =? Scramble.srcHeight col) then goto AtStore
        else goto AtDstWidth
      end
    | AtStore =>
      match keyType ds with
      | type1 => recompute (rectanglesType1 ds c p srcWidth srcHeight)
      | type2 => recompute (rectanglesType2 ds c p srcWidth srcHeight)
      | typeUnset =>
        (ds, Returned (Err "Tried to descramble with unknown key type."))
      end
    | AtDstWidth =>
      match load ds c p with
      | None => nil_dereference
      | Some col => goto (AtDstHeight (dstWidth col))
      end
    | AtDstHeight w =>
      match load ds c p with
      | None => nil_dereference
      | Some col => goto (AtRectangles w (dstHeight col))
      end
    | AtRectangles w h =>
      match load ds c p with
      | None => nil_dereference
      | Some col =>
        (ds, Returned (Ok (blit img (rectangles col) (NewRGBA (Rect 0 0 w h)))))
      end
    end
  end.

(** The same on the pair of the descrambler and the call. *)
Definition turn (s : Descrambler * call) : Descrambler * call :=
  step_call (fst s) (snd s).

(** The descrambler and the calls made on it so far, in the order in which
    they started. *)
Record pool : Type := mkPool { shared : Descrambler; calls : list call }.

Section Pool.

Variable Reader : Type.
Variable image_Decode : Reader -> result Image.

(** The start of a call, up to [col := &ds.rectangleCollections[c][p]]. *)
Definition begin (ds : Descrambler) (filename : string) (reader : Reader)
  : call :=
  match image_Decode reader with
  | Err e => Returned (Err e)
  | Panic q => Returned (Panic q)
  | Ok img =>
    let '(c, p) := cpIndex filename in
    match (row <- index (rectangleCollections ds) c ;; index row p) with
    | Ok _ => Running img c p AtNil
    | Err e => Returned (Err e)
    | Panic q => Returned (Panic q)
    end
  end.

(** What happens next: a worker calls [Descramble], or call [i] makes its
    next access. *)
Inductive label : Type :=
| Call (filename : string) (reader : Reader)
| Step (i : nat).

Definition pool_step (pl : pool) (l : label) : pool :=
  match l with
  | Call filename reader =>
    mkPool (shared pl) (calls pl ++ [begin (shared pl) filename reader])
  | Step i =>
    match nth_error (calls pl) i with
    | Some k =>
      let '(ds, k') := step_call (shared pl) k in
      mkPool ds (store (calls pl) i k')
    | None => pl
    end
  end.

Definition pool_run (ls : list label) (pl : pool) : pool :=
  fold_left pool_step ls pl.

(** The states calls lead to from the descrambler [ds0], whatever their
    number and the order of their steps. *)
Inductive pool_reachable (ds0 : Descrambler) : pool -> Prop :=
| pool_init : pool_reachable ds0 (mkPool ds0 [])
| pool_next pl l :
    pool_reachable ds0 pl -> pool_reachable ds0 (pool_step pl l).

(** A call that starts in [pl] and runs to its end before any other call
    takes a step: at most eight accesses of the cell. *)
Definition run_alone (pl : pool) (filename : string) (reader : Reader) : pool :=
  pool_run (Call filename reader :: repeat (Step (List.length (calls pl))) 8) pl.

(** Two calls on one cell: the second starts after the store of the first
    and stores in its turn before the first reads the cell again. *)
Definition overtaken (filename1 : string) (reader1 : Reader)
  (filename2 : string) (reader2 : Reader) : list label :=
  [Call filename1 reader1; Step 0; Step 0; Call filename2 reader2]
  ++ repeat (Step 1) 5
  ++ repeat (Step 0) 3.

End Pool.

End BinB.

(* ================================================================== *)
(** * Download coordinator ([downloadmanager.go])                       *)
(* ================================================================== *)

(** [DownloadManager.Download] runs three kinds of goroutine: the caller
    (the main loop), the spawner and the workers, which meet on the
    channels [done], [got], [ec], [workerLimiter] and [interrupt].  The
    model is an interleaving transition system: a state holds the point
    each goroutine has reached and the contents of the channels, and each
    label is one communication or one sequential stretch of one goroutine.
    What the plugin and the file system do is a parameter of the run. *)
Module Manager.
Import Go.

Definition error : Type := string.

Definition ErrInterrupted : error :=
  "The download failed to finish because of an interrupt."%string.
Definition ErrNoDownloaders : error := "Got no downloaders from the plugin."%string.

(** [%d] of a worker number. *)
Definition decimal (n : nat) : string := NilEmpty.string_of_uint (Nat.to_uint n).

(** [fmt.Errorf("Worker #%d panicked: %s", n, r)], the error the deferred
    function of worker [n] sends on [ec]. *)
Definition worker_panicked (n : nat) (r : string) : error :=
  ("Worker #" ++ decimal n ++ " panicked: " ++ r)%string.

(** [fmt.Errorf("Spawner panicked: %s", r)], the error the deferred
    function of the spawner sends on [done]. *)
Definition spawner_panicked (r : string) : error :=
  ("Spawner panicked: " ++ r)%string.

Arguments decimal : simpl never.
Arguments worker_panicked : simpl never.
Arguments spawner_panicked : simpl never.

(** How a downloader ends. *)
Inductive outcome : Type :=
| ReturnsNil
| ReturnsErr (e : error)
| Panics (r : string).

(** A downloader, by what it does when run: the paths it reports through
    its reporter (each one a send on [got]), then how it ends. *)
Record Downloader : Type := mkDownloader {
  saves : list string;
  ending : outcome
}.

Inductive zip_outcome : Type := ZipOk | ZipErr (e : error).

(** One invocation of [Download]. *)
Record run_config : Type := mkConfig {
  (** the worker cap and the zip flag, after the special options *)
  maxWorkers : Z;
  zipit : bool;
  (** a panic before the loop is entered: a special option of the wrong
      type, [ErrNilGenerator], or a panic of the plugin in
      [DownloadGenerator] or the first [dlgen()] *)
  setup_panic : option string;
  (** the downloaders [dlgen] yields, one a call *)
  downloaders : list Downloader;
  (** what the call of [dlgen] after the last of them does: it returns
      [nil], or it panics with this value, in the spawner, at
      [next = dlgen()]; when there is no downloader that call is the
      first one, which [Download] makes itself before it starts the
      spawner, and a panic of it is a [setup_panic] *)
  generator_panic : option string;
  (** what [ZipDownloads] returns if it is called *)
  zip : zip_outcome;
  (** whether the plugin's [Cleanup] returns (rather than panics) on an
      argument *)
  cleanup_returns : option error -> bool
}.

Inductive main_pc : Type :=
| MStart
| MLoop
| MReturned (paths : list string) (err : option error)
| MPanicked (r : string).

Inductive spawner_pc : Type :=
| SIdle                        (* the goroutine has not been started *)
| SLoop                        (* at the [select] of the loop, [next != nil] *)
| SWait                        (* at [wg.Wait()] *)
| SSend (m : option error)     (* at a send on [done] *)
| SExit.

Inductive worker_pc : Type :=
| WRun                         (* the downloader is running *)
| WErr (e : error)             (* it failed; at the send on [ec] *)
| WFree                        (* it returned nil; at the receive that frees the slot *)
| WDone                        (* finished, slot freed *)
| WFailed.                     (* finished after an error, slot never freed *)

Record worker : Type := mkWorker {
  todo : list string;          (* paths still to report *)
  wend : outcome;
  wpc : worker_pc
}.

Record state : Type := mkState {
  main : main_pc;
  paths : list string;                 (* [dm.paths] *)
  cleanups : list (option error);      (* arguments of the calls of [Cleanup], in order *)
  spawner : spawner_pc;
  remaining : list Downloader;         (* [next] and what [dlgen] has yet to yield *)
  dlCount : nat;
  workers : list worker;               (* worker [n] is element [n] *)
  limiter : nat;                       (* [len(workerLimiter)] *)
  ec : list error;
  got : list string;
  interrupt : bool                     (* a signal is waiting in [interrupt] *)
}.

Definition initial (cfg : run_config) : state :=
  mkState MStart [] [] SIdle (downloaders cfg) 0 [] 0 [] [] false.

Definition set_main (s : state) (m : main_pc) : state :=
  mkState m (paths s) (cleanups s) (spawner s) (remaining s) (dlCount s)
          (workers s) (limiter s) (ec s) (got s) (interrupt s).

Definition log_cleanup (s : state) (arg : option error) : state :=
  mkState (main s) (paths s) (cleanups s ++ [arg]) (spawner s) (remaining s)
          (dlCount s) (workers s) (limiter s) (ec s) (got s) (interrupt s).

Definition set_spawner (s : state) (p : spawner_pc) : state :=
  mkState (main s) (paths s) (cleanups s) p (remaining s) (dlCount s)
          (workers s) (limiter s) (ec s) (got s) (interrupt s).

Definition set_worker (s : state) (n : nat) (w : worker) : state :=
  mkState (main s) (paths s) (cleanups s) (spawner s) (remaining s) (dlCount s)
          (store (workers s) n w) (limiter s) (ec s) (got s) (interrupt s).

(** The deferred function of [Download] after a panic with value [r]:
    [Cleanup(fmt.Errorf("%v", r))], then [panic(r)]. *)
Definition recovered (s : state) (r : string) : state :=
  set_main (log_cleanup s (Some r)) (MPanicked r).

(** [dm.plugin.Cleanup(arg)] followed by [return ps, arg]; a panic inside
    [Cleanup] reaches the deferred function. *)
Definition cleanup_and_return (cfg : run_config) (s : state)
  (arg : option error) (ps : list string) : state :=
  let s := log_cleanup s arg in
  if cleanup_returns cfg arg
  then set_main s (MReturned ps arg)
  else recovered s "Cleanup panicked"%string.

(** Capacity of a channel made with [make(chan T, maxWorkers)]. *)
Definition cap (cfg : run_config) : nat := Z.to_nat (maxWorkers cfg).

Inductive label : Type :=
| Signal                (* the process receives an interrupt *)
| Setup                 (* [Download] up to the start of the spawner *)
| MainInterrupt         (* the main loop takes [<-interrupt] *)
| MainDone              (* the main loop takes [<-done], the spawner's send *)
| MainGot               (* the main loop takes [<-got] *)
| SpawnerError          (* the spawner takes [<-ec] in its loop *)
| SpawnerSpawn          (* the spawner gets a slot and starts a worker *)
| SpawnerWaited         (* [wg.Wait()] returns and the spawner picks its message *)
| WorkerSave (n : nat)  (* worker [n] sends a path on [got] *)
| WorkerEnd (n : nat)   (* the downloader of worker [n] ends *)
| WorkerReport (n : nat) (* worker [n] sends its error on [ec] and finishes *)
| WorkerFree (n : nat). (* worker [n] frees its slot and finishes *)

Definition finished (w : worker) : bool :=
  match wpc w with WDone | WFailed => true | _ => false end.

Definition step (cfg : run_config) (l : label) (s : state) : option state :=
  match l with
  | Signal =>
    (* [signal.Notify] does not block: a signal is dropped when the
       channel, of capacity 1, is full *)
    Some (mkState (main s) (paths s) (cleanups s) (spawner s) (remaining s)
                  (dlCount s) (workers s) (limiter s) (ec s) (got s) true)
  | Setup =>
    match main s with
    | MStart =>
      match setup_panic cfg with
      | Some r => Some (recovered s r)
      | None =>
        if maxWorkers cfg <? 0
        then (* [make(chan string, maxWorkers)] panics *)
             Some (recovered s "makechan: size out of range"%string)
        else Some (set_spawner (set_main s MLoop)
                     (match remaining s with [] => SWait | _ => SLoop end))
      end
    | _ => None
    end
  | MainInterrupt =>
    match main s, interrupt s with
    | MLoop, true =>
      let s := mkState (main s) (paths s) (cleanups s) (spawner s) (remaining s)
                       (dlCount s) (workers s) (limiter s) (ec s) (got s) false in
      Some (cleanup_and_return cfg s (Some ErrInterrupted) [])
    | _, _ => None
    end
  | MainDone =>
    match main s, spawner s with
    | MLoop, SSend m =>
      let s := set_spawner s SExit in
      match m with
      | Some err => Some (cleanup_and_return cfg s (Some err) [])
      | None =>
        if zipit cfg
        then match zip cfg with
             | ZipErr err => Some (cleanup_and_return cfg s (Some err) (paths s))
             | ZipOk => Some (cleanup_and_return cfg s None (paths s))
             end
        else Some (cleanup_and_return cfg s None (paths s))
      end
    | _, _ => None
    end
  | MainGot =>
    match main s, got s with
    | MLoop, path :: rest =>
      Some (mkState (main s) (paths s ++ [path]) (cleanups s) (spawner s)
                    (remaining s) (dlCount s) (workers s) (limiter s) (ec s)
                    rest (interrupt s))
    | _, _ => None
    end
  | SpawnerError =>
    match spawner s, ec s with
    | SLoop, err :: rest =>
      Some (mkState (main s) (paths s) (cleanups s) (SSend (Some err))
                    (remaining s) (dlCount s) (workers s) (limiter s) rest
                    (got s) (interrupt s))
    | _, _ => None
    end
  | SpawnerSpawn =>
    match spawner s, remaining s with
    | SLoop, dl :: rest =>
      if (limiter s <? cap cfg)%nat
      then (* the worker is started, then [next = dlgen()]: a panic there
              is recovered by the deferred function, which sends its
              error on [done] without waiting for the workers *)
           Some (mkState (main s) (paths s) (cleanups s)
                         (match rest with
                          | [] => match generator_panic cfg with
                                  | Some r => SSend (Some (spawner_panicked r))
                                  | None => SWait
                                  end
                          | _ => SLoop
                          end)
                         rest (S (dlCount s))
                         (workers s ++ [mkWorker (saves dl) (ending dl) WRun])
                         (S (limiter s)) (ec s) (got s) (interrupt s))
      else None
    | _, _ => None
    end
  | SpawnerWaited =>
    match spawner s with
    | SWait =>
      if forallb finished (workers s)
      then match ec s with
           | err :: rest =>
             Some (mkState (main s) (paths s) (cleanups s) (SSend (Some err))
                           (remaining s) (dlCount s) (workers s) (limiter s) rest
                           (got s) (interrupt s))
           | [] =>
             Some (set_spawner s
                     (SSend (if (dlCount s =? 0)%nat
                             then Some ErrNoDownloaders else None)))
           end
      else None
    | _ => None
    end
  | WorkerSave n =>
    match nth_error (workers s) n with
    | Some (mkWorker (path :: rest) e WRun) =>
      if (List.length (got s) <? cap cfg)%nat
      then Some (mkState (main s) (paths s) (cleanups s) (spawner s) (remaining s)
                         (dlCount s) (store (workers s) n (mkWorker rest e WRun))
                         (limiter s) (ec s) (got s ++ [path]) (interrupt s))
      else None
    | _ => None
    end
  | WorkerEnd n =>
    match nth_error (workers s) n with
    | Some (mkWorker [] e WRun) =>
      Some (set_worker s n
              (mkWorker [] e
                 match e with
                 | ReturnsNil => WFree
                 | ReturnsErr err => WErr err
                 | Panics r => WErr (worker_panicked n r)
                 end))
    | _ => None
    end
  | WorkerReport n =>
    match nth_error (workers s) n with
    | Some (mkWorker t e (WErr err)) =>
      if (List.length (ec s) <? cap cfg)%nat
      then Some (mkState (main s) (paths s) (cleanups s) (spawner s) (remaining s)
                         (dlCount s) (store (workers s) n (mkWorker t e WFailed))
                         (limiter s) (ec s ++ [err]) (got s) (interrupt s))
      else None
    | _ => None
    end
  | WorkerFree n =>
    match nth_error (workers s) n with
    | Some (mkWorker t e WFree) =>
      match limiter s with
      | S k =>
        Some (mkState (main s) (paths s) (cleanups s) (spawner s) (remaining s)
                      (dlCount s) (store (workers s) n (mkWorker t e WDone))
                      k (ec s) (got s) (interrupt s))
      | O => None
      end
    | _ => None
    end
  end.

(** The states of a run. *)
Inductive reachable (cfg : run_config) : state -> Prop :=
| reach_initial : reachable cfg (initial cfg)
| reach_step l s s' :
    reachable cfg s -> step cfg l s = Some s' -> reachable cfg s'.

(** Running a schedule from a state. *)
Fixpoint run (cfg : run_config) (ls : list label) (s : state) : option state :=
  match ls with
  | [] => Some s
  | l :: t => match step cfg l s with
              | Some s' => run cfg t s'
              | None => None
              end
  end.

Definition running (w : worker) : bool :=
  match wpc w with WRun => true | _ => false end.

(** A worker holds its slot of [workerLimiter] from its start until it
    frees it; a worker that fails never frees it. *)
Definition holds_slot (w : worker) : bool :=
  match wpc w with WDone => false | _ => true end.

Definition failed (w : worker) : bool :=
  match wpc w with WFailed => true | _ => false end.

Definition done_ok (w : worker) : bool :=
  match wpc w with WDone => true | _ => false end.

Definition count (f : worker -> bool) (ws : list worker) : nat :=
  List.length (filter f ws).

(** Downloaders in progress. *)
Definition in_progress (s : state) : nat := count running (workers s).

(** ** Invariants of a run *)

(** The semaphore counts the workers that hold a slot, and never exceeds
    its capacity. *)
Definition slots_inv (cfg : run_config) (s : state) : Prop :=
  limiter s = count holds_slot (workers s) /\ (limiter s <= cap cfg)%nat.

(** [Cleanup] has not been called while [Download] runs, and has been
    called once, with the error returned or the panic value, when it has
    exited (for a plugin whose [Cleanup] returns). *)
Definition cleanup_inv (s : state) : Prop :=
  match main s with
  | MStart | MLoop => cleanups s = []
  | MReturned _ err => cleanups s = [err]
  | MPanicked r => cleanups s = [Some r]
  end.

(** The spawner's books: errors sent and not yet taken are those of the
    failed workers; the message [nil] is sent only after every downloader
    was started and finished without error. *)
Definition all_ok (s : state) : Prop :=
  remaining s = [] /\ (1 <= dlCount s)%nat
  /\ forallb done_ok (workers s) = true.

Definition books_inv (cfg : run_config) (s : state) : Prop :=
  dlCount s = List.length (workers s)
  /\ (main s = MStart -> spawner s = SIdle)
  /\ match spawner s with
     | SIdle | SLoop => count failed (workers s) = List.length (ec s)
     | SWait => count failed (workers s) = List.length (ec s) /\ remaining s = []
     | SSend None => all_ok s
     | _ => True
     end
  /\ forall ps, main s = MReturned ps None ->
       all_ok s /\ (zipit cfg = true -> zip cfg = ZipOk).


(** ** The runs used as examples *)

(** One worker slot, one downloader that saves nothing and returns nil. *)
Definition quiet_run : run_config :=
  mkConfig 1 false None [mkDownloader [] ReturnsNil] None ZipOk (fun _ => true).


(** A plugin whose [Cleanup] panics, as BookWalker's does when the logout
    request fails. *)
Definition cleanup_panic_run : run_config :=
  mkConfig 1 false None [mkDownloader [] ReturnsNil] None ZipOk (fun _ => false).

(** ** What the further properties of a run are stated with *)

(** The paths that were or will be sent on [got] and that the main loop
    has not received: those in the channel, those a started worker has
    yet to send, and those of the downloaders not yet started. *)
Definition in_flight (s : state) : list string :=
  got s ++ flat_map todo (workers s) ++ flat_map saves (remaining s).

(** A worker at its send on [ec]. *)
Definition at_err (w : worker) : bool :=
  match wpc w with WErr _ => true | _ => false end.

(** A worker whose downloader failed: it never frees its slot. *)
Definition stuck (w : worker) : bool :=
  match wpc w with WErr _ | WFailed => true | _ => false end.

(** The error worker [n] sends on [ec] for the way its downloader ended. *)
Definition reported (n : nat) (o : outcome) : option error :=
  match o with
  | ReturnsNil => None
  | ReturnsErr e => Some e
  | Panics r => Some (worker_panicked n r)
  end.

(** [e] is what some downloader of the run makes its worker report:
    downloader [n] is run by worker [n]. *)
Definition worker_error (cfg : run_config) (e : error) : Prop :=
  exists n d, nth_error (downloaders cfg) n = Some d
              /\ reported n (ending d) = Some e.

(** [e] is the error made of a panic of the generator in the spawner. *)
Definition spawner_error (cfg : run_config) (e : error) : Prop :=
  exists r, generator_panic cfg = Some r /\ e = spawner_panicked r.

(** The downloaders started so far are a prefix of those of the run, and
    worker [n] runs downloader [n]. *)
Definition started_inv (cfg : run_config) (s : state) : Prop :=
  exists pre,
    downloaders cfg = pre ++ remaining s
    /\ map wend (workers s) = map ending pre.

(** Every error on its way to the main loop comes from a downloader, or
    is the spawner's own: for a plugin without downloaders, or for a panic
    of the generator. *)
Definition errors_inv (cfg : run_config) (s : state) : Prop :=
  Forall (worker_error cfg) (ec s)
  /\ (forall n w e, nth_error (workers s) n = Some w -> wpc w = WErr e ->
        worker_error cfg e)
  /\ (forall e, spawner s = SSend (Some e) ->
        worker_error cfg e
        \/ (e = ErrNoDownloaders /\ downloaders cfg = [])
        \/ spawner_error cfg e)
  /\ (forall ps e, main s = MReturned ps (Some e) ->
        e = ErrInterrupted
        \/ (e = ErrNoDownloaders /\ downloaders cfg = [])
        \/ (zipit cfg = true /\ zip cfg = ZipErr e)
        \/ worker_error cfg e
        \/ spawner_error cfg e).

(** With no worker slot nothing is ever started. *)
Definition idle_inv (cfg : run_config) (s : state) : Prop :=
  workers s = [] /\ ec s = [] /\ remaining s = downloaders cfg
  /\ match spawner s with SIdle | SLoop => True | _ => False end
  /\ forall ps err, main s = MReturned ps err -> err = Some ErrInterrupted.

(** What the main loop holds and what is in flight make up what the
    downloaders save; a worker that has ended has sent all its paths; the
    list returned without an error is [dm.paths]. *)
Definition paths_inv (cfg : run_config) (s : state) : Prop :=
  Permutation (paths s ++ in_flight s) (flat_map saves (downloaders cfg))
  /\ Forall (fun w => running w = false -> todo w = []) (workers s)
  /\ forall ps, main s = MReturned ps None -> ps = paths s.

(** An error waiting in [ec] was sent by a worker that failed, and a
    worker at its send has yet to add its own. *)
Definition reports_inv (s : state) : Prop :=
  (List.length (ec s) + count at_err (workers s) <= count stuck (workers s))%nat.

(** One worker slot or more, one downloader that saves [path] and returns
    nil, no packaging. *)
Definition one_page_run (maxWorkers : Z) (path : string) : run_config :=
  mkConfig maxWorkers false None [mkDownloader [path] ReturnsNil] None ZipOk
           (fun _ => true).

(** One worker slot, one downloader that saves nothing and returns nil;
    the second call of the generator panics. *)
Definition generator_panic_run : run_config :=
  mkConfig 1 false None [mkDownloader [] ReturnsNil] (Some "no session"%string)
           ZipOk (fun _ => true).

(** One worker slot, one downloader that saves nothing and fails. *)
Definition failing_run : run_config :=
  mkConfig 1 false None [mkDownloader [] (ReturnsErr "HTTP 403"%string)] None
           ZipOk (fun _ => true).

(** ** Progress of a run *)



(** The steps of a schedule, arrivals of signals apart. *)
Definition acts (ls : list label) : nat :=
  List.length (filter (fun l => match l with Signal => false | _ => true end) ls).

(** A bound on the steps a state has before it: each goroutine counts for
    the places it has yet to pass, each path for its send and its receipt,
    each downloader not yet started for the steps of its worker and its
    start. *)
Definition main_steps (m : main_pc) : nat :=
  match m with
  | MStart => 5
  | MLoop => 1
  | _ => 0
  end.

Definition spawner_steps (p : spawner_pc) : nat :=
  match p with
  | SIdle | SLoop => 3
  | SWait => 2
  | SSend _ => 1
  | SExit => 0
  end.

Definition worker_steps (w : worker) : nat :=
  2 * List.length (todo w)
  + match wpc w with
    | WRun => 2
    | WErr _ | WFree => 1
    | _ => 0
    end.

Definition downloader_steps (d : Downloader) : nat := 2 * List.length (saves d) + 3.

Definition steps_left (s : state) : nat :=
  main_steps (main s) + spawner_steps (spawner s)
  + list_sum (map worker_steps (workers s))
  + list_sum (map downloader_steps (remaining s))
  + List.length (got s).


End Manager.

(* ================================================================== *)
(** * Writing and packing the files ([downloadmanager.go])              *)
(* ================================================================== *)

(** [IOController.Write], [DownloadReporter.copy], [assertValidPath] and
    the grouping of the saved paths at the start of [ZipDownloads].  Paths
    are taken with the separator [/] ([os.PathSeparator] outside Windows). *)
Module Reporter.
Import Go.

Definition error : Type := string.

Definition ErrNotRelative : error :=
  "Plugin did not return a relative file path."%string.
Definition ErrNoParent : error :=
  "Plugin returned a file path without a parent directory."%string.
Definition ErrNotFile : error :=
  "Plugin did not return the path to a file, but a directory."%string.
(** [io.ErrShortWrite]. *)
Definition ErrShortWrite : error := "short write"%string.

(** ** [IOController] and [copy] *)

(** What the successive calls of [src.Read(buf)] return, up to the first
    one with a non-nil error: [Then chunk rest] is a call that stores
    [chunk] in the buffer and returns [len(chunk), nil], [Last chunk er] one
    that returns [len(chunk), er] with [er] the value [io.EOF] or another
    error.  [copy] never calls [Read] after that.  A reader that returns nil
    for ever keeps [copy] in its loop and has no description here. *)
Inductive read_end : Type :=
| EOF
| Failed (e : error).

Inductive source : Type :=
| Last (chunk : list Z) (er : read_end)
| Then (chunk : list Z) (rest : source).

(** All the bytes the reads of a source deliver, and their number. *)
Fixpoint data (src : source) : list Z :=
  match src with
  | Last chunk _ => chunk
  | Then chunk rest => chunk ++ data rest
  end.

Definition total (src : source) : Z := Z.of_nat (List.length (data src)).

Fixpoint chunks (src : source) : list (list Z) :=
  match src with
  | Last chunk _ => [chunk]
  | Then chunk rest => chunk :: chunks rest
  end.

Fixpoint end_of (src : source) : read_end :=
  match src with
  | Last _ er => er
  | Then _ rest => end_of rest
  end.

(** The error [copy] returns after a source read to its end. *)
Definition end_error (er : read_end) : option error :=
  match er with EOF => None | Failed e => Some e end.

Section Copy.

(** The state of all that the callbacks and the destination act on (the
    file written to, the progress bar). *)
Variable World : Type.

Definition IODataHandler : Type := list Z -> World -> option error * World.
(** [io.Writer]: [Write(p)] returns [n] and [err]. *)
Definition Writer : Type := list Z -> World -> (Z * option error) * World.

Record IOController : Type := mkIOController {
  (** the embedded [io.Writer], which may be nil *)
  writer : option Writer;
  dataCallbacks : list IODataHandler
}.

Definition RegisterDataCallback (ioctrl : IOController) (cb : IODataHandler)
  : IOController :=
  mkIOController (writer ioctrl) (dataCallbacks ioctrl ++ [cb]).

(** The loop [for _, cb := range ioctrl.dataCallbacks]: it ends at the
    first callback that returns an error. *)
Fixpoint run_callbacks (cbs : list IODataHandler) (p : list Z) (w : World)
  : option error * World :=
  match cbs with
  | [] => (None, w)
  | cb :: rest =>
    match cb p w with
    | (Some err, w) => (Some err, w)
    | (None, w) => run_callbacks rest p w
    end
  end.

Definition Write (ioctrl : IOController) (p : list Z) (w : World)
  : (Z * option error) * World :=
  match run_callbacks (dataCallbacks ioctrl) p w with
  | (Some err, w) => ((0, Some err), w)
  | (None, w) =>
    match writer ioctrl with
    | Some wr => wr p w
    | None => ((Z.of_nat (List.length p), None), w)
    end
  end.

Record DownloadReporter : Type := mkDownloadReporter {
  reportCallback : IODataHandler;
  callbacks : list IODataHandler
}.

(** The controller [copy] wraps [dst] in. *)
Definition controller (dr : DownloadReporter) (dst : option Writer) (report : bool)
  : IOController :=
  let ioctrl := mkIOController dst [] in
  let ioctrl := fold_left RegisterDataCallback (callbacks dr) ioctrl in
  if report then RegisterDataCallback ioctrl (reportCallback dr) else ioctrl.

(** [len(buf)] for [buf := make([]byte, 4*1024)]. *)
Definition bufSize : Z := 4 * 1024.

(** The part of the loop body under [if nr > 0]: the new value of
    [written] and the error the loop breaks with, if any.  A reader that
    returns more than the buffer holds makes [buf[0:nr]] panic. *)
Definition write_chunk (ioctrl : IOController) (chunk : list Z) (written : Z)
  (w : World) : result (Z * option error * World) :=
  let nr := Z.of_nat (List.length chunk) in
  if 0 <? nr
  then if bufSize <? nr
       then Panic (PanicValue "slice bounds out of range")
       else
         let '((nw, ew), w) := Write ioctrl chunk w in
         let written := if 0 <? nw then add written nw else written in
         match ew with
         | Some e => Ok (written, Some e, w)
         | None =>
           if negb (nr =? nw) then Ok (written, Some ErrShortWrite, w)
           else Ok (written, None, w)
         end
  else Ok (written, None, w).

(** The loop [for { nr, er := src.Read(buf) ... }]. *)
Fixpoint copy_loop (ioctrl : IOController) (src : source) (written : Z)
  (w : World) : result ((Z * option error) * World) :=
  match src with
  | Last chunk er =>
    r <- write_chunk ioctrl chunk written w ;;
    let '(written, brk, w) := r in
    match brk with
    | Some e => Ok ((written, Some e), w)
    | None => Ok ((written, end_error er), w)
    end
  | Then chunk rest =>
    r <- write_chunk ioctrl chunk written w ;;
    let '(written, brk, w) := r in
    match brk with
    | Some e => Ok ((written, Some e), w)
    | None => copy_loop ioctrl rest written w
    end
  end.

Definition copy (dr : DownloadReporter) (dst : option Writer) (src : source)
  (report : bool) (w : World) : result ((Z * option error) * World) :=
  copy_loop (controller dr dst report) src 0 w.

(** [Copy] is [copy] with reporting. *)
Definition Copy (dr : DownloadReporter) (dst : option Writer) (src : source)
  (w : World) : result ((Z * option error) * World) :=
  copy dr dst src true w.

(** A destination that takes all it is given and keeps it in order, as a
    file does: [content] is what it holds. *)
Definition appends (content : World -> list Z) (wr : Writer) : Prop :=
  forall p w,
    fst (wr p w) = (Z.of_nat (List.length p), None)
    /\ content (snd (wr p w)) = content w ++ p.

(** A callback that leaves the destination alone. *)
Definition keeps (content : World -> list Z) (cb : IODataHandler) : Prop :=
  forall p w, content (snd (cb p w)) = content w.

(** A callback that never returns an error. *)
Definition accepts (cb : IODataHandler) : Prop :=
  forall p w, fst (cb p w) = None.

End Copy.

(** A destination kept as the list of bytes written, and callbacks that
    count the bytes reported. *)
Definition file_writer : Writer (list Z * Z) :=
  fun p w => ((Z.of_nat (List.length p), None), (fst w ++ p, snd w)).
Definition counting : IODataHandler (list Z * Z) :=
  fun p w => (None, (fst w, snd w + Z.of_nat (List.length p))).
Definition refusing (e : error) : IODataHandler (list Z * Z) :=
  fun p w => (Some e, w).

(** ** Paths *)

Definition IsPathSeparator (c : ascii) : bool := Ascii.eqb c "/".

(** [filepath.IsAbs]: the path starts with the separator. *)
Definition IsAbs (path : string) : bool :=
  match path with
  | String c _ => IsPathSeparator c
  | EmptyString => false
  end.

(** The loop of [filepath.Split], [for i >= 0 && !os.IsPathSeparator(path[i])
    { i-- }] entered with [i = n - 1]: the place of the last separator
    among the first [n] bytes, or -1. *)
Fixpoint lastSeparator (path : list ascii) (n : nat) : Z :=
  match n with
  | O => -1
  | S i =>
    match nth_error path i with
    | Some c => if IsPathSeparator c then Z.of_nat i else lastSeparator path i
    | None => lastSeparator path i
    end
  end.

(** [filepath.Split]: [path[:i+1]] and [path[i+1:]]. *)
Definition Split (path : string) : string * string :=
  let p := list_ascii_of_string path in
  let i := lastSeparator p (List.length p) in
  (string_of_list_ascii (firstn (Z.to_nat (i + 1)) p),
   string_of_list_ascii (skipn (Z.to_nat (i + 1)) p)).

Definition assertValidPath (path : string) : option error :=
  if IsAbs path then Some ErrNotRelative
  else
    let '(dir, file) := Split path in
    if String.eqb dir "" then Some ErrNoParent
    else if String.eqb file "" then Some ErrNotFile
    else None.

(** Bytes without a separator among them, and a string without one. *)
Definition sep_free (l : list ascii) : Prop :=
  Forall (fun c => IsPathSeparator c = false) l.

Fixpoint plain (s : string) : bool :=
  match s with
  | EmptyString => true
  | String c rest => negb (IsPathSeparator c) && plain rest
  end.

(** ** The grouping of [ZipDownloads] *)

(** [strings.TrimPrefix(s, prefix)]. *)
Fixpoint cutPrefix (s prefix : string) : option string :=
  match prefix, s with
  | EmptyString, _ => Some s
  | String p prefix, String c s => if Ascii.eqb c p then cutPrefix s prefix else None
  | String _ _, EmptyString => None
  end.

Definition TrimPrefix (s prefix : string) : string :=
  match cutPrefix s prefix with
  | Some rest => rest
  | None => s
  end.

(** [strings.Split(s, string(os.PathSeparator))]: the stretches of [s]
    between separators, one more than there are separators. *)
Fixpoint strings_Split (s : string) : list string :=
  match s with
  | EmptyString => [EmptyString]
  | String c rest =>
    if IsPathSeparator c then EmptyString :: strings_Split rest
    else match strings_Split rest with
         | h :: t => String c h :: t
         | [] => [String c EmptyString]
         end
  end.

(** [strings.Join(elems, string(os.PathSeparator))]. *)
Fixpoint strings_Join (elems : list string) : string :=
  match elems with
  | [] => EmptyString
  | [a] => a
  | a :: rest => a ++ "/" ++ strings_Join rest
  end.

(** [l[i:]] on a slice. *)
Definition slice_from {A : Type} (l : list A) (i : Z) : result (list A) :=
  if (0 <=? i) && (i <=? Z.of_nat (List.length l))
  then Ok (skipn (Z.to_nat i) l)
  else Panic (PanicValue "slice bounds out of range").

(** The map [files], from a top-level directory to its files: the keys in
    the order they were first stored under (the order in which Go ranges
    over a map is not fixed, and nothing below depends on it). *)
Definition file_map : Type := list (string * list string).

(** [files[dir]]: nil for a directory the map does not hold. *)
Fixpoint lookup (files : file_map) (dir : string) : list string :=
  match files with
  | [] => []
  | (d, fs) :: rest => if String.eqb d dir then fs else lookup rest dir
  end.

(** [files[dir] = v]. *)
Fixpoint store_key (files : file_map) (dir : string) (v : list string) : file_map :=
  match files with
  | [] => [(dir, v)]
  | (d, fs) :: rest =>
    if String.eqb d dir then (d, v) :: rest
    else (d, fs) :: store_key rest dir v
  end.

(** [files[dir] = append(files[dir], file)]. *)
Definition append_file (files : file_map) (dir file : string) : file_map :=
  store_key files dir (lookup files dir ++ [file]).

(** The body of [for _, file := range dm.paths]. *)
Definition group_file (directory : string) (files : file_map) (file : string)
  : result file_map :=
  let split := strings_Split (TrimPrefix file directory) in
  top <- index split 0 ;;
  rest <- slice_from split 1 ;;
  Ok (append_file files top (strings_Join rest)).

Definition group_files (directory : string) (paths : list string) : result file_map :=
  Loop.foldM (group_file directory) paths [].

(** The first component of a path, what is below it, and the paths of a
    list that lie under a given first component. *)
Definition top_of (s : string) : string := hd EmptyString (strings_Split s).
Definition below (s : string) : string := strings_Join (tl (strings_Split s)).
Definition under (dir : string) (paths : list string) : list string :=
  filter (fun t => String.eqb (top_of t) dir) paths.

End Reporter.
(* ================================================================== *)
(** * Properties                                                        *)
(* ================================================================== *)

Import Go.

Section BitBounds.

Lemma lor_bound (n a b : Z) :
  0 <= n -> 0 <= a < 2 ^ n -> 0 <= b < 2 ^ n -> 0 <= Z.lor a b < 2 ^ n.
Proof.
  intros Hn Ha Hb. split; [apply Z.lor_nonneg; lia|].
  destruct (Z.eq_dec (Z.lor a b) 0) as [E|E]; [rewrite E; lia|].
  assert (0 < n).
  { destruct (Z.eq_dec n 0) as [->|]; [|lia].
    assert (a = 0) by lia. assert (b = 0) by lia. subst. now elim E. }
  apply Z.log2_lt_pow2; [pose proof (proj2 (Z.lor_nonneg a b)); lia|].
  rewrite Z.log2_lor by lia.
  apply Z.max_lub_lt.
  - destruct (Z.eq_dec a 0) as [->|]; [simpl; lia|]. apply Z.log2_lt_pow2; lia.
  - destruct (Z.eq_dec b 0) as [->|]; [simpl; lia|]. apply Z.log2_lt_pow2; lia.
Qed.

Lemma lxor_bound (n a b : Z) :
  0 <= n -> 0 <= a < 2 ^ n -> 0 <= b < 2 ^ n -> 0 <= Z.lxor a b < 2 ^ n.
Proof.
  intros Hn Ha Hb. split; [apply Z.lxor_nonneg; lia|].
  destruct (Z.eq_dec (Z.lxor a b) 0) as [E|E]; [rewrite E; lia|].
  assert (0 < n).
  { destruct (Z.eq_dec n 0) as [->|]; [|lia].
    assert (a = 0) by lia. assert (b = 0) by lia. subst. now elim E. }
  apply Z.log2_lt_pow2; [pose proof (proj2 (Z.lxor_nonneg a b)); lia|].
  eapply Z.le_lt_trans; [apply Z.log2_lxor; lia|].
  apply Z.max_lub_lt.
  - destruct (Z.eq_dec a 0) as [->|]; [simpl; lia|]. apply Z.log2_lt_pow2; lia.
  - destruct (Z.eq_dec b 0) as [->|]; [simpl; lia|]. apply Z.log2_lt_pow2; lia.
Qed.

Lemma land_mask_bound (x n : Z) : 0 <= n -> 0 <= Z.land x (Z.ones n) < 2 ^ n.
Proof. intros Hn. rewrite Z.land_ones by lia. apply Z.mod_pos_bound. lia. Qed.

Lemma shiftl_bound (x k n : Z) :
  0 <= k -> 0 <= n -> 0 <= x < 2 ^ n -> 0 <= Z.shiftl x k < 2 ^ (n + k).
Proof.
  intros Hk Hn Hx. rewrite Z.shiftl_mul_pow2 by lia. rewrite Z.pow_add_r by lia.
  assert (0 < 2 ^ k) by lia. nia.
Qed.

End BitBounds.

Section Utf8.

Lemma byte_val_range (c : ascii) : is_byte (byte_val c).
Proof.
  unfold is_byte, byte_val. pose proof (N_ascii_bounded c). lia.
Qed.

Lemma bytes_of_range (s : string) : Forall is_byte (bytes_of s).
Proof.
  unfold bytes_of. apply Forall_forall. intros b Hb.
  apply in_map_iff in Hb. destruct Hb as (c & <- & _). apply byte_val_range.
Qed.

Lemma bytes_of_length (s : string) : List.length (bytes_of s) = String.length s.
Proof.
  unfold bytes_of. rewrite length_map.
  induction s as [|c s IH]; simpl; [reflexivity|now rewrite IH].
Qed.

Lemma maskx_range (b : Z) : 0 <= maskx b < 2 ^ 6.
Proof. unfold maskx. change 0x3F with (Z.ones 6). now apply land_mask_bound. Qed.

Ltac rune_bits :=
  repeat match goal with
  | |- 0 <= Z.lor _ _ < 2 ^ 21 => apply lor_bound; [lia| |]
  | |- 0 <= maskx ?b < 2 ^ 21 => pose proof (maskx_range b); lia
  | |- 0 <= Z.shiftl (maskx ?b) ?k < 2 ^ 21 =>
      pose proof (shiftl_bound (maskx b) k 6 ltac:(lia) ltac:(lia) (maskx_range b));
      simpl in *; lia
  | |- 0 <= Z.shiftl (Z.land ?b (Z.ones ?m)) ?k < 2 ^ 21 =>
      pose proof (shiftl_bound (Z.land b (Z.ones m)) k m ltac:(lia) ltac:(lia)
                    (land_mask_bound b m ltac:(lia)));
      simpl in *; lia
  end.

Lemma decodeRune_rune (s : list Z) :
  Forall is_byte s -> is_rune (fst (decodeRune s)).
Proof.
  intros Hs. unfold is_rune.
  destruct s as [|s0 t]; [simpl; unfold RuneError; lia|].
  assert (H0 : is_byte s0) by now inversion Hs.
  unfold is_byte in H0. unfold decodeRune.
  destruct (s0 <? 0x80) eqn:E0; [simpl; lia|].
  destruct (first s0) as [[[sz lo] hi]|]; [|simpl; unfold RuneError; lia].
  destruct (_ <? sz)%nat; [simpl; unfold RuneError; lia|].
  destruct t as [|s1 t1]; [simpl; unfold RuneError; lia|].
  destruct (_ || _); [simpl; unfold RuneError; lia|].
  destruct (sz <=? 2)%nat.
  { cbn [fst]. change 0x1F with (Z.ones 5). rune_bits. }
  destruct t1 as [|s2 t2]; [simpl; unfold RuneError; lia|].
  destruct (negb (is_cont s2)); [simpl; unfold RuneError; lia|].
  destruct (sz <=? 3)%nat.
  { cbn [fst]. change 0x0F with (Z.ones 4). rune_bits. }
  destruct t2 as [|s3 t3]; [simpl; unfold RuneError; lia|].
  destruct (negb (is_cont s3)); [simpl; unfold RuneError; lia|].
  cbn [fst]. change 0x07 with (Z.ones 3). rune_bits.
Qed.

Lemma decodeRune_ascii (b : Z) (t : list Z) :
  (b <? 0x80) = true -> decodeRune (b :: t) = (b, 1%nat).
Proof. intros H. unfold decodeRune. now rewrite H. Qed.

Lemma range_from_spec (s : list Z) :
  Forall is_byte s ->
  forall skip i0 i r, In (i, r) (range_from skip i0 s) -> i0 <= i /\ is_rune r.
Proof.
  induction s as [|b t IH]; intros Hs skip i0 i r Hin; [now simpl in Hin|].
  assert (Ht : Forall is_byte t) by now inversion Hs.
  cbn [range_from] in Hin. destruct skip as [|k].
  - destruct (decodeRune (b :: t)) as [r0 sz] eqn:E.
    destruct Hin as [Hin|Hin].
    + inversion Hin; subst. split; [lia|].
      pose proof (decodeRune_rune (b :: t) Hs) as Hr. now rewrite E in Hr.
    + apply (IH Ht) in Hin. split; [lia|tauto].
  - apply (IH Ht) in Hin. split; [lia|tauto].
Qed.

Lemma range_from_length (s : list Z) :
  forall skip i0, (List.length (range_from skip i0 s) <= List.length s)%nat.
Proof.
  induction s as [|b t IH]; intros skip i0; [simpl; lia|].
  cbn [range_from]. destruct skip as [|k].
  - destruct (decodeRune (b :: t)) as [r0 sz]. simpl.
    specialize (IH (Nat.pred sz) (i0 + 1)). lia.
  - specialize (IH k (i0 + 1)). simpl. lia.
Qed.

Lemma range_from_ascii (s : list Z) :
  forallb (fun b => b <? 0x80) s = true ->
  forall i0, map snd (range_from 0 i0 s) = s.
Proof.
  induction s as [|b t IH]; intros Hs i0; [reflexivity|].
  simpl in Hs. apply andb_true_iff in Hs. destruct Hs as [Hb Ht].
  cbn [range_from]. rewrite (decodeRune_ascii b t Hb). simpl.
  now rewrite (IH Ht).
Qed.

Lemma range_string_spec (s : string) (i r : Z) :
  In (i, r) (range_string s) -> 0 <= i /\ is_rune r.
Proof. apply range_from_spec, bytes_of_range. Qed.

Lemma runes_rune (s : string) : Forall is_rune (runes s).
Proof.
  apply Forall_forall. intros r Hr. unfold runes in Hr.
  apply in_map_iff in Hr. destruct Hr as ([i r'] & <- & Hin).
  now apply range_string_spec in Hin.
Qed.

Lemma runes_length (s : string) : List.length (runes s) = rune_count s.
Proof. unfold runes, rune_count. apply length_map. Qed.

Lemma rune_count_le (s : string) : (rune_count s <= String.length s)%nat.
Proof.
  unfold rune_count, range_string. rewrite <- bytes_of_length.
  apply range_from_length.
Qed.

Lemma runes_ascii (s : string) : is_ascii s = true -> runes s = bytes_of s.
Proof. intros H. unfold runes, range_string. now apply range_from_ascii. Qed.

Lemma rune_count_ascii (s : string) :
  is_ascii s = true -> rune_count s = String.length s.
Proof.
  intros H. rewrite <- runes_length, (runes_ascii s H). apply bytes_of_length.
Qed.

End Utf8.

Section CipherProofs.
Import Cipher.

Lemma decryptLoop_app (chars : list Z) :
  forall key buf, decryptLoop key chars buf = buf ++ decryptLoop key chars [].
Proof.
  induction chars as [|c rest IH]; intros key buf; simpl.
  - now rewrite app_nil_r.
  - rewrite (IH _ (buf ++ _)), (IH _ [_]). now rewrite app_assoc.
Qed.

Lemma decryptLoop_cons (key c : Z) (rest : list Z) :
  decryptLoop key (c :: rest) [] =
  outByte c (nextKey key) :: decryptLoop (nextKey key) rest [].
Proof. simpl. now rewrite decryptLoop_app. Qed.

Lemma decryptLoop_length (chars : list Z) :
  forall key, List.length (decryptLoop key chars []) = List.length chars.
Proof.
  induction chars as [|c rest IH]; intros key; [reflexivity|].
  rewrite decryptLoop_cons. simpl. now rewrite IH.
Qed.

Lemma decryptLoop_nth (chars : list Z) :
  forall key n,
    nth_error (decryptLoop key chars []) n =
    option_map (fun c => outByte c (Nat.iter (S n) nextKey key)) (nth_error chars n).
Proof.
  induction chars as [|c rest IH]; intros key n.
  - destruct n; reflexivity.
  - rewrite decryptLoop_cons. destruct n as [|n]; [reflexivity|].
    cbn [nth_error]. rewrite IH.
    destruct (nth_error rest n); [|reflexivity]. cbn [option_map].
    now rewrite (Nat.iter_succ_r (S n)).
Qed.

Lemma outByte_combine (c key : Z) : outByte c key = spec_combine c key.
Proof.
  unfold outByte, spec_combine, to_byte, add32, sub32, u32.
  rewrite Zminus_mod_idemp_l, Zplus_mod_idemp_l.
  set (x := (c - 32 + key) mod 2 ^ 32).
  assert (Hx : 0 <= x) by (apply Z.mod_pos_bound; lia).
  rewrite Z.rem_mod_nonneg by lia.
  pose proof (Z.mod_pos_bound x 94 ltac:(lia)).
  rewrite (Z.mod_small (x mod 94 + 32)) by lia.
  apply Z.mod_small. lia.
Qed.

Lemma spec_combine_range (c key : Z) : 0x20 <= spec_combine c key < 0x7E.
Proof.
  unfold spec_combine.
  pose proof (Z.mod_pos_bound ((c - 32 + key) mod 2 ^ 32) 94 ltac:(lia)). lia.
Qed.

Lemma nextKey_step (key : Z) : nextKey key = spec_step key.
Proof.
  unfold nextKey, spec_step, neg32, u32. f_equal.
  change 1 with (Z.ones 1) at 1. rewrite Z.land_ones by lia.
  change (2 ^ 1) with 2. rewrite Zmod_odd.
  destruct (Z.odd key); reflexivity.
Qed.

Lemma iter_ext {A : Type} (f g : A -> A) (H : forall x, f x = g x) (n : nat) (x : A) :
  Nat.iter n f x = Nat.iter n g x.
Proof. induction n as [|n IH]; simpl; [reflexivity|]. now rewrite IH, H. Qed.

(** A 32-bit accumulator that is reduced at every addition holds the
    reduced sum. *)
Lemma fold_add32 {A : Type} (g : A -> Z) (l : list A) :
  forall acc,
    fold_left (fun res x => add32 res (u32 (g x))) l (u32 acc) =
    u32 (acc + fold_right (fun x s => g x + s) 0 l).
Proof.
  induction l as [|x l IH]; intros acc; cbn [fold_left fold_right].
  - now rewrite Z.add_0_r.
  - replace (add32 (u32 acc) (u32 (g x))) with (u32 (acc + g x)).
    + rewrite IH. f_equal. lia.
    + unfold add32, u32. now rewrite Zplus_mod_idemp_l, Zplus_mod_idemp_r.
Qed.

Lemma makeKey_seed (cid k : string) : makeKey cid k = spec_seed cid k.
Proof.
  unfold makeKey, spec_seed.
  set (l := range_string (cid ++ ":" ++ k)).
  assert (Hl : forall ic, In ic l -> 0 <= fst ic).
  { intros [i r] Hin. now apply range_string_spec in Hin. }
  assert (E : fold_left
                (fun res ic => add32 res (shl32 (u32 (snd ic)) (Z.rem (fst ic) 16))) l 0 =
              (fold_right (fun ic acc => snd ic * 2 ^ (fst ic mod 16) + acc) 0 l) mod 2 ^ 32).
  { transitivity (fold_left
       (fun res ic => add32 res (u32 (snd ic * 2 ^ (fst ic mod 16)))) l 0).
    - clearbody l. generalize 0 as acc.
      induction l as [|[i r] l IH]; intros acc; [reflexivity|].
      cbn [fold_left]. rewrite IH by (intros; apply Hl; now right). f_equal. f_equal.
      assert (0 <= i) by (apply (Hl (i, r)); now left). cbn [fst snd].
      rewrite Z.rem_mod_nonneg by lia.
      pose proof (Z.mod_pos_bound i 16 ltac:(lia)).
      unfold shl32, u32. rewrite Z.shiftl_mul_pow2 by lia.
      now rewrite Zmult_mod_idemp_l.
    - change 0 with (u32 0) at 1.
      now rewrite (fold_add32 (fun ic => snd ic * 2 ^ (fst ic mod 16))). }
  rewrite E. destruct (_ =? 0); reflexivity.
Qed.

Lemma spec_seed_range (cid k : string) : 0 <= spec_seed cid k < 2 ^ 31.
Proof.
  unfold spec_seed. cbv zeta. change 0x7FFFFFFF with (Z.ones 31).
  match goal with |- context [Z.land ?a _] => pose proof (land_mask_bound a 31 ltac:(lia)) end.
  destruct (_ =? 0); lia.
Qed.

Lemma spec_step_range (s : Z) : 0 <= s < 2 ^ 31 -> 0 <= spec_step s < 2 ^ 31.
Proof.
  intros Hs. unfold spec_step. apply lxor_bound; [lia| |destruct (Z.odd s); lia].
  rewrite Z.shiftr_div_pow2 by lia. change (2 ^ 1) with 2.
  split; [apply Z.div_pos; lia|]. apply Z.div_lt_upper_bound; lia.
Qed.

Lemma spec_state_range (seed : Z) (n : nat) :
  0 <= seed < 2 ^ 31 -> 0 <= spec_state seed n < 2 ^ 31.
Proof.
  intros Hs. induction n as [|n IH]; [exact Hs|].
  unfold spec_state in *. simpl. now apply spec_step_range.
Qed.

End CipherProofs.

(** C1, as amended.  [decryptData] always returns (it never fails): one
    output byte per input character (code point, not byte), each in the
    printable range [0x20, 0x7E); the n-th byte is the combination, in
    32-bit unsigned arithmetic, of the n-th input character with the state
    after n+1 keystream steps from the seed the specification describes.
    For an ASCII input the character count is the byte length, and for an
    input character of code 0x20 or more the 32-bit sum does not wrap, so
    that the byte is [(in - 0x20 + state) mod 0x5E + 0x20]. *)
Theorem decryptData_spec (cid k data : string) :
  exists out,
    Cipher.decryptData cid k data = Ok out
    /\ List.length out = rune_count data
    /\ (is_ascii data = true -> List.length out = String.length data)
    /\ Forall (fun b => 0x20 <= b < 0x7E) out
    /\ Cipher.makeKey cid k = Cipher.spec_seed cid k
    /\ forall n inp,
         nth_error (runes data) n = Some inp ->
         let state := Cipher.spec_state (Cipher.spec_seed cid k) (S n) in
         nth_error out n = Some (Cipher.spec_combine inp state)
         /\ (0x20 <= inp ->
             Cipher.spec_combine inp state = (inp - 0x20 + state) mod 0x5E + 0x20).
Proof.
  unfold Cipher.decryptData. eexists. split; [reflexivity|].
  assert (L : List.length (Cipher.decryptLoop (Cipher.makeKey cid k) (runes data) [])
              = rune_count data).
  { now rewrite decryptLoop_length, runes_length. }
  split; [exact L|]. split.
  { intros Ha. now rewrite L, rune_count_ascii. }
  split.
  { apply Forall_forall. intros b Hb. apply In_nth_error in Hb. destruct Hb as [n Hn].
    rewrite decryptLoop_nth in Hn. destruct (nth_error (runes data) n); [|discriminate].
    cbn [option_map] in Hn. inversion Hn; subst b.
    rewrite outByte_combine. apply spec_combine_range. }
  split; [apply makeKey_seed|].
  intros n inp Hn.
  set (state := Cipher.spec_state (Cipher.spec_seed cid k) (S n)). split.
  - rewrite decryptLoop_nth, Hn. cbn [option_map]. rewrite outByte_combine.
    unfold state, Cipher.spec_state. rewrite makeKey_seed.
    now rewrite (iter_ext _ _ nextKey_step).
  - intros Hprint. unfold Cipher.spec_combine. f_equal. f_equal.
    assert (Hr : is_rune inp).
    { pose proof (runes_rune data) as HF. rewrite Forall_forall in HF.
      apply HF. eapply nth_error_In; eauto. }
    pose proof (spec_state_range (Cipher.spec_seed cid k) (S n) (spec_seed_range cid k)) as Hst.
    fold state in Hst. unfold is_rune in Hr. apply Z.mod_small. lia.
Qed.

Lemma decryptData_spec_witness :
  exists out,
    Cipher.decryptData "0000_1" "AAAAAAAAAAAAAAAAAAAAAAAAAAAAAAAA" "!!!" = Ok out
    /\ List.length out = 3%nat
    /\ nth_error out 0 = Some 104.
Proof.
  destruct (decryptData_spec "0000_1" "AAAAAAAAAAAAAAAAAAAAAAAAAAAAAAAA" "!!!")
    as (out & E & L & LA & _ & _ & N).
  exists out. split; [exact E|]. split; [exact (LA eq_refl)|].
  exact (proj1 (N 0%nat 33 eq_refl)).
Defined.

(** C1 as stated fails on both counts.  The two bytes [C3 A9] are one
    character, for which [decryptData] writes one byte; and for the
    character of code 0 under the empty [cid] and [k], where the state after
    one step is 29, the 32-bit difference [0 - 0x20 + 29] wraps and the code
    writes 71, where [(in - 0x20 + state) mod 0x5E + 0x20] is 123. *)
Lemma decryptData_counterexample :
  let two := String (ascii_of_nat 195) (String (ascii_of_nat 169) EmptyString) in
  let nul := String (ascii_of_nat 0) EmptyString in
  (exists out,
     Cipher.decryptData "" "" two = Ok out
     /\ List.length out = 1%nat
     /\ String.length two = 2%nat)
  /\ (exists out,
        Cipher.decryptData "" "" nul = Ok out
        /\ runes nul = [0]
        /\ Cipher.spec_state (Cipher.spec_seed "" "") 1 = 29
        /\ nth_error out 0 = Some 71
        /\ (0 - 0x20 + 29) mod 0x5E + 0x20 = 123).
Proof.
  split; eexists; (split; [vm_compute; reflexivity|]);
    repeat split; vm_compute; reflexivity.
Qed.

Section MachineInt.

Lemma wrap64_small (z : Z) : - 2 ^ 63 <= z < 2 ^ 63 -> wrap64 z = z.
Proof. intros H. unfold wrap64. rewrite Z.mod_small; lia. Qed.

Lemma wrap64_range (z : Z) : - 2 ^ 63 <= wrap64 z < 2 ^ 63.
Proof. unfold wrap64. pose proof (Z.mod_pos_bound (z + 2 ^ 63) (2 ^ 64)). lia. Qed.

Lemma upto_In (n z : Z) : In z (Loop.upto n) <-> 0 <= z < n.
Proof.
  unfold Loop.upto. rewrite in_map_iff. split.
  - intros (k & <- & Hk). apply in_seq in Hk. lia.
  - intros H. exists (Z.to_nat z). split; [lia|]. apply in_seq. lia.
Qed.

Lemma upto_length (n : Z) : List.length (Loop.upto n) = Z.to_nat n.
Proof. unfold Loop.upto. now rewrite length_map, length_seq. Qed.

End MachineInt.

Section RuneSums.

Lemma rune_sum_bound (l : list Z) :
  Forall is_rune l ->
  0 <= fold_right Z.add 0 l <= 2 ^ 21 * Z.of_nat (List.length l).
Proof.
  induction 1 as [|r l Hr _ IH]; [simpl; lia|].
  unfold is_rune in Hr. cbn [fold_right List.length]. lia.
Qed.

Lemma fold_add_exact (l : list Z) :
  Forall is_rune l ->
  forall acc, 0 <= acc -> acc + fold_right Z.add 0 l < 2 ^ 63 ->
  fold_left (fun res c => add res c) l acc = acc + fold_right Z.add 0 l.
Proof.
  induction 1 as [|r l Hr Hl IH]; intros acc Hacc Hsum; cbn [fold_left fold_right] in *.
  - lia.
  - pose proof (rune_sum_bound l Hl). unfold is_rune in Hr.
    unfold add at 2. rewrite wrap64_small by lia. rewrite IH; lia.
Qed.

End RuneSums.

Section BookWalkerProofs.
Import Img Loop Scramble BookWalker.

Lemma code_point_sum_bound (s : string) :
  0 <= code_point_sum s <= 2 ^ 21 * len s.
Proof.
  unfold code_point_sum, len.
  pose proof (rune_sum_bound (runes s) (runes_rune s)) as H.
  rewrite runes_length in H. pose proof (rune_count_le s). nia.
Qed.

Lemma getPattern_sum (filePath : string) :
  len filePath < 2 ^ 42 ->
  getPattern filePath = code_point_sum filePath mod 4 + 1.
Proof.
  intros Hlen. pose proof (code_point_sum_bound filePath) as Hb.
  unfold getPattern, patternCount.
  rewrite (fold_add_exact (runes filePath) (runes_rune filePath)) by (fold (code_point_sum filePath); lia).
  fold (code_point_sum filePath). rewrite Z.add_0_l.
  rewrite Z.rem_mod_nonneg by lia.
  pose proof (Z.mod_pos_bound (code_point_sum filePath) 4 ltac:(lia)).
  unfold add. apply wrap64_small. lia.
Qed.













End BookWalkerProofs.



Section BookWalkerDescramble.
Import Img Loop Scramble BookWalker.

Lemma rem_zero (a : Z) : rem a 0 = Panic DivideByZero.
Proof. reflexivity. Qed.

Lemma rem_nonzero (a b : Z) : b <> 0 -> rem a b = Ok (Z.rem a b).
Proof. intros H. unfold rem. apply Z.eqb_neq in H. now rewrite H. Qed.

Lemma anchor_zero (c pattern : Z) : anchor c 0 pattern = Panic DivideByZero.
Proof. reflexivity. Qed.

Lemma anchor_nonzero (c rects pattern : Z) :
  rects <> 0 -> exists i, anchor c rects pattern = Ok i.
Proof.
  intros H. unfold anchor.
  repeat (rewrite rem_nonzero by exact H; cbn [bind]).
  match goal with |- context [if ?c then _ else _] => destruct c end;
    cbn [bind]; eauto.
Qed.

Lemma generateRectangles_small (sw sh pattern : Z) :
  0 <= sw -> 0 <= sh -> sw < 64 \/ sh < 64 ->
  generateRectangles sw sh pattern = Panic DivideByZero.
Proof.
  intros Hw Hh Hs. unfold generateRectangles, rectangleWidth, rectangleHeight.
  destruct (Z_lt_dec sw 64) as [Hlt|Hge].
  - rewrite (Z.quot_small sw 64) by lia.
    replace (mul 0 (Z.quot sh 64)) with 0 by reflexivity. cbn [Z.ltb Z.compare bind].
    now rewrite anchor_zero.
  - assert (Hsh : sh < 64) by lia.
    rewrite (Z.quot_small sh 64) by lia.
    replace (mul (Z.quot sw 64) 0) with 0
      by (unfold mul; now rewrite Z.mul_0_r).
    cbn [Z.ltb Z.compare bind].
    assert (Hq : Z.quot sw 64 <> 0).
    { pose proof (Z.quot_le_lower_bound sw 64 1). lia. }
    destruct (anchor_nonzero jsd _ pattern Hq) as [i ->]. cbn [bind].
    now rewrite anchor_zero.
Qed.

Lemma RGBA_Set_Bounds (img : Image) (x y : Z) (c : Color) :
  Bounds (RGBA_Set img x y c) = Bounds img.
Proof. unfold RGBA_Set. now destruct (inside x y (Bounds img)). Qed.

Lemma fold_left_preserves {A S B : Type} (proj : S -> B) (f : S -> A -> S) :
  (forall s a, proj (f s a) = proj s) ->
  forall l s, proj (fold_left f l s) = proj s.
Proof.
  intros Hf l. induction l as [|a l IH]; intros s; [reflexivity|].
  simpl. now rewrite IH, Hf.
Qed.

Lemma blit_Bounds (img : Image) (rects : list scrambleRectangle) (res : Image) :
  Bounds (blit img rects res) = Bounds res.
Proof.
  unfold blit. apply fold_left_preserves. intros s r.
  apply fold_left_preserves. intros s' x.
  apply fold_left_preserves. intros s'' y. apply RGBA_Set_Bounds.
Qed.

Lemma store_length {A : Type} (l : list A) :
  forall i v, List.length (store l i v) = List.length l.
Proof.
  induction l as [|a l IH]; intros [|i] v; simpl; auto.
Qed.

Lemma store_In {A : Type} (l : list A) :
  forall i v x, In x (store l i v) -> x = v \/ In x l.
Proof.
  induction l as [|a l IH]; intros [|i] v x H; simpl in *; try tauto.
  - destruct H as [H|H]; auto.
  - destruct H as [H|H]; auto. apply IH in H. tauto.
Qed.

Lemma store_nth {A : Type} (l : list A) :
  forall i v, (i < List.length l)%nat -> nth_error (store l i v) i = Some v.
Proof.
  induction l as [|a l IH]; intros [|i] v H; simpl in *; try lia; auto.
  apply IH. lia.
Qed.

Lemma index_Ok {A : Type} (l : list A) (i : Z) (a : A) :
  index l i = Ok a ->
  0 <= i < Z.of_nat (List.length l) /\ nth_error l (Z.to_nat i) = Some a.
Proof.
  unfold index. destruct (0 <=? i) eqn:E1; [|discriminate].
  destruct (i <? _) eqn:E2; [|discriminate]. cbn [andb].
  destruct (nth_error l (Z.to_nat i)) eqn:E3; [|discriminate].
  intros H; inversion H; subst. split; [lia|reflexivity].
Qed.

Lemma index_in_range {A : Type} (l : list A) (i : Z) :
  0 <= i < Z.of_nat (List.length l) -> exists a, index l i = Ok a.
Proof.
  intros H. unfold index.
  replace (0 <=? i) with true by (symmetry; apply Z.leb_le; lia).
  replace (i <? _) with true by (symmetry; apply Z.ltb_lt; lia). cbn [andb].
  destruct (nth_error l (Z.to_nat i)) eqn:E; [eauto|].
  apply nth_error_None in E. lia.
Qed.

Section WithDecoder.
Variable Reader : Type.
Variable image_Decode : Reader -> result Image.

Lemma Descramble_cache_ok ds filename reader dw dh img ds' :
  cache_ok ds ->
  Descramble Reader image_Decode ds filename reader dw dh = Ok (img, ds') ->
  cache_ok ds'.
Proof.
  intros [HL HC] H. unfold Descramble in H.
  destruct (image_Decode reader) as [im| |]; try discriminate. cbn [bind] in H.
  destruct (index _ _) as [slot| |]; try discriminate. cbn [bind] in H.
  set (fresh := bind (generateRectangles _ _ _) _) in H.
  assert (HF : forall c d, fresh = Ok (c, d) -> cache_ok d).
  { intros c d. unfold fresh.
    destruct (generateRectangles _ _ _) as [rects| |] eqn:G; try discriminate.
    cbn [bind]. intros E; inversion E; subst. split.
    - cbn [rectangleCollections]. now rewrite store_length.
    - cbn [rectangleCollections]. intros col Hin. apply store_In in Hin.
      destruct Hin as [Hin|Hin]; [|now apply HC].
      inversion Hin; subst. cbn [srcWidth srcHeight].
      eexists. rewrite G. reflexivity. }
  destruct slot as [col|].
  - destruct (negb _ || negb _).
    + destruct fresh as [[c d]| |] eqn:E; try discriminate. cbn [bind] in H.
      inversion H; subst. eapply HF; eauto.
    + cbn [bind] in H. inversion H; subst. now split.
  - destruct fresh as [[c d]| |] eqn:E; try discriminate. cbn [bind] in H.
    inversion H; subst. eapply HF; eauto.
Qed.

Lemma reachable_cache_ok ds : reachable Reader image_Decode ds -> cache_ok ds.
Proof.
  induction 1 as [|ds filename reader dw dh img ds' _ IH HD].
  - split; [reflexivity|]. intros col Hin. simpl in Hin.
    repeat destruct Hin as [Hin|Hin]; try discriminate. contradiction.
  - eapply Descramble_cache_ok; eauto.
Qed.

Lemma getPattern_range (filename : string) :
  len filename < 2 ^ 42 -> 1 <= getPattern filename <= 4.
Proof.
  intros H. rewrite (getPattern_sum filename H).
  pose proof (Z.mod_pos_bound (code_point_sum filename) 4 ltac:(lia)). lia.
Qed.

Lemma Descramble_small ds filename reader dw dh img :
  cache_ok ds ->
  image_Decode reader = Ok img ->
  0 <= Dx (Bounds img) -> 0 <= Dy (Bounds img) ->
  Dx (Bounds img) < 64 \/ Dy (Bounds img) < 64 ->
  len filename < 2 ^ 42 ->
  Descramble Reader image_Decode ds filename reader dw dh = Panic DivideByZero.
Proof.
  intros [HL HC] HD Hw Hh Hs Hlen. unfold Descramble. rewrite HD. cbn [bind].
  pose proof (getPattern_range filename Hlen) as Hp.
  assert (Hi : 0 <= sub (getPattern filename) 1 < Z.of_nat (List.length (rectangleCollections ds))).
  { unfold sub. rewrite wrap64_small by lia. rewrite HL. lia. }
  destruct (index_in_range _ _ Hi) as [slot Hslot]. rewrite Hslot. cbn [bind].
  rewrite (generateRectangles_small _ _ (getPattern filename) Hw Hh Hs). cbn [bind].
  destruct slot as [col|]; [|reflexivity].
  destruct (negb _ || negb _) eqn:E; [reflexivity|]. exfalso.
  apply orb_false_iff in E. destruct E as [E1 E2].
  apply negb_false_iff, Z.eqb_eq in E1, E2.
  apply index_Ok in Hslot. destruct Hslot as [_ Hn]. apply nth_error_In in Hn.
  destruct (HC col Hn) as [p Hok]. rewrite <- E1, <- E2 in Hok.
  now rewrite (generateRectangles_small _ _ p Hw Hh Hs) in Hok.
Qed.

(** On a cache hit the output bounds come from the cached collection; the
    dummy sizes of the call play no part. *)
Lemma Descramble_hit_bounds ds filename reader dw dh img col out ds' :
  image_Decode reader = Ok img ->
  index (rectangleCollections ds) (sub (getPattern filename) 1) = Ok (Some col) ->
  srcWidth col = Dx (Bounds img) -> srcHeight col = Dy (Bounds img) ->
  Descramble Reader image_Decode ds filename reader dw dh = Ok (out, ds') ->
  Bounds out = Rect 0 0 (dstWidth col) (dstHeight col) /\ ds' = ds.
Proof.
  intros HD HI E1 E2. unfold Descramble. rewrite HD. cbn [bind]. rewrite HI. cbn [bind].
  rewrite E1, E2, !Z.eqb_refl. cbn [negb orb bind].
  intros H. inversion H; subst. now rewrite blit_Bounds.
Qed.

(** On a cache miss the output bounds are computed from the dummy sizes. *)
Lemma Descramble_miss_bounds ds filename reader dw dh img out ds' :
  image_Decode reader = Ok img ->
  index (rectangleCollections ds) (sub (getPattern filename) 1) = Ok None ->
  Descramble Reader image_Decode ds filename reader dw dh = Ok (out, ds') ->
  Bounds out = Rect 0 0 (sub (Dx (Bounds img)) dw) (sub (Dy (Bounds img)) dh).
Proof.
  intros HD HI. unfold Descramble. rewrite HD. cbn [bind]. rewrite HI. cbn [bind].
  destruct (generateRectangles _ _ _) as [rects| |]; try discriminate. cbn [bind].
  intros H. inversion H; subst. now rewrite blit_Bounds.
Qed.

End WithDecoder.
End BookWalkerDescramble.

(** C9. An image that decodes with width or height under 64 makes
    [generateRectangles] take a remainder by [rectsX = 0] or [rectsY = 0]:
    it panics for every pattern, and so does [Descramble] from every state a
    descrambler can be in, instead of returning an error. *)
Theorem bookwalker_small_image_panics (sw sh : Z) :
  0 <= sw -> 0 <= sh -> sw < 64 \/ sh < 64 ->
  (forall pattern, BookWalker.generateRectangles sw sh pattern = Panic DivideByZero)
  /\ (forall (Reader : Type) (image_Decode : Reader -> result Img.Image)
             ds filename reader dummyWidth dummyHeight img,
        BookWalker.reachable Reader image_Decode ds ->
        image_Decode reader = Ok img ->
        Img.Dx (Img.Bounds img) = sw -> Img.Dy (Img.Bounds img) = sh ->
        len filename < 2 ^ 42 ->
        BookWalker.Descramble Reader image_Decode ds filename reader
          dummyWidth dummyHeight = Panic DivideByZero).
Proof.
  intros Hw Hh Hs. split.
  - intros pattern. now apply generateRectangles_small.
  - intros Reader image_Decode ds filename reader dw dh img HR HD <- <- Hlen.
    eapply Descramble_small; eauto. eapply reachable_cache_ok; eauto.
Qed.

Lemma bookwalker_small_image_panics_witness :
  BookWalker.generateRectangles 63 640 1 = Panic DivideByZero
  /\ BookWalker.Descramble Img.Image Img.decode_id BookWalker.new_descrambler
       "0001/0" (Img.mkImage (Img.Rect 0 0 63 640) (fun _ _ => Img.RGBA 0 0 0 255))
       0 0 = Panic DivideByZero.
Proof.
  assert (H0 : 0 <= 63) by lia. assert (H1 : 0 <= 640) by lia.
  assert (H2 : 63 < 64 \/ 640 < 64) by (left; lia).
  destruct (bookwalker_small_image_panics 63 640 H0 H1 H2) as [G D]. split.
  - apply G.
  - eapply D; [apply BookWalker.reach_init|reflexivity|reflexivity|reflexivity|reflexivity].
Defined.

(** C5, at the failing input.  A descrambler that served a 128 x 128 page
    with dummy sizes (0, 0) serves the next 128 x 128 page of the same
    pattern, sent with dummy sizes (8, 8), from its cache: the image it
    returns is 128 x 128, where a fresh descrambler returns 120 x 120. *)
Theorem descramble_stale_cache_dims :
  exists ds1,
    BookWalker.result_state
      (BookWalker.Descramble Img.Image Img.decode_id BookWalker.new_descrambler
         "1" Img.picture_128 0 0) = Some ds1
    /\ BookWalker.result_dims
         (BookWalker.Descramble Img.Image Img.decode_id ds1
            "1" Img.picture_128 8 8) = Some (128, 128)
    /\ BookWalker.result_dims
         (BookWalker.Descramble Img.Image Img.decode_id BookWalker.new_descrambler
            "1" Img.picture_128 8 8) = Some (120, 120).
Proof.
  eexists. split; [vm_compute; reflexivity|]. split; vm_compute; reflexivity.
Qed.

Section KeyPatterns.
Import BinB.

Lemma byte_val_inj (c k : ascii) : byte_val c = byte_val k -> c = k.
Proof.
  unfold byte_val. intros H. apply N2Z.inj in H.
  rewrite <- (ascii_N_embedding c), <- (ascii_N_embedding k). now rewrite H.
Qed.

Lemma span_spec (f : ascii -> bool) (s : string) :
  forall a b, span f s = (a, b) ->
    s = (a ++ b)%string /\ all_of f a = true
    /\ match b with EmptyString => True | String c _ => f c = false end.
Proof.
  induction s as [|c t IH]; intros a b H; cbn [span] in H.
  - inversion H; subst. repeat split.
  - destruct (f c) eqn:E.
    + destruct (span f t) as [a' b'] eqn:E'. inversion H; subst.
      destruct (IH a' b eq_refl) as (-> & Ha & Hb).
      repeat split; [|exact Hb]. cbn [all_of]. now rewrite E, Ha.
    + inversion H; subst. repeat split. exact E.
Qed.

Lemma span_unique (f : ascii -> bool) (a b : string) :
  all_of f a = true ->
  match b with EmptyString => True | String c _ => f c = false end ->
  span f (a ++ b) = (a, b).
Proof.
  induction a as [|c a IH]; intros Ha Hb; cbn [append span].
  - destruct b as [|c b]; [reflexivity|]. cbn [span]. now rewrite Hb.
  - cbn [all_of] in Ha. apply andb_true_iff in Ha. destruct Ha as [Hc Ha].
    rewrite Hc. now rewrite (IH Ha Hb).
Qed.

Lemma digits_value_fold (l : list ascii) :
  Forall (fun c => is_digit c = true) l ->
  forall acc, 0 <= acc ->
  0 <= fold_left (fun acc c => 10 * acc + (byte_val c - 0x30)) l acc.
Proof.
  induction 1 as [|c l Hc _ IH]; intros acc Hacc; cbn [fold_left]; [exact Hacc|].
  apply IH. unfold is_digit in Hc. apply andb_true_iff in Hc. lia.
Qed.

Lemma all_of_Forall (f : ascii -> bool) (s : string) :
  all_of f s = true -> Forall (fun c => f c = true) (list_ascii_of_string s).
Proof.
  induction s as [|c t IH]; cbn [all_of list_ascii_of_string]; intros H.
  - constructor.
  - apply andb_true_iff in H. destruct H. constructor; auto.
Qed.

Lemma Atoi_nonneg (s : string) : all_of is_digit s = true -> 0 <= Atoi s.
Proof.
  intros H. unfold Atoi, digits_value, maxInt64.
  pose proof (digits_value_fold _ (all_of_Forall _ _ H) 0 ltac:(lia)). lia.
Qed.

Lemma Atoi_range (s : string) : all_of is_digit s = true -> 0 <= Atoi s < 2 ^ 63.
Proof.
  intros H. pose proof (Atoi_nonneg s H). unfold Atoi, maxInt64 in *. lia.
Qed.

(** What a match of [reType1Key] says about the key. *)
Lemma reType1Key_Some (s : string) (m : type1Match) :
  reType1Key s = Some m ->
  s = ("=" ++ m1 m ++ "-" ++ m2 m ++ m3 m ++ m4 m ++ "-" ++ m5 m)%string
  /\ all_of is_digit (m1 m) = true /\ nonempty (m1 m) = true
  /\ all_of is_digit (m2 m) = true /\ nonempty (m2 m) = true
  /\ (m3 m = "+" \/ m3 m = "-")%string
  /\ all_of is_digit (m4 m) = true /\ nonempty (m4 m) = true
  /\ all_of is_word (m5 m) = true /\ nonempty (m5 m) = true.
Proof.
  unfold reType1Key. destruct s as [|c0 r0]; [discriminate|].
  destruct (Ascii.eqb_spec c0 "="%char) as [->|Hne].
  2:{ destruct c0 as [[] [] [] [] [] [] [] []]; try discriminate. now elim Hne. }
  destruct (span is_digit r0) as [g1 r1] eqn:E1.
  destruct r1 as [|c1 r2]; [discriminate|].
  destruct (Ascii.eqb_spec c1 "-"%char) as [->|Hne].
  2:{ destruct c1 as [[] [] [] [] [] [] [] []]; try discriminate. now elim Hne. }
  destruct (span is_digit r2) as [g2 r3] eqn:E2.
  destruct r3 as [|sg r4]; [discriminate|].
  destruct (span is_digit r4) as [g4 r5] eqn:E4.
  destruct r5 as [|c5 g5]; [discriminate|].
  destruct (Ascii.eqb_spec c5 "-"%char) as [->|Hne].
  2:{ destruct c5 as [[] [] [] [] [] [] [] []]; try discriminate. now elim Hne. }
  destruct (_ && _) eqn:C; [|discriminate].
  intros H; inversion H; subst m; clear H. cbn [m1 m2 m3 m4 m5].
  repeat (apply andb_true_iff in C; destruct C as [C ?]).
  apply span_spec in E1, E2, E4.
  destruct E1 as (-> & D1 & _), E2 as (-> & D2 & _), E4 as (-> & D4 & _).
  assert (Hsg : (String sg "" = "+" \/ String sg "" = "-")%string).
  { unfold is_sign in *.
    match goal with H : _ || _ = true |- _ =>
      apply orb_true_iff in H; destruct H as [H|H]; apply Z.eqb_eq in H end.
    - right. f_equal. now apply byte_val_inj.
    - left. f_equal. now apply byte_val_inj. }
  repeat split; auto.
Qed.


Lemma processType1_ext (ds ds' : Descrambler) (i : Z) :
  Ctbl ds' = Ctbl ds -> Ptbl ds' = Ptbl ds ->
  processType1 ds' i = processType1 ds i.
Proof. intros E1 E2. unfold processType1. now rewrite E1, E2. Qed.

Lemma entry_ok_ext (ds ds' : Descrambler) t i d :
  Ctbl ds' = Ctbl ds -> Ptbl ds' = Ptbl ds ->
  entry_ok ds t i d -> entry_ok ds' t i d.
Proof.
  intros E1 E2. unfold entry_ok. destruct t, d; auto.
  - now rewrite (processType1_ext ds ds' i E1 E2).
  - now rewrite E1, E2.
Qed.

End KeyPatterns.

Section ArraySlots.

Lemma store_nth_other {A : Type} (l : list A) :
  forall i j v, i <> j -> nth_error (store l i v) j = nth_error l j.
Proof.
  induction l as [|a l IH]; intros [|i] [|j] v H; simpl; auto; try congruence.
Qed.

End ArraySlots.

Section InitLoop.
Import Loop Scramble BinB.

Lemma init_step_Ok (ds ds' : Descrambler) (i : Z) :
  init_step ds i = Ok ds' ->
  Ctbl ds' = Ctbl ds /\ Ptbl ds' = Ptbl ds
  /\ rectangleCollections ds' = rectangleCollections ds
  /\ (keyType ds = typeUnset \/ keyType ds = keyType ds')
  /\ keyType ds' <> typeUnset
  /\ exists d, data ds' = store (data ds) (Z.to_nat i) d
               /\ entry_ok ds (keyType ds') i d.
Proof.
  unfold init_step.
  destruct (index (Ctbl ds) i) as [ci| |] eqn:EC; try discriminate. cbn [bind].
  destruct (index_byte ci 0) as [c0| |]; try discriminate. cbn [bind].
  set (is1 := if c0 =? 61 then _ else _).
  destruct is1 as [b| |]; try discriminate. cbn [bind].
  assert (K : forall (newType : scrambleKeyType) (r : result keyData) dsr,
            newType <> typeUnset ->
            (forall d, r = Ok d -> entry_ok ds newType i d) ->
            (_ <- match r with Panic p => Panic p | _ => Ok tt end ;;
             ds1 <- (if keyType_eqb (keyType ds) typeUnset
                     then Ok (set_keyType ds newType)
                     else if negb (keyType_eqb (keyType ds) newType)
                          then Err "Mixed key types." else Ok ds) ;;
             d <- r ;; Ok (set_data ds1 i d)) = Ok dsr ->
            Ctbl dsr = Ctbl ds /\ Ptbl dsr = Ptbl ds
            /\ rectangleCollections dsr = rectangleCollections ds
            /\ (keyType ds = typeUnset \/ keyType ds = keyType dsr)
            /\ keyType dsr <> typeUnset
            /\ exists d, data dsr = store (data ds) (Z.to_nat i) d
                         /\ entry_ok ds (keyType dsr) i d).
  { intros newType r dsr Hnt Hr H.
    destruct r as [d| |]; cbn [bind] in H; try discriminate.
    2:{ destruct (keyType_eqb (keyType ds) typeUnset); cbn [bind] in H; try discriminate.
        destruct (negb _); discriminate. }
    destruct (keyType_eqb (keyType ds) typeUnset) eqn:EU; cbn [bind] in H.
    - inversion H; subst dsr. cbn.
      repeat split; auto.
      + left. destruct (keyType ds); try discriminate; reflexivity.
      + exists d. split; [reflexivity|]. now apply Hr.
    - destruct (negb (keyType_eqb (keyType ds) newType)) eqn:EN; cbn [bind] in H;
        [discriminate|].
      inversion H; subst dsr. cbn.
      assert (keyType ds = newType).
      { destruct (keyType ds), newType; try discriminate; reflexivity. }
      repeat split; auto; try congruence.
      exists d. split; [reflexivity|]. rewrite H0. now apply Hr. }
  destruct b.
  - cbn [bind]. apply K; [discriminate|].
    intros d Hd. destruct (processType1 ds i) as [d1| |] eqn:E1; try discriminate.
    inversion Hd; subst. exact E1.
  - destruct (startsWithDigit ci) as [cd| |]; try discriminate. cbn [bind].
    set (pdr := if cd then _ else _).
    destruct pdr as [pd| |]; try discriminate. cbn [bind].
    destruct pd; [|discriminate].
    destruct (index (Ptbl ds) i) as [pi| |] eqn:EP; try discriminate. cbn [bind].
    apply K; [discriminate|].
    intros d Hd.
    destruct (processType2 ci) as [c2| |] eqn:E2; try discriminate. cbn [bind] in Hd.
    destruct (processType2 pi) as [p2| |] eqn:E3; try discriminate. cbn [bind] in Hd.
    inversion Hd; subst. cbn. exists ci, pi. auto.
Qed.

Lemma init_loop (ds0 : Descrambler) (m : nat) :
  forall k ds ds',
    init_inv ds0 k ds ->
    (k + m <= List.length (data ds0))%nat ->
    foldM init_step (map Z.of_nat (seq k m)) ds = Ok ds' ->
    init_inv ds0 (k + m) ds'.
Proof.
  induction m as [|m IH]; intros k ds ds' Hinv Hlen H.
  - cbn in H. inversion H; subst. now rewrite Nat.add_0_r.
  - cbn [seq map foldM] in H.
    destruct (init_step ds (Z.of_nat k)) as [ds1| |] eqn:ES; try discriminate.
    cbn [bind] in H.
    replace (k + S m)%nat with (S k + m)%nat by lia.
    apply (IH (S k) ds1 ds'); [|lia|exact H].
    destruct Hinv as (I1 & I2 & I3 & I4 & I5 & I6 & I7).
    apply init_step_Ok in ES.
    destruct ES as (S1 & S2 & S3 & S4 & S5 & d & S6 & S7).
    rewrite Nat2Z.id in S6.
    unfold init_inv. rewrite S1, S2, S3, S6, store_length.
    repeat split; auto; try congruence; try lia.
    intros i Hi. destruct (Nat.eq_dec i k) as [->|Hne].
    + exists d. rewrite store_nth by lia. split; [reflexivity|].
      apply (entry_ok_ext ds ds1); auto.
    + destruct (I7 i ltac:(lia)) as (d' & Hn & Hd').
      exists d'. rewrite store_nth_other by congruence. split; [exact Hn|].
      apply (entry_ok_ext ds ds1); auto.
      destruct S4 as [S4|S4]; [|now rewrite <- S4].
      exfalso. apply I6; [lia|exact S4].
Qed.

(** What a descrambler returned by [NewDescrambler] looks like. *)
Lemma NewDescrambler_Ok (ctbl ptbl : list string) (ds : Descrambler) :
  NewDescrambler ctbl ptbl = Ok ds ->
  let n := List.length ctbl in
  n <> 0%nat /\ List.length ptbl = n
  /\ Ctbl ds = ctbl /\ Ptbl ds = ptbl
  /\ rectangleCollections ds = repeat (repeat None n) n
  /\ List.length (data ds) = n
  /\ keyType ds <> typeUnset
  /\ forall i, (i < n)%nat ->
       exists d, nth_error (data ds) i = Some d
                 /\ entry_ok ds (keyType ds) (Z.of_nat i) d.
Proof.
  intros H n. unfold NewDescrambler in H.
  destruct (Nat.eqb_spec (List.length ctbl) (List.length ptbl)) as [EL|]; [|discriminate].
  cbn [negb] in H.
  destruct (Nat.eqb_spec (List.length ctbl) 0) as [|NZ]; [discriminate|].
  destruct (Nat.eqb_spec (List.length ptbl) 0) as [|_]; [discriminate|].
  unfold init, upto in H. cbn [Ctbl] in H. rewrite Nat2Z.id in H.
  set (ds0 := mkDescrambler _ _ _ _ _) in H.
  assert (I0 : init_inv ds0 0 ds0).
  { unfold init_inv. repeat split; auto; try lia. }
  pose proof (init_loop ds0 n 0 ds0 ds I0) as HI.
  cbn [data ds0] in HI. rewrite repeat_length in HI.
  specialize (HI (Nat.le_refl _) H). cbn [Nat.add] in HI.
  destruct HI as (I1 & I2 & I3 & I4 & I5 & I6 & I7).
  cbn in I1, I2, I3, I4. rewrite repeat_length in I4. rewrite <- EL in I3.
  repeat split; auto.
Qed.

End InitLoop.

Section Type1.
Import Loop Scramble BinB.

Lemma processType1_Ok (ds : Descrambler) (i : Z) (d : scrambleDataType1) :
  processType1 ds i = Ok d ->
  exists ckey pkey cm pm,
    index (Ctbl ds) i = Ok ckey /\ index (Ptbl ds) i = Ok pkey
    /\ reType1Key ckey = Some cm /\ reType1Key pkey = Some pm
    /\ m1 cm = m1 pm /\ m2 cm = m2 pm /\ m4 cm = m4 pm
    /\ m3 cm = "+"%string /\ m3 pm = "-"%string
    /\ d = mkData1 (Atoi (m1 cm)) (Atoi (m2 cm)) (Atoi (m4 cm)) (m5 cm) (m5 pm)
    /\ 0 <= h d <= 8 /\ 0 <= v d <= 8 /\ 0 <= padding d < 2 ^ 63
    /\ len (m5 cm) = h d + v d + h d * v d
    /\ len (m5 pm) = h d + v d + h d * v d.
Proof.
  unfold processType1.
  destruct (index (Ctbl ds) i) as [ckey| |]; try discriminate. cbn [bind].
  destruct (index (Ptbl ds) i) as [pkey| |]; try discriminate. cbn [bind].
  destruct (reType1Key ckey) as [cm|] eqn:EC; [|discriminate].
  destruct (reType1Key pkey) as [pm|] eqn:EP; [|discriminate].
  destruct (_ || _) eqn:E1; [discriminate|].
  destruct (_ || _) eqn:E2 in |- *; [discriminate|].
  destruct (_ || _) eqn:E3 in |- *; [discriminate|].
  intros H; inversion H; subst d; clear H. cbn [h v padding].
  repeat (apply orb_false_iff in E1; destruct E1 as [E1 ?]).
  repeat match goal with
  | H : negb _ = false |- _ => apply negb_false_iff in H
  | H : (_ =? _)%string = true |- _ => apply String.eqb_eq in H
  end.
  apply reType1Key_Some in EC as HC. destruct HC as (_ & D1 & _ & D2 & _ & _ & D4 & _).
  pose proof (Atoi_range _ D1). pose proof (Atoi_range _ D2). pose proof (Atoi_range _ D4).
  repeat (apply orb_false_iff in E2; destruct E2 as [E2 ?]).
  apply orb_false_iff in E3. destruct E3 as [E3 E4].
  apply negb_false_iff, Z.eqb_eq in E3, E4.
  assert (Hh : Atoi (m1 cm) <= 8) by lia. assert (Hv : Atoi (m2 cm) <= 8) by lia.
  assert (TL : add (add (Atoi (m1 cm)) (Atoi (m2 cm))) (mul (Atoi (m1 cm)) (Atoi (m2 cm)))
               = Atoi (m1 cm) + Atoi (m2 cm) + Atoi (m1 cm) * Atoi (m2 cm)).
  { unfold add, mul. rewrite !wrap64_small; try nia.
    rewrite !wrap64_small; nia. }
  rewrite TL in E3, E4.
  exists ckey, pkey, cm, pm. repeat split; auto; lia.
Qed.

Lemma asType1_Ok (ds : Descrambler) (i : Z) (d1 : scrambleDataType1) :
  asType1 ds i = Ok d1 ->
  0 <= i < Z.of_nat (List.length (data ds))
  /\ nth_error (data ds) (Z.to_nat i) = Some (DataType1 d1).
Proof.
  unfold asType1. destruct (index (data ds) i) as [d| |] eqn:E; try discriminate.
  cbn [bind]. destruct d; try discriminate. intros H; inversion H; subst.
  now apply index_Ok in E.
Qed.

(** In a descrambler that [NewDescrambler] returned, an entry that passes
    the type-1 assertion is what [processType1] made of the keys at its
    index. *)
Lemma initialised_type1 (ctbl ptbl : list string) (ds : Descrambler) (i : Z) d1 :
  NewDescrambler ctbl ptbl = Ok ds ->
  asType1 ds i = Ok d1 ->
  processType1 ds i = Ok d1.
Proof.
  intros HN HA. apply NewDescrambler_Ok in HN.
  destruct HN as (_ & _ & _ & _ & _ & HL & _ & HE).
  apply asType1_Ok in HA. destruct HA as [Hi Hn].
  destruct (HE (Z.to_nat i) ltac:(lia)) as (d & Hd & He).
  rewrite Hn in Hd. inversion Hd; subst d. rewrite Z2Nat.id in He by lia.
  unfold entry_ok in He. destruct (keyType ds); try contradiction. exact He.
Qed.

Lemma rectanglesType1_body_dims h v padding src dst sw sh col :
  rectanglesType1_body h v padding src dst sw sh = Ok col ->
  (dstWidth col, dstHeight col) = workingSize h v padding sw sh.
Proof.
  unfold rectanglesType1_body.
  destruct (workingSize h v padding sw sh) as [width height].
  repeat match goal with
  | |- bind ?m _ = Ok _ -> _ => destruct m as [?| |]; cbn [bind]; try discriminate
  | |- (let '(_, _) := ?x in _) = Ok _ -> _ => destruct x
  end.
  intros HH; inversion HH; subst. reflexivity.
Qed.

Lemma workingSize_spec (h v padding sw sh : Z) :
  0 <= h <= 8 -> 0 <= v <= 8 -> 0 <= padding < 2 ^ 26 ->
  0 <= sw < 2 ^ 31 -> 0 <= sh < 2 ^ 31 ->
  workingSize h v padding sw sh = spec_workingSize h v padding sw sh.
Proof.
  intros Hh Hv Hp Hw Hs. unfold workingSize, spec_workingSize.
  assert (X : mul (mul h 2) padding = 2 * h * padding).
  { unfold mul. rewrite (wrap64_small (h * 2)) by lia. rewrite wrap64_small; nia. }
  assert (Y : mul (mul v 2) padding = 2 * v * padding).
  { unfold mul. rewrite (wrap64_small (v * 2)) by lia. rewrite wrap64_small; nia. }
  rewrite X, Y.
  assert (0 <= 2 * h * padding < 2 ^ 30) by nia.
  assert (0 <= 2 * v * padding < 2 ^ 30) by nia.
  unfold add, sub, mul. rewrite !wrap64_small; try nia.
  - reflexivity.
  - rewrite !wrap64_small; nia.
Qed.

End Type1.

(** C3, as amended.  In a descrambler that [NewDescrambler] returned, the
    type-1 derivation for cell (cIndex, pIndex) reads [h] and [padding] from
    the key [C[cIndex]] and [v] from the key [P[pIndex]] (entry [pIndex] of
    the key data, whose [v] the keys [C[pIndex]] and [P[pIndex]] share); the
    source payload is that of [C[cIndex]], the destination payload that of
    [P[pIndex]], and nothing else of the tables is used.  For image sides
    below 2^31 and a padding below 2^26 no 64-bit product wraps and the
    working dimensions are [(sw - 2 h padding, sh - 2 v padding)] exactly
    when the three size conditions hold, and [(sw, sh)] otherwise. *)
Theorem rectanglesType1_working_dims
  (ctbl ptbl : list string) (ds : BinB.Descrambler)
  (cIndex pIndex sw sh : Z) (col : Scramble.scrambleRectanglesCollection) :
  BinB.NewDescrambler ctbl ptbl = Ok ds ->
  BinB.rectanglesType1 ds cIndex pIndex sw sh = Ok col ->
  0 <= sw < 2 ^ 31 -> 0 <= sh < 2 ^ 31 ->
  exists ckey pkey cm pm,
    index ctbl cIndex = Ok ckey /\ index ptbl pIndex = Ok pkey
    /\ BinB.reType1Key ckey = Some cm /\ BinB.reType1Key pkey = Some pm
    /\ BinB.rectanglesType1_body
         (BinB.Atoi (BinB.m1 cm)) (BinB.Atoi (BinB.m2 pm)) (BinB.Atoi (BinB.m4 cm))
         (BinB.m5 cm) (BinB.m5 pm) sw sh = Ok col
    /\ (BinB.Atoi (BinB.m4 cm) < 2 ^ 26 ->
        (Scramble.dstWidth col, Scramble.dstHeight col) =
        BinB.spec_workingSize
          (BinB.Atoi (BinB.m1 cm)) (BinB.Atoi (BinB.m2 pm)) (BinB.Atoi (BinB.m4 cm))
          sw sh).
Proof.
  intros HN HR Hw Hh. unfold BinB.rectanglesType1 in HR.
  destruct (BinB.asType1 ds cIndex) as [cd| |] eqn:EC; try discriminate.
  destruct (BinB.asType1 ds pIndex) as [pd| |] eqn:EP; try discriminate.
  cbn [bind] in HR.
  pose proof (initialised_type1 _ _ _ _ _ HN EC) as PC.
  pose proof (initialised_type1 _ _ _ _ _ HN EP) as PP.
  apply processType1_Ok in PC, PP.
  destruct PC as (ckey & pkey' & cm & pm' & C1 & _ & C3 & _ & _ & _ & _ & _ & _ & Dc
                  & Hhc & _ & Hpc & _).
  destruct PP as (ckey' & pkey & cm' & pm & _ & P2 & _ & P4 & _ & P6 & _ & _ & _ & Dp
                  & _ & Hvp & _).
  apply NewDescrambler_Ok in HN. destruct HN as (_ & _ & TC & TP & _).
  rewrite TC in C1. rewrite TP in P2.
  subst cd pd. cbn [BinB.h BinB.v BinB.padding BinB.src1 BinB.dst1] in *.
  rewrite P6 in HR, Hvp.
  exists ckey, pkey, cm, pm. repeat split; auto.
  intros Hpad. rewrite (rectanglesType1_body_dims _ _ _ _ _ _ _ _ HR).
  apply workingSize_spec; lia.
Qed.

Lemma rectanglesType1_working_dims_witness :
  exists ckey pkey cm pm,
    index ["=1-2+1-AAAAA"; "=1-1+1-AAA"]%string 0 = Ok ckey
    /\ index ["=1-2-1-AAAAA"; "=1-1-1-AAA"]%string 1 = Ok pkey
    /\ BinB.reType1Key ckey = Some cm /\ BinB.reType1Key pkey = Some pm
    /\ BinB.Atoi (BinB.m2 pm) = 1.
Proof.
  assert (Hw : 0 <= 400 < 2 ^ 31) by lia.
  destruct (rectanglesType1_working_dims
              ["=1-2+1-AAAAA"; "=1-1+1-AAA"]%string
              ["=1-2-1-AAAAA"; "=1-1-1-AAA"]%string
              _ 0 1 400 400 _ ltac:(vm_compute; reflexivity)
              ltac:(vm_compute; reflexivity) Hw Hw)
    as (ckey & pkey & cm & pm & I1 & I2 & R1 & R2 & _).
  exists ckey, pkey, cm, pm. repeat split; auto.
  vm_compute in I2. inversion I2; subst pkey.
  vm_compute in R2. inversion R2; subst pm. reflexivity.
Defined.

(** C3 as stated fails: with [v] read from the key [C[cIndex]] the working
    height for cell (0, 1) of these tables would be 400 - 2*2*1 = 396, but
    the code reads [v = 1] from entry 1 and works on 398 x 398. *)
Lemma rectanglesType1_v_counterexample :
  exists ds col cm,
    BinB.NewDescrambler ["=1-2+1-AAAAA"; "=1-1+1-AAA"]%string
                        ["=1-2-1-AAAAA"; "=1-1-1-AAA"]%string = Ok ds
    /\ BinB.rectanglesType1 ds 0 1 400 400 = Ok col
    /\ index ["=1-2+1-AAAAA"; "=1-1+1-AAA"]%string 0 = Ok "=1-2+1-AAAAA"%string
    /\ BinB.reType1Key "=1-2+1-AAAAA" = Some cm
    /\ BinB.spec_workingSize (BinB.Atoi (BinB.m1 cm)) (BinB.Atoi (BinB.m2 cm))
         (BinB.Atoi (BinB.m4 cm)) 400 400 = (398, 396)
    /\ (Scramble.dstWidth col, Scramble.dstHeight col) = (398, 398)
    /\ (Scramble.dstWidth col, Scramble.dstHeight col) <>
       BinB.spec_workingSize (BinB.Atoi (BinB.m1 cm)) (BinB.Atoi (BinB.m2 cm))
         (BinB.Atoi (BinB.m4 cm)) 400 400.
Proof.
  eexists. eexists. eexists.
  split; [vm_compute; reflexivity|].
  split; [vm_compute; reflexivity|].
  split; [reflexivity|].
  split; [vm_compute; reflexivity|].
  split; [vm_compute; reflexivity|].
  split; [vm_compute; reflexivity|].
  vm_compute. discriminate.
Qed.

Section BinBDescramble.
Import Img Loop Scramble BinB.

Lemma cpIndex_fold (l : list (Z * Z)) :
  Forall (fun ic => is_rune (snd ic)) l ->
  forall c p,
    0 <= c -> 0 <= p ->
    c + p + 2 ^ 21 * Z.of_nat (List.length l) < 2 ^ 63 ->
    let '(c', p') :=
      fold_left (fun cp ic =>
                   let '(c, p) := cp in
                   if Z.rem (fst ic) 2 =? 0
                   then (c, add p (snd ic))
                   else (add c (snd ic), p)) l (c, p) in
    0 <= c' /\ 0 <= p'.
Proof.
  induction 1 as [|[i r] l Hr _ IH]; intros c p Hc Hp Hs; cbn [fold_left].
  - split; assumption.
  - cbn [fst snd List.length] in *. unfold is_rune in Hr.
    destruct (Z.rem i 2 =? 0).
    + replace (add p r) with (p + r) by (unfold add; rewrite wrap64_small; lia).
      apply IH; lia.
    + replace (add c r) with (c + r) by (unfold add; rewrite wrap64_small; lia).
      apply IH; lia.
Qed.

Lemma cpIndex_range (filename : string) :
  len filename < 2 ^ 42 ->
  0 <= fst (cpIndex filename) < 8 /\ 0 <= snd (cpIndex filename) < 8.
Proof.
  intros Hlen. unfold cpIndex.
  assert (HF : Forall (fun ic => is_rune (snd ic)) (range_string filename)).
  { apply Forall_forall. intros [i r] Hin. now apply range_string_spec in Hin. }
  pose proof (rune_count_le filename) as HL. unfold rune_count, len in *.
  pose proof (cpIndex_fold _ HF 0 0 ltac:(lia) ltac:(lia) ltac:(lia)) as H.
  destruct (fold_left _ _ _) as [c p]. destruct H as [Hc Hp]. cbn [fst snd].
  rewrite !Z.rem_mod_nonneg by lia.
  pose proof (Z.mod_pos_bound c 8 ltac:(lia)).
  pose proof (Z.mod_pos_bound p 8 ltac:(lia)). lia.
Qed.

Lemma index_out_of_range {A : Type} (l : list A) (i : Z) :
  ~ (0 <= i < Z.of_nat (List.length l)) -> index l i = Panic IndexOutOfRange.
Proof.
  intros H. unfold index.
  destruct (Z.leb_spec 0 i); [|reflexivity].
  destruct (Z.ltb_spec i (Z.of_nat (List.length l))); [lia|reflexivity].
Qed.

Lemma index_cases {A : Type} (l : list A) (i : Z) :
  (exists a, index l i = Ok a) \/ index l i = Panic IndexOutOfRange.
Proof.
  destruct (Z_le_dec 0 i) as [H0|H0];
    [destruct (Z_lt_dec i (Z.of_nat (List.length l))) as [H1|H1]|].
  - left. apply index_in_range. lia.
  - right. apply index_out_of_range. lia.
  - right. apply index_out_of_range. lia.
Qed.

Lemma store_Forall {A : Type} (P : A -> Prop) (l : list A) (i : nat) (v : A) :
  Forall P l -> P v -> Forall P (store l i v).
Proof.
  intros Hl Hv. apply Forall_forall. intros x Hx. apply store_In in Hx.
  destruct Hx as [->|Hx]; [exact Hv|]. rewrite Forall_forall in Hl. now apply Hl.
Qed.

Lemma store_past_end {A : Type} (l : list A) :
  forall i v, (List.length l <= i)%nat -> store l i v = l.
Proof.
  induction l as [|a l IH]; intros [|i] v H; simpl in *; try lia; auto.
  f_equal. apply IH. lia.
Qed.

Lemma set_collection_square (n : nat) (ds : Descrambler) c p col :
  square n ds -> square n (set_collection ds c p col).
Proof.
  intros [HL HF]. unfold square, set_collection. cbn [rectangleCollections].
  destruct (Nat.lt_ge_cases (Z.to_nat c) (List.length (rectangleCollections ds)))
    as [Hlt|Hge].
  - rewrite store_length. split; [exact HL|].
    apply store_Forall; [exact HF|]. rewrite store_length.
    pose proof (nth_In (rectangleCollections ds) [] Hlt) as Hin.
    rewrite Forall_forall in HF. now apply HF.
  - rewrite store_past_end by exact Hge. now split.
Qed.

Section WithDecoder.
Variable Reader : Type.
Variable image_Decode : Reader -> result Image.

Lemma Descramble_square (n : nat) (ds : Descrambler) filename reader :
  square n ds -> square n (snd (Descramble Reader image_Decode ds filename reader)).
Proof.
  intros HS. unfold Descramble.
  destruct (image_Decode reader) as [img| |]; try exact HS.
  destruct (cpIndex filename) as [c p].
  destruct (bind _ _) as [slot| |]; try exact HS.
  assert (HR : forall r,
    square n (snd (match r with
                   | Ok col =>
                     (Ok (blit img (rectangles col)
                            (NewRGBA (Rect 0 0 (dstWidth col) (dstHeight col)))),
                      set_collection ds c p (Some col))
                   | Err e => (Err e, set_collection ds c p None)
                   | Panic q => (Panic q, ds)
                   end))).
  { intros [col| |]; cbn [snd]; auto using set_collection_square. }
  cbv zeta.
  destruct slot as [col|]; [destruct (_ || _); [|exact HS]|];
    (destruct (keyType ds); [exact HS|apply HR|apply HR]).
Qed.

Lemma reachable_square (n : nat) (ds0 ds : Descrambler) :
  square n ds0 -> reachable Reader image_Decode ds0 ds -> square n ds.
Proof.
  intros H0. induction 1; [exact H0|]. now apply Descramble_square.
Qed.

Lemma Descramble_index_panic (n : nat) (ds : Descrambler) filename reader img :
  square n ds ->
  image_Decode reader = Ok img ->
  Z.of_nat n <= fst (cpIndex filename) \/ Z.of_nat n <= snd (cpIndex filename) ->
  fst (Descramble Reader image_Decode ds filename reader) = Panic IndexOutOfRange.
Proof.
  intros [HL HF] HD Hout. unfold Descramble. rewrite HD.
  destruct (cpIndex filename) as [c p]. cbn [fst snd] in *.
  assert (E : (row <- index (rectangleCollections ds) c ;; index row p)
              = Panic IndexOutOfRange).
  { destruct (index_cases (rectangleCollections ds) c) as [[row Hrow]|Hpanic].
    - rewrite Hrow. cbn [bind]. apply index_Ok in Hrow. destruct Hrow as [Hc Hn].
      rewrite Forall_forall in HF. pose proof (HF row (nth_error_In _ _ Hn)) as Hlen.
      apply index_out_of_range. rewrite Hlen. lia.
    - now rewrite Hpanic. }
  now rewrite E.
Qed.

End WithDecoder.
End BinBDescramble.

Section ShortTables.
Import BinB.

Lemma NewDescrambler_square (ctbl ptbl : list string) (ds : Descrambler) :
  NewDescrambler ctbl ptbl = Ok ds -> square (List.length ctbl) ds.
Proof.
  intros H. apply NewDescrambler_Ok in H.
  destruct H as (_ & _ & _ & _ & HR & _). unfold square. rewrite HR.
  split; [apply repeat_length|].
  apply Forall_forall. intros row Hrow. apply repeat_spec in Hrow. subst row.
  apply repeat_length.
Qed.

(** Tables of every length from 1 to 7 are accepted. *)
Lemma NewDescrambler_accepts_short_tables (n : nat) :
  (1 <= n < 8)%nat ->
  is_ok (NewDescrambler (repeat "=1-1+0-AAA"%string n)
                        (repeat "=1-1-0-AAA"%string n)) = true.
Proof.
  intros H.
  assert (C : (n = 1 \/ n = 2 \/ n = 3 \/ n = 4 \/ n = 5 \/ n = 6 \/ n = 7)%nat) by lia.
  repeat (destruct C as [->|C]; [vm_compute; reflexivity|]). subst. vm_compute. reflexivity.
Qed.

End ShortTables.

(** C10.  [cpIndex] yields indices in [0, 8) (for any file name short
    enough for the 64-bit sums not to wrap), while [NewDescrambler] returns
    a descrambler whose cache is as wide as the tables.  For tables of fewer
    than 8 entries the file name ["7"] selects cell (0, 7): from every state
    of such a descrambler, [Descramble] of a decodable image panics with an
    index out of range instead of returning an error. *)
Theorem binb_short_table_panics
  (ctbl ptbl : list string) (ds : BinB.Descrambler) :
  BinB.NewDescrambler ctbl ptbl = Ok ds ->
  (List.length ctbl < 8)%nat ->
  (forall filename, len filename < 2 ^ 42 ->
     0 <= fst (BinB.cpIndex filename) < 8 /\ 0 <= snd (BinB.cpIndex filename) < 8)
  /\ exists filename,
       forall (Reader : Type) (image_Decode : Reader -> result Img.Image)
              ds' reader img,
         BinB.reachable Reader image_Decode ds ds' ->
         image_Decode reader = Ok img ->
         fst (BinB.Descramble Reader image_Decode ds' filename reader)
         = Panic IndexOutOfRange.
Proof.
  intros HN Hlen. split; [exact cpIndex_range|].
  exists "7"%string. intros Reader image_Decode ds' reader img HR HD.
  apply (Descramble_index_panic Reader image_Decode (List.length ctbl) ds' _ _ img);
    [|exact HD|].
  - eapply reachable_square; [|exact HR]. now apply (NewDescrambler_square ctbl ptbl).
  - right. change (snd (BinB.cpIndex "7")) with 7. lia.
Qed.

Lemma binb_short_table_panics_witness :
  exists ds filename,
    BinB.NewDescrambler ["=1-1+0-AAA"%string] ["=1-1-0-AAA"%string] = Ok ds
    /\ fst (BinB.Descramble Img.Image Img.decode_id ds filename
              Img.picture_128) = Panic IndexOutOfRange.
Proof.
  eexists.
  assert (HN : BinB.NewDescrambler ["=1-1+0-AAA"%string] ["=1-1-0-AAA"%string] = Ok _)
    by (vm_compute; reflexivity).
  assert (HL : (List.length ["=1-1+0-AAA"%string] < 8)%nat) by (simpl; lia).
  destruct (binb_short_table_panics _ _ _ HN HL) as [_ [filename HP]].
  exists filename. split; [exact HN|].
  apply (HP Img.Image Img.decode_id _ Img.picture_128 Img.picture_128).
  - apply BinB.reach_init.
  - reflexivity.
Defined.

Section Coordinator.
Import Manager.

Variable cfg : run_config.

(** An invariant that holds initially and is kept by every step holds in
    every state of the run. *)
Lemma invariant_reachable (P : state -> Prop) :
  P (initial cfg) ->
  (forall l s s', reachable cfg s -> P s -> step cfg l s = Some s' -> P s') ->
  forall s, reachable cfg s -> P s.
Proof.
  intros H0 HS s HR. induction HR as [|l s s' HR IH Hstep]; [exact H0|].
  eapply HS; eauto.
Qed.

Lemma run_reachable (ls : list label) :
  forall s s', reachable cfg s -> run cfg ls s = Some s' -> reachable cfg s'.
Proof.
  induction ls as [|l ls IH]; intros s s' HR H; cbn [run] in H.
  - inversion H; subst. exact HR.
  - destruct (step cfg l s) as [s1|] eqn:E; [|discriminate].
    eapply IH; [|exact H]. eapply reach_step; eauto.
Qed.

Lemma count_app (f : worker -> bool) (l m : list worker) :
  count f (l ++ m) = (count f l + count f m)%nat.
Proof. unfold count. now rewrite filter_app, length_app. Qed.

Lemma count_store (f : worker -> bool) (l : list worker) :
  forall n w w',
    nth_error l n = Some w ->
    (count f (store l n w') + (if f w then 1 else 0) =
     count f l + (if f w' then 1 else 0))%nat.
Proof.
  unfold count. induction l as [|a l IH]; intros [|n] w w' H; cbn in H; try discriminate.
  - inversion H; subst a. cbn [store filter].
    destruct (f w), (f w'); cbn [List.length]; lia.
  - cbn [store filter]. specialize (IH n w w' H).
    destruct (f a); cbn [List.length]; lia.
Qed.

Lemma count_le (f g : worker -> bool) (l : list worker) :
  (forall w, f w = true -> g w = true) -> (count f l <= count g l)%nat.
Proof.
  intros H. unfold count. induction l as [|a l IH]; cbn [filter]; [lia|].
  destruct (f a) eqn:E.
  - rewrite (H a E). cbn [List.length]. lia.
  - destruct (g a); cbn [List.length]; lia.
Qed.

Ltac step_inv H :=
  unfold step, cleanup_and_return, recovered, set_worker, set_spawner,
         set_main, log_cleanup in H;
  repeat match type of H with
  | context [match ?x with _ => _ end] => destruct x eqn:?; try discriminate H
  end;
  inversion H; subst; clear H;
  cbn [main paths cleanups spawner remaining dlCount workers limiter ec got
       interrupt] in *.

Ltac use_store f :=
  match goal with
  | H : nth_error ?l ?n = Some ?w |- context [store ?l ?n ?w'] =>
    let C := fresh "C" in
    pose proof (count_store f l n w w' H) as C; cbn in C
  end.

Lemma slots_inv_step (l : label) (s s' : state) :
  slots_inv cfg s -> step cfg l s = Some s' -> slots_inv cfg s'.
Proof.
  unfold slots_inv. intros [HL HC] H.
  destruct l; step_inv H; auto;
    try (rewrite count_app; cbn;
         match goal with E : (_ <? _)%nat = true |- _ => apply Nat.ltb_lt in E end; lia);
    try (use_store holds_slot; lia).
Qed.


Lemma slots_inv_reachable (s : state) : reachable cfg s -> slots_inv cfg s.
Proof.
  apply invariant_reachable.
  - split; [reflexivity|]. cbn. lia.
  - intros l s0 s' _. apply slots_inv_step.
Qed.




Lemma done_ok_nth (ws : list worker) (n : nat) (w : worker) :
  forallb done_ok ws = true -> nth_error ws n = Some w -> wpc w = WDone.
Proof.
  intros HF HN. rewrite forallb_forall in HF.
  specialize (HF w (nth_error_In _ _ HN)). unfold done_ok in HF.
  destruct (wpc w); try discriminate; reflexivity.
Qed.

Lemma finished_not_failed (ws : list worker) :
  forallb finished ws = true -> count failed ws = 0%nat ->
  forallb done_ok ws = true.
Proof.
  unfold count. induction ws as [|w ws IH]; intros HF HC; [reflexivity|].
  cbn [forallb filter] in *. apply andb_true_iff in HF. destruct HF as [Hw HF].
  unfold finished, failed, done_ok in *.
  destruct (wpc w); try discriminate; cbn [List.length] in HC; try discriminate.
  cbn [andb]. now apply IH.
Qed.

Ltac worker_gone :=
  match goal with
  | HF : forallb done_ok ?ws = true, HN : nth_error ?ws _ = Some _ |- _ =>
    pose proof (done_ok_nth _ _ _ HF HN) as Hgone; cbn in Hgone; discriminate Hgone
  end.

Lemma books_inv_step (l : label) (s s' : state) :
  books_inv cfg s -> step cfg l s = Some s' -> books_inv cfg s'.
Proof.
  unfold books_inv, all_ok. intros (HD & HI & HS & HM) H.
  destruct l; step_inv H.
  all: try match goal with HI : ?a = ?a -> _ |- _ => specialize (HI eq_refl) end.
  all: try match goal with E : spawner _ = _ |- _ => rewrite E in HS end.
  all: rewrite ?length_app, ?store_length; cbn [List.length].
  all: (split; [first [assumption | lia]|]).
  all: (split; [first [assumption
                      | intros HX; first [congruence | specialize (HI HX); congruence]]|]).
  all: split.
  (* what the spawner's point in the program promises *)
  all: try first
         [ exact HS | exact I | tauto
         | rewrite count_app; cbn; first [lia | split; [lia|reflexivity]] ].
  all: try (intros ps' HP; first
              [ discriminate HP
              | now apply HM
              | split; [exact HS | intros; congruence]
              | exfalso; destruct (HM ps' HP) as [(HR & _) _]; congruence
              | destruct (HM ps' HP) as [(_ & _ & HF) _]; worker_gone ]).
  all: try (destruct (spawner s) as [| | |[e'|]|]; try exact I;
            try (use_store failed; first [lia | split; [lia|tauto]]);
            destruct HS as (_ & _ & HF); worker_gone).
  all: try (rewrite HI; exact HS).
  (* [wg.Wait()] returned and no error is waiting *)
  destruct HS as [HS HR].
  split; [exact HR|]. split.
  - match goal with E : (_ =? 0)%nat = false |- _ => apply Nat.eqb_neq in E end. lia.
  - apply finished_not_failed; [assumption|]. exact HS.
Qed.

Lemma books_inv_reachable (s : state) : reachable cfg s -> books_inv cfg s.
Proof.
  apply invariant_reachable.
  - unfold books_inv. cbn. repeat split; auto; try discriminate.
    all: intros ps0 H0; discriminate H0.
  - intros l s0 s' _. apply books_inv_step.
Qed.

Hypothesis Cleanup_returns : forall arg, cleanup_returns cfg arg = true.

Lemma cleanup_inv_step (l : label) (s s' : state) :
  cleanup_inv s -> step cfg l s = Some s' -> cleanup_inv s'.
Proof.
  unfold cleanup_inv. intros HI H.
  destruct l; step_inv H; auto;
    try (rewrite ?HI in *; reflexivity);
    try (match goal with
         | E : cleanup_returns cfg _ = false |- _ =>
           rewrite Cleanup_returns in E; discriminate E
         end).
Qed.

Lemma cleanup_inv_reachable (s : state) : reachable cfg s -> cleanup_inv s.
Proof.
  apply invariant_reachable; [reflexivity|].
  intros l s0 s' _. apply cleanup_inv_step.
Qed.

End Coordinator.

(** C8.  In every state of a run the downloaders in progress are at most
    the slots taken from [workerLimiter], which are exactly the workers that
    have not freed theirs, and at most the worker cap; the spawner starts a
    worker only on a step that takes a free slot. *)
Theorem Download_worker_bound (cfg : Manager.run_config) (s : Manager.state) :
  Manager.reachable cfg s ->
  (Manager.in_progress s <= Manager.limiter s)%nat
  /\ Manager.limiter s = Manager.count Manager.holds_slot (Manager.workers s)
  /\ Z.of_nat (Manager.limiter s) <= Z.max 0 (Manager.maxWorkers cfg)
  /\ forall s', Manager.step cfg Manager.SpawnerSpawn s = Some s' ->
       Z.of_nat (Manager.limiter s) < Manager.maxWorkers cfg
       /\ Manager.limiter s' = S (Manager.limiter s)
       /\ Manager.in_progress s' = S (Manager.in_progress s).
Proof.
  intros HR. destruct (slots_inv_reachable cfg s HR) as [HL HC].
  split.
  { rewrite HL. apply count_le. intros w. unfold Manager.running, Manager.holds_slot.
    destruct (Manager.wpc w); intros; try discriminate; reflexivity. }
  split; [exact HL|]. split.
  { unfold Manager.cap in HC. lia. }
  intros s' H. unfold Manager.step in H.
  destruct (Manager.spawner s); try discriminate.
  destruct (Manager.remaining s) as [|dl rest]; try discriminate.
  destruct (Nat.ltb_spec (Manager.limiter s) (Manager.cap cfg)) as [Hlt|]; [|discriminate].
  inversion H; subst s'. unfold Manager.in_progress.
  cbn [Manager.workers Manager.limiter].
  rewrite count_app. cbn. unfold Manager.cap in Hlt. repeat split; lia.
Qed.

Lemma Download_worker_bound_witness :
  exists s,
    Manager.run Manager.quiet_run [Manager.Setup; Manager.SpawnerSpawn]
                (Manager.initial Manager.quiet_run) = Some s
    /\ Manager.in_progress s = 1%nat
    /\ (Manager.in_progress s <= Manager.limiter s)%nat
    /\ Z.of_nat (Manager.limiter s) <= Z.max 0 (Manager.maxWorkers Manager.quiet_run).
Proof.
  eexists. split; [vm_compute; reflexivity|]. split; [reflexivity|].
  match goal with |- (Manager.in_progress ?s <= _)%nat /\ _ =>
    assert (HR : Manager.reachable Manager.quiet_run s)
  end.
  { apply (run_reachable _ [Manager.Setup; Manager.SpawnerSpawn]
             (Manager.initial Manager.quiet_run));
      [apply Manager.reach_initial|vm_compute; reflexivity]. }
  destruct (Download_worker_bound _ _ HR) as (H1 & _ & H3 & _).
  split; [exact H1|exact H3].
Defined.

(** C6, as amended.  For a plugin whose [Cleanup] returns, [Cleanup] has not
    been called while [Download] is running and has been called exactly once
    when it has exited, with the error [Download] returns (or the panic
    value).  The argument is nil exactly when [Download] returns a nil error,
    and then the generator had yielded at least one downloader, every
    downloader had been started and had finished without error, and
    packaging, if it was on, had succeeded. *)
Theorem Download_cleanup_once (cfg : Manager.run_config) (s : Manager.state) :
  (forall arg, Manager.cleanup_returns cfg arg = true) ->
  Manager.reachable cfg s ->
  match Manager.main s with
  | Manager.MStart | Manager.MLoop => Manager.cleanups s = []
  | Manager.MReturned ps err =>
    Manager.cleanups s = [err]
    /\ (err = None ->
        Manager.all_ok s
        /\ (Manager.zipit cfg = true -> Manager.zip cfg = Manager.ZipOk))
  | Manager.MPanicked r => Manager.cleanups s = [Some r]
  end.
Proof.
  intros HC HR.
  pose proof (cleanup_inv_reachable cfg HC s HR) as H1.
  pose proof (books_inv_reachable cfg s HR) as (_ & _ & _ & H2).
  unfold Manager.cleanup_inv in H1.
  destruct (Manager.main s) as [| |ps err|r]; auto.
  split; [exact H1|]. intros ->. now apply (H2 ps).
Qed.

Lemma Download_cleanup_once_witness :
  exists s,
    Manager.run Manager.quiet_run
      [Manager.Setup; Manager.SpawnerSpawn; Manager.WorkerEnd 0;
       Manager.WorkerFree 0; Manager.SpawnerWaited; Manager.MainDone]
      (Manager.initial Manager.quiet_run) = Some s
    /\ Manager.main s = Manager.MReturned [] None
    /\ Manager.cleanups s = [None].
Proof.
  eexists. split; [vm_compute; reflexivity|]. split; [reflexivity|].
  match goal with |- Manager.cleanups ?s = _ =>
    assert (HR : Manager.reachable Manager.quiet_run s)
  end.
  { apply (run_reachable _
             [Manager.Setup; Manager.SpawnerSpawn; Manager.WorkerEnd 0;
              Manager.WorkerFree 0; Manager.SpawnerWaited; Manager.MainDone]
             (Manager.initial Manager.quiet_run));
      [apply Manager.reach_initial|vm_compute; reflexivity]. }
  exact (proj1 (Download_cleanup_once Manager.quiet_run _ (fun _ => eq_refl) HR)).
Defined.

(** C6 as stated fails: a run whose only downloader saves nothing and
    returns nil ends with [Cleanup(nil)] although no artifact was produced
    (none is saved by any downloader, none is recorded or in flight). *)
Lemma Download_nil_cleanup_without_artifact :
  exists s,
    Manager.run Manager.quiet_run
      [Manager.Setup; Manager.SpawnerSpawn; Manager.WorkerEnd 0;
       Manager.WorkerFree 0; Manager.SpawnerWaited; Manager.MainDone]
      (Manager.initial Manager.quiet_run) = Some s
    /\ Manager.main s = Manager.MReturned [] None
    /\ Manager.cleanups s = [None]
    /\ flat_map Manager.saves (Manager.downloaders Manager.quiet_run) = []
    /\ Manager.paths s = [] /\ Manager.got s = [].
Proof. eexists. split; [vm_compute; reflexivity|]. repeat split. Qed.

(** When [Cleanup] itself panics, the deferred function of [Download] calls
    it a second time. *)
Lemma Download_cleanup_twice_when_Cleanup_panics :
  exists s r,
    Manager.run Manager.cleanup_panic_run
      [Manager.Setup; Manager.SpawnerSpawn; Manager.WorkerEnd 0;
       Manager.WorkerFree 0; Manager.SpawnerWaited; Manager.MainDone]
      (Manager.initial Manager.cleanup_panic_run) = Some s
    /\ Manager.main s = Manager.MPanicked r
    /\ Manager.cleanups s = [None; Some r].
Proof. eexists. eexists. split; [vm_compute; reflexivity|]. repeat split. Qed.

Section KeyTables.
Import Loop Scramble BinB.

Lemma reType2Key_Some (s : string) (m : type2Match) :
  reType2Key s = Some m ->
  s = (n1 m ++ "-" ++ n2 m ++ "-" ++ n3 m)%string
  /\ is_number (n1 m) /\ is_number (n2 m)
  /\ nonempty (n3 m) = true /\ all_of is_alpha (n3 m) = true.
Proof.
  unfold reType2Key, is_number.
  destruct (span is_digit s) as [g1 r1] eqn:E1.
  destruct r1 as [|c1 r2]; [discriminate|].
  destruct (Ascii.eqb_spec c1 "-"%char) as [->|Hne].
  2:{ destruct c1 as [[] [] [] [] [] [] [] []]; try discriminate. now elim Hne. }
  destruct (span is_digit r2) as [g2 r3] eqn:E2.
  destruct r3 as [|c3 g3]; [discriminate|].
  destruct (Ascii.eqb_spec c3 "-"%char) as [->|Hne].
  2:{ destruct c3 as [[] [] [] [] [] [] [] []]; try discriminate. now elim Hne. }
  destruct (_ && _) eqn:C; [|discriminate].
  intros H; inversion H; subst m; clear H. cbn [n1 n2 n3].
  repeat (apply andb_true_iff in C; destruct C as [C ?]).
  apply span_spec in E1, E2.
  destruct E1 as (-> & D1 & _), E2 as (-> & D2 & _).
  repeat split; auto.
Qed.

Lemma is_digit_dash : is_digit "-" = false.
Proof. reflexivity. Qed.

Lemma is_digit_plus : is_digit "+" = false.
Proof. reflexivity. Qed.

Lemma reType1Key_intro (hs vs ps payload : string) (sg : ascii) :
  is_number hs -> is_number vs -> is_number ps ->
  is_sign sg = true -> is_digit sg = false ->
  nonempty payload = true -> all_of is_word payload = true ->
  reType1Key ("=" ++ hs ++ "-" ++ vs ++ String sg (ps ++ "-" ++ payload))
  = Some (mkType1Match hs vs (String sg EmptyString) ps payload).
Proof.
  intros [N1 D1] [N2 D2] [N4 D4] Hs Hsd N5 W5.
  cbn [append]. unfold reType1Key.
  rewrite (span_unique is_digit hs (String "-"%char _) D1 is_digit_dash).
  rewrite (span_unique is_digit vs (String sg _) D2 Hsd).
  rewrite (span_unique is_digit ps (String "-"%char _) D4 is_digit_dash).
  now rewrite N1, N2, Hs, N4, N5, W5.
Qed.

Lemma reType2Key_intro (xs ys payload : string) :
  is_number xs -> is_number ys ->
  nonempty payload = true -> all_of is_alpha payload = true ->
  reType2Key (xs ++ "-" ++ ys ++ "-" ++ payload)
  = Some (mkType2Match xs ys payload).
Proof.
  intros [N1 D1] [N2 D2] N3 A3. cbn [append]. unfold reType2Key.
  rewrite (span_unique is_digit xs (String "-"%char _) D1 is_digit_dash).
  rewrite (span_unique is_digit ys (String "-"%char _) D2 is_digit_dash).
  now rewrite N1, N2, N3, A3.
Qed.

Lemma Atoi_small (s : string) (b : Z) :
  all_of is_digit s = true -> b < 2 ^ 63 - 1 ->
  (Atoi s <= b <-> digits_value s <= b) /\ (digits_value s <= b -> Atoi s = digits_value s).
Proof. intros _ Hb. unfold Atoi, maxInt64. lia. Qed.

Lemma index_byte_0 (a : ascii) (t : string) :
  index_byte (String a t) 0 = Ok (byte_val a).
Proof.
  unfold index_byte, len. cbn [String.length].
  replace (0 <? Z.of_nat (S (String.length t))) with true
    by (symmetry; apply Z.ltb_lt; lia).
  reflexivity.
Qed.

Lemma index_nth {A : Type} (l : list A) (i : nat) (a : A) :
  nth_error l i = Some a -> index l (Z.of_nat i) = Ok a.
Proof.
  intros H. unfold index.
  assert (i < List.length l)%nat by (apply nth_error_Some; congruence).
  replace (0 <=? Z.of_nat i) with true by (symmetry; apply Z.leb_le; lia).
  replace (Z.of_nat i <? Z.of_nat (List.length l)) with true
    by (symmetry; apply Z.ltb_lt; lia).
  cbn [andb]. now rewrite Nat2Z.id, H.
Qed.


Lemma gtb_le (a b : Z) : a <= b -> (a >? b) = false.
Proof. intros H. rewrite Z.gtb_ltb. now apply Z.ltb_ge. Qed.

Lemma mul_small (a b : Z) :
  0 <= a < 2 ^ 31 -> 0 <= b < 2 ^ 31 -> mul a b = a * b.
Proof. intros Ha Hb. unfold mul. apply wrap64_small. nia. Qed.

Lemma digits_value_nonneg (s : string) :
  all_of is_digit s = true -> 0 <= digits_value s.
Proof.
  intros H. unfold digits_value.
  apply (digits_value_fold _ (all_of_Forall _ _ H) 0). lia.
Qed.

(** [processType1] on the keys [c], [p] found at index [i]: it returns
    exactly for the Type-1 pairs of the specification. *)
Lemma processType1_cases (ds : Descrambler) (i : Z) (c p : string) :
  index (Ctbl ds) i = Ok c -> index (Ptbl ds) i = Ok p ->
  (exists d, processType1 ds i = Ok d /\ spec_type1_pair c p)
  \/ (exists e, processType1 ds i = Err e /\ ~ spec_type1_pair c p).
Proof.
  intros HC HP.
  destruct (processType1 ds i) as [d|e|q] eqn:E.
  - left. exists d. split; [reflexivity|].
    apply processType1_Ok in E.
    destruct E as (ckey & pkey & cm & pm & I1 & I2 & R1 & R2 & E1 & E2 & E4 & S1 & S2
                   & -> & Hh & Hv & Hp & L1 & L2).
    rewrite HC in I1. rewrite HP in I2. inversion I1; inversion I2; subst ckey pkey.
    cbn [h v padding] in *.
    apply reType1Key_Some in R1, R2.
    destruct R1 as (Dc & D1 & N1 & D2 & N2 & _ & D4 & N4 & W5 & N5).
    destruct R2 as (Dp & _ & _ & _ & _ & _ & _ & _ & W5' & N5').
    rewrite S1 in Dc. rewrite S2, <- E1, <- E2, <- E4 in Dp.
    unfold Atoi, maxInt64 in *.
    exists (m1 cm), (m2 cm), (m4 cm), (m5 cm), (m5 pm).
    unfold is_number. repeat split; auto; try lia; nia.
  - right. exists e. split; [reflexivity|].
    intros (hs & vs & ps & src & dst & -> & -> & Nh & Nv & Np & N5 & W5 & N5' & W5'
            & Hh & Hv & Hhv & L1 & L2).
    unfold processType1 in E. rewrite HC, HP in E. cbn [bind] in E.
    change ("=" ++ hs ++ "-" ++ vs ++ "+" ++ ps ++ "-" ++ src)%string
      with ("=" ++ hs ++ "-" ++ vs ++ String "+" (ps ++ "-" ++ src))%string in E.
    change ("=" ++ hs ++ "-" ++ vs ++ "-" ++ ps ++ "-" ++ dst)%string
      with ("=" ++ hs ++ "-" ++ vs ++ String "-" (ps ++ "-" ++ dst))%string in E.
    rewrite (reType1Key_intro hs vs ps src "+") in E by (auto; reflexivity).
    rewrite (reType1Key_intro hs vs ps dst "-") in E by (auto; reflexivity).
    cbn [m1 m2 m3 m4 m5] in E. rewrite !String.eqb_refl in E. cbn [negb orb] in E.
    destruct Nh as [_ Dh], Nv as [_ Dv].
    pose proof (digits_value_nonneg hs Dh). pose proof (digits_value_nonneg vs Dv).
    assert (Ah : Atoi hs = digits_value hs) by (unfold Atoi, maxInt64; lia).
    assert (Av : Atoi vs = digits_value vs) by (unfold Atoi, maxInt64; lia).
    rewrite Ah, Av in E.
    rewrite (mul_small (digits_value hs) (digits_value vs)) in E by lia.
    rewrite !gtb_le in E by lia.
    cbn [orb] in E.
    assert (T : add (add (digits_value hs) (digits_value vs))
                    (digits_value hs * digits_value vs)
                = digits_value hs + digits_value vs + digits_value hs * digits_value vs).
    { unfold add. rewrite (wrap64_small (digits_value hs + digits_value vs)) by lia.
      apply wrap64_small. nia. }
    rewrite T in E.
    rewrite <- L1 in E at 1. rewrite <- L2 in E. rewrite !Z.eqb_refl in E.
    discriminate E.
  - exfalso. unfold processType1 in E. rewrite HC, HP in E. cbn [bind] in E.
    repeat match type of E with
    | context [match ?x with _ => _ end] => destruct x; try discriminate E
    end.
Qed.


Lemma mapM_Ok {A B : Type} (f : A -> result B) (l : list A) :
  (forall a, In a l -> exists b, f a = Ok b) -> exists bs, mapM f l = Ok bs.
Proof.
  induction l as [|a l IH]; intros H; cbn [mapM]; [eauto|].
  destruct (H a (or_introl eq_refl)) as [b ->]. cbn [bind].
  destruct IH as [bs ->]; [intros; apply H; now right|]. cbn [bind]. eauto.
Qed.

Lemma index_byte_in_range (s : string) (i : Z) :
  0 <= i < len s -> exists b, index_byte s i = Ok b.
Proof.
  intros H. unfold index_byte.
  replace (0 <=? i) with true by (symmetry; apply Z.leb_le; lia).
  replace (i <? len s) with true by (symmetry; apply Z.ltb_lt; lia). cbn [andb].
  destruct (nth_error (bytes_of s) (Z.to_nat i)) eqn:E; [eauto|].
  apply nth_error_None in E. rewrite bytes_of_length in E. unfold len in H. lia.
Qed.

(** [processType2] on a key of small grid numbers: it returns exactly for
    the Type-2 keys of the specification, and does not panic. *)
Lemma processType2_cases (key : string) :
  small_grid key ->
  (exists d, processType2 key = Ok d /\ spec_type2_key key)
  \/ (exists e, processType2 key = Err e /\ ~ spec_type2_key key).
Proof.
  intros HG. unfold processType2.
  destruct (reType2Key key) as [re|] eqn:R.
  2:{ right. eexists. split; [reflexivity|].
      intros (xs & ys & payload & -> & Nx & Ny & N3 & A3 & _).
      rewrite (reType2Key_intro xs ys payload) in R by assumption. discriminate R. }
  destruct (HG re R) as [Bx By].
  pose proof (reType2Key_Some key re R) as (Dk & [Nx Dx] & [Ny Dy] & N3 & A3).
  pose proof (digits_value_nonneg _ Dx) as Px.
  pose proof (digits_value_nonneg _ Dy) as Py.
  assert (Ax : Atoi (n1 re) = digits_value (n1 re)) by (unfold Atoi, maxInt64; lia).
  assert (Ay : Atoi (n2 re) = digits_value (n2 re)) by (unfold Atoi, maxInt64; lia).
  rewrite Ax, Ay. rewrite (mul_small _ _ (conj Px Bx) (conj Py By)).
  set (n := digits_value (n1 re) * digits_value (n2 re)).
  assert (Hn : 0 <= n < 2 ^ 62) by (unfold n; nia).
  assert (M2 : mul n 2 = 2 * n) by (unfold mul; rewrite wrap64_small; lia).
  rewrite M2.
  destruct (Z.eqb_spec (len (n3 re)) (2 * n)) as [EL|NL]; cbn [negb].
  - left.
    replace (n <? 0) with false by (symmetry; apply Z.ltb_ge; lia). cbn [bind].
    match goal with |- context [mapM ?f ?l] => destruct (mapM_Ok f l) as [ps Hps] end.
    { intros i Hi. apply upto_In in Hi.
      assert (Mi : mul i 2 = 2 * i) by (unfold mul; rewrite wrap64_small; lia).
      rewrite Mi.
      assert (Ai : add (2 * i) 1 = 2 * i + 1) by (unfold add; rewrite wrap64_small; lia).
      rewrite Ai.
      destruct (index_byte_in_range (n3 re) (2 * i) ltac:(lia)) as [x ->].
      destruct (index_byte_in_range (n3 re) (2 * i + 1) ltac:(lia)) as [y ->].
      cbn [bind]. repeat match goal with
      | |- context [if ?c then _ else _] => destruct c
      end; eauto. }
    rewrite Hps. cbn [bind]. eexists. split; [reflexivity|].
    exists (n1 re), (n2 re), (n3 re). unfold is_number.
    repeat split; auto. unfold n in EL. lia.
  - right. eexists. split; [reflexivity|].
    intros (xs & ys & payload & Dk' & Nx' & Ny' & N3' & A3' & L).
    rewrite Dk' in R. rewrite (reType2Key_intro xs ys payload) in R by assumption.
    inversion R; subst re. cbn [n1 n2 n3] in *. unfold n in NL. lia.
Qed.


Lemma spec_type1_first (c p : string) :
  spec_type1_pair c p ->
  exists t u, c = String "="%char t /\ p = String "="%char u.
Proof.
  intros (hs & vs & ps & src & dst & -> & -> & _). cbn [append]. eauto.
Qed.

Lemma spec_type2_first (k : string) :
  spec_type2_key k -> exists a t, k = String a t /\ is_digit a = true.
Proof.
  intros (xs & ys & payload & -> & [Nx Dx] & _).
  destruct xs as [|a xs]; [discriminate Nx|]. cbn [append all_of] in *.
  apply andb_true_iff in Dx. destruct Dx as [Da _]. eauto.
Qed.

Lemma startsWithDigit_cons (a : ascii) (t : string) :
  startsWithDigit (String a t) = Ok (is_digit a).
Proof.
  unfold startsWithDigit, is_digit. rewrite index_byte_0. cbn [bind].
  destruct (0x30 <=? byte_val a); cbn [negb andb]; reflexivity.
Qed.

Lemma eq_sign_not_digit (a : ascii) : byte_val a = 0x3D -> is_digit a = false.
Proof. intros H. unfold is_digit. rewrite H. reflexivity. Qed.

(** The end of a turn of the loop of [init], once the keys at [i] have
    been processed with outcome [r] (not a panic) under type [newType]. *)
Lemma init_step_tail (ds : Descrambler) (i : Z) (newType : scrambleKeyType)
  (r : result keyData) :
  newType <> typeUnset -> is_panic r = false ->
  let tail :=
    (_ <- match r with Panic q => Panic q | _ => Ok tt end ;;
     ds1 <- (if keyType_eqb (keyType ds) typeUnset
             then Ok (set_keyType ds newType)
             else if negb (keyType_eqb (keyType ds) newType)
                  then Err "Mixed key types." else Ok ds) ;;
     d <- r ;; Ok (set_data ds1 i d)) in
  (exists ds', tail = Ok ds' /\ keyType ds' = newType /\ is_ok r = true)
  \/ (exists e, tail = Err e
                /\ (is_err r = true
                    \/ (keyType ds <> typeUnset /\ keyType ds <> newType))).
Proof.
  intros Hnt Hr tail. unfold tail.
  destruct r as [d|e|q]; [| |discriminate Hr]; cbn [bind].
  - destruct (keyType ds) eqn:EK, newType; cbn [keyType_eqb negb bind];
      try (now elim Hnt);
      try (left; eexists; split; [reflexivity|]; split;
           [cbn [set_data set_keyType keyType]; try rewrite EK; reflexivity
           |reflexivity]);
      right; eexists; (split; [reflexivity|]); right; split; discriminate.
  - right. destruct (keyType_eqb (keyType ds) typeUnset); cbn [bind].
    + eexists. split; [reflexivity|]. now left.
    + destruct (negb _); cbn [bind]; eexists; (split; [reflexivity|]); now left.
Qed.


(** One turn of the loop of [init] on non-empty keys [c], [p] of small grid
    numbers: it never panics; it goes through exactly when the pair is of
    one scheme that agrees with the key type seen so far. *)
Lemma init_step_cases (ds : Descrambler) (i : nat) (c p : string) :
  nth_error (Ctbl ds) i = Some c -> nth_error (Ptbl ds) i = Some p ->
  c <> EmptyString -> p <> EmptyString -> small_grid c -> small_grid p ->
  (exists ds', init_step ds (Z.of_nat i) = Ok ds'
     /\ ((spec_type1_pair c p /\ keyType ds' = type1)
         \/ ((spec_type2_key c /\ spec_type2_key p) /\ keyType ds' = type2)))
  \/ (exists e, init_step ds (Z.of_nat i) = Err e
        /\ (~ spec_type1_pair c p \/ keyType ds = type2)
        /\ (~ (spec_type2_key c /\ spec_type2_key p) \/ keyType ds = type1)).
Proof.
  intros HC HP Nc Np Gc Gp.
  pose proof (index_nth _ _ _ HC) as IC. pose proof (index_nth _ _ _ HP) as IP.
  destruct c as [|a t]; [now elim Nc|]. destruct p as [|b u]; [now elim Np|].
  assert (NotT2 : is_digit a = false -> ~ (spec_type2_key (String a t)
                                           /\ spec_type2_key (String b u))).
  { intros Ha [H2 _]. apply spec_type2_first in H2.
    destruct H2 as (a' & t' & E & D). inversion E; subst. congruence. }
  assert (NotT2p : is_digit b = false -> ~ (spec_type2_key (String a t)
                                            /\ spec_type2_key (String b u))).
  { intros Hb [_ H2]. apply spec_type2_first in H2.
    destruct H2 as (a' & t' & E & D). inversion E; subst. congruence. }
  assert (NotT1 : byte_val a <> 0x3D \/ byte_val b <> 0x3D ->
                  ~ spec_type1_pair (String a t) (String b u)).
  { intros Hab H1. apply spec_type1_first in H1.
    destruct H1 as (t' & u' & E1 & E2). inversion E1; inversion E2; subst.
    destruct Hab as [Hx|Hx]; now apply Hx. }
  unfold init_step. rewrite IC. cbn [bind]. rewrite index_byte_0. cbn [bind].
  destruct (Z.eqb_spec (byte_val a) 0x3D) as [Ea|Na].
  - rewrite IP. cbn [bind]. rewrite index_byte_0. cbn [bind].
    pose proof (eq_sign_not_digit a Ea) as Da.
    destruct (Z.eqb_spec (byte_val b) 0x3D) as [Eb|Nb]; cbn [bind].
    + (* both keys start with '=' *)
      destruct (processType1_cases ds (Z.of_nat i) _ _ IC IP)
        as [(d & E1 & S1)|(e & E1 & N1)]; rewrite E1.
      * pose proof (init_step_tail ds (Z.of_nat i) type1 (Ok (DataType1 d))
                      ltac:(discriminate) eq_refl) as T. cbv zeta in T.
        destruct T as [(ds' & T & K & _)|(e & T & [Hr|[K1 K2]])].
        -- left. exists ds'. split; [exact T|]. left. now split.
        -- discriminate Hr.
        -- right. exists e. split; [exact T|]. split.
           ++ right. destruct (keyType ds); try reflexivity; congruence.
           ++ left. now apply NotT2.
      * pose proof (init_step_tail ds (Z.of_nat i) type1 (Err e)
                      ltac:(discriminate) eq_refl) as T. cbv zeta in T.
        destruct T as [(ds' & T & _ & Hr)|(e' & T & _)]; [discriminate Hr|].
        right. exists e'. split; [exact T|]. split; [now left|].
        left. now apply NotT2.
    + (* '=' against something else *)
      rewrite startsWithDigit_cons, Da. cbn [bind].
      right. eexists. split; [reflexivity|]. split; left; auto.
  - cbn [bind]. rewrite startsWithDigit_cons. cbn [bind].
    destruct (is_digit a) eqn:Da.
    + rewrite IP. cbn [bind]. rewrite startsWithDigit_cons. cbn [bind].
      destruct (is_digit b) eqn:Db.
      * (* both keys start with a digit *)
        destruct (processType2_cases _ Gc) as [(dc & Ec & Sc)|(ec & Ec & Nc2)]; rewrite Ec;
          cbn [bind].
        -- destruct (processType2_cases _ Gp) as [(dp & Ep & Sp)|(ep & Ep & Np2)];
             rewrite Ep; cbn [bind].
           ++ pose proof (init_step_tail ds (Z.of_nat i) type2
                            (Ok (DataType2 (mkPair dc dp))) ltac:(discriminate) eq_refl) as T.
              cbv zeta in T.
              destruct T as [(ds' & T & K & _)|(e & T & [Hr|[K1 K2]])].
              ** left. exists ds'. split; [exact T|]. right. now split.
              ** discriminate Hr.
              ** right. exists e. split; [exact T|]. split; [left; auto|].
                 right. destruct (keyType ds); try reflexivity; congruence.
           ++ pose proof (init_step_tail ds (Z.of_nat i) type2 (Err ep)
                            ltac:(discriminate) eq_refl) as T. cbv zeta in T.
              destruct T as [(ds' & T & _ & Hr)|(e' & T & _)]; [discriminate Hr|].
              right. exists e'. split; [exact T|]. split; [left; auto|].
              left. tauto.
        -- pose proof (init_step_tail ds (Z.of_nat i) type2 (Err ec)
                         ltac:(discriminate) eq_refl) as T. cbv zeta in T.
           destruct T as [(ds' & T & _ & Hr)|(e' & T & _)]; [discriminate Hr|].
           right. exists e'. split; [exact T|]. split; [left; auto|].
           left. tauto.
      * right. eexists. split; [reflexivity|]. split; left; auto.
    + right. eexists. split; [reflexivity|]. split; left; auto.
Qed.


Lemma spec_types_disjoint (c p : string) :
  spec_type1_pair c p -> ~ (spec_type2_key c /\ spec_type2_key p).
Proof.
  intros H1 [H2 _]. apply spec_type1_first in H1. apply spec_type2_first in H2.
  destruct H1 as (t & u & -> & _). destruct H2 as (a & t' & E & D).
  inversion E; subst. discriminate D.
Qed.

Lemma Forall2_pointwise {A B : Type} (R : A -> B -> Prop) (l : list A) (m : list B) :
  Forall2 R l m <->
  List.length l = List.length m
  /\ forall i a b, nth_error l i = Some a -> nth_error m i = Some b -> R a b.
Proof.
  split.
  - induction 1 as [|a b l m Hab _ [IHl IHp]]; [split; [reflexivity|]|split].
    + intros [|i] a b H; discriminate H.
    + cbn. now rewrite IHl.
    + intros [|i] a' b' Ha Hb; cbn in Ha, Hb.
      * inversion Ha; inversion Hb; subst. exact Hab.
      * eapply IHp; eauto.
  - revert m. induction l as [|a l IH]; intros [|b m] [HL HP]; try discriminate HL.
    + constructor.
    + constructor.
      * apply (HP 0%nat); reflexivity.
      * apply IH. split; [now inversion HL|].
        intros i a' b' Ha Hb. apply (HP (S i)); assumption.
Qed.

Section InitOnPlainTables.

Variables ctbl ptbl : list string.
Hypothesis same_length : List.length ctbl = List.length ptbl.
Hypothesis plain : plain_tables ctbl ptbl.

Lemma plain_key (l : list string) (i : nat) (k : string) :
  (l = ctbl \/ l = ptbl) -> nth_error l i = Some k ->
  k <> EmptyString /\ small_grid k.
Proof.
  intros Hl Hk. unfold plain_tables in plain. rewrite Forall_forall in plain.
  apply plain. apply in_or_app. apply nth_error_In in Hk.
  destruct Hl as [->| ->]; auto.
Qed.

Lemma init_loop_cases (m : nat) :
  forall k ds,
    Ctbl ds = ctbl -> Ptbl ds = ptbl ->
    (k + m <= List.length ctbl)%nat ->
    (exists ds', foldM init_step (map Z.of_nat (seq k m)) ds = Ok ds'
       /\ (m = 0%nat -> ds' = ds)
       /\ (m <> 0%nat ->
           (keyType ds' = type1 /\ keyType ds <> type2
            /\ forall i, (k <= i < k + m)%nat -> pair1 ctbl ptbl i)
           \/ (keyType ds' = type2 /\ keyType ds <> type1
               /\ forall i, (k <= i < k + m)%nat -> pair2 ctbl ptbl i)))
    \/ (exists e, foldM init_step (map Z.of_nat (seq k m)) ds = Err e
          /\ ~ (keyType ds <> type2 /\ forall i, (k <= i < k + m)%nat -> pair1 ctbl ptbl i)
          /\ ~ (keyType ds <> type1 /\ forall i, (k <= i < k + m)%nat -> pair2 ctbl ptbl i)).
Proof.
  induction m as [|m IH]; intros k ds HC HP Hlen.
  - left. exists ds. cbn. repeat split; auto. intros H; now elim H.
  - cbn [seq map foldM].
    destruct (nth_error ctbl k) as [c|] eqn:Ec;
      [|apply nth_error_None in Ec; lia].
    destruct (nth_error ptbl k) as [p|] eqn:Ep;
      [|apply nth_error_None in Ep; lia].
    destruct (plain_key ctbl k c (or_introl eq_refl) Ec) as [Nc Gc].
    destruct (plain_key ptbl k p (or_intror eq_refl) Ep) as [Np Gp].
    assert (P1k : pair1 ctbl ptbl k -> spec_type1_pair c p) by (intros H; now apply H).
    assert (P2k : pair2 ctbl ptbl k -> spec_type2_key c /\ spec_type2_key p)
      by (intros H; now apply H).
    assert (K1 : spec_type1_pair c p -> pair1 ctbl ptbl k).
    { intros H c' p' Hc' Hp'. congruence. }
    assert (K2 : spec_type2_key c /\ spec_type2_key p -> pair2 ctbl ptbl k).
    { intros H c' p' Hc' Hp'. rewrite Ec in Hc'. rewrite Ep in Hp'.
      inversion Hc'; inversion Hp'; subst. exact H. }
    pose proof (spec_types_disjoint c p) as Dis.
    rewrite <- HC in Ec. rewrite <- HP in Ep.
    destruct (init_step_cases ds k c p Ec Ep Nc Np Gc Gp)
      as [(ds1 & E1 & Kind)|(e & E1 & F1 & F2)]; rewrite E1; cbn [bind].
    + pose proof (init_step_Ok _ _ _ E1) as (T1 & T2 & _ & KT & _).
      rewrite HC in T1. rewrite HP in T2.
      destruct (IH (S k) ds1 T1 T2 ltac:(lia))
        as [(ds' & E2 & Z0 & NZ)|(e & E2 & G1 & G2)]; rewrite E2.
      * left. exists ds'. split; [reflexivity|]. split; [intros H; discriminate H|].
        intros _. destruct m as [|m].
        -- rewrite (Z0 eq_refl).
           destruct Kind as [[S1 KT1]|[S2 KT2]]; [left|right];
             (split; [assumption|]); (split; [destruct KT; congruence|]);
             intros i Hi; replace i with k by lia; auto.
        -- destruct (NZ ltac:(discriminate)) as [(A1 & A2 & A3)|(A1 & A2 & A3)];
             destruct Kind as [[S1 KT1]|[S2 KT2]]; try congruence; [left|right];
             (split; [assumption|]); (split; [destruct KT; congruence|]);
             intros i Hi; destruct (Nat.eq_dec i k) as [->|]; auto; apply A3; lia.
      * right. exists e. split; [reflexivity|]. split.
        -- intros [B1 B2]. destruct Kind as [[S1 KT1]|[S2 KT2]].
           ++ apply G1. split; [congruence|]. intros i Hi. apply B2. lia.
           ++ apply (Dis (P1k (B2 k ltac:(lia)))). exact S2.
        -- intros [B1 B2]. destruct Kind as [[S1 KT1]|[S2 KT2]].
           ++ apply (Dis S1). apply P2k. apply B2. lia.
           ++ apply G2. split; [congruence|]. intros i Hi. apply B2. lia.
    + right. exists e. split; [reflexivity|]. split.
      * intros [B1 B2]. destruct F1 as [F1|F1]; [|congruence].
        apply F1. apply P1k. apply B2. lia.
      * intros [B1 B2]. destruct F2 as [F2|F2]; [|congruence].
        apply F2. apply P2k. apply B2. lia.
Qed.

End InitOnPlainTables.

(** On tables without empty keys and with Type-2 grid numbers below 2^31,
    [NewDescrambler] does not panic and returns an error exactly when the
    specification's conditions for acceptance fail. *)
Lemma NewDescrambler_error_iff (ctbl ptbl : list string) :
  plain_tables ctbl ptbl ->
  is_panic (NewDescrambler ctbl ptbl) = false
  /\ (is_err (NewDescrambler ctbl ptbl) = true <-> ~ spec_accepts ctbl ptbl).
Proof.
  intros HP. unfold NewDescrambler, spec_accepts.
  destruct (Nat.eqb_spec (List.length ctbl) (List.length ptbl)) as [EL|NL]; cbn [negb].
  2:{ split; [reflexivity|]. split; [intros _ [H _]; contradiction|reflexivity]. }
  destruct (Nat.eqb_spec (List.length ctbl) 0) as [E0|N0].
  { split; [reflexivity|]. split; [|reflexivity].
    intros _ (_ & H & _). apply H. now apply length_zero_iff_nil. }
  destruct (Nat.eqb_spec (List.length ptbl) 0) as [E0'|_]; [lia|].
  unfold init, upto. cbn [Ctbl]. rewrite Nat2Z.id.
  set (ds0 := mkDescrambler _ _ _ _ _).
  destruct (init_loop_cases ctbl ptbl EL HP (List.length ctbl) 0 ds0 eq_refl eq_refl
              (Nat.le_refl _))
    as [(ds' & E & _ & NZ)|(e & E & G1 & G2)]; rewrite E; cbn [is_panic is_err].
  - split; [reflexivity|]. split; [discriminate|]. intros H. exfalso. apply H.
    split; [exact EL|]. split; [intros ->; now apply N0|].
    destruct (NZ N0) as [(_ & _ & A)|(_ & _ & A)]; [left|right];
      apply Forall2_pointwise; (split; [exact EL|]);
      intros i a b Ha Hb; apply (A i); auto;
      (split; [lia|]); apply nth_error_Some; congruence.
  - split; [reflexivity|]. split; [|reflexivity]. intros _ (_ & _ & [H|H]);
      apply Forall2_pointwise in H; destruct H as [_ H].
    + apply G1. split; [discriminate|]. intros i _ c p Hc Hp. eapply H; eauto.
    + apply G2. split; [discriminate|]. intros i _ c p Hc Hp. eapply H; eauto.
Qed.


Lemma empty_key_rejected_by_spec : ~ spec_accepts [EmptyString] [EmptyString].
Proof.
  intros (_ & _ & [H|H]); inversion H as [|c p l m Hcp _]; subst.
  - apply spec_type1_first in Hcp. destruct Hcp as (t & u & E & _). discriminate E.
  - destruct Hcp as [Hc _]. apply spec_type2_first in Hc.
    destruct Hc as (a & t & E & _). discriminate E.
Qed.

(** On a 64-bit build the product [ndx * ndy * 2] can wrap around to the
    payload length: the key below (274177 * 67280421310721 = 2^64 + 1) is
    accepted with a payload of 2 letters. *)
Lemma NewDescrambler_accepts_wrapped_grid :
  is_ok (NewDescrambler ["274177-67280421310721-aa"%string]
                        ["274177-67280421310721-aa"%string]) = true
  /\ ~ spec_accepts ["274177-67280421310721-aa"%string]
                    ["274177-67280421310721-aa"%string].
Proof.
  split; [vm_compute; reflexivity|].
  intros (_ & _ & [H|H]); inversion H as [|c p l m Hcp _]; subst.
  - apply spec_type1_first in Hcp. destruct Hcp as (t & u & E & _). discriminate E.
  - destruct Hcp as [(xs & ys & payload & E & Nx & Ny & N3 & A3 & L) _].
    pose proof (reType2Key_intro xs ys payload Nx Ny N3 A3) as R.
    rewrite <- E in R. vm_compute in R. inversion R; subst xs ys payload.
    vm_compute in L. discriminate L.
Qed.

End KeyTables.

(** C2, at the failing input.  A table whose key is the empty string does
    not parse as either scheme, so the specification has [NewDescrambler]
    return an error; the code indexes the first byte of the key and panics
    instead. *)
Theorem NewDescrambler_empty_key_panics :
  BinB.NewDescrambler [EmptyString] [EmptyString] = Panic IndexOutOfRange
  /\ is_err (BinB.NewDescrambler [EmptyString] [EmptyString]) = false
  /\ ~ BinB.spec_accepts [EmptyString] [EmptyString].
Proof.
  split; [reflexivity|]. split; [reflexivity|]. exact empty_key_rejected_by_spec.
Qed.

Section Outcomes.
Import Loop.

Lemma div_only_Ok {A : Type} (a : A) : div_only (Ok a).
Proof. right. now exists a. Qed.

Lemma div_only_rem (a b : Z) : div_only (rem a b).
Proof.
  unfold rem. destruct (b =? 0); [now left|apply div_only_Ok].
Qed.

Lemma div_only_bind {A B : Type} (m : result A) (f : A -> result B) :
  div_only m -> (forall a, m = Ok a -> div_only (f a)) -> div_only (bind m f).
Proof.
  intros [->|[a ->]] H; [now left|]. cbn [bind]. now apply H.
Qed.

Lemma div_only_mapM {A B : Type} (f : A -> result B) (l : list A) :
  (forall a, In a l -> div_only (f a)) -> div_only (mapM f l).
Proof.
  induction l as [|a l IH]; intros H; cbn [mapM].
  - apply div_only_Ok.
  - apply div_only_bind; [apply H; now left|]. intros b _.
    apply div_only_bind; [apply IH; intros; apply H; now right|].
    intros bs _. apply div_only_Ok.
Qed.

(** A loop one of whose turns divides by zero, and none of whose turns can
    fail otherwise, divides by zero. *)
Lemma mapM_panics {A B : Type} (f : A -> result B) (l : list A) (a0 : A) :
  (forall a, In a l -> div_only (f a)) ->
  In a0 l -> f a0 = Panic DivideByZero ->
  mapM f l = Panic DivideByZero.
Proof.
  induction l as [|a l IH]; intros H Hin E; [contradiction|]. cbn [mapM].
  destruct (H a (or_introl eq_refl)) as [->|[b Hb]]; [reflexivity|].
  rewrite Hb. cbn [bind].
  destruct Hin as [->|Hin]; [congruence|].
  rewrite IH; auto. intros; apply H; now right.
Qed.

Lemma bind_panics {A B : Type} (m : result A) (f : A -> result B) :
  div_only m -> (forall a, m = Ok a -> f a = Panic DivideByZero) ->
  bind m f = Panic DivideByZero.
Proof.
  intros [->|[a ->]] H; [reflexivity|]. cbn [bind]. now apply H.
Qed.

Lemma mapM_length {A B : Type} (f : A -> result B) (l : list A) :
  forall bs, mapM f l = Ok bs -> List.length bs = List.length l.
Proof.
  induction l as [|a l IH]; intros bs H; cbn [mapM] in H.
  - now inversion H.
  - destruct (f a); try discriminate. cbn [bind] in H.
    destruct (mapM f l) as [bs'| |]; try discriminate. cbn [bind] in H.
    inversion H; subst. cbn. now rewrite (IH bs' eq_refl).
Qed.

Lemma mapM_Forall {A B : Type} (f : A -> result B) (P : B -> Prop) (l : list A) :
  (forall a b, In a l -> f a = Ok b -> P b) ->
  forall bs, mapM f l = Ok bs -> Forall P bs.
Proof.
  induction l as [|a l IH]; intros H bs E; cbn [mapM] in E.
  - inversion E. constructor.
  - destruct (f a) as [b| |] eqn:Fa; try discriminate. cbn [bind] in E.
    destruct (mapM f l) as [bs'| |]; try discriminate. cbn [bind] in E.
    inversion E; subst. constructor.
    + eapply H; [now left|eassumption].
    + apply IH; auto. intros; eapply H; [right; eassumption|eassumption].
Qed.

End Outcomes.

Section Anchors.
Import Img Loop Scramble BookWalker.

Ltac unwrap :=
  unfold add, sub, mul;
  repeat match goal with
  | |- context [wrap64 ?z] =>
    lazymatch z with
    | context [wrap64 _] => fail
    | _ => rewrite (wrap64_small z) by lia
    end
  end.

(** The anchor tile of an axis with [rects] tiles. *)
Lemma anchor_value (c rects pattern : Z) :
  1 <= rects < 2 ^ 31 -> 0 <= c <= 100 -> 1 <= pattern <= 4 ->
  exists i, anchor c rects pattern = Ok i
    /\ (1 <= i <= rects - 1
        \/ (rects = 1 /\ i = 0)
        \/ (rects = 3 /\ i = -1 /\ Z.rem (c * pattern) 3 = 0)).
Proof.
  intros Hr Hc Hp. unfold anchor.
  assert (Hn : rects <> 0) by lia.
  rewrite (rem_nonzero _ _ Hn). cbn [bind].
  replace (mul c pattern) with (c * pattern)
    by (unfold mul; rewrite wrap64_small; simpl; nia).
  pose proof (Z.rem_bound_pos (c * pattern) rects ltac:(nia) ltac:(lia)) as Hm.
  set (m := Z.rem (c * pattern) rects) in *.
  replace (sub rects m) with (rects - m)
    by (unfold sub; rewrite wrap64_small; simpl; lia).
  rewrite (rem_nonzero _ _ Hn). cbn [bind].
  destruct (Z.eq_dec m 0) as [E|E].
  - rewrite E, Z.sub_0_r, Z.rem_same by lia. cbn [Z.eqb].
    rewrite (rem_nonzero _ _ Hn). cbn [bind]. unfold jsc.
    replace (sub rects 4) with (rects - 4)
      by (unfold sub; rewrite wrap64_small; simpl; lia).
    replace (sub rects 1) with (rects - 1)
      by (unfold sub; rewrite wrap64_small; simpl; lia).
    destruct (Z_lt_dec rects 4) as [Hs|Hs].
    + assert (Hc3 : rects = 1 \/ rects = 2 \/ rects = 3) by lia.
      destruct Hc3 as [->|[->| ->]]; cbn; eexists; split; try reflexivity.
      * right; left; lia.
      * left; lia.
      * right; right. repeat split. subst m. exact E.
    + rewrite Z.rem_small by lia.
      destruct (rects - 4 =? 0) eqn:E4; eexists; split; try reflexivity.
      * apply Z.eqb_eq in E4. left. lia.
      * apply Z.eqb_neq in E4. left. lia.
  - rewrite Z.rem_small by lia.
    assert (E0 : (rects - m =? 0) = false) by (apply Z.eqb_neq; lia).
    rewrite E0. cbn [bind]. rewrite E0.
    eexists; split; [reflexivity|]. left; lia.
Qed.

Lemma anchor_minus_one (c pattern : Z) :
  c = jsd \/ c = jse -> 1 <= pattern <= 4 -> Z.rem (c * pattern) 3 = 0 -> pattern = 3.
Proof.
  intros Hc Hp. assert (H : pattern = 1 \/ pattern = 2 \/ pattern = 3 \/ pattern = 4) by lia.
  destruct Hc as [-> | ->], H as [->|[->|[->| ->]]]; cbn; intros; congruence || lia.
Qed.


Lemma div_only_calcXY (coordY unk1 unk2 rectangleCountX pattern : Z) :
  div_only (calcXCoordinateYRest coordY unk1 unk2 rectangleCountX pattern).
Proof.
  unfold calcXCoordinateYRest.
  destruct (if coordY <? unk2 then _ else _);
    (apply div_only_bind; [apply div_only_rem|intros; apply div_only_Ok]).
Qed.

Lemma div_only_calcYX (coordX unk1 unk2 rectangleCountY pattern : Z) :
  div_only (calcYCoordinateXRest coordX unk1 unk2 rectangleCountY pattern).
Proof.
  unfold calcYCoordinateXRest.
  destruct (if coordX <? unk1 then _ else _);
    (apply div_only_bind; [apply div_only_rem|intros; apply div_only_Ok]).
Qed.

Lemma div_only_top (i n rectsX rectsY remainderX remainderY pattern : Z) (l : list Z) :
  div_only
    (mapM (fun s =>
       u <- calcXCoordinateXRest s rectsX pattern ;;
       v <- calcYCoordinateXRest u i n rectsY pattern ;;
       let q := calcPositionWithRest u i remainderX rectangleWidth in
       let r := mul v rectangleHeight in
       let o := calcPositionWithRest s i remainderX rectangleWidth in
       let p := mul n rectangleHeight in
       Ok (mkRect (mkPoint q r) (mkPoint o p) rectangleWidth remainderY)) l).
Proof.
  apply div_only_mapM. intros s _.
  apply div_only_bind; [apply div_only_rem|]. intros u _.
  apply div_only_bind; [apply div_only_calcYX|]. intros; apply div_only_Ok.
Qed.

Lemma div_only_side (i n rectsX rectsY remainderX remainderY pattern : Z) (l : list Z) :
  div_only
    (mapM (fun t =>
       v <- calcYCoordinateYRest t rectsY pattern ;;
       u <- calcXCoordinateYRest v i n rectsX pattern ;;
       let q := mul u rectangleWidth in
       let r := calcPositionWithRest v n remainderY rectangleHeight in
       let o := mul i rectangleWidth in
       let p := calcPositionWithRest t n remainderY rectangleHeight in
       Ok (mkRect (mkPoint q r) (mkPoint o p) remainderX rectangleHeight)) l).
Proof.
  apply div_only_mapM. intros s _.
  apply div_only_bind; [apply div_only_rem|]. intros u _.
  apply div_only_bind; [apply div_only_calcXY|]. intros; apply div_only_Ok.
Qed.

(** The body of the two nested loops over the full tiles. *)
Lemma div_only_tile (i n rectsX rectsY remainderX remainderY pattern s t : Z) :
  div_only
    (u <- rem (add (add s (mul pattern jsj)) (mul jsl t)) rectsX ;;
     v <- rem (add (add t (mul pattern jsk)) (mul jsm u)) rectsY ;;
     xr <- calcXCoordinateYRest v i n rectsX pattern ;;
     let w := if u >=? xr then remainderX else 0 in
     yr <- calcYCoordinateXRest u i n rectsY pattern ;;
     let x := if v >=? yr then remainderY else 0 in
     let q := add (mul u rectangleWidth) w in
     let r := add (mul v rectangleHeight) x in
     let o := mul s rectangleWidth in
     let o := if s >=? i then add o remainderX else o in
     let p := mul t rectangleHeight in
     let p := if t >=? n then add p remainderY else p in
     Ok (mkRect (mkPoint q r) (mkPoint o p) rectangleWidth rectangleHeight)).
Proof.
  apply div_only_bind; [apply div_only_rem|]. intros u _.
  apply div_only_bind; [apply div_only_rem|]. intros v _.
  apply div_only_bind; [apply div_only_calcXY|]. intros xr _.
  apply div_only_bind; [apply div_only_calcYX|]. intros; apply div_only_Ok.
Qed.

(** A residue of the walk [t + 37 * pattern] over the rows is reached. *)
Lemma residue_reached (k rects target : Z) :
  1 <= rects -> 0 <= k -> 0 <= target < rects ->
  exists t, 0 <= t < rects /\ Z.rem (t + k) rects = target.
Proof.
  intros Hr Hk Ht. exists ((target - k) mod rects).
  pose proof (Z.mod_pos_bound (target - k) rects ltac:(lia)) as Hb.
  split; [lia|].
  rewrite Z.rem_mod_nonneg by lia.
  rewrite Zplus_mod_idemp_l. replace (target - k + k) with target by lia.
  apply Z.mod_small. lia.
Qed.


Lemma upto_1 : upto 1 = [0].
Proof. reflexivity. Qed.

Lemma quot_64_one (x : Z) : 64 <= x < 128 -> Z.quot x 64 = 1.
Proof.
  intros H. symmetry. apply (Z.quot_unique x 64 1 (x - 64)); lia.
Qed.

Lemma quot_64_pos (x : Z) : 64 <= x -> 1 <= Z.quot x 64.
Proof. intros H. apply Z.quot_le_lower_bound; lia. Qed.

Lemma quot_64_bound (x : Z) : 0 <= x < 2 ^ 31 -> 0 <= Z.quot x 64 < 2 ^ 25.
Proof.
  intros H. split; [apply Z.quot_pos; lia|].
  apply Z.quot_lt_upper_bound; lia.
Qed.

(** One tile across: the loop over the rows divides by zero. *)
Lemma generateRectangles_one_column (sw sh pattern : Z) :
  64 <= sw < 128 -> 64 <= sh < 2 ^ 31 -> 1 <= pattern <= 4 ->
  generateRectangles sw sh pattern = Panic DivideByZero.
Proof.
  intros Hw Hh Hp. unfold generateRectangles, rectangleWidth, rectangleHeight.
  rewrite (quot_64_one sw Hw).
  pose proof (quot_64_pos sh ltac:(lia)) as Hy1.
  pose proof (quot_64_bound sh ltac:(lia)) as Hy2.
  set (rectsY := Z.quot sh 64) in *.
  set (remainderX := Z.rem sw 64). set (remainderY := Z.rem sh 64).
  replace (mul 1 rectsY) with rectsY by (unfold mul; rewrite wrap64_small; lia).
  replace (rectsY <? 0) with false by (symmetry; apply Z.ltb_ge; lia).
  cbn [bind].
  destruct (anchor_value jsd 1 pattern ltac:(lia) ltac:(unfold jsd; lia) Hp)
    as [i [-> Hi]]. cbn [bind].
  assert (i = 0) by lia. subst i. clear Hi.
  destruct (anchor_value jse rectsY pattern ltac:(lia) ltac:(unfold jse; lia) Hp)
    as [n [-> Hn]]. cbn [bind].
  apply bind_panics.
  { destruct (remainderY >? 0); [apply div_only_top|apply div_only_Ok]. }
  intros top _. apply bind_panics.
  { destruct (remainderX >? 0); [apply div_only_side|apply div_only_Ok]. }
  intros side _. apply bind_panics.
  { apply div_only_mapM. intros s _. apply div_only_mapM. intros t _.
    apply div_only_tile. }
  intros bulk Hbulk. exfalso. revert Hbulk. rewrite upto_1. cbn [mapM].
  (* the row that divides by zero *)
  assert (HT : exists t, In t (upto rectsY) /\
    (u <- rem (add (add 0 (mul pattern jsj)) (mul jsl t)) 1 ;;
     v <- rem (add (add t (mul pattern jsk)) (mul jsm u)) rectsY ;;
     xr <- calcXCoordinateYRest v 0 n 1 pattern ;;
     let w := if u >=? xr then remainderX else 0 in
     yr <- calcYCoordinateXRest u 0 n rectsY pattern ;;
     let x := if v >=? yr then remainderY else 0 in
     let q := add (mul u 64) w in
     let r := add (mul v 64) x in
     let o := mul 0 64 in
     let o := if 0 >=? 0 then add o remainderX else o in
     let p := mul t 64 in
     let p := if t >=? n then add p remainderY else p in
     Ok (mkRect (mkPoint q r) (mkPoint o p) 64 64)) = Panic DivideByZero).
  { assert (Hcase : (Z.rem pattern 2 =? 1) = true
                    \/ ((Z.rem pattern 2 =? 1) = false /\ 1 <= n)
                    \/ ((Z.rem pattern 2 =? 1) = false /\ n = 0 /\ rectsY = 1)).
    { destruct (Z.rem pattern 2 =? 1) eqn:El; [now left|right].
      destruct Hn as [Hn|[[H1 H2]|[H1 [H2 H3]]]]; [left; split; [reflexivity|lia]|right; auto|].
      apply anchor_minus_one in H3; auto. subst pattern. discriminate El. }
    assert (Hstep : forall t target, 0 <= t < rectsY ->
      Z.rem (t + 37 * pattern) rectsY = target ->
      calcXCoordinateYRest target 0 n 1 pattern = Panic DivideByZero
      \/ (calcXCoordinateYRest target 0 n 1 pattern = Ok 0
          /\ calcYCoordinateXRest 0 0 n rectsY pattern = Panic DivideByZero) ->
      In t (upto rectsY) /\
      (u <- rem (add (add 0 (mul pattern jsj)) (mul jsl t)) 1 ;;
       v <- rem (add (add t (mul pattern jsk)) (mul jsm u)) rectsY ;;
       xr <- calcXCoordinateYRest v 0 n 1 pattern ;;
       let w := if u >=? xr then remainderX else 0 in
       yr <- calcYCoordinateXRest u 0 n rectsY pattern ;;
       let x := if v >=? yr then remainderY else 0 in
       let q := add (mul u 64) w in
       let r := add (mul v 64) x in
       let o := mul 0 64 in
       let o := if 0 >=? 0 then add o remainderX else o in
       let p := mul t 64 in
       let p := if t >=? n then add p remainderY else p in
       Ok (mkRect (mkPoint q r) (mkPoint o p) 64 64)) = Panic DivideByZero).
    { intros t target Ht Hv Hc. split; [apply upto_In; lia|].
      rewrite (rem_nonzero _ 1) by lia. cbn [bind]. rewrite Z.rem_1_r.
      rewrite (rem_nonzero _ rectsY) by lia. cbn [bind].
      replace (add (add t (mul pattern jsk)) (mul jsm 0)) with (t + 37 * pattern)
        by (unfold jsk, jsm; unwrap; lia).
      rewrite Hv.
      destruct Hc as [->|[-> ->]]; reflexivity. }
    destruct Hcase as [El|[[El Hn1]|[El [Hn0 Hr1]]]].
    - destruct (residue_reached (37 * pattern) rectsY (rectsY - 1)
                  ltac:(lia) ltac:(lia) ltac:(lia)) as [t [Ht Hv]].
      exists t. apply (Hstep t (rectsY - 1) Ht Hv). left.
      unfold calcXCoordinateYRest. rewrite El.
      replace (rectsY - 1 <? n) with false by (symmetry; apply Z.ltb_ge; lia).
      reflexivity.
    - destruct (residue_reached (37 * pattern) rectsY 0
                  ltac:(lia) ltac:(lia) ltac:(lia)) as [t [Ht Hv]].
      exists t. apply (Hstep t 0 Ht Hv). left.
      unfold calcXCoordinateYRest. rewrite El.
      replace (0 <? n) with true by (symmetry; apply Z.ltb_lt; lia).
      reflexivity.
    - destruct (residue_reached (37 * pattern) rectsY 0
                  ltac:(lia) ltac:(lia) ltac:(lia)) as [t [Ht Hv]].
      exists t. apply (Hstep t 0 Ht Hv). right. subst n.
      unfold calcXCoordinateYRest, calcYCoordinateXRest. rewrite El.
      cbn [Z.ltb Z.compare negb]. split; [|reflexivity].
      rewrite (rem_nonzero _ (sub 1 0)) by (cbn; lia). cbn [bind].
      replace (sub 1 0) with 1 by reflexivity. now rewrite Z.rem_1_r. }
  destruct HT as [t [Hin Ht]].
  rewrite (mapM_panics _ _ t); [discriminate| |exact Hin|exact Ht].
  intros t' _. apply div_only_tile.
Qed.


(** One tile down and at least two across: the loop over the columns
    divides by zero, unless the anchor column is -1. *)
Lemma generateRectangles_one_row (sw sh pattern : Z) :
  128 <= sw < 2 ^ 31 -> 64 <= sh < 128 -> 1 <= pattern <= 4 ->
  ~ (192 <= sw < 256 /\ pattern = 3) ->
  generateRectangles sw sh pattern = Panic DivideByZero.
Proof.
  intros Hw Hh Hp Hex. unfold generateRectangles, rectangleWidth, rectangleHeight.
  rewrite (quot_64_one sh Hh).
  pose proof (quot_64_bound sw ltac:(lia)) as Hx2.
  assert (Hx1 : 2 <= Z.quot sw 64) by (apply Z.quot_le_lower_bound; lia).
  assert (Hx3 : Z.quot sw 64 = 3 -> 192 <= sw < 256).
  { intros E. pose proof (Z.quot_rem' sw 64) as Q.
    pose proof (Z.rem_bound_pos sw 64 ltac:(lia) ltac:(lia)). lia. }
  set (rectsX := Z.quot sw 64) in *.
  set (remainderX := Z.rem sw 64). set (remainderY := Z.rem sh 64).
  replace (mul rectsX 1) with rectsX by (unfold mul; rewrite wrap64_small; lia).
  replace (rectsX <? 0) with false by (symmetry; apply Z.ltb_ge; lia).
  cbn [bind].
  destruct (anchor_value jsd rectsX pattern ltac:(lia) ltac:(unfold jsd; lia) Hp)
    as [i [-> Hi]]. cbn [bind].
  destruct (anchor_value jse 1 pattern ltac:(lia) ltac:(unfold jse; lia) Hp)
    as [n [-> Hn]]. cbn [bind].
  assert (n = 0) by lia. subst n. clear Hn.
  assert (Hi' : 1 <= i <= rectsX - 1).
  { destruct Hi as [Hi|[[H1 H2]|[H1 [H2 H3]]]]; [exact Hi|lia|].
    apply anchor_minus_one in H3; auto. exfalso. apply Hex. split; auto. }
  clear Hi.
  apply bind_panics.
  { destruct (remainderY >? 0); [apply div_only_top|apply div_only_Ok]. }
  intros top _. apply bind_panics.
  { destruct (remainderX >? 0); [apply div_only_side|apply div_only_Ok]. }
  intros side _. apply bind_panics.
  { apply div_only_mapM. intros s _. apply div_only_mapM. intros t _.
    apply div_only_tile. }
  intros bulk Hbulk. exfalso. revert Hbulk. rewrite upto_1.
  set (target := if Z.rem pattern 2 =? 1 then 0 else rectsX - 1).
  destruct (residue_reached (29 * pattern) rectsX target
              ltac:(lia) ltac:(lia)
              ltac:(unfold target; destruct (Z.rem pattern 2 =? 1); lia))
    as [s [Hs Hu]].
  rewrite (mapM_panics _ _ s); [discriminate| |apply upto_In; lia|].
  - intros s' _. apply div_only_mapM. intros t _. apply div_only_tile.
  - cbn [mapM].
    rewrite (rem_nonzero _ rectsX) by lia. cbn [bind].
    replace (add (add s (mul pattern jsj)) (mul jsl 0)) with (s + 29 * pattern)
      by (unfold jsj, jsl; unwrap; lia).
    rewrite Hu.
    rewrite (rem_nonzero _ 1) by lia. cbn [bind]. rewrite Z.rem_1_r.
    assert (HX : exists xr, calcXCoordinateYRest 0 i 0 rectsX pattern = Ok xr).
    { unfold calcXCoordinateYRest. cbn [Z.ltb Z.compare].
      destruct (negb (Z.rem pattern 2 =? 1)).
      - rewrite rem_nonzero by (unfold sub; rewrite wrap64_small; lia).
        cbn [bind]. eauto.
      - rewrite rem_nonzero by lia. cbn [bind]. eauto. }
    destruct HX as [xr ->]. cbn [bind].
    assert (HY : calcYCoordinateXRest target i 0 1 pattern = Panic DivideByZero).
    { unfold calcYCoordinateXRest, target.
      destruct (Z.rem pattern 2 =? 1).
      - replace (0 <? i) with true by (symmetry; apply Z.ltb_lt; lia). reflexivity.
      - replace (rectsX - 1 <? i) with false by (symmetry; apply Z.ltb_ge; lia).
        reflexivity. }
    rewrite HY. reflexivity.
Qed.

Lemma length_concat_const {A : Type} (n : nat) (ls : list (list A)) :
  Forall (fun l => List.length l = n) ls ->
  List.length (List.concat ls) = (List.length ls * n)%nat.
Proof.
  induction 1 as [|l ls Hl _ IH]; [reflexivity|].
  cbn. rewrite length_app, IH, Hl. reflexivity.
Qed.

(** When no divisor is zero the three loops run to their end, and the
    list holds one rectangle per turn. *)
Lemma generateRectangles_Ok_count (sw sh pattern i n : Z) :
  64 <= sw < 2 ^ 31 -> 64 <= sh < 2 ^ 31 -> 1 <= pattern <= 4 ->
  anchor jsd (Z.quot sw 64) pattern = Ok i ->
  anchor jse (Z.quot sh 64) pattern = Ok n ->
  (forall v, 0 <= v ->
     exists r, calcXCoordinateYRest v i n (Z.quot sw 64) pattern = Ok r) ->
  (forall u, 0 <= u ->
     exists r, calcYCoordinateXRest u i n (Z.quot sh 64) pattern = Ok r) ->
  exists rects,
    generateRectangles sw sh pattern = Ok rects
    /\ Z.of_nat (List.length rects) = rectangle_count sw sh.
Proof.
  intros Hw Hh Hp Ai An HX HY.
  unfold generateRectangles, rectangle_count, rectangleWidth, rectangleHeight.
  pose proof (quot_64_pos sw ltac:(lia)) as Hx1.
  pose proof (quot_64_bound sw ltac:(lia)) as Hx2.
  pose proof (quot_64_pos sh ltac:(lia)) as Hy1.
  pose proof (quot_64_bound sh ltac:(lia)) as Hy2.
  rewrite Ai, An.
  set (rectsX := Z.quot sw 64) in *. set (rectsY := Z.quot sh 64) in *.
  set (remainderX := Z.rem sw 64). set (remainderY := Z.rem sh 64).
  replace (mul rectsX rectsY) with (rectsX * rectsY)
    by (unfold mul; rewrite wrap64_small; nia).
  replace (rectsX * rectsY <? 0) with false by (symmetry; apply Z.ltb_ge; nia).
  cbn [bind].
  (* the bottom strip *)
  match goal with |- context [bind (if remainderY >? 0 then mapM ?f ?l else _)] =>
    assert (Htop : exists top, mapM f l = Ok top) end.
  { apply mapM_Ok. intros s Hs. apply upto_In in Hs.
    unfold calcXCoordinateXRest. rewrite rem_nonzero by lia. cbn [bind].
    destruct (HY (Z.rem (add s (mul jsa pattern)) rectsX)) as [v ->].
    - apply Z.rem_nonneg; [lia|]. unfold jsa. unwrap. lia.
    - cbn [bind]. eauto. }
  destruct Htop as [top Htop].
  pose proof (mapM_length _ _ _ Htop) as Ltop. rewrite upto_length in Ltop.
  (* the right strip *)
  match goal with |- context [bind (if remainderX >? 0 then mapM ?f ?l else _)] =>
    assert (Hside : exists side, mapM f l = Ok side) end.
  { apply mapM_Ok. intros t Ht. apply upto_In in Ht.
    unfold calcYCoordinateYRest. rewrite rem_nonzero by lia. cbn [bind].
    destruct (HX (Z.rem (add t (mul jsb pattern)) rectsY)) as [u ->].
    - apply Z.rem_nonneg; [lia|]. unfold jsb. unwrap. lia.
    - cbn [bind]. eauto. }
  destruct Hside as [side Hside].
  pose proof (mapM_length _ _ _ Hside) as Lside. rewrite upto_length in Lside.
  (* the full tiles *)
  match goal with |- context [bind (mapM ?f (upto rectsX))] =>
    assert (Hbulk : exists bulk, mapM f (upto rectsX) = Ok bulk
                      /\ Forall (fun l => List.length l = Z.to_nat rectsY) bulk) end.
  { match goal with |- exists bulk, mapM ?f _ = _ /\ _ =>
      assert (Hin : forall s, In s (upto rectsX) -> exists b, f s = Ok b) end.
    { intros s Hs. apply upto_In in Hs. apply mapM_Ok. intros t Ht.
      apply upto_In in Ht.
      rewrite (rem_nonzero _ rectsX) by lia. cbn [bind].
      set (u := Z.rem _ rectsX).
      assert (Hu : 0 <= u < rectsX).
      { apply Z.rem_bound_pos; [|lia]. unfold jsj, jsl. unwrap. lia. }
      rewrite (rem_nonzero _ rectsY) by lia. cbn [bind].
      set (v := Z.rem _ rectsY).
      assert (Hv : 0 <= v).
      { apply Z.rem_nonneg; [lia|]. unfold jsk, jsm. unwrap. lia. }
      destruct (HX v Hv) as [xr ->]. cbn [bind].
      destruct (HY u ltac:(lia)) as [yr ->]. cbn [bind]. eauto. }
    destruct (mapM_Ok _ _ Hin) as [bulk Hb]. exists bulk. split; [exact Hb|].
    eapply mapM_Forall; [|exact Hb]. cbn beta. intros s b _ E.
    apply mapM_length in E. now rewrite upto_length in E. }
  destruct Hbulk as [bulk [Hbulk Lb]].
  pose proof (mapM_length _ _ _ Hbulk) as Lbulk. rewrite upto_length in Lbulk.
  pose proof (length_concat_const _ _ Lb) as Lc. rewrite Lbulk in Lc.
  rewrite Hbulk.
  destruct (remainderX >? 0), (remainderY >? 0);
    rewrite ?Htop, ?Hside; cbn [bind andb];
    (eexists; split; [reflexivity|]);
    rewrite ?length_app, Lc, ?Ltop, ?Lside; cbn [List.length]; nia.
Qed.


(** With the anchor strictly inside the axis both divisors of a
    coordinate helper are positive, and the coordinate is a tile index. *)
Lemma calcXY_range (coordY i n rectsX pattern : Z) :
  1 <= i <= rectsX - 1 -> rectsX < 2 ^ 31 -> 0 <= coordY < 2 ^ 31 ->
  1 <= pattern <= 4 ->
  exists xr, calcXCoordinateYRest coordY i n rectsX pattern = Ok xr
             /\ 0 <= xr < rectsX.
Proof.
  intros Hi Hr Hc Hp. unfold calcXCoordinateYRest.
  set (m := add (add (add coordY (mul pattern jsh)) i) jsi).
  assert (Hm : 0 <= m) by (unfold m, jsh, jsi; unwrap; lia).
  destruct (if coordY <? n then _ else _).
  - replace (sub rectsX i) with (rectsX - i) by (unwrap; lia).
    rewrite rem_nonzero by lia. cbn [bind]. eexists; split; [reflexivity|].
    pose proof (Z.rem_bound_pos m (rectsX - i) Hm ltac:(lia)). unwrap. lia.
  - rewrite rem_nonzero by lia. cbn [bind]. eexists; split; [reflexivity|].
    pose proof (Z.rem_bound_pos m i Hm ltac:(lia)). unwrap. lia.
Qed.

Lemma calcYX_range (coordX i n rectsY pattern : Z) :
  1 <= n <= rectsY - 1 -> rectsY < 2 ^ 31 -> 0 <= coordX < 2 ^ 31 ->
  1 <= pattern <= 4 ->
  exists yr, calcYCoordinateXRest coordX i n rectsY pattern = Ok yr
             /\ 0 <= yr < rectsY.
Proof.
  intros Hn Hr Hc Hp. unfold calcYCoordinateXRest.
  set (m := add (add coordX (mul pattern jsf)) (mul n jsg)).
  assert (Hm : 0 <= m) by (unfold m, jsf, jsg; unwrap; lia).
  destruct (if coordX <? i then _ else _).
  - rewrite rem_nonzero by lia. cbn [bind]. eexists; split; [reflexivity|].
    pose proof (Z.rem_bound_pos m n Hm ltac:(lia)). unwrap. lia.
  - replace (sub rectsY n) with (rectsY - n) by (unwrap; lia).
    rewrite rem_nonzero by lia. cbn [bind]. eexists; split; [reflexivity|].
    pose proof (Z.rem_bound_pos m (rectsY - n) Hm ltac:(lia)). unwrap. lia.
Qed.

(** The anchor -1 of a three-tile axis under pattern 3: the divisors are
    4 and -1. *)
Lemma calcXY_minus_one (coordY n pattern : Z) :
  exists xr, calcXCoordinateYRest coordY (-1) n 3 pattern = Ok xr.
Proof.
  unfold calcXCoordinateYRest.
  destruct (if coordY <? n then _ else _);
    (rewrite rem_nonzero by (cbn; lia)); cbn [bind]; eauto.
Qed.

Lemma generateRectangles_two_by_two (sw sh pattern : Z) :
  128 <= sw < 2 ^ 31 -> 128 <= sh < 2 ^ 31 -> 1 <= pattern <= 4 ->
  exists rects,
    generateRectangles sw sh pattern = Ok rects
    /\ Z.of_nat (List.length rects) = rectangle_count sw sh.
Proof.
  intros Hw Hh Hp.
  pose proof (quot_64_bound sw ltac:(lia)) as Hx2.
  pose proof (quot_64_bound sh ltac:(lia)) as Hy2.
  assert (Hx1 : 2 <= Z.quot sw 64) by (apply Z.quot_le_lower_bound; lia).
  assert (Hy1 : 2 <= Z.quot sh 64) by (apply Z.quot_le_lower_bound; lia).
  destruct (anchor_value jsd (Z.quot sw 64) pattern ltac:(lia) ltac:(unfold jsd; lia) Hp)
    as [i [Ai Hi]].
  destruct (anchor_value jse (Z.quot sh 64) pattern ltac:(lia) ltac:(unfold jse; lia) Hp)
    as [n [An Hn]].
  apply (generateRectangles_Ok_count sw sh pattern i n); auto; try lia.
  - intros v _. unfold calcXCoordinateYRest.
    assert (Hs : sub (Z.quot sw 64) i <> 0) by (unwrap; lia).
    assert (Hz : i <> 0) by lia.
    destruct (if v <? n then _ else _); rewrite rem_nonzero by assumption;
      cbn [bind]; eauto.
  - intros u _. unfold calcYCoordinateXRest.
    assert (Hs : sub (Z.quot sh 64) n <> 0) by (unwrap; lia).
    assert (Hz : n <> 0) by lia.
    destruct (if u <? i then _ else _); rewrite rem_nonzero by assumption;
      cbn [bind]; eauto.
Qed.

Lemma quot_64_three (x : Z) : 192 <= x < 256 -> Z.quot x 64 = 3.
Proof.
  intros H. symmetry. apply (Z.quot_unique x 64 3 (x - 192)); lia.
Qed.

Lemma generateRectangles_three_by_one (sw sh : Z) :
  192 <= sw < 256 -> 64 <= sh < 128 ->
  exists rects,
    generateRectangles sw sh 3 = Ok rects
    /\ Z.of_nat (List.length rects) = rectangle_count sw sh.
Proof.
  intros Hw Hh.
  apply (generateRectangles_Ok_count sw sh 3 (-1) 0); try lia.
  - now rewrite (quot_64_three sw Hw).
  - now rewrite (quot_64_one sh Hh).
  - intros v _. rewrite (quot_64_three sw Hw). apply calcXY_minus_one.
  - intros u Hu. rewrite (quot_64_one sh Hh). unfold calcYCoordinateXRest.
    replace (u <? -1) with false by (symmetry; apply Z.ltb_ge; lia).
    change (Z.rem 3 2 =? 1) with true. cbn [negb].
    change (sub 1 0) with 1. cbn iota beta.
    rewrite rem_nonzero by lia. cbn [bind]. eauto.
Qed.


Ltac split_bind H x E :=
  match type of H with
  | context [bind ?m _] =>
    destruct m as [x| |] eqn:E; try discriminate H; cbn [bind] in H
  end.

(** With both anchors strictly inside their axes every rectangle lies
    inside the image, source and destination. *)
Lemma generateRectangles_within (sw sh pattern : Z) (rects : list scrambleRectangle) :
  128 <= sw < 2 ^ 31 -> 128 <= sh < 2 ^ 31 -> 1 <= pattern <= 4 ->
  ~ (pattern = 3 /\ (192 <= sw < 256 \/ 192 <= sh < 256)) ->
  generateRectangles sw sh pattern = Ok rects ->
  Forall (within sw sh) rects.
Proof.
  intros Hw Hh Hp Hex H.
  pose proof (quot_64_bound sw ltac:(lia)) as Hx2.
  pose proof (quot_64_bound sh ltac:(lia)) as Hy2.
  assert (Hx1 : 2 <= Z.quot sw 64) by (apply Z.quot_le_lower_bound; lia).
  assert (Hy1 : 2 <= Z.quot sh 64) by (apply Z.quot_le_lower_bound; lia).
  pose proof (Z.quot_rem' sw 64) as Qx. pose proof (Z.quot_rem' sh 64) as Qy.
  pose proof (Z.rem_bound_pos sw 64 ltac:(lia) ltac:(lia)) as Rx.
  pose proof (Z.rem_bound_pos sh 64 ltac:(lia) ltac:(lia)) as Ry.
  destruct (anchor_value jsd (Z.quot sw 64) pattern ltac:(lia) ltac:(unfold jsd; lia) Hp)
    as [i [Ai Hi]].
  destruct (anchor_value jse (Z.quot sh 64) pattern ltac:(lia) ltac:(unfold jse; lia) Hp)
    as [n [An Hn]].
  assert (Hi' : 1 <= i <= Z.quot sw 64 - 1).
  { destruct Hi as [Hi|[[H1 H2]|[H1 [H2 H3]]]]; [exact Hi|lia|].
    apply anchor_minus_one in H3; auto. exfalso. apply Hex. split; [auto|lia]. }
  assert (Hn' : 1 <= n <= Z.quot sh 64 - 1).
  { destruct Hn as [Hn|[[H1 H2]|[H1 [H2 H3]]]]; [exact Hn|lia|].
    apply anchor_minus_one in H3; auto. exfalso. apply Hex. split; [auto|lia]. }
  clear Hi Hn Hex.
  unfold generateRectangles, rectangleWidth, rectangleHeight in H.
  rewrite Ai, An in H.
  set (rectsX := Z.quot sw 64) in *. set (rectsY := Z.quot sh 64) in *.
  set (remainderX := Z.rem sw 64) in *. set (remainderY := Z.rem sh 64) in *.
  replace (mul rectsX rectsY) with (rectsX * rectsY) in H
    by (unfold mul; rewrite wrap64_small; nia).
  replace (rectsX * rectsY <? 0) with false in H by (symmetry; apply Z.ltb_ge; nia).
  cbn [bind] in H.
  split_bind H top Etop. split_bind H side Eside. split_bind H bulk Ebulk.
  inversion H; subst rects; clear H.
  apply Forall_app; split; [|apply Forall_app; split; [|apply Forall_app; split]].
  - (* the corner *)
    destruct ((remainderX >? 0) && (remainderY >? 0)) eqn:E; [|constructor].
    apply andb_true_iff in E. destruct E as [E1 E2].
    apply Z.gtb_lt in E1, E2.
    constructor; [|constructor].
    unfold within; cbn [src dst width height X Y]. unwrap. lia.
  - (* the bottom strip *)
    destruct (remainderY >? 0) eqn:E; [|inversion Etop; constructor].
    apply Z.gtb_lt in E.
    eapply mapM_Forall; [|exact Etop]. cbn beta. intros s b Hs Hb.
    apply upto_In in Hs. unfold calcXCoordinateXRest in Hb.
    rewrite rem_nonzero in Hb by lia. cbn [bind] in Hb.
    pose proof (Z.rem_bound_pos (add s (mul jsa pattern)) rectsX
                  ltac:(unfold jsa; unwrap; lia) ltac:(lia)) as Hu.
    set (u := Z.rem (add s (mul jsa pattern)) rectsX) in *.
    destruct (calcYX_range u i n rectsY pattern Hn' ltac:(lia) ltac:(lia) Hp)
      as [v [Ev Hv]].
    rewrite Ev in Hb. cbn [bind] in Hb. inversion Hb; subst b; clear Hb.
    unfold within, calcPositionWithRest; cbn [src dst width height X Y].
    replace (mul u 64) with (u * 64) by (unwrap; lia).
    replace (mul s 64) with (s * 64) by (unwrap; lia).
    destruct (u * 64 >=? i), (s * 64 >=? i); unwrap; lia.
  - (* the right strip *)
    destruct (remainderX >? 0) eqn:E; [|inversion Eside; constructor].
    apply Z.gtb_lt in E.
    eapply mapM_Forall; [|exact Eside]. cbn beta. intros t b Ht Hb.
    apply upto_In in Ht. unfold calcYCoordinateYRest in Hb.
    rewrite rem_nonzero in Hb by lia. cbn [bind] in Hb.
    pose proof (Z.rem_bound_pos (add t (mul jsb pattern)) rectsY
                  ltac:(unfold jsb; unwrap; lia) ltac:(lia)) as Hv.
    set (v := Z.rem (add t (mul jsb pattern)) rectsY) in *.
    destruct (calcXY_range v i n rectsX pattern Hi' ltac:(lia) ltac:(lia) Hp)
      as [u [Eu Hu]].
    rewrite Eu in Hb. cbn [bind] in Hb. inversion Hb; subst b; clear Hb.
    unfold within, calcPositionWithRest; cbn [src dst width height X Y].
    replace (mul v 64) with (v * 64) by (unwrap; lia).
    replace (mul t 64) with (t * 64) by (unwrap; lia).
    destruct (v * 64 >=? n), (t * 64 >=? n); unwrap; lia.
  - (* the full tiles *)
    apply Forall_concat.
    eapply mapM_Forall; [|exact Ebulk]. cbn beta. intros s col Hs Hcol.
    apply upto_In in Hs.
    eapply mapM_Forall; [|exact Hcol]. cbn beta. intros t b Ht Hb.
    apply upto_In in Ht.
    rewrite (rem_nonzero _ rectsX) in Hb by lia. cbn [bind] in Hb.
    pose proof (Z.rem_bound_pos (add (add s (mul pattern jsj)) (mul jsl t)) rectsX
                  ltac:(unfold jsj, jsl; unwrap; lia) ltac:(lia)) as Hu.
    set (u := Z.rem (add (add s (mul pattern jsj)) (mul jsl t)) rectsX) in *.
    rewrite (rem_nonzero _ rectsY) in Hb by lia. cbn [bind] in Hb.
    pose proof (Z.rem_bound_pos (add (add t (mul pattern jsk)) (mul jsm u)) rectsY
                  ltac:(unfold jsk, jsm; unwrap; lia) ltac:(lia)) as Hv.
    set (v := Z.rem (add (add t (mul pattern jsk)) (mul jsm u)) rectsY) in *.
    destruct (calcXY_range v i n rectsX pattern Hi' ltac:(lia) ltac:(lia) Hp)
      as [xr [Ex Hxr]].
    rewrite Ex in Hb. cbn [bind] in Hb.
    destruct (calcYX_range u i n rectsY pattern Hn' ltac:(lia) ltac:(lia) Hp)
      as [yr [Ey Hyr]].
    rewrite Ey in Hb. cbn [bind] in Hb. inversion Hb; subst b; clear Hb.
    unfold within; cbn [src dst width height X Y].
    destruct (u >=? xr), (v >=? yr), (s >=? i), (t >=? n); unwrap; lia.
Qed.

End Anchors.

Section CacheSlots.
Import Img Loop Scramble BookWalker.

Variable Reader : Type.
Variable image_Decode : Reader -> result Image.

Lemma getPattern_int (filename : string) :
  - 2 ^ 63 <= getPattern filename < 2 ^ 63.
Proof. unfold getPattern, add. apply wrap64_range. Qed.

(** A slot that exists is the slot of the pattern. *)
Lemma pattern_slot {A : Type} (l : list A) (filename : string) (a : A) :
  List.length l = 4%nat ->
  index l (sub (getPattern filename) 1) = Ok a ->
  Z.of_nat (Z.to_nat (sub (getPattern filename) 1)) + 1 = getPattern filename
  /\ 1 <= getPattern filename <= 4.
Proof.
  intros HL HI. apply index_Ok in HI. destruct HI as [HI _]. rewrite HL in HI.
  pose proof (getPattern_int filename) as HP.
  set (p := getPattern filename) in *. unfold sub in *.
  destruct (Z_le_gt_dec (- 2 ^ 63 + 1) p) as [Hge|Hlt].
  - rewrite wrap64_small in * by lia. split; lia.
  - assert (E : p = - 2 ^ 63) by lia. rewrite E in HI.
    replace (wrap64 (- 2 ^ 63 - 1)) with (2 ^ 63 - 1) in HI by reflexivity. lia.
Qed.

Lemma nth_error_store {A : Type} (l : list A) (i k : nat) (v a : A) :
  nth_error (store l i v) k = Some a ->
  (k = i /\ a = v) \/ nth_error l k = Some a.
Proof.
  intros H. destruct (Nat.eq_dec i k) as [->|Hne].
  - destruct (Nat.lt_ge_cases k (List.length l)) as [Hlt|Hge].
    + rewrite store_nth in H by exact Hlt. inversion H. now left.
    + rewrite store_past_end in H by exact Hge. now right.
  - rewrite store_nth_other in H by exact Hne. now right.
Qed.

Lemma Descramble_cache_exact ds filename reader dw dh img ds' :
  cache_exact ds ->
  Descramble Reader image_Decode ds filename reader dw dh = Ok (img, ds') ->
  cache_exact ds'.
Proof.
  intros [HL HC] H. unfold Descramble in H.
  destruct (image_Decode reader) as [im| |]; try discriminate. cbn [bind] in H.
  destruct (index _ _) as [slot| |] eqn:HI; try discriminate. cbn [bind] in H.
  destruct (pattern_slot _ _ _ HL HI) as [HP _].
  set (fresh := bind (generateRectangles _ _ _) _) in H.
  assert (HF : forall c d, fresh = Ok (c, d) -> cache_exact d).
  { intros c d. unfold fresh.
    destruct (generateRectangles _ _ _) as [rects| |] eqn:G; try discriminate.
    cbn [bind]. intros E; inversion E; subst. split.
    - cbn [rectangleCollections]. now rewrite store_length.
    - cbn [rectangleCollections]. intros k col Hk.
      apply nth_error_store in Hk. destruct Hk as [[-> Hk]|Hk]; [|now apply HC].
      inversion Hk; subst. cbn [srcWidth srcHeight rectangles].
      rewrite HP. exact G. }
  destruct slot as [col|].
  - destruct (negb _ || negb _).
    + destruct fresh as [[c d]| |] eqn:E; try discriminate. cbn [bind] in H.
      inversion H; subst. eapply HF; eauto.
    + cbn [bind] in H. inversion H; subst. now split.
  - destruct fresh as [[c d]| |] eqn:E; try discriminate. cbn [bind] in H.
    inversion H; subst. eapply HF; eauto.
Qed.

Lemma new_descrambler_exact : cache_exact new_descrambler.
Proof.
  split; [reflexivity|]. intros k col Hk.
  do 4 (destruct k as [|k]; [discriminate Hk|]). destruct k; discriminate Hk.
Qed.

Lemma reachable_cache_exact ds :
  reachable Reader image_Decode ds -> cache_exact ds.
Proof.
  induction 1 as [|ds filename reader dw dh img ds' _ IH HD].
  - apply new_descrambler_exact.
  - eapply Descramble_cache_exact; eauto.
Qed.

(** When the rectangles cannot be generated for the decoded size, the
    call panics whatever the cache holds. *)
Lemma Descramble_panics ds filename reader dw dh img :
  cache_exact ds ->
  image_Decode reader = Ok img ->
  len filename < 2 ^ 42 ->
  generateRectangles (Dx (Bounds img)) (Dy (Bounds img)) (getPattern filename)
  = Panic DivideByZero ->
  Descramble Reader image_Decode ds filename reader dw dh = Panic DivideByZero.
Proof.
  intros [HL HC] HD Hlen HG. unfold Descramble. rewrite HD. cbn [bind].
  pose proof (getPattern_range filename Hlen) as Hp.
  assert (Hi : 0 <= sub (getPattern filename) 1
               < Z.of_nat (List.length (rectangleCollections ds))).
  { unfold sub. rewrite wrap64_small by lia. rewrite HL. lia. }
  destruct (index_in_range _ _ Hi) as [slot Hslot]. rewrite Hslot. cbn [bind].
  rewrite HG. cbn [bind].
  destruct slot as [col|]; [|reflexivity].
  destruct (negb _ || negb _) eqn:E; [reflexivity|]. exfalso.
  apply orb_false_iff in E. destruct E as [E1 E2].
  apply negb_false_iff, Z.eqb_eq in E1, E2.
  destruct (pattern_slot _ _ _ HL Hslot) as [HP _].
  apply index_Ok in Hslot. destruct Hslot as [_ Hn].
  specialize (HC _ _ Hn). rewrite HP, <- E1, <- E2, HG in HC. discriminate.
Qed.

Section SameDummy.

Variables dw dh : Z.

Lemma Descramble_cache_dummy ds filename reader img ds' :
  cache_dummy dw dh ds ->
  Descramble Reader image_Decode ds filename reader dw dh = Ok (img, ds') ->
  cache_dummy dw dh ds'.
Proof.
  intros HC H. unfold Descramble in H.
  destruct (image_Decode reader) as [im| |]; try discriminate. cbn [bind] in H.
  destruct (index _ _) as [slot| |] eqn:HI; try discriminate. cbn [bind] in H.
  set (fresh := bind (generateRectangles _ _ _) _) in H.
  assert (HF : forall c d, fresh = Ok (c, d) -> cache_dummy dw dh d).
  { intros c d. unfold fresh.
    destruct (generateRectangles _ _ _) as [rects| |] eqn:G; try discriminate.
    cbn [bind]. intros E; inversion E; subst.
    intros col Hin. cbn [rectangleCollections] in Hin.
    apply store_In in Hin. destruct Hin as [Hin|Hin]; [|now apply HC].
    inversion Hin; subst. cbn. split; reflexivity. }
  destruct slot as [col|].
  - destruct (negb _ || negb _).
    + destruct fresh as [[c d]| |] eqn:E; try discriminate. cbn [bind] in H.
      inversion H; subst. eapply HF; eauto.
    + cbn [bind] in H. inversion H; subst. exact HC.
  - destruct fresh as [[c d]| |] eqn:E; try discriminate. cbn [bind] in H.
    inversion H; subst. eapply HF; eauto.
Qed.

(** With the invariants of the cache a call returns what a call on the
    zero descrambler returns. *)
Lemma Descramble_as_fresh ds filename reader :
  cache_exact ds -> cache_dummy dw dh ds ->
  result_image (Descramble Reader image_Decode ds filename reader dw dh)
  = result_image
      (Descramble Reader image_Decode new_descrambler filename reader dw dh).
Proof.
  intros [HL HC] HD. unfold Descramble.
  destruct (image_Decode reader) as [im| |]; try reflexivity. cbn [bind].
  destruct (index_cases (rectangleCollections ds) (sub (getPattern filename) 1))
    as [[slot HI]|HI].
  - destruct (pattern_slot _ _ _ HL HI) as [HP Hp].
    assert (HN : index (rectangleCollections new_descrambler)
                       (sub (getPattern filename) 1) = Ok None).
    { unfold sub. rewrite wrap64_small by lia.
      assert (Hc : getPattern filename = 1 \/ getPattern filename = 2
                   \/ getPattern filename = 3 \/ getPattern filename = 4) by lia.
      destruct Hc as [->|[->|[->| ->]]]; reflexivity. }
    rewrite HI, HN. cbn [bind].
    destruct slot as [col|].
    + destruct (negb _ || negb _) eqn:E.
      * destruct (generateRectangles _ _ _); reflexivity.
      * apply orb_false_iff in E. destruct E as [E1 E2].
        apply negb_false_iff, Z.eqb_eq in E1, E2.
        pose proof HI as HI'. apply index_Ok in HI'. destruct HI' as [_ Hn].
        pose proof (HC _ _ Hn) as G. rewrite HP, <- E1, <- E2 in G.
        destruct (HD col (nth_error_In _ _ Hn)) as [D1 D2].
        rewrite G. cbn [bind result_image rectangles dstWidth dstHeight].
        rewrite D1, D2, <- E1, <- E2. reflexivity.
    + destruct (generateRectangles _ _ _); reflexivity.
  - rewrite HI.
    assert (HN : index (rectangleCollections new_descrambler)
                       (sub (getPattern filename) 1) = Panic IndexOutOfRange).
    { apply index_out_of_range. intros Hr.
      destruct (index_in_range (rectangleCollections ds)
                  (sub (getPattern filename) 1)) as [a Ha].
      - rewrite HL. exact Hr.
      - congruence. }
    rewrite HN. reflexivity.
Qed.

End SameDummy.
End CacheSlots.

Section AnchorOutside.
Import Img Loop Scramble BookWalker.

(** The right strip is laid at the anchor column. *)
Lemma generateRectangles_side_strip (sw sh pattern i : Z)
  (rects : list scrambleRectangle) :
  64 <= sw < 2 ^ 31 -> 64 <= sh < 2 ^ 31 ->
  anchor jsd (Z.quot sw 64) pattern = Ok i ->
  0 < Z.rem sw 64 ->
  generateRectangles sw sh pattern = Ok rects ->
  exists r, In r rects /\ X (dst r) = mul i 64 /\ width r = Z.rem sw 64
            /\ height r = 64.
Proof.
  intros Hw Hh Ai Hrem H.
  pose proof (quot_64_pos sh ltac:(lia)) as Hy1.
  unfold generateRectangles, rectangleWidth, rectangleHeight in H.
  rewrite Ai in H.
  destruct (if mul _ _ <? 0 then _ else _); try discriminate H. cbn [bind] in H.
  destruct (anchor jse _ _) as [n| |]; try discriminate H. cbn [bind] in H.
  match type of H with context [bind ?m _] =>
    destruct m as [top| |] eqn:Etop; try discriminate H; cbn [bind] in H end.
  replace (Z.rem sw 64 >? 0) with true in H by (symmetry; apply Z.gtb_lt; lia).
  match type of H with context [bind ?m _] =>
    destruct m as [side| |] eqn:Eside; try discriminate H; cbn [bind] in H end.
  match type of H with context [bind ?m _] =>
    destruct m as [bulk| |] eqn:Ebulk; try discriminate H; cbn [bind] in H end.
  inversion H; subst rects; clear H.
  pose proof (mapM_length _ _ _ Eside) as L. rewrite upto_length in L.
  assert (HF : Forall (fun r => X (dst r) = mul i 64 /\ width r = Z.rem sw 64
                                /\ height r = 64) side).
  { eapply mapM_Forall; [|exact Eside]. cbn beta. intros t b _ Hb.
    destruct (calcYCoordinateYRest _ _ _); try discriminate Hb. cbn [bind] in Hb.
    destruct (calcXCoordinateYRest _ _ _ _ _); try discriminate Hb. cbn [bind] in Hb.
    inversion Hb; subst b. cbn. auto. }
  destruct side as [|r side]; [cbn in L; lia|].
  exists r. split; [|now inversion HF].
  apply in_or_app; right. apply in_or_app; right. apply in_or_app; left. now left.
Qed.

Lemma anchor_three_pattern_3 : anchor jsd 3 3 = Ok (-1).
Proof. reflexivity. Qed.

End AnchorOutside.

(** X1.  [generateRectangles] divides by zero for every image under 128
    pixels wide, and for every image under 128 pixels high unless the
    pattern is 3 and the width lies in 192..255 (the only case in which an
    anchor of -1 keeps the divisors away from zero); [Descramble] then
    panics, whatever state the descrambler is in, instead of returning an
    error. *)
Theorem bookwalker_narrow_image_panics (sw sh pattern : Z) :
  0 <= sw < 2 ^ 31 -> 0 <= sh < 2 ^ 31 -> 1 <= pattern <= 4 ->
  sw < 128 \/ (sh < 128 /\ ~ (192 <= sw < 256 /\ 64 <= sh /\ pattern = 3)) ->
  BookWalker.generateRectangles sw sh pattern = Panic DivideByZero
  /\ (forall (Reader : Type) (image_Decode : Reader -> result Img.Image)
             ds filename reader dummyWidth dummyHeight img,
        BookWalker.reachable Reader image_Decode ds ->
        image_Decode reader = Ok img ->
        Img.Dx (Img.Bounds img) = sw -> Img.Dy (Img.Bounds img) = sh ->
        len filename < 2 ^ 42 ->
        BookWalker.getPattern filename = pattern ->
        BookWalker.Descramble Reader image_Decode ds filename reader
          dummyWidth dummyHeight = Panic DivideByZero).
Proof.
  intros Hw Hh Hp Hs.
  assert (G : BookWalker.generateRectangles sw sh pattern = Panic DivideByZero).
  { destruct (Z_lt_dec sw 64) as [H1|H1];
      [apply generateRectangles_small; lia|].
    destruct (Z_lt_dec sh 64) as [H2|H2];
      [apply generateRectangles_small; lia|].
    destruct (Z_lt_dec sw 128) as [H3|H3];
      [apply generateRectangles_one_column; lia|].
    apply generateRectangles_one_row; try lia. }
  split; [exact G|].
  intros Reader image_Decode ds filename reader dw dh img HR HD E1 E2 Hlen Epat.
  apply (Descramble_panics Reader image_Decode ds filename reader dw dh img); auto.
  - eapply reachable_cache_exact; eauto.
  - now rewrite E1, E2, Epat.
Qed.

Lemma bookwalker_narrow_image_panics_witness :
  BookWalker.generateRectangles 100 500 1 = Panic DivideByZero
  /\ BookWalker.Descramble Img.Image Img.decode_id BookWalker.new_descrambler
       "1" (Img.mkImage (Img.Rect 0 0 300 100) (fun _ _ => Img.RGBA 0 0 0 255))
       0 0 = Panic DivideByZero.
Proof.
  split.
  - apply (bookwalker_narrow_image_panics 100 500 1); lia.
  - eapply (proj2 (bookwalker_narrow_image_panics 300 100 2 ltac:(lia) ltac:(lia)
                     ltac:(lia) ltac:(lia))).
    + apply BookWalker.reach_init.
    + reflexivity.
    + reflexivity.
    + reflexivity.
    + vm_compute; reflexivity.
    + reflexivity.
Defined.

(** X2.  For every image at least 128 pixels on both sides (and for the
    192..255 by 64..127 images under pattern 3) [generateRectangles] runs to
    its end: it returns one rectangle per full 64 x 64 tile, one per tile of
    the bottom strip and of the right strip when the side is not a multiple
    of 64, and the corner when neither is. *)
Theorem bookwalker_rectangles_generated (sw sh pattern : Z) :
  1 <= pattern <= 4 ->
  (128 <= sw < 2 ^ 31 /\ 128 <= sh < 2 ^ 31)
  \/ (192 <= sw < 256 /\ 64 <= sh < 128 /\ pattern = 3) ->
  exists rects,
    BookWalker.generateRectangles sw sh pattern = Ok rects
    /\ Z.of_nat (List.length rects) = BookWalker.rectangle_count sw sh.
Proof.
  intros Hp [[Hw Hh]|[Hw [Hh ->]]].
  - now apply generateRectangles_two_by_two.
  - now apply generateRectangles_three_by_one.
Qed.

Lemma bookwalker_rectangles_generated_witness :
  exists rects,
    BookWalker.generateRectangles 200 130 2 = Ok rects
    /\ Z.of_nat (List.length rects) = 12.
Proof.
  apply (bookwalker_rectangles_generated 200 130 2); lia.
Defined.

(** X3.  When both anchors fall strictly inside their axes (every image of
    at least 128 x 128 pixels, pattern 3 with a side in 192..255 excepted)
    each generated rectangle has a positive size and lies inside the image,
    at its source and at its destination: the pixel copy of [Descramble]
    reads and writes no point outside a [sw] x [sh] picture. *)
Theorem bookwalker_rectangles_within (sw sh pattern : Z) :
  128 <= sw < 2 ^ 31 -> 128 <= sh < 2 ^ 31 -> 1 <= pattern <= 4 ->
  ~ (pattern = 3 /\ (192 <= sw < 256 \/ 192 <= sh < 256)) ->
  exists rects,
    BookWalker.generateRectangles sw sh pattern = Ok rects
    /\ Forall (BookWalker.within sw sh) rects.
Proof.
  intros Hw Hh Hp Hex.
  destruct (generateRectangles_two_by_two sw sh pattern Hw Hh Hp) as [rects [E _]].
  exists rects. split; [exact E|].
  now apply (generateRectangles_within sw sh pattern).
Qed.

Lemma bookwalker_rectangles_within_witness :
  exists rects,
    BookWalker.generateRectangles 200 130 2 = Ok rects
    /\ Forall (BookWalker.within 200 130) rects.
Proof.
  apply (bookwalker_rectangles_within 200 130 2); lia.
Defined.

(** X4.  Under pattern 3 an axis of three tiles has the anchor -1 (Go's
    remainder of [3 - 4] by 3).  For a width in 193..255 the right strip is
    then laid at destination x = -64, outside the image, for every height
    from 128 on: [generateRectangles] returns, and the strip is lost. *)
Theorem bookwalker_strip_outside_image (sw sh : Z) :
  192 < sw < 256 -> 128 <= sh < 2 ^ 31 ->
  exists rects r,
    BookWalker.generateRectangles sw sh 3 = Ok rects
    /\ In r rects
    /\ Img.X (Scramble.dst r) = -64
    /\ Scramble.width r = sw - 192 /\ Scramble.height r = 64
    /\ ~ BookWalker.within sw sh r.
Proof.
  intros Hw Hh.
  destruct (generateRectangles_two_by_two sw sh 3 ltac:(lia) Hh ltac:(lia))
    as [rects [E _]].
  assert (Hq : Z.quot sw 64 = 3) by (apply quot_64_three; lia).
  assert (Hr : Z.rem sw 64 = sw - 192).
  { pose proof (Z.quot_rem' sw 64). lia. }
  destruct (generateRectangles_side_strip sw sh 3 (-1) rects) as [r [Hin [HX [HW HH]]]];
    try lia; auto.
  - rewrite Hq. apply anchor_three_pattern_3.
  - exists rects, r. repeat split; auto; try lia.
    unfold BookWalker.within. rewrite HX. cbn. lia.
Qed.

Lemma bookwalker_strip_outside_image_witness :
  exists rects r,
    BookWalker.generateRectangles 200 200 3 = Ok rects
    /\ In r rects
    /\ Img.X (Scramble.dst r) = -64
    /\ Scramble.width r = 200 - 192 /\ Scramble.height r = 64
    /\ ~ BookWalker.within 200 200 r.
Proof.
  apply (bookwalker_strip_outside_image 200 200); lia.
Defined.

Section GuardedCalls.
Import Img Loop Scramble BookWalker.

Variable Reader : Type.
Variable image_Decode : Reader -> result Image.
Variables dw dh : Z.

Lemma reachable_guarded_inv g :
  reachable_guarded Reader image_Decode dw dh g ->
  cache_exact (state g) /\ cache_dummy dw dh (state g).
Proof.
  induction 1 as [|g filename reader _ IH].
  - cbn [state]. split; [apply new_descrambler_exact|].
    intros col Hin. cbn in Hin.
    repeat destruct Hin as [Hin|Hin]; try discriminate. contradiction.
  - unfold Descramble_guarded.
    destruct (image_Decode reader) as [im| |]; try exact IH.
    destruct (locked g); [exact IH|].
    destruct (Descramble Reader image_Decode (state g) filename reader dw dh)
      as [[img ds']| |] eqn:E; try exact IH.
    cbn [snd state]. destruct IH as [IH1 IH2].
    split; [eapply Descramble_cache_exact|eapply Descramble_cache_dummy]; eauto.
Qed.

(** A call when the mutex is free, and when it was left locked. *)
Lemma Descramble_guarded_spec g filename reader :
  cache_exact (state g) -> cache_dummy dw dh (state g) ->
  let fresh :=
    result_image (Descramble Reader image_Decode new_descrambler filename reader
                    dw dh) in
  let call := Descramble_guarded Reader image_Decode dw dh g filename reader in
  (locked g = false -> fst call = Returns fresh)
  /\ (locked g = true ->
      fst call = match image_Decode reader with
                 | Ok _ => Blocks
                 | Err e => Returns (Err e)
                 | Panic q => Returns (Panic q)
                 end)
  /\ locked (snd call)
     = locked g || (is_ok (image_Decode reader) && is_panic fresh).
Proof.
  intros H1 H2 fresh call.
  pose proof (Descramble_as_fresh Reader image_Decode dw dh (state g) filename
                reader H1 H2) as HF.
  fold fresh in HF. unfold call, Descramble_guarded.
  assert (HD : forall e, image_Decode reader = Err e -> fresh = Err e).
  { intros e E. unfold fresh, Descramble. now rewrite E. }
  assert (HP : forall q, image_Decode reader = Panic q -> fresh = Panic q).
  { intros q E. unfold fresh, Descramble. now rewrite E. }
  destruct (image_Decode reader) as [im|e|q] eqn:ED; cbn [is_ok andb fst snd].
  - destruct (locked g) eqn:L; cbn [fst snd orb].
    + repeat split; auto; discriminate.
    + destruct (Descramble Reader image_Decode (state g) filename reader dw dh)
        as [[img ds']|e|q]; cbn [result_image] in HF; rewrite <- HF;
        cbn [fst snd locked is_panic]; repeat split; auto; try discriminate.
  - rewrite (HD e eq_refl). rewrite orb_false_r. repeat split; auto.
  - rewrite (HP q eq_refl). rewrite orb_false_r. repeat split; auto.
Qed.

End GuardedCalls.

(** X5.  When every call passes the same dummy sizes the cache of the
    BookWalker descrambler cannot be observed.  From every state that calls
    lead to, whether they returned an image, returned an error, panicked or
    were left waiting, a call that finds the mutex free returns exactly the
    image, error or panic that the zero descrambler returns for the same
    file name and input.  The mutex is unlocked without [defer]: a call
    that panics after decoding (on the pattern index or in
    [generateRectangles]) leaves it locked, no call unlocks it again, and
    from then on a call returns only the error or the panic of the decoder
    and waits for ever otherwise. *)
Theorem bookwalker_cache_transparent
  (Reader : Type) (image_Decode : Reader -> result Img.Image)
  (dummyWidth dummyHeight : Z) (g : BookWalker.guarded)
  (filename : string) (reader : Reader) :
  BookWalker.reachable_guarded Reader image_Decode dummyWidth dummyHeight g ->
  let fresh :=
    BookWalker.result_image
      (BookWalker.Descramble Reader image_Decode BookWalker.new_descrambler
         filename reader dummyWidth dummyHeight) in
  let call :=
    BookWalker.Descramble_guarded Reader image_Decode dummyWidth dummyHeight
      g filename reader in
  (BookWalker.locked g = false -> fst call = BookWalker.Returns fresh)
  /\ (BookWalker.locked g = true ->
      fst call = match image_Decode reader with
                 | Ok _ => BookWalker.Blocks
                 | Err e => BookWalker.Returns (Err e)
                 | Panic q => BookWalker.Returns (Panic q)
                 end)
  /\ BookWalker.locked (snd call)
     = BookWalker.locked g || (is_ok (image_Decode reader) && is_panic fresh).
Proof.
  intros HR.
  destruct (reachable_guarded_inv Reader image_Decode dummyWidth dummyHeight g HR)
    as [H1 H2].
  now apply Descramble_guarded_spec.
Qed.

Lemma bookwalker_cache_transparent_witness :
  let g0 := BookWalker.mkGuarded BookWalker.new_descrambler false in
  let g1 := snd (BookWalker.Descramble_guarded Img.Image Img.decode_id 8 8 g0
                   "1" (Img.picture 32 32)) in
  fst (BookWalker.Descramble_guarded Img.Image Img.decode_id 8 8 g0
         "1" (Img.picture 32 32))
  = BookWalker.Returns (Panic DivideByZero)
  /\ BookWalker.locked g1 = true
  /\ fst (BookWalker.Descramble_guarded Img.Image Img.decode_id 8 8 g1
            "1" Img.picture_128)
     = BookWalker.Blocks.
Proof.
  intros g0 g1.
  assert (R0 : BookWalker.reachable_guarded Img.Image Img.decode_id 8 8 g0)
    by apply BookWalker.guarded_init.
  assert (R1 : BookWalker.reachable_guarded Img.Image Img.decode_id 8 8 g1)
    by (apply BookWalker.guarded_step; exact R0).
  destruct (bookwalker_cache_transparent Img.Image Img.decode_id 8 8 g0
              "1" (Img.picture 32 32) R0) as [A0 [_ C0]].
  destruct (bookwalker_cache_transparent Img.Image Img.decode_id 8 8 g1
              "1" Img.picture_128 R1) as [_ [B1 _]].
  assert (L1 : BookWalker.locked g1 = true).
  { unfold g1. rewrite C0. vm_compute. reflexivity. }
  split; [|split; [exact L1|exact (B1 L1)]].
  rewrite (A0 eq_refl). vm_compute. reflexivity.
Defined.

Section BinBCache.
Import Img Loop Scramble BinB.

Lemma rectanglesType1_src ds c p sw sh col :
  rectanglesType1 ds c p sw sh = Ok col ->
  srcWidth col = sw /\ srcHeight col = sh.
Proof.
  unfold rectanglesType1.
  destruct (asType1 ds c) as [cd| |]; cbn [bind]; try discriminate.
  destruct (asType1 ds p) as [pd| |]; cbn [bind]; try discriminate.
  unfold rectanglesType1_body.
  destruct (workingSize _ _ _ sw sh) as [width height].
  repeat match goal with
  | |- bind ?m _ = Ok _ -> _ => destruct m as [?| |]; cbn [bind]; try discriminate
  | |- (let '(_, _) := ?x in _) = Ok _ -> _ => destruct x
  end.
  intros HH; inversion HH; subst. split; reflexivity.
Qed.

Lemma Ok_inj {A : Type} (x y : A) : @Ok A x = Ok y -> x = y.
Proof. intros H. inversion H. reflexivity. Qed.

Lemma rectanglesType2_src ds c p sw sh col :
  rectanglesType2 ds c p sw sh = Ok col ->
  srcWidth col = sw /\ srcHeight col = sh
  /\ dstWidth col = sw /\ dstHeight col = sh
  /\ 64 <= sw /\ 64 <= sh /\ 320 * 320 <= mul sw sh.
Proof.
  unfold rectanglesType2.
  destruct (negb _) eqn:G; [discriminate|].
  apply negb_false_iff in G.
  apply andb_true_iff in G. destruct G as [G G3].
  apply andb_true_iff in G. destruct G as [G1 G2].
  apply Z.geb_le in G1, G2, G3.
  destruct (asType2 ds c) as [pc| |]; cbn [bind]; try discriminate.
  destruct (asType2 ds p) as [pp| |]; cbn [bind]; try discriminate.
  match goal with |- bind ?m _ = Ok _ -> _ =>
    destruct m as [res| |]; cbn [bind]; try discriminate end.
  intros HH. apply Ok_inj in HH. rewrite <- HH.
  cbn [srcWidth srcHeight dstWidth dstHeight].
  repeat split; auto.
Qed.

Lemma rectangles_for_src ds c p sw sh col :
  rectangles_for ds c p sw sh = Ok col ->
  srcWidth col = sw /\ srcHeight col = sh.
Proof.
  unfold rectangles_for. destruct (keyType ds); try discriminate.
  - apply rectanglesType1_src.
  - intros H. apply rectanglesType2_src in H. tauto.
Qed.

(** The derivations read the key data and nothing else of the state. *)
Lemma rectangles_for_ext ds ds' c p sw sh :
  keyType ds' = keyType ds -> data ds' = data ds ->
  rectangles_for ds' c p sw sh = rectangles_for ds c p sw sh.
Proof.
  intros HK HD. unfold rectangles_for, rectanglesType1, rectanglesType2,
    asType1, asType2. now rewrite HK, HD.
Qed.

Lemma cache_exact_refl ds0 :
  (forall row, In row (rectangleCollections ds0) -> Forall (fun s => s = None) row) ->
  cache_exact ds0 ds0.
Proof.
  intros HN. repeat split; auto. intros c p row col Hr Hc.
  apply nth_error_In in Hr, Hc. specialize (HN row Hr).
  rewrite Forall_forall in HN. specialize (HN _ Hc). discriminate.
Qed.

Lemma set_collection_lookup ds c p v c' p' row x :
  nth_error (rectangleCollections (set_collection ds c p v)) c' = Some row ->
  nth_error row p' = Some x ->
  (c' = Z.to_nat c /\ p' = Z.to_nat p /\ x = v)
  \/ exists row0, nth_error (rectangleCollections ds) c' = Some row0
                  /\ nth_error row0 p' = Some x.
Proof.
  unfold set_collection. cbn [rectangleCollections]. intros Hr Hx.
  apply nth_error_store in Hr. destruct Hr as [[-> ->]|Hr].
  - apply nth_error_store in Hx. destruct Hx as [[-> ->]|Hx]; [left; auto|].
    right.
    destruct (nth_error (rectangleCollections ds) (Z.to_nat c)) as [row0|] eqn:E.
    + exists row0. split; [reflexivity|].
      now rewrite (nth_error_nth _ _ [] E) in Hx.
    + apply nth_error_None in E. rewrite nth_overflow in Hx by exact E.
      destruct p'; discriminate.
  - right. eauto.
Qed.

Section WithDecoder.
Variable Reader : Type.
Variable image_Decode : Reader -> result Image.

Lemma binb_Descramble_cache_exact ds0 ds filename reader :
  cache_exact ds0 ds ->
  cache_exact ds0 (snd (Descramble Reader image_Decode ds filename reader)).
Proof.
  intros HE. pose proof HE as [HC [HP [HK [HD HX]]]]. unfold Descramble.
  destruct (image_Decode reader) as [img| |]; try exact HE.
  destruct (cpIndex filename) as [c p].
  destruct (bind _ _) as [slot| |] eqn:HI; try exact HE.
  assert (Hcp : 0 <= c /\ 0 <= p).
  { destruct (index (rectangleCollections ds) c) as [row| |] eqn:E1;
      try discriminate HI. cbn [bind] in HI.
    apply index_Ok in E1, HI. lia. }
  assert (HR : forall r,
    r = rectangles_for ds c p (Dx (Bounds img)) (Dy (Bounds img)) ->
    cache_exact ds0
      (snd (match r with
            | Ok col =>
              (Ok (blit img (rectangles col)
                     (NewRGBA (Rect 0 0 (dstWidth col) (dstHeight col)))),
               set_collection ds c p (Some col))
            | Err e => (Err e, set_collection ds c p None)
            | Panic q => (Panic q, ds)
            end))).
  { intros r Hr. destruct r as [col| |]; cbn [snd]; try exact HE.
    - repeat split; auto. intros c' p' row col' Hrow Hcol.
      destruct (set_collection_lookup _ _ _ _ _ _ _ _ Hrow Hcol)
        as [[-> [-> Ev]]|[row0 [H1 H2]]]; [|eapply HX; eauto].
      inversion Ev; subst col'. rewrite !Z2Nat.id by lia.
      symmetry in Hr. destruct (rectangles_for_src _ _ _ _ _ _ Hr) as [-> ->].
      rewrite <- Hr. symmetry. now apply rectangles_for_ext.
    - repeat split; auto. intros c' p' row col' Hrow Hcol.
      destruct (set_collection_lookup _ _ _ _ _ _ _ _ Hrow Hcol)
        as [[-> [-> Ev]]|[row0 [H1 H2]]]; [discriminate|eapply HX; eauto]. }
  cbv zeta.
  destruct slot as [col|]; [destruct (_ || _); [|exact HE]|];
    (specialize (HR _ eq_refl); unfold rectangles_for in HR;
     destruct (keyType ds); [exact HE|exact HR|exact HR]).
Qed.

Lemma binb_reachable_cache_exact ds0 ds :
  cache_exact ds0 ds0 ->
  reachable Reader image_Decode ds0 ds -> cache_exact ds0 ds.
Proof.
  intros H0. induction 1; [exact H0|]. now apply binb_Descramble_cache_exact.
Qed.

(** The lookup of the cell in two square caches of the same size. *)
Lemma cell_lookup_same (n : nat) (ds ds0 : Descrambler) (c p : Z) :
  square n ds -> square n ds0 ->
  match (row <- index (rectangleCollections ds) c ;; index row p),
        (row <- index (rectangleCollections ds0) c ;; index row p) with
  | Ok _, Ok _ => 0 <= c /\ 0 <= p
  | Panic q, Panic q' => q = q'
  | _, _ => False
  end.
Proof.
  intros [L1 F1] [L2 F2].
  destruct (index_cases (rectangleCollections ds) c) as [[row E]|E];
    destruct (index_cases (rectangleCollections ds0) c) as [[row0 E0]|E0];
    rewrite E, E0; cbn [bind].
  - pose proof E as E'. pose proof E0 as E0'.
    apply index_Ok in E', E0'. destruct E' as [Hc Hn], E0' as [_ Hn0].
    apply nth_error_In in Hn, Hn0.
    rewrite Forall_forall in F1, F2. specialize (F1 _ Hn). specialize (F2 _ Hn0).
    destruct (index_cases row p) as [[x Ex]|Ex];
      destruct (index_cases row0 p) as [[x0 Ex0]|Ex0]; rewrite Ex, Ex0; auto.
    + apply index_Ok in Ex. lia.
    + apply index_Ok in Ex. destruct Ex as [Ex _].
      destruct (index_in_range row0 p) as [y Hy]; [lia|congruence].
    + apply index_Ok in Ex0. destruct Ex0 as [Ex0 _].
      destruct (index_in_range row p) as [y Hy]; [lia|congruence].
  - apply index_Ok in E. destruct E as [E _].
    destruct (index_in_range (rectangleCollections ds0) c) as [y Hy]; [lia|congruence].
  - apply index_Ok in E0. destruct E0 as [E0 _].
    destruct (index_in_range (rectangleCollections ds) c) as [y Hy]; [lia|congruence].
  - reflexivity.
Qed.

(** A call on a state whose cache is exact returns what the call without
    a cache returns. *)
Lemma Descramble_is_uncached (n : nat) ds0 ds filename reader :
  square n ds0 -> square n ds -> cache_exact ds0 ds ->
  fst (Descramble Reader image_Decode ds filename reader)
  = Descramble_uncached Reader image_Decode ds0 filename reader.
Proof.
  intros S0 S [HC [HP [HK [HD HX]]]]. unfold Descramble, Descramble_uncached.
  destruct (image_Decode reader) as [img| |]; try reflexivity. cbn [bind].
  destruct (cpIndex filename) as [c p].
  pose proof (cell_lookup_same n ds ds0 c p S S0) as HL.
  destruct (row <- index (rectangleCollections ds) c ;; index row p)
    as [slot| |] eqn:E;
    destruct (row <- index (rectangleCollections ds0) c ;; index row p)
    as [slot0| |] eqn:E0; try contradiction; [|now subst].
  cbn [bind]. cbv zeta.
  assert (HF : rectangles_for ds c p (Dx (Bounds img)) (Dy (Bounds img))
               = rectangles_for ds0 c p (Dx (Bounds img)) (Dy (Bounds img)))
    by now apply rectangles_for_ext.
  assert (Hfresh :
    fst (match keyType ds with
         | typeUnset => (Err "Tried to descramble with unknown key type.", ds)
         | type1 =>
           match rectanglesType1 ds c p (Dx (Bounds img)) (Dy (Bounds img)) with
           | Ok col =>
             (Ok (blit img (rectangles col)
                    (NewRGBA (Rect 0 0 (dstWidth col) (dstHeight col)))),
              set_collection ds c p (Some col))
           | Err e => (Err e, set_collection ds c p None)
           | Panic q => (Panic q, ds)
           end
         | type2 =>
           match rectanglesType2 ds c p (Dx (Bounds img)) (Dy (Bounds img)) with
           | Ok col =>
             (Ok (blit img (rectangles col)
                    (NewRGBA (Rect 0 0 (dstWidth col) (dstHeight col)))),
              set_collection ds c p (Some col))
           | Err e => (Err e, set_collection ds c p None)
           | Panic q => (Panic q, ds)
           end
         end)
    = (col <- rectangles_for ds0 c p (Dx (Bounds img)) (Dy (Bounds img)) ;;
       Ok (blit img (rectangles col)
             (NewRGBA (Rect 0 0 (dstWidth col) (dstHeight col)))))).
  { rewrite <- HF. unfold rectangles_for.
    destruct (keyType ds); [reflexivity| |];
      match goal with |- context [match ?r with _ => _ end] => destruct r end;
      reflexivity. }
  destruct slot as [col|]; [|exact Hfresh].
  destruct (negb _ || negb _) eqn:G; [exact Hfresh|].
  apply orb_false_iff in G. destruct G as [G1 G2].
  apply negb_false_iff, Z.eqb_eq in G1, G2.
  destruct (index (rectangleCollections ds) c) as [row| |] eqn:E1;
    try discriminate E. cbn [bind] in E.
  apply index_Ok in E1, E. destruct E1 as [_ E1], E as [_ E].
  specialize (HX _ _ _ _ E1 E). rewrite !Z2Nat.id in HX by lia.
  rewrite G1, G2, HX. reflexivity.
Qed.

End WithDecoder.

Lemma NewDescrambler_clean (ctbl ptbl : list string) (ds : Descrambler) :
  NewDescrambler ctbl ptbl = Ok ds ->
  forall row, In row (rectangleCollections ds) -> Forall (fun s => s = None) row.
Proof.
  intros H row Hin. apply NewDescrambler_Ok in H.
  destruct H as [_ [_ [_ [_ [HR _]]]]]. rewrite HR in Hin.
  apply repeat_spec in Hin. subst row.
  apply Forall_forall. intros x Hx. now apply repeat_spec in Hx.
Qed.

End BinBCache.

Section PanicKinds.
Import Img Loop Scramble BinB.

Lemma naf_Ok {A : Type} (a : A) : no_assertion_failure (Ok a).
Proof. discriminate. Qed.

Lemma naf_bind {A B : Type} (m : result A) (f : A -> result B) :
  no_assertion_failure m ->
  (forall a, m = Ok a -> no_assertion_failure (f a)) ->
  no_assertion_failure (bind m f).
Proof.
  intros Hm Hf. destruct m as [a|e|q]; cbn [bind].
  - now apply Hf.
  - discriminate.
  - intros E. apply Hm. inversion E. reflexivity.
Qed.

Lemma naf_mapM {A B : Type} (f : A -> result B) (l : list A) :
  (forall a, In a l -> no_assertion_failure (f a)) ->
  no_assertion_failure (mapM f l).
Proof.
  induction l as [|a l IH]; intros H; cbn [mapM]; [apply naf_Ok|].
  apply naf_bind; [apply H; now left|]. intros b _.
  apply naf_bind; [apply IH; intros; apply H; now right|].
  intros; apply naf_Ok.
Qed.

Lemma naf_index {A : Type} (l : list A) (i : Z) : no_assertion_failure (index l i).
Proof. destruct (index_cases l i) as [[a ->]| ->]; discriminate. Qed.

Lemma naf_index_byte (s : string) (i : Z) : no_assertion_failure (index_byte s i).
Proof.
  unfold index_byte. destruct (_ && _); [|discriminate].
  destruct (nth_error _ _); discriminate.
Qed.

Lemma naf_div (a b : Z) : no_assertion_failure (div a b).
Proof. unfold div. destruct (b =? 0); discriminate. Qed.

Lemma naf_rem (a b : Z) : no_assertion_failure (rem a b).
Proof. unfold rem. destruct (b =? 0); discriminate. Qed.

Lemma naf_make_len (n : Z) : no_assertion_failure (make_len n).
Proof. unfold make_len. destruct (n <? 0); discriminate. Qed.

Ltac naf :=
  repeat first
    [ apply naf_Ok | apply naf_index | apply naf_index_byte | apply naf_div
    | apply naf_rem | apply naf_make_len
    | apply naf_bind; [|intros ? _]
    | apply naf_mapM; intros ? _
    | match goal with
      | |- no_assertion_failure (let '(_, _) := ?x in _) => destruct x
      end ].

Lemma naf_tnp (data : string) (h v : Z) : no_assertion_failure (tnp data h v).
Proof. unfold tnp. naf. Qed.

Lemma naf_rectanglesType1_body h v padding src dst sw sh :
  no_assertion_failure (rectanglesType1_body h v padding src dst sw sh).
Proof.
  unfold rectanglesType1_body. destruct (workingSize _ _ _ _ _).
  apply naf_bind; [apply naf_tnp|]. intros [[srcT srcN] srcP] _.
  apply naf_bind; [apply naf_tnp|]. intros [[dstT dstN] dstP] _.
  naf.
Qed.

Lemma oop_Ok {A : Type} (a : A) : ok_or_panic (Ok a).
Proof. reflexivity. Qed.

Lemma oop_bind {A B : Type} (m : result A) (f : A -> result B) :
  ok_or_panic m -> (forall a, m = Ok a -> ok_or_panic (f a)) ->
  ok_or_panic (bind m f).
Proof.
  unfold ok_or_panic. intros Hm Hf. destruct m as [a|e|q]; cbn [bind];
    [now apply Hf|discriminate|reflexivity].
Qed.

Lemma oop_mapM {A B : Type} (f : A -> result B) (l : list A) :
  (forall a, In a l -> ok_or_panic (f a)) -> ok_or_panic (mapM f l).
Proof.
  induction l as [|a l IH]; intros H; cbn [mapM]; [apply oop_Ok|].
  apply oop_bind; [apply H; now left|]. intros b _.
  apply oop_bind; [apply IH; intros; apply H; now right|].
  intros; apply oop_Ok.
Qed.

Lemma oop_index {A : Type} (l : list A) (i : Z) : ok_or_panic (index l i).
Proof. destruct (index_cases l i) as [[a ->]| ->]; reflexivity. Qed.

Lemma oop_index_byte (s : string) (i : Z) : ok_or_panic (index_byte s i).
Proof.
  unfold index_byte. destruct (_ && _); [|reflexivity].
  destruct (nth_error _ _); reflexivity.
Qed.

Lemma oop_div (a b : Z) : ok_or_panic (div a b).
Proof. unfold div. destruct (b =? 0); reflexivity. Qed.

Lemma oop_make_len (n : Z) : ok_or_panic (make_len n).
Proof. unfold make_len. destruct (n <? 0); reflexivity. Qed.

Ltac oop :=
  repeat first
    [ apply oop_Ok | apply oop_index | apply oop_index_byte | apply oop_div
    | apply oop_make_len
    | apply oop_bind; [|intros ? _]
    | apply oop_mapM; intros ? _ ].

Lemma oop_tnp (data : string) (h v : Z) : ok_or_panic (tnp data h v).
Proof. unfold tnp. oop. Qed.

Lemma panics_bind {A B : Type} (m : result A) (f : A -> result B) :
  ok_or_panic m -> (forall a, m = Ok a -> is_panic (f a) = true) ->
  is_panic (bind m f) = true.
Proof.
  unfold ok_or_panic. intros Hm Hf. destruct m as [a|e|q]; cbn [bind];
    [now apply Hf|discriminate|reflexivity].
Qed.

(** A grid without columns or without rows: the slice size is a division
    by zero. *)
Lemma rectanglesType1_body_zero h v padding src dst sw sh :
  h = 0 \/ v = 0 ->
  is_panic (rectanglesType1_body h v padding src dst sw sh) = true.
Proof.
  intros Hz. unfold rectanglesType1_body. destruct (workingSize _ _ _ _ _) as [w ht].
  apply panics_bind; [apply oop_tnp|]. intros [[srcT srcN] srcP] _.
  apply panics_bind; [apply oop_tnp|]. intros [[dstT dstN] dstP] _.
  apply panics_bind; [apply oop_make_len|]. intros _ _.
  apply panics_bind; [oop|]. intros p _.
  destruct (Z.eq_dec h 0) as [->|Hh]; [reflexivity|].
  apply panics_bind; [apply oop_div|]. intros sliceWidth _.
  destruct Hz as [Hz|Hz]; [contradiction|]. subst v. reflexivity.
Qed.

End PanicKinds.

Section TypedData.
Import Img Loop Scramble BinB.

Lemma NewDescrambler_typed (ctbl ptbl : list string) (ds : Descrambler) (i : Z) :
  NewDescrambler ctbl ptbl = Ok ds ->
  0 <= i < Z.of_nat (List.length ctbl) ->
  match keyType ds with
  | type1 => exists d, asType1 ds i = Ok d
  | type2 => exists d, asType2 ds i = Ok d
  | typeUnset => False
  end.
Proof.
  intros H Hi. apply NewDescrambler_Ok in H. cbv zeta in H.
  destruct H as [_ [_ [_ [_ [_ [HL [HK HE]]]]]]].
  destruct (HE (Z.to_nat i) ltac:(lia)) as [d [Hd He]].
  unfold asType1, asType2.
  assert (HI : index (data ds) i = Ok d).
  { rewrite <- (Z2Nat.id i) by lia. now apply index_nth. }
  rewrite HI. cbn [bind].
  destruct (keyType ds); [now apply HK| |];
    destruct d; try contradiction; eauto.
Qed.

Lemma asType1_keyType (ctbl ptbl : list string) (ds : Descrambler) (i : Z) d :
  NewDescrambler ctbl ptbl = Ok ds -> asType1 ds i = Ok d -> keyType ds = type1.
Proof.
  intros H HA. apply asType1_Ok in HA. destruct HA as [Hi Hn].
  apply NewDescrambler_Ok in H. cbv zeta in H.
  destruct H as [_ [_ [_ [_ [_ [HL [HK HE]]]]]]].
  destruct (HE (Z.to_nat i) ltac:(lia)) as [d' [Hd He]].
  rewrite Hn in Hd. inversion Hd; subst d'.
  destruct (keyType ds); [contradiction|reflexivity|contradiction].
Qed.

Lemma naf_rectangles_for (ctbl ptbl : list string) (ds : Descrambler) c p sw sh :
  NewDescrambler ctbl ptbl = Ok ds ->
  0 <= c < Z.of_nat (List.length ctbl) -> 0 <= p < Z.of_nat (List.length ctbl) ->
  no_assertion_failure (rectangles_for ds c p sw sh).
Proof.
  intros H Hc Hp.
  pose proof (NewDescrambler_typed ctbl ptbl ds c H Hc) as Tc.
  pose proof (NewDescrambler_typed ctbl ptbl ds p H Hp) as Tp.
  unfold rectangles_for. destruct (keyType ds); [contradiction| |].
  - destruct Tc as [cd Ec], Tp as [pd Ep]. unfold rectanglesType1.
    rewrite Ec, Ep. cbn [bind]. apply naf_rectanglesType1_body.
  - destruct Tc as [cd Ec], Tp as [pd Ep]. unfold rectanglesType2.
    destruct (negb _); [discriminate|].
    rewrite Ec, Ep. cbn [bind].
    apply naf_bind.
    + apply naf_mapM. intros i _.
      apply naf_bind; [apply naf_index|]. intros cPiece _.
      apply naf_bind; [apply naf_index|]. intros pPiece _. apply naf_Ok.
    + intros res _. apply naf_Ok.
Qed.

Section WithDecoder.
Variable Reader : Type.
Variable image_Decode : Reader -> result Image.

(** A descrambler that [NewDescrambler] returned and its later states. *)
Lemma reachable_is_uncached (ctbl ptbl : list string) (ds0 ds : Descrambler)
  filename reader :
  NewDescrambler ctbl ptbl = Ok ds0 ->
  reachable Reader image_Decode ds0 ds ->
  fst (Descramble Reader image_Decode ds filename reader)
  = Descramble_uncached Reader image_Decode ds0 filename reader.
Proof.
  intros H HR.
  pose proof (NewDescrambler_square _ _ _ H) as S0.
  apply (Descramble_is_uncached Reader image_Decode (List.length ctbl)).
  - exact S0.
  - eapply reachable_square; eauto.
  - eapply binb_reachable_cache_exact; eauto.
    apply cache_exact_refl. eapply NewDescrambler_clean; eauto.
Qed.

(** The cell of a square cache that was found. *)
Lemma cell_in_range (n : nat) (ds : Descrambler) (c p : Z) slot :
  square n ds ->
  (row <- index (rectangleCollections ds) c ;; index row p) = Ok slot ->
  0 <= c < Z.of_nat n /\ 0 <= p < Z.of_nat n.
Proof.
  intros [HL HF] H.
  destruct (index (rectangleCollections ds) c) as [row| |] eqn:E;
    try discriminate H. cbn [bind] in H.
  apply index_Ok in E, H. destruct E as [Hc Hn], H as [Hp _].
  apply nth_error_In in Hn. rewrite Forall_forall in HF.
  rewrite (HF _ Hn) in Hp. lia.
Qed.

End WithDecoder.
End TypedData.

Section PoolProofs.
Import Img Loop Scramble BinB.

(** The cell after a store in it. *)
Lemma cell_after_store ds c p v slot :
  (row <- index (rectangleCollections ds) c ;; index row p) = Ok slot ->
  (row <- index (rectangleCollections (set_collection ds c p v)) c ;; index row p)
  = Ok v.
Proof.
  intros H.
  destruct (index (rectangleCollections ds) c) as [row| |] eqn:E1;
    try discriminate H. cbn [bind] in H.
  apply index_Ok in E1, H. destruct E1 as [Hc Hn], H as [Hp _].
  unfold set_collection. cbn [rectangleCollections].
  rewrite (nth_error_nth _ _ [] Hn).
  rewrite <- (Z2Nat.id c) at 2 by lia.
  rewrite (index_nth _ _ (store row (Z.to_nat p) v)) by (apply store_nth; lia).
  cbn [bind]. rewrite <- (Z2Nat.id p) at 2 by lia.
  apply index_nth. apply store_nth. lia.
Qed.

Lemma load_after_store ds c p v slot :
  (row <- index (rectangleCollections ds) c ;; index row p) = Ok slot ->
  load (set_collection ds c p v) c p = v.
Proof.
  intros H. unfold load. now rewrite (cell_after_store ds c p v slot H).
Qed.

Lemma load_cell ds c p slot :
  (row <- index (rectangleCollections ds) c ;; index row p) = Ok slot ->
  load ds c p = slot.
Proof. intros H. unfold load. now rewrite H. Qed.

(** A store keeps the cache exact when what is stored is what a miss
    computes. *)
Lemma set_collection_cache_exact ds0 ds c p v :
  cache_exact ds0 ds -> 0 <= c -> 0 <= p ->
  (forall col, v = Some col ->
     rectangles_for ds0 c p (srcWidth col) (srcHeight col) = Ok col) ->
  cache_exact ds0 (set_collection ds c p v).
Proof.
  intros [HC [HP [HK [HD HX]]]] Hc Hp Hv. repeat split; auto.
  intros c' p' row col' Hrow Hcol.
  destruct (set_collection_lookup _ _ _ _ _ _ _ _ Hrow Hcol)
    as [[-> [-> Ev]]|[row0 [H1 H2]]]; [|eapply HX; eauto].
  rewrite !Z2Nat.id by lia. now apply Hv.
Qed.

Lemma asType2_range (ds : Descrambler) (i : Z) (d : scrambleDataType2Pair) :
  asType2 ds i = Ok d -> 0 <= i < Z.of_nat (List.length (data ds)).
Proof.
  unfold asType2. destruct (index (data ds) i) as [x| |] eqn:E; try discriminate.
  intros _. now apply index_Ok in E.
Qed.

(** The store of a call: the derivation and what becomes of its result. *)
Lemma step_AtStore ds img c p :
  step_call ds (Running img c p AtStore)
  = match rectangles_for ds c p (Dx (Bounds img)) (Dy (Bounds img)) with
    | Ok col => (set_collection ds c p (Some col), Running img c p AtDstWidth)
    | Err e =>
      match keyType ds with
      | typeUnset => (ds, Returned (Err e))
      | _ => (set_collection ds c p None, Returned (Err e))
      end
    | Panic q => (ds, Returned (Panic q))
    end.
Proof.
  unfold step_call, rectangles_for. destruct (keyType ds); reflexivity.
Qed.

Section WithDecoder.
Variable Reader : Type.
Variable image_Decode : Reader -> result Image.

Lemma pool_steps_last (n : nat) :
  forall ds ks k,
    fold_left (pool_step Reader image_Decode)
      (repeat (Step Reader (List.length ks)) n) (mkPool ds (ks ++ [k]))
    = mkPool (fst (Nat.iter n turn (ds, k))) (ks ++ [snd (Nat.iter n turn (ds, k))]).
Proof.
  induction n as [|n IH]; intros ds ks k; [reflexivity|].
  rewrite Nat.iter_succ_r. cbn [repeat fold_left].
  unfold pool_step at 2. cbn [calls shared].
  rewrite nth_error_app2 by lia. rewrite Nat.sub_diag. cbn [nth_error].
  unfold turn at 2 4. cbn [fst snd].
  destruct (step_call ds k) as [ds' k'] eqn:E.
  replace (store (ks ++ [k]) (List.length ks) k') with (ks ++ [k']).
  - apply IH.
  - clear. induction ks as [|a ks IH]; [reflexivity|].
    cbn [app List.length store]. now rewrite <- IH.
Qed.

Lemma turn_Returned (n : nat) ds r :
  Nat.iter n turn (ds, Returned r) = (ds, Returned r).
Proof. induction n as [|n IH]; [reflexivity|]. cbn [Nat.iter nat_rect]. unfold Nat.iter in IH. now rewrite IH. Qed.

(** The three reads that end a call whose cell holds [col]. *)
Lemma turn_finish (n : nat) ds img c p col :
  load ds c p = Some col ->
  Nat.iter (3 + n) turn (ds, Running img c p AtDstWidth)
  = (ds, Returned (Ok (blit img (rectangles col)
                         (NewRGBA (Rect 0 0 (dstWidth col) (dstHeight col)))))).
Proof.
  intros H. change (3 + n)%nat with (S (S (S n))).
  do 3 (rewrite Nat.iter_succ_r; unfold turn at 2; cbn [fst snd step_call];
        rewrite H).
  apply turn_Returned.
Qed.

(** From the store on. *)
Lemma turn_fresh (n : nat) ds img c p slot :
  (row <- index (rectangleCollections ds) c ;; index row p) = Ok slot ->
  Nat.iter (4 + n) turn (ds, Running img c p AtStore)
  = match keyType ds with
    | type1 =>
      match rectanglesType1 ds c p (Dx (Bounds img)) (Dy (Bounds img)) with
      | Ok col =>
        (set_collection ds c p (Some col),
         Returned (Ok (blit img (rectangles col)
                         (NewRGBA (Rect 0 0 (dstWidth col) (dstHeight col))))))
      | Err e => (set_collection ds c p None, Returned (Err e))
      | Panic q => (ds, Returned (Panic q))
      end
    | type2 =>
      match rectanglesType2 ds c p (Dx (Bounds img)) (Dy (Bounds img)) with
      | Ok col =>
        (set_collection ds c p (Some col),
         Returned (Ok (blit img (rectangles col)
                         (NewRGBA (Rect 0 0 (dstWidth col) (dstHeight col))))))
      | Err e => (set_collection ds c p None, Returned (Err e))
      | Panic q => (ds, Returned (Panic q))
      end
    | typeUnset => (ds, Returned (Err "Tried to descramble with unknown key type."))
    end.
Proof.
  intros E. change (4 + n)%nat with (S (3 + n)).
  rewrite Nat.iter_succ_r. unfold turn at 2. cbn [fst snd].
  unfold step_call.
  destruct (keyType ds); [apply turn_Returned| |];
    match goal with |- context [match ?r with _ => _ end] => destruct r as [col| |] end;
    try apply turn_Returned;
    apply turn_finish; eapply load_after_store; eauto.
Qed.

(** A call that runs alone does what [Descramble] does in one piece. *)
Lemma turn_alone ds filename reader :
  Nat.iter 8 turn (ds, begin Reader image_Decode ds filename reader)
  = (snd (Descramble Reader image_Decode ds filename reader),
     Returned (fst (Descramble Reader image_Decode ds filename reader))).
Proof.
  unfold begin, Descramble.
  destruct (image_Decode reader) as [img| |]; try apply turn_Returned.
  destruct (cpIndex filename) as [c p].
  destruct (row <- index (rectangleCollections ds) c ;; index row p)
    as [slot| |] eqn:E; try apply turn_Returned.
  pose proof (load_cell _ _ _ _ E) as L. cbv zeta.
  assert (F : forall n,
    Nat.iter (4 + n) turn (ds, Running img c p AtStore)
    = (snd (match keyType ds with
            | typeUnset => (Err "Tried to descramble with unknown key type.", ds)
            | type1 =>
              match rectanglesType1 ds c p (Dx (Bounds img)) (Dy (Bounds img)) with
              | Ok col =>
                (Ok (blit img (rectangles col)
                       (NewRGBA (Rect 0 0 (dstWidth col) (dstHeight col)))),
                 set_collection ds c p (Some col))
              | Err e => (Err e, set_collection ds c p None)
              | Panic q => (Panic q, ds)
              end
            | type2 =>
              match rectanglesType2 ds c p (Dx (Bounds img)) (Dy (Bounds img)) with
              | Ok col =>
                (Ok (blit img (rectangles col)
                       (NewRGBA (Rect 0 0 (dstWidth col) (dstHeight col)))),
                 set_collection ds c p (Some col))
              | Err e => (Err e, set_collection ds c p None)
              | Panic q => (Panic q, ds)
              end
            end),
       Returned (fst (match keyType ds with
            | typeUnset => (Err "Tried to descramble with unknown key type.", ds)
            | type1 =>
              match rectanglesType1 ds c p (Dx (Bounds img)) (Dy (Bounds img)) with
              | Ok col =>
                (Ok (blit img (rectangles col)
                       (NewRGBA (Rect 0 0 (dstWidth col) (dstHeight col)))),
                 set_collection ds c p (Some col))
              | Err e => (Err e, set_collection ds c p None)
              | Panic q => (Panic q, ds)
              end
            | type2 =>
              match rectanglesType2 ds c p (Dx (Bounds img)) (Dy (Bounds img)) with
              | Ok col =>
                (Ok (blit img (rectangles col)
                       (NewRGBA (Rect 0 0 (dstWidth col) (dstHeight col)))),
                 set_collection ds c p (Some col))
              | Err e => (Err e, set_collection ds c p None)
              | Panic q => (Panic q, ds)
              end
            end)))).
  { intros n. rewrite (turn_fresh n ds img c p slot E).
    destruct (keyType ds); [reflexivity| |];
      match goal with |- context [match ?r with _ => _ end] => destruct r end;
      reflexivity. }
  destruct slot as [col|].
  - (* the cell holds a collection *)
    do 3 (rewrite Nat.iter_succ_r; unfold turn at 2; cbn [fst snd step_call];
          rewrite L).
    destruct (negb (Dx (Bounds img) =? srcWidth col)) eqn:GW; cbn [orb].
    + apply (F 1%nat).
    + rewrite Nat.iter_succ_r. unfold turn at 2. cbn [fst snd step_call].
      rewrite L.
      destruct (negb (Dy (Bounds img) =? srcHeight col)) eqn:GH.
      * apply (F 0%nat).
      * apply (turn_finish 1). exact L.
  - (* the cell is empty *)
    rewrite Nat.iter_succ_r. unfold turn at 2. cbn [fst snd step_call].
    rewrite L. apply (F 3%nat).
Qed.

Lemma run_alone_Descramble pl filename reader :
  run_alone Reader image_Decode pl filename reader
  = mkPool (snd (Descramble Reader image_Decode (shared pl) filename reader))
      (calls pl
       ++ [Returned (fst (Descramble Reader image_Decode (shared pl) filename reader))]).
Proof.
  unfold run_alone, pool_run. cbn [fold_left].
  unfold pool_step at 2.
  rewrite (pool_steps_last 8 (shared pl) (calls pl)).
  now rewrite turn_alone.
Qed.

(** What holds of the pool whatever the order of the steps. *)
Lemma step_call_exact (n : nat) ds0 ds k :
  square n ds -> cache_exact ds0 ds ->
  (forall img c p pc, k = Running img c p pc -> 0 <= c /\ 0 <= p) ->
  square n (fst (step_call ds k)) /\ cache_exact ds0 (fst (step_call ds k))
  /\ (forall img c p pc, snd (step_call ds k) = Running img c p pc ->
        0 <= c /\ 0 <= p).
Proof.
  intros S HE Hk. destruct k as [img c p pc|r]; [|cbn; auto].
  destruct (Hk img c p pc eq_refl) as [Hc Hp].
  assert (Hsame : forall pc',
    square n (fst (ds, Running img c p pc'))
    /\ cache_exact ds0 (fst (ds, Running img c p pc'))
    /\ (forall img0 c0 p0 pc0, snd (ds, Running img c p pc') = Running img0 c0 p0 pc0 ->
          0 <= c0 /\ 0 <= p0)).
  { intros pc'. cbn [fst snd]. split; [exact S|]. split; [exact HE|].
    intros img0 c0 p0 pc0 Ev. inversion Ev; subst; auto. }
  assert (Hret : forall r,
    square n (fst (ds, Returned r))
    /\ cache_exact ds0 (fst (ds, Returned r))
    /\ (forall img0 c0 p0 pc0, snd (ds, Returned r) = Running img0 c0 p0 pc0 ->
          0 <= c0 /\ 0 <= p0)).
  { intros r. cbn [fst snd]. split; [exact S|]. split; [exact HE|].
    discriminate. }
  destruct pc; try (cbn [step_call]; destruct (load ds c p) as [col|];
                    try apply Hsame; try apply Hret;
                    destruct (negb _); apply Hsame).
  rewrite step_AtStore.
  pose proof HE as [_ [_ [HK [HD _]]]].
  rewrite (rectangles_for_ext ds0 ds) by assumption.
  destruct (rectangles_for ds0 c p (Dx (Bounds img)) (Dy (Bounds img)))
    as [col|e|q] eqn:R.
  - cbn [fst snd]. split; [now apply set_collection_square|]. split.
    + apply set_collection_cache_exact; auto. intros col' Ev.
      inversion Ev; subst col'.
      destruct (rectangles_for_src _ _ _ _ _ _ R) as [-> ->]. exact R.
    + intros img0 c0 p0 pc0 Ev. inversion Ev; subst. auto.
  - destruct (keyType ds); [apply Hret| |]; cbn [fst snd];
      (split; [now apply set_collection_square|]);
      (split; [apply set_collection_cache_exact; auto; discriminate|discriminate]).
  - apply Hret.
Qed.

Lemma pool_reachable_exact (ctbl ptbl : list string) ds0 pl :
  NewDescrambler ctbl ptbl = Ok ds0 ->
  pool_reachable Reader image_Decode ds0 pl ->
  square (List.length ctbl) (shared pl) /\ cache_exact ds0 (shared pl)
  /\ Forall (fun k => forall img c p pc, k = Running img c p pc -> 0 <= c /\ 0 <= p)
       (calls pl).
Proof.
  intros H HR. induction HR as [|pl l HR IH].
  - cbn [shared calls]. split; [now apply (NewDescrambler_square ctbl ptbl)|].
    split; [|constructor].
    apply cache_exact_refl. eapply NewDescrambler_clean; eauto.
  - destruct IH as [S [HE HF]]. destruct l as [filename reader|i].
    + cbn [pool_step shared calls]. split; [exact S|]. split; [exact HE|].
      apply Forall_app. split; [exact HF|]. constructor; [|constructor].
      intros img c p pc. unfold begin.
      destruct (image_Decode reader) as [img'| |]; try discriminate.
      destruct (cpIndex filename) as [c' p'].
      destruct (row <- index (rectangleCollections (shared pl)) c' ;; index row p')
        as [slot| |] eqn:E; try discriminate.
      intros Ev. inversion Ev; subst.
      destruct (cell_in_range _ _ _ _ _ S E). lia.
    + unfold pool_step.
      destruct (nth_error (calls pl) i) as [k|] eqn:E; [|auto].
      assert (Hk : forall img c p pc, k = Running img c p pc -> 0 <= c /\ 0 <= p).
      { rewrite Forall_forall in HF. apply HF. eapply nth_error_In; eauto. }
      pose proof (step_call_exact _ ds0 (shared pl) k S HE Hk) as [S' [HE' Hk']].
      destruct (step_call (shared pl) k) as [ds' k']. cbn [fst snd] in *.
      cbn [shared calls]. split; [exact S'|]. split; [exact HE'|].
      apply store_Forall; assumption.
Qed.

Lemma pool_run_reachable ds0 ls :
  forall pl,
    pool_reachable Reader image_Decode ds0 pl ->
    pool_reachable Reader image_Decode ds0 (pool_run Reader image_Decode ls pl).
Proof.
  induction ls as [|l ls IH]; intros pl H; [exact H|].
  cbn [pool_run fold_left]. apply IH. now apply pool_next.
Qed.

(** Calls that come one after the other are calls each of which runs
    alone: the states of [reachable] are among those of the pool. *)
Lemma sequential_is_interleaved ds0 ds :
  reachable Reader image_Decode ds0 ds ->
  exists pl, pool_reachable Reader image_Decode ds0 pl /\ shared pl = ds.
Proof.
  induction 1 as [|ds filename reader _ [pl [HP HS]]].
  - exists (mkPool ds0 []). split; [apply pool_init|reflexivity].
  - exists (run_alone Reader image_Decode pl filename reader). split.
    + unfold run_alone. now apply pool_run_reachable.
    + rewrite run_alone_Descramble. cbn [shared]. now rewrite HS.
Qed.

(** A call that runs alone, from any state of the pool. *)
Lemma run_alone_uncached (ctbl ptbl : list string) ds0 pl filename reader :
  NewDescrambler ctbl ptbl = Ok ds0 ->
  pool_reachable Reader image_Decode ds0 pl ->
  nth_error (calls (run_alone Reader image_Decode pl filename reader))
    (List.length (calls pl))
  = Some (Returned (Descramble_uncached Reader image_Decode ds0 filename reader)).
Proof.
  intros H HR. rewrite run_alone_Descramble. cbn [calls].
  rewrite nth_error_app2 by lia. rewrite Nat.sub_diag. cbn [nth_error].
  destruct (pool_reachable_exact ctbl ptbl ds0 pl H HR) as [S [HE _]].
  f_equal. f_equal.
  apply (Descramble_is_uncached Reader image_Decode (List.length ctbl)); auto.
  now apply (NewDescrambler_square ctbl ptbl).
Qed.

(** The cell of a derivation that returns is a cell of the cache, empty in
    the descrambler [NewDescrambler] returned. *)
Lemma derived_cell_empty (ctbl ptbl : list string) ds0 c p sw sh col :
  NewDescrambler ctbl ptbl = Ok ds0 ->
  rectangles_for ds0 c p sw sh = Ok col ->
  (row <- index (rectangleCollections ds0) c ;; index row p) = Ok None.
Proof.
  intros H R.
  assert (Hcp : 0 <= c < Z.of_nat (List.length ctbl)
                /\ 0 <= p < Z.of_nat (List.length ctbl)).
  { pose proof (NewDescrambler_Ok _ _ _ H) as HN. cbv zeta in HN.
    destruct HN as (_ & _ & _ & _ & _ & HL & _).
    unfold rectangles_for in R. destruct (keyType ds0); try discriminate R.
    - unfold rectanglesType1 in R.
      destruct (asType1 ds0 c) as [cd| |] eqn:Ec; try discriminate R.
      cbn [bind] in R.
      destruct (asType1 ds0 p) as [pd| |] eqn:Ep; try discriminate R.
      apply asType1_Ok in Ec, Ep. lia.
    - unfold rectanglesType2 in R. destruct (negb _); [discriminate R|].
      destruct (asType2 ds0 c) as [cd| |] eqn:Ec; try discriminate R.
      cbn [bind] in R.
      destruct (asType2 ds0 p) as [pd| |] eqn:Ep; try discriminate R.
      apply asType2_range in Ec, Ep. lia. }
  destruct Hcp as [Hc Hp].
  pose proof (NewDescrambler_square _ _ _ H) as [SL SF].
  destruct (index_in_range (rectangleCollections ds0) c ltac:(lia)) as [row Er].
  rewrite Er. cbn [bind].
  pose proof Er as Er'. apply index_Ok in Er'. destruct Er' as [_ Hn].
  apply nth_error_In in Hn.
  rewrite Forall_forall in SF. pose proof (SF _ Hn) as Hlen.
  destruct (index_in_range row p ltac:(lia)) as [slot Es]. rewrite Es.
  apply index_Ok in Es. destruct Es as [_ Es]. apply nth_error_In in Es.
  pose proof (NewDescrambler_clean _ _ _ H row Hn) as HC.
  rewrite Forall_forall in HC. now rewrite (HC _ Es).
Qed.

(** Two calls on one cell with images of different sizes: the first can
    return an image put together with the collection of the second. *)
Lemma overtaken_result (ctbl ptbl : list string) ds0
  filename1 reader1 filename2 reader2 img1 img2 col1 col2 :
  NewDescrambler ctbl ptbl = Ok ds0 ->
  image_Decode reader1 = Ok img1 -> image_Decode reader2 = Ok img2 ->
  cpIndex filename2 = cpIndex filename1 ->
  rectangles_for ds0 (fst (cpIndex filename1)) (snd (cpIndex filename1))
    (Dx (Bounds img1)) (Dy (Bounds img1)) = Ok col1 ->
  rectangles_for ds0 (fst (cpIndex filename1)) (snd (cpIndex filename1))
    (Dx (Bounds img2)) (Dy (Bounds img2)) = Ok col2 ->
  Dx (Bounds img1) <> Dx (Bounds img2) \/ Dy (Bounds img1) <> Dy (Bounds img2) ->
  nth_error
    (calls (pool_run Reader image_Decode
              (overtaken Reader filename1 reader1 filename2 reader2)
              (mkPool ds0 []))) 0
  = Some (Returned (Ok (blit img1 (rectangles col2)
                          (NewRGBA (Rect 0 0 (dstWidth col2) (dstHeight col2)))))).
Proof.
  intros H D1 D2 Hcp R1 R2 Hne.
  destruct (cpIndex filename1) as [c p] eqn:CP. cbn [fst snd] in R1, R2.
  pose proof (derived_cell_empty _ _ _ _ _ _ _ _ H R1) as E0.
  set (ds1 := set_collection ds0 c p (Some col1)).
  set (ds2 := set_collection ds1 c p (Some col2)).
  assert (E1 : (row <- index (rectangleCollections ds1) c ;; index row p)
               = Ok (Some col1)) by (eapply cell_after_store; eauto).
  assert (E2 : (row <- index (rectangleCollections ds2) c ;; index row p)
               = Ok (Some col2)) by (eapply cell_after_store; eauto).
  pose proof (load_cell _ _ _ _ E0) as L0.
  pose proof (load_cell _ _ _ _ E1) as L1.
  pose proof (load_cell _ _ _ _ E2) as L2.
  assert (R2' : rectangles_for ds1 c p (Dx (Bounds img2)) (Dy (Bounds img2)) = Ok col2).
  { rewrite <- R2. now apply rectangles_for_ext. }
  destruct (rectangles_for_src _ _ _ _ _ _ R1) as [W1 H1].
  unfold overtaken, pool_run. cbn [app repeat fold_left].
  (* call 0 starts, finds the cell empty and stores its collection *)
  unfold pool_step at 12. cbn [shared calls app].
  unfold begin. rewrite D1, CP, E0.
  unfold pool_step at 11. cbn [shared calls nth_error step_call store].
  rewrite L0.
  unfold pool_step at 10. cbn [shared calls nth_error store].
  rewrite step_AtStore, R1. fold ds1.
  (* call 1 starts and finds the collection of another size *)
  unfold pool_step at 9. cbn [shared calls app].
  unfold begin. rewrite D2, Hcp, E1.
  unfold pool_step at 8. cbn [shared calls nth_error step_call store]. rewrite L1.
  unfold pool_step at 7. cbn [shared calls nth_error step_call store]. rewrite L1.
  unfold pool_step at 6. cbn [shared calls nth_error step_call store]. rewrite L1.
  rewrite W1.
  destruct (Z.eqb_spec (Dx (Bounds img2)) (Dx (Bounds img1))) as [EW|NW];
    cbn [negb].
  - (* same width: the heights differ *)
    unfold pool_step at 5. cbn [shared calls nth_error step_call store]. rewrite L1.
    rewrite H1.
    destruct (Z.eqb_spec (Dy (Bounds img2)) (Dy (Bounds img1))) as [EH|NH];
      [exfalso; destruct Hne; congruence|]. cbn [negb].
    unfold pool_step at 4. cbn [shared calls nth_error store].
    rewrite step_AtStore, R2'. fold ds2.
    unfold pool_step at 3. cbn [shared calls nth_error step_call store]. rewrite L2.
    unfold pool_step at 2. cbn [shared calls nth_error step_call store]. rewrite L2.
    unfold pool_step. cbn [shared calls nth_error step_call store]. rewrite L2.
    reflexivity.
  - unfold pool_step at 5. cbn [shared calls nth_error store].
    rewrite step_AtStore, R2'. fold ds2.
    unfold pool_step at 4. cbn [shared calls nth_error step_call store]. rewrite L2.
    unfold pool_step at 3. cbn [shared calls nth_error step_call store]. rewrite L2.
    unfold pool_step at 2. cbn [shared calls nth_error step_call store]. rewrite L2.
    unfold pool_step. cbn [shared calls nth_error step_call store]. rewrite L2.
    reflexivity.
Qed.

(** What the derivation without a cache returns under type-2 keys. *)
Lemma uncached_type2_size ds0 filename reader img :
  keyType ds0 = type2 ->
  image_Decode reader = Ok img ->
  let sw := Dx (Bounds img) in
  let sh := Dy (Bounds img) in
  let large := 64 <= sw /\ 64 <= sh /\ 320 * 320 <= mul sw sh in
  (forall out,
     Descramble_uncached Reader image_Decode ds0 filename reader = Ok out ->
     large /\ Bounds out = Rect 0 0 sw sh)
  /\ (~ large ->
      Descramble_uncached Reader image_Decode ds0 filename reader
      = Err "Invalid input image dimensions."
      \/ Descramble_uncached Reader image_Decode ds0 filename reader
         = Panic IndexOutOfRange).
Proof.
  intros HK HD sw sh large.
  unfold Descramble_uncached. rewrite HD. cbn [bind].
  destruct (cpIndex filename) as [c p].
  fold sw sh.
  destruct (row <- index (rectangleCollections ds0) c ;; index row p)
    as [slot| |] eqn:E.
  - cbn [bind]. unfold rectangles_for. rewrite HK. split.
    + intros out Ho.
      destruct (rectanglesType2 ds0 c p sw sh) as [col| |] eqn:R;
        try discriminate Ho. cbn [bind] in Ho.
      apply rectanglesType2_src in R.
      destruct R as [_ [_ [R1 [R2 [G1 [G2 G3]]]]]].
      split; [repeat split; assumption|].
      apply Ok_inj in Ho. rewrite <- Ho, blit_Bounds. cbn [Bounds NewRGBA].
      now rewrite R1, R2.
    + intros HN. left. unfold rectanglesType2.
      destruct (negb _) eqn:G; [reflexivity|]. exfalso. apply HN.
      apply negb_false_iff in G.
      apply andb_true_iff in G. destruct G as [G G3].
      apply andb_true_iff in G. destruct G as [G1 G2].
      apply Z.geb_le in G1, G2, G3. repeat split; assumption.
  - exfalso.
    destruct (index (rectangleCollections ds0) c) as [row| |] eqn:E1;
      cbn [bind] in E; try discriminate E.
    + destruct (index_cases row p) as [[x Ex]|Ex]; congruence.
    + destruct (index_cases (rectangleCollections ds0) c) as [[x Ex]|Ex]; congruence.
  - cbn [bind]. split; [discriminate|]. intros _. right.
    destruct (index (rectangleCollections ds0) c) as [row| |] eqn:E1;
      cbn [bind] in E; try discriminate E.
    + destruct (index_cases row p) as [[x Ex]|Ex]; congruence.
    + destruct (index_cases (rectangleCollections ds0) c) as [[x Ex]|Ex]; congruence.
Qed.

End WithDecoder.

(** Rectangles from the origin with different positive corners differ. *)
Lemma Rect_origin_differs (w1 h1 w2 h2 : Z) :
  0 <= w1 -> 0 <= h1 -> 0 <= w2 -> 0 <= h2 ->
  w1 <> w2 \/ h1 <> h2 ->
  Rect 0 0 w2 h2 <> Rect 0 0 w1 h1.
Proof.
  intros A1 B1 A2 B2 Hne. unfold Rect. rewrite !Z.gtb_ltb.
  rewrite (proj2 (Z.ltb_ge w1 0) A1), (proj2 (Z.ltb_ge h1 0) B1),
    (proj2 (Z.ltb_ge w2 0) A2), (proj2 (Z.ltb_ge h2 0) B2).
  intros E. inversion E. destruct Hne; congruence.
Qed.

End PoolProofs.

(** X6.  The BinB descrambler takes no lock, and the calls made on it
    interleave at their accesses of the cache cell.  From every state that
    calls lead to, in any number and with their steps in any order,
    starting from the descrambler [NewDescrambler] returned, a call that
    runs to its end while no other call takes a step returns exactly the
    image, error or panic of the derivation without a cache, which depends
    on the key tables, the file name and the decoded image only.  A call
    that is overtaken can return something else: of two calls on one cell
    with images of different sizes, the first can read, after its own
    store, the collection the second has stored since, and return its image
    copied with the rectangles and into the bounds derived for the size of
    the second. *)
Theorem binb_cache_transparent
  (Reader : Type) (image_Decode : Reader -> result Img.Image)
  (ctbl ptbl : list string) (ds0 : BinB.Descrambler) :
  BinB.NewDescrambler ctbl ptbl = Ok ds0 ->
  (forall pl filename reader,
     BinB.pool_reachable Reader image_Decode ds0 pl ->
     nth_error (BinB.calls (BinB.run_alone Reader image_Decode pl filename reader))
       (List.length (BinB.calls pl))
     = Some (BinB.Returned
               (BinB.Descramble_uncached Reader image_Decode ds0 filename reader)))
  /\ (forall filename1 reader1 filename2 reader2 img1 img2 col1 col2,
        image_Decode reader1 = Ok img1 ->
        image_Decode reader2 = Ok img2 ->
        BinB.cpIndex filename2 = BinB.cpIndex filename1 ->
        BinB.rectangles_for ds0 (fst (BinB.cpIndex filename1))
          (snd (BinB.cpIndex filename1))
          (Img.Dx (Img.Bounds img1)) (Img.Dy (Img.Bounds img1)) = Ok col1 ->
        BinB.rectangles_for ds0 (fst (BinB.cpIndex filename1))
          (snd (BinB.cpIndex filename1))
          (Img.Dx (Img.Bounds img2)) (Img.Dy (Img.Bounds img2)) = Ok col2 ->
        Img.Dx (Img.Bounds img1) <> Img.Dx (Img.Bounds img2)
        \/ Img.Dy (Img.Bounds img1) <> Img.Dy (Img.Bounds img2) ->
        BinB.Descramble_uncached Reader image_Decode ds0 filename1 reader1
        = Ok (Scramble.blit img1 (Scramble.rectangles col1)
                (Img.NewRGBA (Img.Rect 0 0 (Scramble.dstWidth col1)
                                (Scramble.dstHeight col1))))
        /\ nth_error
             (BinB.calls
                (BinB.pool_run Reader image_Decode
                   (BinB.overtaken Reader filename1 reader1 filename2 reader2)
                   (BinB.mkPool ds0 []))) 0
           = Some (BinB.Returned
                     (Ok (Scramble.blit img1 (Scramble.rectangles col2)
                            (Img.NewRGBA (Img.Rect 0 0 (Scramble.dstWidth col2)
                                            (Scramble.dstHeight col2))))))).
Proof.
  intros H. split.
  - intros pl filename reader HR. now apply (run_alone_uncached _ _ ctbl ptbl).
  - intros filename1 reader1 filename2 reader2 img1 img2 col1 col2
      D1 D2 Hcp R1 R2 Hne. split.
    + unfold BinB.Descramble_uncached. rewrite D1. cbn [bind].
      pose proof (derived_cell_empty _ _ _ _ _ _ _ _ H R1) as E0.
      destruct (BinB.cpIndex filename1) as [c p]. cbn [fst snd] in *.
      rewrite E0. cbn [bind]. rewrite R1. reflexivity.
    + now apply (overtaken_result _ _ ctbl ptbl ds0 _ _ _ _ img1 img2 col1 col2).
Qed.

Lemma binb_cache_transparent_witness :
  exists ds0 col2,
    BinB.NewDescrambler ["=1-1+0-AAA"%string] ["=1-1-0-AAA"%string] = Ok ds0
    /\ BinB.rectangles_for ds0 0 0 64 64 = Ok col2
    /\ nth_error
         (BinB.calls (BinB.run_alone Img.Image Img.decode_id (BinB.mkPool ds0 [])
                        "" Img.picture_128)) 0
       = Some (BinB.Returned
                 (BinB.Descramble_uncached Img.Image Img.decode_id ds0 ""
                    Img.picture_128))
    /\ nth_error
         (BinB.calls
            (BinB.pool_run Img.Image Img.decode_id
               (BinB.overtaken Img.Image "" Img.picture_128 "" (Img.picture 64 64))
               (BinB.mkPool ds0 []))) 0
       = Some (BinB.Returned
                 (Ok (Scramble.blit Img.picture_128 (Scramble.rectangles col2)
                        (Img.NewRGBA (Img.Rect 0 0 (Scramble.dstWidth col2)
                                        (Scramble.dstHeight col2)))))).
Proof.
  eexists. eexists. split; [vm_compute; reflexivity|].
  split; [vm_compute; reflexivity|].
  match goal with
  | |- context [BinB.Descramble_uncached _ _ ?d _ _] =>
    destruct (binb_cache_transparent Img.Image Img.decode_id
                ["=1-1+0-AAA"%string] ["=1-1-0-AAA"%string] d
                ltac:(vm_compute; reflexivity)) as [TA TB]
  end.
  split.
  - apply (TA (BinB.mkPool _ []) ""%string Img.picture_128). apply BinB.pool_init.
  - refine (proj2 (TB ""%string Img.picture_128 ""%string (Img.picture 64 64)
                     Img.picture_128 (Img.picture 64 64) _ _
                     eq_refl eq_refl eq_refl _ _ _)).
    + vm_compute; reflexivity.
    + vm_compute; reflexivity.
    + left. vm_compute. discriminate.
Defined.

(** X7.  A type-2 descrambler does not change the size of an image and
    refuses small ones, as long as the call is not overtaken.  From every
    state that calls lead to, in any number and with their steps in any
    order, a call that runs to its end while no other call takes a step and
    returns an image returns one of the decoded width and height, both at
    least 64 with a product of at least 320 * 320; for any other decoded
    size it returns the error of [rectanglesType2] (or panics on the cell
    index of a table shorter than 8).  An overtaken call can return an
    image of another size: of two calls on one cell with images of
    different sizes, the first can return an image of the size of the
    image of the second. *)
Theorem binb_type2_keeps_size
  (Reader : Type) (image_Decode : Reader -> result Img.Image)
  (ctbl ptbl : list string) (ds0 : BinB.Descrambler) :
  BinB.NewDescrambler ctbl ptbl = Ok ds0 ->
  BinB.keyType ds0 = BinB.type2 ->
  (forall pl filename reader img,
     BinB.pool_reachable Reader image_Decode ds0 pl ->
     image_Decode reader = Ok img ->
     let sw := Img.Dx (Img.Bounds img) in
     let sh := Img.Dy (Img.Bounds img) in
     let large := 64 <= sw /\ 64 <= sh /\ 320 * 320 <= mul sw sh in
     exists r,
       nth_error (BinB.calls (BinB.run_alone Reader image_Decode pl filename reader))
         (List.length (BinB.calls pl)) = Some (BinB.Returned r)
       /\ (forall out, r = Ok out -> large /\ Img.Bounds out = Img.Rect 0 0 sw sh)
       /\ (~ large ->
           r = Err "Invalid input image dimensions." \/ r = Panic IndexOutOfRange))
  /\ (forall filename1 reader1 filename2 reader2 img1 img2 col1 col2,
        image_Decode reader1 = Ok img1 ->
        image_Decode reader2 = Ok img2 ->
        BinB.cpIndex filename2 = BinB.cpIndex filename1 ->
        BinB.rectanglesType2 ds0 (fst (BinB.cpIndex filename1))
          (snd (BinB.cpIndex filename1))
          (Img.Dx (Img.Bounds img1)) (Img.Dy (Img.Bounds img1)) = Ok col1 ->
        BinB.rectanglesType2 ds0 (fst (BinB.cpIndex filename1))
          (snd (BinB.cpIndex filename1))
          (Img.Dx (Img.Bounds img2)) (Img.Dy (Img.Bounds img2)) = Ok col2 ->
        Img.Dx (Img.Bounds img1) <> Img.Dx (Img.Bounds img2)
        \/ Img.Dy (Img.Bounds img1) <> Img.Dy (Img.Bounds img2) ->
        exists out,
          nth_error
            (BinB.calls
               (BinB.pool_run Reader image_Decode
                  (BinB.overtaken Reader filename1 reader1 filename2 reader2)
                  (BinB.mkPool ds0 []))) 0
          = Some (BinB.Returned (Ok out))
          /\ Img.Bounds out
             = Img.Rect 0 0 (Img.Dx (Img.Bounds img2)) (Img.Dy (Img.Bounds img2))
          /\ Img.Bounds out
             <> Img.Rect 0 0 (Img.Dx (Img.Bounds img1)) (Img.Dy (Img.Bounds img1))).
Proof.
  intros H HK. split.
  - intros pl filename reader img HR HD sw sh large.
    exists (BinB.Descramble_uncached Reader image_Decode ds0 filename reader).
    split; [now apply (run_alone_uncached _ _ ctbl ptbl)|].
    now apply uncached_type2_size.
  - intros filename1 reader1 filename2 reader2 img1 img2 col1 col2
      D1 D2 Hcp R1 R2 Hne.
    eexists. split.
    + apply (overtaken_result _ _ ctbl ptbl ds0 _ _ _ _ img1 img2 col1 col2);
        auto; unfold BinB.rectangles_for; rewrite HK; assumption.
    + rewrite blit_Bounds. cbn [Img.Bounds Img.NewRGBA].
      apply rectanglesType2_src in R1, R2.
      destruct R1 as (_ & _ & _ & _ & A1 & B1 & _).
      destruct R2 as (_ & _ & -> & -> & A2 & B2 & _).
      split; [reflexivity|]. apply Rect_origin_differs; lia.
Qed.

Lemma binb_type2_keeps_size_witness :
  exists ds0,
    BinB.NewDescrambler ["1-1-AA"%string] ["1-1-AA"%string] = Ok ds0
    /\ nth_error
         (BinB.calls (BinB.run_alone Img.Image Img.decode_id (BinB.mkPool ds0 [])
                        "" Img.picture_128)) 0
       = Some (BinB.Returned (Err "Invalid input image dimensions."))
    /\ exists out,
         nth_error
           (BinB.calls
              (BinB.pool_run Img.Image Img.decode_id
                 (BinB.overtaken Img.Image "" (Img.picture 320 320)
                    "" (Img.picture 328 320))
                 (BinB.mkPool ds0 []))) 0
         = Some (BinB.Returned (Ok out))
         /\ Img.Bounds out = Img.Rect 0 0 328 320.
Proof.
  eexists. split; [vm_compute; reflexivity|].
  match goal with
  | |- context [BinB.mkPool ?d []] =>
    destruct (binb_type2_keeps_size Img.Image Img.decode_id
                ["1-1-AA"%string] ["1-1-AA"%string] d
                ltac:(vm_compute; reflexivity) ltac:(vm_compute; reflexivity))
      as [TA TB]
  end.
  split.
  - destruct (TA (BinB.mkPool _ []) ""%string Img.picture_128 Img.picture_128
                (BinB.pool_init _ _ _) eq_refl) as [r [A1 [_ A2]]].
    cbn [BinB.calls List.length] in A1. rewrite A1. destruct A2 as [A2|A2].
    + vm_compute. intros [_ [_ HH]]. apply HH. reflexivity.
    + now subst r.
    + exfalso. subst r. revert A1. vm_compute. discriminate.
  - edestruct (TB ""%string (Img.picture 320 320) ""%string (Img.picture 328 320)
                 (Img.picture 320 320) (Img.picture 328 320))
      as [out [O1 [O2 _]]];
      [reflexivity|reflexivity|reflexivity
      |vm_compute; reflexivity|vm_compute; reflexivity
      |left; vm_compute; discriminate|].
    exists out. split; [exact O1|exact O2].
Defined.

(** X8.  The type assertions on [ds.data[i]] in [rectanglesType1] and
    [rectanglesType2] never fail: whatever the state of a descrambler that
    [NewDescrambler] returned, [Descramble] does not panic on a type
    assertion (the decoder being granted not to). *)
Theorem binb_type_assertions_hold
  (Reader : Type) (image_Decode : Reader -> result Img.Image)
  (ctbl ptbl : list string) (ds0 ds : BinB.Descrambler)
  (filename : string) (reader : Reader) :
  BinB.NewDescrambler ctbl ptbl = Ok ds0 ->
  BinB.reachable Reader image_Decode ds0 ds ->
  image_Decode reader <> Panic TypeAssertion ->
  fst (BinB.Descramble Reader image_Decode ds filename reader)
  <> Panic TypeAssertion.
Proof.
  intros H HR HD.
  rewrite (reachable_is_uncached Reader image_Decode ctbl ptbl ds0 ds filename reader H HR).
  unfold BinB.Descramble_uncached.
  apply naf_bind; [exact HD|]. intros img _. cbv zeta.
  destruct (BinB.cpIndex filename) as [c p].
  apply naf_bind.
  - apply naf_bind; [apply naf_index|]. intros row _. apply naf_index.
  - intros slot Hs.
    destruct (cell_in_range _ _ _ _ _ (NewDescrambler_square _ _ _ H) Hs) as [Hc Hp].
    apply naf_bind; [|intros; apply naf_Ok].
    now apply (naf_rectangles_for ctbl ptbl).
Qed.

Lemma binb_type_assertions_hold_witness :
  exists ds0,
    BinB.NewDescrambler ["=1-1+0-AAA"%string] ["=1-1-0-AAA"%string] = Ok ds0
    /\ fst (BinB.Descramble Img.Image Img.decode_id ds0 "" Img.picture_128)
       <> Panic TypeAssertion.
Proof.
  eexists. split; [vm_compute; reflexivity|].
  eapply (binb_type_assertions_hold Img.Image Img.decode_id
            ["=1-1+0-AAA"%string] ["=1-1-0-AAA"%string]).
  - vm_compute; reflexivity.
  - apply BinB.reach_init.
  - discriminate.
Defined.

Section KeyData.
Import Img Loop Scramble BinB.



Lemma index_byte_all_of (f : ascii -> bool) (s : string) (i b : Z) :
  all_of f s = true -> index_byte s i = Ok b ->
  exists c, b = byte_val c /\ f c = true.
Proof.
  intros HA H. unfold index_byte in H. destruct (_ && _); [|discriminate].
  unfold bytes_of in H. rewrite nth_error_map in H.
  destruct (nth_error (list_ascii_of_string s) (Z.to_nat i)) as [c|] eqn:E;
    [|discriminate].
  cbn in H. apply Ok_inj in H. exists c. split; [auto|].
  apply all_of_Forall in HA. rewrite Forall_forall in HA.
  apply HA. eapply nth_error_In; eauto.
Qed.


(** A character of a type-1 payload has an entry of [tnpConstants], a
    number below 64. *)
Lemma tnpConstants_word (c : ascii) :
  is_word c = true ->
  exists x, index tnpConstants (byte_val c) = Ok x /\ 0 <= x < 64.
Proof.
  destruct c as [b0 b1 b2 b3 b4 b5 b6 b7].
  destruct b0, b1, b2, b3, b4, b5, b6, b7; intros H;
    try discriminate H; eexists; (split; [vm_compute; reflexivity|]);
    cbv; split; (discriminate || reflexivity).
Qed.


End KeyData.

Section Mismatch.
Import Img Loop Scramble BinB.

Lemma mapM_first_panic {A B : Type} (f : A -> result B) (l1 l2 : list A)
  (a : A) (q : panic) :
  (forall x, In x l1 -> exists b, f x = Ok b) ->
  f a = Panic q ->
  mapM f (l1 ++ a :: l2) = Panic q.
Proof.
  induction l1 as [|x l1 IH]; intros H Ha; cbn [mapM app].
  - now rewrite Ha.
  - destruct (H x (or_introl eq_refl)) as [b ->]. cbn [bind].
    rewrite IH; auto. intros; apply H; now right.
Qed.

Lemma upto_split (k n : nat) :
  (k < n)%nat ->
  exists rest, upto (Z.of_nat n) = upto (Z.of_nat k) ++ Z.of_nat k :: rest.
Proof.
  intros H. exists (map Z.of_nat (seq (S k) (n - S k))).
  unfold upto. rewrite !Nat2Z.id.
  assert (E : n = (k + S (n - S k))%nat) by lia.
  rewrite E at 1. rewrite seq_app, map_app. reflexivity.
Qed.

Lemma asType2_Ok (ds : Descrambler) (i : Z) (d2 : scrambleDataType2Pair) :
  asType2 ds i = Ok d2 ->
  0 <= i < Z.of_nat (List.length (data ds))
  /\ nth_error (data ds) (Z.to_nat i) = Some (DataType2 d2).
Proof.
  unfold asType2. destruct (index (data ds) i) as [d| |] eqn:E; try discriminate.
  cbn [bind]. destruct d; try discriminate. intros H. apply Ok_inj in H. subst.
  now apply index_Ok in E.
Qed.

Lemma asType2_keyType (ctbl ptbl : list string) (ds : Descrambler) (i : Z) d :
  NewDescrambler ctbl ptbl = Ok ds -> asType2 ds i = Ok d -> keyType ds = type2.
Proof.
  intros H HA. apply asType2_Ok in HA. destruct HA as [Hi Hn].
  apply NewDescrambler_Ok in H. cbv zeta in H.
  destruct H as [_ [_ [_ [_ [_ [HL [HK HE]]]]]]].
  destruct (HE (Z.to_nat i) ltac:(lia)) as [d' [Hd He]].
  rewrite Hn in Hd. inversion Hd; subst d'.
  destruct (keyType ds); [contradiction|contradiction|reflexivity].
Qed.

(** The loop of [rectanglesType2] runs over the pieces of the C key and
    indexes those of the P key. *)
Lemma rectanglesType2_mismatch ds c p sw sh pc pp :
  asType2 ds c = Ok pc -> asType2 ds p = Ok pp ->
  (List.length (pieces (pair_p pp)) < List.length (pieces (pair_c pc)))%nat ->
  64 <= sw -> 64 <= sh -> 320 * 320 <= mul sw sh ->
  rectanglesType2 ds c p sw sh = Panic IndexOutOfRange.
Proof.
  intros Hc Hp HL G1 G2 G3. unfold rectanglesType2.
  replace (sw >=? 64) with true by (symmetry; apply Z.geb_le; lia).
  replace (sh >=? 64) with true by (symmetry; apply Z.geb_le; lia).
  replace (mul sw sh >=? 320 * 320) with true by (symmetry; apply Z.geb_le; lia).
  cbn [andb negb]. rewrite Hc, Hp. cbn [bind].
  destruct (upto_split _ _ HL) as [rest ->].
  rewrite mapM_first_panic with (q := IndexOutOfRange); [reflexivity| |].
  - intros i Hi. apply upto_In in Hi.
    destruct (index_in_range (pieces (pair_c pc)) i ltac:(lia)) as [x ->].
    destruct (index_in_range (pieces (pair_p pp)) i ltac:(lia)) as [y ->].
    cbn [bind]. eauto.
  - destruct (index_in_range (pieces (pair_c pc))
                (Z.of_nat (List.length (pieces (pair_p pp)))) ltac:(lia)) as [x ->].
    cbn [bind]. rewrite index_out_of_range by lia. reflexivity.
Qed.

End Mismatch.



(** X11.  [NewDescrambler] checks each type-2 key on its own and never the
    C key against the P key.  When the P key of the selected cell has fewer
    pieces than the C key, [Descramble] of an image large enough panics
    with an index out of range, in its loop over the pieces. *)
Theorem binb_type2_piece_mismatch_panics
  (Reader : Type) (image_Decode : Reader -> result Img.Image)
  (ctbl ptbl : list string) (ds0 ds : BinB.Descrambler)
  (filename : string) (reader : Reader) (img : Img.Image)
  (cPair pPair : BinB.scrambleDataType2Pair) :
  BinB.NewDescrambler ctbl ptbl = Ok ds0 ->
  BinB.reachable Reader image_Decode ds0 ds ->
  image_Decode reader = Ok img ->
  64 <= Img.Dx (Img.Bounds img) -> 64 <= Img.Dy (Img.Bounds img) ->
  320 * 320 <= mul (Img.Dx (Img.Bounds img)) (Img.Dy (Img.Bounds img)) ->
  BinB.asType2 ds0 (fst (BinB.cpIndex filename)) = Ok cPair ->
  BinB.asType2 ds0 (snd (BinB.cpIndex filename)) = Ok pPair ->
  (List.length (BinB.pieces (BinB.pair_p pPair))
   < List.length (BinB.pieces (BinB.pair_c cPair)))%nat ->
  fst (BinB.Descramble Reader image_Decode ds filename reader)
  = Panic IndexOutOfRange.
Proof.
  intros H HR HD G1 G2 G3 Hc Hp HL.
  rewrite (reachable_is_uncached Reader image_Decode ctbl ptbl ds0 ds filename reader H HR).
  unfold BinB.Descramble_uncached. rewrite HD. cbn [bind].
  destruct (BinB.cpIndex filename) as [c p]. cbn [fst snd] in Hc, Hp.
  destruct (row <- index (BinB.rectangleCollections ds0) c ;; index row p)
    as [slot| |] eqn:E.
  - cbn [bind]. unfold BinB.rectangles_for.
    rewrite (asType2_keyType _ _ _ _ _ H Hc).
    now rewrite (rectanglesType2_mismatch ds0 c p _ _ cPair pPair).
  - exfalso.
    destruct (index (BinB.rectangleCollections ds0) c) as [row| |] eqn:E1;
      cbn [bind] in E; try discriminate E.
    + destruct (index_cases row p) as [[x Ex]|Ex]; congruence.
    + destruct (index_cases (BinB.rectangleCollections ds0) c) as [[x Ex]|Ex]; congruence.
  - cbn [bind].
    destruct (index (BinB.rectangleCollections ds0) c) as [row| |] eqn:E1;
      cbn [bind] in E; try discriminate E.
    + destruct (index_cases row p) as [[x Ex]|Ex]; congruence.
    + destruct (index_cases (BinB.rectangleCollections ds0) c) as [[x Ex]|Ex]; congruence.
Qed.

Lemma binb_type2_piece_mismatch_panics_witness :
  exists ds0,
    BinB.NewDescrambler ["2-1-AAAA"%string] ["1-1-AA"%string] = Ok ds0
    /\ fst (BinB.Descramble Img.Image Img.decode_id ds0 ""
              (Img.mkImage (Img.Rect 0 0 320 320) (fun _ _ => Img.RGBA 0 0 0 255)))
       = Panic IndexOutOfRange.
Proof.
  eexists. split; [vm_compute; reflexivity|].
  eapply (binb_type2_piece_mismatch_panics Img.Image Img.decode_id
            ["2-1-AAAA"%string] ["1-1-AA"%string]).
  - vm_compute; reflexivity.
  - apply BinB.reach_init.
  - reflexivity.
  - vm_compute; discriminate.
  - vm_compute; discriminate.
  - vm_compute; discriminate.
  - vm_compute; reflexivity.
  - vm_compute; reflexivity.
  - vm_compute. lia.
Defined.

Section Type1Total.
Import Img Loop Scramble BinB.

Lemma tnp_lengths (data : string) (h v : Z) t n p :
  tnp data h v = Ok (t, n, p) ->
  List.length t = Z.to_nat h /\ List.length n = Z.to_nat v
  /\ List.length p = Z.to_nat (mul h v).
Proof.
  unfold tnp.
  repeat match goal with
  | |- bind ?m _ = Ok _ -> _ =>
    let E := fresh "E" in destruct m as [?| |] eqn:E; cbn [bind]; try discriminate
  end.
  intros H. apply Ok_inj in H. inversion H; subst.
  repeat match goal with
  | E : mapM _ _ = Ok _ |- _ => apply mapM_length in E; rewrite upto_length in E
  end.
  auto.
Qed.

Lemma len_nonneg (s : string) : 0 <= len s.
Proof. unfold len. lia. Qed.

(** On a payload over the key alphabet that is long enough, [tnp] reads
    [h] column entries, [v] row entries and [h * v] permutation entries,
    all of them numbers below 64. *)
Lemma tnp_Ok (data : string) (h v : Z) :
  0 <= h <= 8 -> 0 <= v <= 8 ->
  all_of is_word data = true -> h + v + h * v <= len data ->
  exists t n p,
    tnp data h v = Ok (t, n, p)
    /\ List.length t = Z.to_nat h /\ List.length n = Z.to_nat v
    /\ List.length p = Z.to_nat (h * v)
    /\ Forall (fun x => 0 <= x < 64) (t ++ n ++ p).
Proof.
  intros Hh Hv HA HL.
  assert (Hhv : mul h v = h * v) by (apply mul_small; lia).
  assert (Hread : forall j, 0 <= j < len data ->
            exists x, (b <- index_byte data j ;; index tnpConstants b) = Ok x
                      /\ 0 <= x < 64).
  { intros j Hj. destruct (index_byte_in_range data j Hj) as [b Eb].
    rewrite Eb. cbn [bind].
    destruct (index_byte_all_of _ _ _ _ HA Eb) as [c [-> Hc]].
    apply tnpConstants_word. exact Hc. }
  assert (Hloop : forall (g : Z -> Z) (m : Z),
            (forall i, 0 <= i < m -> 0 <= g i < len data) ->
            exists xs, mapM (fun i => b <- index_byte data (g i) ;;
                                      index tnpConstants b) (upto m) = Ok xs
                       /\ Forall (fun x => 0 <= x < 64) xs).
  { intros g m Hg.
    destruct (mapM_Ok (fun i => b <- index_byte data (g i) ;; index tnpConstants b)
                (upto m)) as [xs Hxs].
    - intros i Hi. apply upto_In in Hi.
      destruct (Hread (g i) (Hg i Hi)) as [x [Hx _]]. eauto.
    - exists xs. split; [exact Hxs|].
      eapply mapM_Forall; [|exact Hxs]. cbn beta. intros i x Hi Hx.
      apply upto_In in Hi. destruct (Hread (g i) (Hg i Hi)) as [x' [Hx' R]].
      rewrite Hx in Hx'. apply Ok_inj in Hx'. now subst. }
  destruct (Hloop (fun i => i) h) as [t [Et Ft]]; [intros; nia|].
  destruct (Hloop (fun i => add h i) v) as [n [En Fn]].
  { intros i Hi. unfold add. rewrite wrap64_small by lia. nia. }
  destruct (Hloop (fun i => add (add h v) i) (h * v)) as [p [Ep Fp]].
  { intros i Hi. unfold add. rewrite (wrap64_small (h + v)) by lia.
    rewrite wrap64_small by nia. nia. }
  exists t, n, p. unfold tnp, make_len. rewrite Hhv.
  replace (h <? 0) with false by (symmetry; apply Z.ltb_ge; lia).
  replace (v <? 0) with false by (symmetry; apply Z.ltb_ge; lia).
  replace (h * v <? 0) with false by (symmetry; apply Z.ltb_ge; nia).
  cbn [bind]. rewrite Et. cbn [bind]. rewrite En. cbn [bind]. rewrite Ep.
  cbn [bind]. split; [reflexivity|].
  apply mapM_length in Et, En, Ep. rewrite upto_length in Et, En, Ep.
  repeat split; auto.
  repeat (apply Forall_app; split); auto.
Qed.

Lemma index_Forall {A : Type} (P : A -> Prop) (l : list A) (i : Z) :
  Forall P l -> 0 <= i < Z.of_nat (List.length l) ->
  exists a, index l i = Ok a /\ P a.
Proof.
  intros HF Hi. destruct (index_in_range l i Hi) as [a Ha]. exists a.
  split; [exact Ha|]. apply index_Ok in Ha. destruct Ha as [_ Ha].
  rewrite Forall_forall in HF. apply HF. eapply nth_error_In; eauto.
Qed.

(** With a grid of at least one column and one row and permutation
    entries below [h * v], the derivation of type 1 runs to its end. *)
Lemma rectanglesType1_body_Ok h v padding src dst sw sh sT sN sP dT dN dP :
  1 <= h <= 8 -> 1 <= v <= 8 ->
  tnp src h v = Ok (sT, sN, sP) -> tnp dst h v = Ok (dT, dN, dP) ->
  Forall (fun x => 0 <= x < h * v) sP ->
  Forall (fun x => 0 <= x < h * v) dP ->
  exists col,
    rectanglesType1_body h v padding src dst sw sh = Ok col
    /\ Z.of_nat (List.length (rectangles col)) = h * v
    /\ srcWidth col = sw /\ srcHeight col = sh
    /\ (dstWidth col, dstHeight col) = workingSize h v padding sw sh.
Proof.
  intros Hh Hv Es Ed Fs Fd.
  destruct (tnp_lengths _ _ _ _ _ _ Es) as [LsT [LsN LsP]].
  destruct (tnp_lengths _ _ _ _ _ _ Ed) as [LdT [LdN LdP]].
  assert (Hhv : mul h v = h * v) by (apply mul_small; lia).
  rewrite Hhv in *.
  unfold rectanglesType1_body.
  destruct (workingSize h v padding sw sh) as [width height] eqn:W.
  rewrite Es, Ed. cbn [bind]. rewrite Hhv. unfold make_len.
  replace (h * v <? 0) with false by (symmetry; apply Z.ltb_ge; nia).
  cbn [bind].
  (* the composed permutation *)
  destruct (mapM_Ok (fun i => k <- index dP i ;; index sP k) (upto (h * v)))
    as [p Ep].
  { intros i Hi. apply upto_In in Hi.
    destruct (index_Forall _ dP i Fd ltac:(lia)) as [k [-> Hk]]. cbn [bind].
    apply index_in_range. lia. }
  assert (Fp : Forall (fun x => 0 <= x < h * v) p).
  { eapply mapM_Forall; [|exact Ep]. cbn beta. intros i x Hi Hx.
    apply upto_In in Hi.
    destruct (index_Forall _ dP i Fd ltac:(lia)) as [k [Ek Hk]].
    rewrite Ek in Hx. cbn [bind] in Hx.
    destruct (index_Forall _ sP k Fs ltac:(lia)) as [y [Ey Hy]].
    rewrite Ey in Hx. apply Ok_inj in Hx. now subst. }
  pose proof (mapM_length _ _ _ Ep) as Lp. rewrite upto_length in Lp.
  rewrite Ep. cbn [bind].
  unfold div at 1. replace (h =? 0) with false by (symmetry; apply Z.eqb_neq; lia).
  cbn [bind].
  unfold div at 1. replace (v =? 0) with false by (symmetry; apply Z.eqb_neq; lia).
  cbn [bind].
  assert (Hcell : forall i, 0 <= i < h * v ->
            rem i h = Ok (Z.rem i h) /\ 0 <= Z.rem i h < h
            /\ div i h = Ok (Z.quot i h) /\ 0 <= Z.quot i h < v).
  { intros i Hi.
    pose proof (Z.rem_bound_pos i h ltac:(lia) ltac:(lia)) as R.
    assert (Q : 0 <= Z.quot i h < v).
    { split; [apply Z.quot_pos; lia|apply Z.quot_lt_upper_bound; lia]. }
    repeat split; try lia.
    - apply rem_nonzero. lia.
    - unfold div. replace (h =? 0) with false by (symmetry; apply Z.eqb_neq; lia).
      rewrite wrap64_small by lia. reflexivity. }
  match goal with |- context [bind (mapM ?f (upto (h * v)))] =>
    destruct (mapM_Ok f (upto (h * v))) as [res Eres] end.
  { intros i Hi. apply upto_In in Hi.
    destruct (Hcell i Hi) as [-> [Rc [-> Rr]]]. cbn [bind].
    destruct (index_in_range dN (Z.quot i h) ltac:(lia)) as [nr ->]. cbn [bind].
    destruct (index_in_range dT (Z.rem i h) ltac:(lia)) as [tc ->]. cbn [bind].
    destruct (index_Forall _ p i Fp ltac:(lia)) as [pi [-> Hpi]]. cbn [bind].
    destruct (Hcell pi Hpi) as [-> [Sc [-> Sr]]]. cbn [bind].
    destruct (index_in_range sN (Z.quot pi h) ltac:(lia)) as [snr ->]. cbn [bind].
    destruct (index_in_range sT (Z.rem pi h) ltac:(lia)) as [stc ->]. cbn [bind].
    eauto. }
  rewrite Eres. cbn [bind].
  pose proof (mapM_length _ _ _ Eres) as Lr. rewrite upto_length in Lr.
  eexists. split; [reflexivity|].
  cbn [rectangles srcWidth srcHeight dstWidth dstHeight].
  repeat split; auto. lia.
Qed.

End Type1Total.

Section ZeroGrid.
Import Img Loop Scramble BinB.

Lemma io_Ok {A : Type} (a : A) : index_only (Ok a).
Proof. right. eauto. Qed.

Lemma io_bind {A B : Type} (m : result A) (f : A -> result B) :
  index_only m -> (forall a, m = Ok a -> index_only (f a)) ->
  index_only (bind m f).
Proof.
  intros [->|[a ->]] Hf; cbn [bind]; [now left|now apply Hf].
Qed.

Lemma io_mapM {A B : Type} (f : A -> result B) (l : list A) :
  (forall a, In a l -> index_only (f a)) -> index_only (mapM f l).
Proof.
  induction l as [|a l IH]; intros H; cbn [mapM]; [apply io_Ok|].
  apply io_bind; [apply H; now left|]. intros b _.
  apply io_bind; [apply IH; intros; apply H; now right|].
  intros; apply io_Ok.
Qed.

Lemma io_index {A : Type} (l : list A) (i : Z) : index_only (index l i).
Proof. destruct (index_cases l i) as [[a ->]| ->]; [apply io_Ok|now left]. Qed.

Lemma io_index_byte (s : string) (i : Z) : index_only (index_byte s i).
Proof.
  unfold index_byte. destruct (_ && _); [|now left].
  destruct (nth_error _ _); [apply io_Ok|now left].
Qed.

Lemma make_len_nonneg (n : Z) : 0 <= n -> make_len n = Ok tt.
Proof.
  intros H. unfold make_len.
  now replace (n <? 0) with false by (symmetry; apply Z.ltb_ge; lia).
Qed.

(** [tnp] on lengths that [make] accepts indexes and does nothing else
    that can fail. *)
Lemma io_tnp (data : string) (h v : Z) :
  0 <= h -> 0 <= v -> 0 <= mul h v -> index_only (tnp data h v).
Proof.
  intros Hh Hv Hhv. unfold tnp. rewrite !make_len_nonneg by assumption.
  cbn [bind].
  repeat first
    [ apply io_Ok | apply io_index | apply io_index_byte
    | apply io_bind; [|intros ? _]
    | apply io_mapM; intros ? _ ].
Qed.

(** A grid without columns or without rows: once the two payloads have
    been read, the slice width or the slice height is a division by
    zero. *)
Lemma rectanglesType1_body_zero_kind h v padding src dst sw sh :
  0 <= h -> 0 <= v -> h = 0 \/ v = 0 ->
  (rectanglesType1_body h v padding src dst sw sh = Panic DivideByZero
   \/ rectanglesType1_body h v padding src dst sw sh = Panic IndexOutOfRange)
  /\ ((exists s d, tnp src h v = Ok s /\ tnp dst h v = Ok d) ->
      rectanglesType1_body h v padding src dst sw sh = Panic DivideByZero).
Proof.
  intros Hh Hv Hz.
  assert (M : mul h v = 0).
  { destruct Hz; subst; unfold mul; rewrite ?Z.mul_0_l, ?Z.mul_0_r; reflexivity. }
  assert (D : forall s d, tnp src h v = Ok s -> tnp dst h v = Ok d ->
                rectanglesType1_body h v padding src dst sw sh = Panic DivideByZero).
  { intros [[srcT srcN] srcP] [[dstT dstN] dstP] Es Ed.
    unfold rectanglesType1_body. destruct (workingSize _ _ _ _ _) as [w ht].
    rewrite Es. cbn [bind]. rewrite Ed. cbn [bind]. rewrite M.
    change (make_len 0) with (Ok tt). change (upto 0) with (@nil Z).
    cbn [bind mapM].
    destruct (Z.eq_dec h 0) as [->|Hh0]; [reflexivity|].
    destruct Hz as [Hz|Hz]; [contradiction|]. subst v.
    unfold div at 1. replace (h =? 0) with false by (symmetry; now apply Z.eqb_neq).
    reflexivity. }
  split; [|intros (s & d & Es & Ed); eauto].
  destruct (io_tnp src h v Hh Hv ltac:(lia)) as [Ps|[s Es]].
  - right. unfold rectanglesType1_body. destruct (workingSize _ _ _ _ _).
    now rewrite Ps.
  - destruct (io_tnp dst h v Hh Hv ltac:(lia)) as [Pd|[d Ed]].
    + right. unfold rectanglesType1_body. destruct (workingSize _ _ _ _ _).
      rewrite Es. cbn [bind]. destruct s as [[? ?] ?]. now rewrite Pd.
    + left. eauto.
Qed.

(** The entries of the key data of a type-1 descrambler. *)
Lemma type1_payloads (ctbl ptbl : list string) (ds : Descrambler) (i : Z) d :
  NewDescrambler ctbl ptbl = Ok ds -> asType1 ds i = Ok d ->
  0 <= h d <= 8 /\ 0 <= v d <= 8
  /\ all_of is_word (src1 d) = true /\ all_of is_word (dst1 d) = true
  /\ len (src1 d) = h d + v d + h d * v d
  /\ len (dst1 d) = h d + v d + h d * v d.
Proof.
  intros H HA. pose proof (initialised_type1 _ _ _ _ _ H HA) as HP.
  apply processType1_Ok in HP.
  destruct HP as (ckey & pkey & cm & pm & _ & _ & RC & RP & _ & _ & _ & _ & _
                  & Hd & Hh & Hv & _ & LC & LP).
  apply reType1Key_Some in RC, RP.
  destruct RC as (_ & _ & _ & _ & _ & _ & _ & _ & WC & _).
  destruct RP as (_ & _ & _ & _ & _ & _ & _ & _ & WP & _).
  subst d. cbn [h v src1 dst1] in *. repeat split; auto; lia.
Qed.

End ZeroGrid.

(** X9.  [NewDescrambler] accepts type-1 keys whose grid has no column or
    no row (h = 0 or v = 0, for instance [=0-1+0-A]).  When the cell a
    file name selects takes such an [h] from its C entry or such a [v] from
    its P entry, every call of [Descramble] panics.  The panic is the
    division by zero of the slice width or height when both payloads can be
    read with this [h] and [v], as they can when the two entries have the
    same grid (the cells of the diagonal among them); otherwise [tnp] reads
    past the end of a payload first and the panic is an index out of
    range. *)
Theorem binb_zero_grid_panics
  (Reader : Type) (image_Decode : Reader -> result Img.Image)
  (ctbl ptbl : list string) (ds0 ds : BinB.Descrambler)
  (filename : string) (reader : Reader) (img : Img.Image)
  (cData pData : BinB.scrambleDataType1) :
  BinB.NewDescrambler ctbl ptbl = Ok ds0 ->
  BinB.reachable Reader image_Decode ds0 ds ->
  image_Decode reader = Ok img ->
  BinB.asType1 ds0 (fst (BinB.cpIndex filename)) = Ok cData ->
  BinB.asType1 ds0 (snd (BinB.cpIndex filename)) = Ok pData ->
  BinB.h cData = 0 \/ BinB.v pData = 0 ->
  let r := fst (BinB.Descramble Reader image_Decode ds filename reader) in
  is_panic r = true
  /\ (r = Panic DivideByZero \/ r = Panic IndexOutOfRange)
  /\ ((exists s d,
         BinB.tnp (BinB.src1 cData) (BinB.h cData) (BinB.v pData) = Ok s
         /\ BinB.tnp (BinB.dst1 pData) (BinB.h cData) (BinB.v pData) = Ok d) ->
      r = Panic DivideByZero)
  /\ (BinB.h pData = BinB.h cData -> BinB.v pData = BinB.v cData ->
      r = Panic DivideByZero).
Proof.
  intros H HR HD Hc Hp Hz r.
  destruct (type1_payloads _ _ _ _ _ H Hc) as (Hh & Hv & WC & _ & LC & _).
  destruct (type1_payloads _ _ _ _ _ H Hp) as (Hh' & Hv' & _ & WP & _ & LP).
  assert (E : r = (col <- BinB.rectanglesType1_body (BinB.h cData) (BinB.v pData)
                             (BinB.padding cData) (BinB.src1 cData) (BinB.dst1 pData)
                             (Img.Dx (Img.Bounds img)) (Img.Dy (Img.Bounds img)) ;;
                   Ok (Scramble.blit img (Scramble.rectangles col)
                         (Img.NewRGBA (Img.Rect 0 0 (Scramble.dstWidth col)
                                         (Scramble.dstHeight col)))))).
  { unfold r.
    rewrite (reachable_is_uncached Reader image_Decode ctbl ptbl ds0 ds
               filename reader H HR).
    unfold BinB.Descramble_uncached. rewrite HD. cbn [bind].
    destruct (BinB.cpIndex filename) as [c p]. cbn [fst snd] in Hc, Hp.
    pose proof (NewDescrambler_square _ _ _ H) as [SL SF].
    pose proof (NewDescrambler_Ok _ _ _ H) as HN. cbv zeta in HN.
    destruct HN as (_ & _ & _ & _ & _ & HL & _).
    pose proof (asType1_Ok _ _ _ Hc) as [Rc _].
    pose proof (asType1_Ok _ _ _ Hp) as [Rp _].
    destruct (index_in_range (BinB.rectangleCollections ds0) c ltac:(lia))
      as [row Er].
    rewrite Er. cbn [bind].
    apply index_Ok in Er. destruct Er as [_ Hn]. apply nth_error_In in Hn.
    rewrite Forall_forall in SF. pose proof (SF _ Hn) as Hlen.
    destruct (index_in_range row p ltac:(lia)) as [slot ->]. cbn [bind].
    unfold BinB.rectangles_for.
    rewrite (asType1_keyType _ _ _ _ _ H Hc). unfold BinB.rectanglesType1.
    rewrite Hc, Hp. reflexivity. }
  destruct (rectanglesType1_body_zero_kind (BinB.h cData) (BinB.v pData)
              (BinB.padding cData) (BinB.src1 cData) (BinB.dst1 pData)
              (Img.Dx (Img.Bounds img)) (Img.Dy (Img.Bounds img))
              ltac:(lia) ltac:(lia) Hz) as [K1 K2].
  assert (K3 : (exists s d,
                  BinB.tnp (BinB.src1 cData) (BinB.h cData) (BinB.v pData) = Ok s
                  /\ BinB.tnp (BinB.dst1 pData) (BinB.h cData) (BinB.v pData) = Ok d) ->
               r = Panic DivideByZero).
  { intros HT. rewrite E, (K2 HT). reflexivity. }
  split; [|split; [|split; [exact K3|]]].
  - rewrite E. destruct K1 as [-> | ->]; reflexivity.
  - rewrite E. destruct K1 as [-> | ->]; [left|right]; reflexivity.
  - intros Eh Ev. apply K3.
    destruct (tnp_Ok (BinB.src1 cData) (BinB.h cData) (BinB.v pData))
      as (t & n & p & Es & _); auto; try lia.
    destruct (tnp_Ok (BinB.dst1 pData) (BinB.h cData) (BinB.v pData))
      as (t' & n' & p' & Ed & _); auto; try lia.
    eauto.
Qed.

Lemma binb_zero_grid_panics_witness :
  exists ds0,
    BinB.NewDescrambler ["=0-1+0-A"%string] ["=0-1-0-A"%string] = Ok ds0
    /\ fst (BinB.Descramble Img.Image Img.decode_id ds0 "" Img.picture_128)
       = Panic DivideByZero.
Proof.
  eexists. split; [vm_compute; reflexivity|].
  refine (proj2 (proj2 (proj2
    (binb_zero_grid_panics Img.Image Img.decode_id
       ["=0-1+0-A"%string] ["=0-1-0-A"%string] _ _ ""%string Img.picture_128
       Img.picture_128 _ _ _ (BinB.reach_init _ _ _) eq_refl _ _ _))) _ _).
  - vm_compute; reflexivity.
  - vm_compute; reflexivity.
  - vm_compute; reflexivity.
  - left. reflexivity.
  - reflexivity.
  - reflexivity.
Defined.

(** Off the diagonal the panic can be the other one: with the keys
    [=0-1+0-A] and [=0-2+0-AA] the file name ["1"] selects cell (0, 1),
    where [tnp] reads two row entries from a payload of one character. *)
Lemma binb_zero_grid_off_diagonal :
  exists ds0,
    BinB.NewDescrambler ["=0-1+0-A"; "=0-2+0-AA"]%string
                        ["=0-1-0-A"; "=0-2-0-AA"]%string = Ok ds0
    /\ BinB.cpIndex "1" = (0, 1)
    /\ fst (BinB.Descramble Img.Image Img.decode_id ds0 "1" Img.picture_128)
       = Panic IndexOutOfRange.
Proof.
  eexists. split; [vm_compute; reflexivity|].
  split; vm_compute; reflexivity.
Qed.

(** X12.  On the payload of a type-1 key (characters of the key alphabet)
    that holds at least [h + v + h * v] characters, [tnp] does not panic:
    it returns [h] column entries, [v] row entries and [h * v] permutation
    entries, each a number from 0 to 63.  This is so for both payloads of
    every key pair that [processType1] accepts. *)
Theorem binb_tnp_total :
  (forall (data : string) (h v : Z),
     0 <= h <= 8 -> 0 <= v <= 8 ->
     BinB.all_of BinB.is_word data = true -> h + v + h * v <= len data ->
     exists t n p,
       BinB.tnp data h v = Ok (t, n, p)
       /\ List.length t = Z.to_nat h /\ List.length n = Z.to_nat v
       /\ List.length p = Z.to_nat (h * v)
       /\ Forall (fun x => 0 <= x < 64) (t ++ n ++ p))
  /\ (forall (ds : BinB.Descrambler) (i : Z) (d : BinB.scrambleDataType1),
        BinB.processType1 ds i = Ok d ->
        is_ok (BinB.tnp (BinB.src1 d) (BinB.h d) (BinB.v d)) = true
        /\ is_ok (BinB.tnp (BinB.dst1 d) (BinB.h d) (BinB.v d)) = true).
Proof.
  split; [apply tnp_Ok|].
  intros ds i d H.
  destruct (processType1_Ok ds i d H)
    as (ckey & pkey & cm & pm & _ & _ & Rc & Rp & _ & _ & _ & _ & _ & Ed
        & Hh & Hv & _ & Lc & Lp).
  pose proof (reType1Key_Some _ _ Rc) as (_ & _ & _ & _ & _ & _ & _ & _ & Wc & _).
  pose proof (reType1Key_Some _ _ Rp) as (_ & _ & _ & _ & _ & _ & _ & _ & Wp & _).
  subst d. cbn [BinB.h BinB.v BinB.src1 BinB.dst1] in *.
  split.
  - destruct (tnp_Ok (BinB.m5 cm) _ _ Hh Hv Wc ltac:(lia)) as (t & n & p & -> & _).
    reflexivity.
  - destruct (tnp_Ok (BinB.m5 pm) _ _ Hh Hv Wp ltac:(lia)) as (t & n & p & -> & _).
    reflexivity.
Qed.

Lemma binb_tnp_total_witness :
  exists t n p,
    BinB.tnp "AB_"%string 1 1 = Ok (t, n, p)
    /\ Forall (fun x => 0 <= x < 64) (t ++ n ++ p).
Proof.
  destruct (proj1 binb_tnp_total "AB_"%string 1 1) as (t & n & p & E & _ & _ & _ & F);
    [lia|lia|reflexivity|vm_compute; discriminate|].
  exists t, n, p. split; assumption.
Defined.

(** X13.  A type-1 derivation whose grid has at least one column and one
    row and whose permutation entries are all below [h * v] never panics,
    whatever the image size and the padding: it returns [h * v] rectangles
    for the working size. *)
Theorem binb_type1_rectangles_total
  (h v padding : Z) (src dst : string) (sw sh : Z)
  (srcT srcN srcP dstT dstN dstP : list Z) :
  1 <= h <= 8 -> 1 <= v <= 8 ->
  BinB.tnp src h v = Ok (srcT, srcN, srcP) ->
  BinB.tnp dst h v = Ok (dstT, dstN, dstP) ->
  Forall (fun x => 0 <= x < h * v) srcP ->
  Forall (fun x => 0 <= x < h * v) dstP ->
  exists col,
    BinB.rectanglesType1_body h v padding src dst sw sh = Ok col
    /\ Z.of_nat (List.length (Scramble.rectangles col)) = h * v
    /\ Scramble.srcWidth col = sw /\ Scramble.srcHeight col = sh
    /\ (Scramble.dstWidth col, Scramble.dstHeight col)
       = BinB.workingSize h v padding sw sh.
Proof. apply rectanglesType1_body_Ok. Qed.

Lemma binb_type1_rectangles_total_witness :
  exists col,
    BinB.rectanglesType1_body 2 2 4 "ABABDCBA" "BABAABCD" 400 400 = Ok col
    /\ Z.of_nat (List.length (Scramble.rectangles col)) = 2 * 2.
Proof.
  destruct (binb_type1_rectangles_total 2 2 4 "ABABDCBA" "BABAABCD" 400 400
              [0; 1] [0; 1] [3; 2; 1; 0] [1; 0] [1; 0] [0; 1; 2; 3])
    as (col & E & L & _); try lia; try reflexivity.
  - repeat (apply Forall_cons; [lia|]). apply Forall_nil.
  - repeat (apply Forall_cons; [lia|]). apply Forall_nil.
  - exists col. split; assumption.
Defined.

Section CoordinatorBooks.
Import Manager.

Variable cfg : run_config.

Ltac step_inv H :=
  unfold step, cleanup_and_return, recovered, set_worker, set_spawner,
         set_main, log_cleanup in H;
  repeat match type of H with
  | context [match ?x with _ => _ end] => destruct x eqn:?; try discriminate H
  end;
  inversion H; subst; clear H;
  cbn [main paths cleanups spawner remaining dlCount workers limiter ec got
       interrupt] in *.

Lemma map_store_same {A B : Type} (f : A -> B) (l : list A) :
  forall n w w', nth_error l n = Some w -> f w' = f w ->
    map f (store l n w') = map f l.
Proof.
  induction l as [|a l IH]; intros [|n] w w' H E; cbn in H; try discriminate.
  - inversion H; subst a. cbn. now rewrite E.
  - cbn. now rewrite (IH n w w' H E).
Qed.

Lemma flat_map_store_same {A B : Type} (f : A -> list B) (l : list A) :
  forall n w w', nth_error l n = Some w -> f w' = f w ->
    flat_map f (store l n w') = flat_map f l.
Proof.
  induction l as [|a l IH]; intros [|n] w w' H E; cbn in H; try discriminate.
  - inversion H; subst a. cbn. now rewrite E.
  - cbn. now rewrite (IH n w w' H E).
Qed.

Lemma flat_map_store_head {A B : Type} (f : A -> list B) (l : list A) :
  forall n w w' b, nth_error l n = Some w -> f w = b :: f w' ->
    Permutation (b :: flat_map f (store l n w')) (flat_map f l).
Proof.
  induction l as [|a l IH]; intros [|n] w w' b H E; cbn in H; try discriminate.
  - inversion H; subst a. cbn. now rewrite E.
  - cbn. specialize (IH n w w' b H E).
    rewrite <- IH. apply Permutation_middle.
Qed.

(** ** No worker slot *)

Section NoSlot.

Hypothesis no_slot : maxWorkers cfg = 0.
Hypothesis some_downloader : downloaders cfg <> [].

Lemma idle_inv_step (l : label) (s s' : state) :
  idle_inv cfg s -> step cfg l s = Some s' -> idle_inv cfg s'.
Proof.
  unfold idle_inv. intros (HW & HE & HR & HS & HM) H.
  assert (Hcap : cap cfg = 0%nat) by (unfold cap; now rewrite no_slot).
  destruct l; unfold step in H.
  - (* Signal *) inversion H; subst; cbn; auto.
  - (* Setup *)
    destruct (main s) eqn:M; try discriminate H.
    destruct (setup_panic cfg).
    + inversion H; subst; cbn. repeat split; auto; try (intros; discriminate).
    + rewrite no_slot in H. cbn in H. inversion H; subst; cbn.
      rewrite HR. destruct (downloaders cfg) eqn:D; [contradiction|].
      repeat split; auto; try (intros; discriminate).
  - (* MainInterrupt *)
    destruct (main s) eqn:M; try discriminate H.
    destruct (interrupt s); try discriminate H.
    unfold cleanup_and_return in H. cbn in H.
    destruct (cleanup_returns cfg _); inversion H; subst; cbn;
      repeat split; auto; intros ps err E; try discriminate E.
    now inversion E.
  - (* MainDone *)
    destruct (main s); try discriminate H.
    destruct (spawner s); try discriminate H; contradiction.
  - (* MainGot *)
    destruct (main s) eqn:M; try discriminate H.
    destruct (got s); try discriminate H.
    inversion H; subst; cbn. repeat split; auto; try (intros; discriminate).
  - (* SpawnerError *)
    destruct (spawner s); try discriminate H. rewrite HE in H. discriminate H.
  - (* SpawnerSpawn *)
    destruct (spawner s); try discriminate H.
    destruct (remaining s); try discriminate H.
    rewrite Hcap in H. cbn in H. discriminate H.
  - (* SpawnerWaited *)
    destruct (spawner s); try discriminate H; contradiction.
  - rewrite HW in H. destruct n; discriminate H.
  - rewrite HW in H. destruct n; discriminate H.
  - rewrite HW in H. destruct n; discriminate H.
  - rewrite HW in H. destruct n; discriminate H.
Qed.

Lemma idle_inv_reachable (s : state) : reachable cfg s -> idle_inv cfg s.
Proof.
  apply invariant_reachable.
  - unfold idle_inv. cbn. repeat split; auto; try (intros; discriminate).
  - intros l s0 s' _. apply idle_inv_step.
Qed.

End NoSlot.

(** ** Where the workers and their errors come from *)

Lemma started_inv_step (l : label) (s s' : state) :
  started_inv cfg s -> step cfg l s = Some s' -> started_inv cfg s'.
Proof.
  unfold started_inv. intros [pre [HD HW]] H.
  destruct l; step_inv H; try (exists pre; split; assumption).
  all: try (exists pre; split; [assumption|]; erewrite map_store_same; eauto; fail).
  all: exists (pre ++ [d]); rewrite <- app_assoc; cbn [app];
       (split; [assumption|]); rewrite !map_app; cbn; now rewrite HW.
Qed.

Lemma started_inv_reachable (s : state) : reachable cfg s -> started_inv cfg s.
Proof.
  apply invariant_reachable.
  - exists []. split; reflexivity.
  - intros l s0 s' _. apply started_inv_step.
Qed.

(** Worker [n] runs downloader [n] of the run. *)
Lemma worker_downloader (s : state) (n : nat) (w : worker) :
  started_inv cfg s -> nth_error (workers s) n = Some w ->
  exists d, nth_error (downloaders cfg) n = Some d /\ ending d = wend w.
Proof.
  intros [pre [HD HW]] Hn.
  assert (Hm : nth_error (map wend (workers s)) n = Some (wend w))
    by (rewrite nth_error_map, Hn; reflexivity).
  rewrite HW, nth_error_map in Hm.
  destruct (nth_error pre n) as [d|] eqn:E; [|discriminate].
  exists d. split; [|cbn in Hm; congruence].
  rewrite HD. rewrite nth_error_app1; [exact E|].
  apply nth_error_Some. rewrite E. discriminate.
Qed.

Lemma nth_error_snoc {A : Type} (l : list A) (a b : A) (n : nat) :
  nth_error (l ++ [a]) n = Some b -> nth_error l n = Some b \/ b = a.
Proof.
  intros H. destruct (Nat.lt_ge_cases n (List.length l)) as [Hlt|Hge].
  - left. now rewrite nth_error_app1 in H.
  - right. rewrite nth_error_app2 in H by exact Hge.
    destruct (n - List.length l)%nat as [|k]; cbn in H; [congruence|].
    destruct k; discriminate.
Qed.

Lemma errors_inv_step (l : label) (s s' : state) :
  reachable cfg s -> errors_inv cfg s -> step cfg l s = Some s' ->
  errors_inv cfg s'.
Proof.
  intros HR (HE & HWk & HS & HM) H.
  pose proof (started_inv_reachable s HR) as HSt.
  pose proof (books_inv_reachable cfg s HR) as (HB1 & HB2 & HB3 & HB4).
  assert (HNew : forall n w e,
            nth_error (workers s) n = Some w -> reported n (wend w) = Some e ->
            worker_error cfg e).
  { intros n w e Hn He. destruct (worker_downloader s n w HSt Hn) as [d [Hd Hw]].
    exists n, d. split; [assumption|]. now rewrite Hw. }
  unfold errors_inv.
  destruct l; step_inv H.
  all: try match goal with E : spawner _ = _ |- _ => rewrite E in * end.
  all: (split; [|split; [|split]]).
  (* the errors in [ec] *)
  all: try assumption.
  all: try (now inversion HE).
  all: try (apply Forall_app; split; [assumption|];
            constructor; [|constructor]; eapply HWk; eauto; fail).
  (* the workers at their send *)
  all: try (intros ? ? ? Hn0 Hw0;
            first
              [ eapply HWk; eauto; fail
              | apply nth_error_snoc in Hn0; destruct Hn0 as [Hn0| ->];
                [eapply HWk; eauto|discriminate Hw0]
              | apply nth_error_store in Hn0; destruct Hn0 as [[-> ->]|Hn0];
                [|eapply HWk; eauto]; cbn in Hw0;
                first [discriminate Hw0
                      | inversion Hw0; subst; eapply HNew; eauto; cbn;
                        match goal with E : wend _ = _ |- _ => rewrite E end;
                        reflexivity
                      | inversion Hw0; subst; eapply HNew; eauto ] ]; fail).
  (* the message of the spawner *)
  all: try (intros e0 Hs0; first
              [ discriminate Hs0
              | apply HS; assumption
              | inversion Hs0; subst; left; now inversion HE ]; fail).
  (* the error returned *)
  all: try (intros ps0 e0 Hm0; first
              [ discriminate Hm0
              | eapply HM; eassumption
              | inversion Hm0; subst; left; reflexivity
              | inversion Hm0; subst; right; right; left; split; assumption
              | inversion Hm0; subst;
                destruct (HS _ eq_refl) as [HX|[HX|HX]];
                [right; right; right; left|right; left|right; right; right; right];
                assumption ]; fail).
  - (* packaging failed *)
    intros ps0 e0 Hm0. inversion Hm0; subst. auto.
  - (* the generator panicked in the spawner *)
    intros e0 Hs0. inversion Hs0; subst. right. right.
    match goal with E : generator_panic cfg = Some ?r |- _ => exists r end.
    split; [assumption|reflexivity].
  - (* no downloader was started *)
    intros e0 Hs0. inversion Hs0; subst. right. left. split; [reflexivity|].
    destruct HSt as [pre [HD HW]]. destruct HB3 as [_ HB3]. rewrite HB3 in HD.
    match goal with E : (dlCount s =? 0)%nat = true |- _ => apply Nat.eqb_eq in E;
      rewrite E in HB1 end.
    destruct (workers s); [|discriminate HB1]. destruct pre; [|discriminate HW].
    exact HD.
Qed.

Lemma errors_inv_reachable (s : state) : reachable cfg s -> errors_inv cfg s.
Proof.
  intros HR. induction HR as [|l s s' HR IH H].
  - unfold errors_inv. cbn. repeat split; auto; try (intros; discriminate).
    intros n w e Hn. destruct n; discriminate Hn.
  - eapply errors_inv_step; eauto.
Qed.

(** ** The paths *)

Lemma ended_todo (ws : list worker) (n : nat) (w : worker) :
  Forall (fun w => running w = false -> todo w = []) ws ->
  nth_error ws n = Some w -> running w = false -> todo w = [].
Proof.
  intros HF Hn. rewrite Forall_forall in HF. apply HF.
  eapply nth_error_In; eauto.
Qed.

Lemma paths_inv_step (l : label) (s s' : state) :
  paths_inv cfg s -> step cfg l s = Some s' -> paths_inv cfg s'.
Proof.
  unfold paths_inv, in_flight. intros (HP & HF & HM) H.
  destruct l; step_inv H.
  all: (split; [|split]).
  (* the list returned without an error *)
  all: try (intros ps0 Hm0; first
              [ discriminate Hm0
              | now apply HM
              | inversion Hm0; reflexivity ]; fail).
  (* the workers that have ended *)
  all: try assumption.
  all: try (apply Forall_app; split; [assumption|];
            constructor; [discriminate|constructor]; fail).
  all: try (apply store_Forall; [assumption|]; cbn; intros _;
            first [reflexivity
                  | match goal with
                    | Hn : nth_error _ _ = Some ?w |- _ =>
                      apply (ended_todo _ _ w HF Hn); reflexivity
                    end ]; fail).
  all: try (apply store_Forall; [assumption|]; cbn; discriminate).
  (* the account of the paths *)
  all: try (erewrite flat_map_store_same; eauto; fail).
  - (* MainGot *)
    rewrite <- app_assoc. cbn [app] in *. exact HP.
  - (* SpawnerSpawn, the last downloader, the generator panics *)
    rewrite flat_map_app. cbn [flat_map todo] in *.
    rewrite ?app_nil_r in *. rewrite <- ?app_assoc. exact HP.
  - (* SpawnerSpawn, the last downloader *)
    rewrite flat_map_app. cbn [flat_map todo] in *.
    rewrite ?app_nil_r in *. rewrite <- ?app_assoc. exact HP.
  - (* SpawnerSpawn *)
    rewrite flat_map_app. cbn [flat_map todo] in *.
    rewrite ?app_nil_r in *. rewrite <- ?app_assoc. exact HP.
  - (* WorkerSave *)
    rewrite <- HP. apply Permutation_app_head.
    rewrite <- app_assoc. apply Permutation_app_head. cbn [app].
    apply (Permutation_app_tail (flat_map saves (remaining s))
             (l := s0 :: flat_map todo (store (workers s) n
                                          {| todo := l; wend := wend0; wpc := WRun |}))
             (l' := flat_map todo (workers s))).
    eapply flat_map_store_head; eauto.
Qed.

Lemma paths_inv_reachable (s : state) : reachable cfg s -> paths_inv cfg s.
Proof.
  apply invariant_reachable.
  - unfold paths_inv, in_flight. cbn. repeat split; auto.
    intros; discriminate.
  - intros l s0 s' _. apply paths_inv_step.
Qed.

(** ** The errors in [ec] *)

Lemma count_store2 (f g : worker -> bool) (l : list worker) (n : nat) (w w' : worker) :
  nth_error l n = Some w ->
  (count f (store l n w') + (if f w then 1 else 0)
   = count f l + (if f w' then 1 else 0)
   /\ count g (store l n w') + (if g w then 1 else 0)
      = count g l + (if g w' then 1 else 0))%nat.
Proof. intros H. split; now apply count_store. Qed.

Lemma reports_inv_step (l : label) (s s' : state) :
  reports_inv s -> step cfg l s = Some s' -> reports_inv s'.
Proof.
  unfold reports_inv. intros HI H.
  destruct l; step_inv H; cbn [List.length] in *; try lia.
  all: try (rewrite !count_app; cbn; lia).
  all: try (rewrite ?length_app; cbn [List.length];
            match goal with
            | Hn : nth_error ?ws ?n = Some ?w |- context [store ?ws ?n ?w'] =>
              destruct (count_store2 at_err stuck ws n w w' Hn) as [C1 C2];
              cbn in C1, C2; lia
            end).
Qed.

Lemma reports_inv_reachable (s : state) : reachable cfg s -> reports_inv s.
Proof.
  apply invariant_reachable.
  - unfold reports_inv. cbn. lia.
  - intros l s0 s' _. apply reports_inv_step.
Qed.

End CoordinatorBooks.

Section CoordinatorFacts.
Import Manager.

Lemma flat_map_nil {A B : Type} (f : A -> list B) (l : list A) :
  Forall (fun a => f a = []) l -> flat_map f l = [].
Proof.
  induction 1 as [|a l Ha _ IH]; [reflexivity|]. cbn. now rewrite Ha, IH.
Qed.

Lemma count_pos (f : worker -> bool) (ws : list worker) (n : nat) (w : worker) :
  nth_error ws n = Some w -> f w = true -> (1 <= count f ws)%nat.
Proof.
  unfold count. revert n. induction ws as [|a ws IH]; intros [|n] H Hf;
    cbn in H; try discriminate.
  - inversion H; subst a. cbn [filter]. rewrite Hf. cbn. lia.
  - cbn [filter]. specialize (IH n H Hf). destruct (f a); cbn; lia.
Qed.

End CoordinatorFacts.




(** X14.  Every path a downloader saves is accounted for: in each state of
    a run the paths received by the main loop ([dm.paths]) together with
    those still in flight (in the channel [got], still to be sent by a
    started worker, or belonging to a downloader not yet started) are a
    rearrangement of the paths the downloaders of the run save; none is
    invented or doubled.  When [Download] returns without an error, the list
    it returns together with what is left in [got] is all of them. *)
Theorem Download_paths_accounted (cfg : Manager.run_config) (s : Manager.state) :
  Manager.reachable cfg s ->
  Permutation (Manager.paths s ++ Manager.in_flight s)
              (flat_map Manager.saves (Manager.downloaders cfg))
  /\ forall ps,
       Manager.main s = Manager.MReturned ps None ->
       Permutation (ps ++ Manager.got s)
                   (flat_map Manager.saves (Manager.downloaders cfg)).
Proof.
  intros HR. destruct (paths_inv_reachable cfg s HR) as (HP & HF & HM).
  split; [exact HP|]. intros ps Hm.
  rewrite (HM ps Hm).
  destruct (books_inv_reachable cfg s HR) as (_ & _ & _ & HB).
  destruct (HB ps Hm) as [(Hrem & _ & Hdone) _].
  unfold Manager.in_flight in HP. rewrite Hrem in HP. cbn [flat_map] in HP.
  rewrite flat_map_nil in HP; [now rewrite !app_nil_r in HP|].
  rewrite Forall_forall in *. intros w Hw. apply HF; [exact Hw|].
  rewrite forallb_forall in Hdone. specialize (Hdone w Hw).
  unfold Manager.done_ok in Hdone. unfold Manager.running.
  destruct (Manager.wpc w); try discriminate; reflexivity.
Qed.

Lemma Download_paths_accounted_witness :
  exists s,
    Manager.run (Manager.one_page_run 1 "title/0001.jpg")
      [Manager.Setup; Manager.SpawnerSpawn; Manager.WorkerSave 0; Manager.MainGot;
       Manager.WorkerEnd 0; Manager.WorkerFree 0; Manager.SpawnerWaited;
       Manager.MainDone]
      (Manager.initial (Manager.one_page_run 1 "title/0001.jpg")) = Some s
    /\ Manager.main s = Manager.MReturned ["title/0001.jpg"%string] None
    /\ Permutation (["title/0001.jpg"%string] ++ Manager.got s)
                   ["title/0001.jpg"%string].
Proof.
  eexists. split; [vm_compute; reflexivity|]. split; [reflexivity|].
  refine (proj2 (Download_paths_accounted
                   (Manager.one_page_run 1 "title/0001.jpg") _ _) _ _);
    [|reflexivity].
  apply (run_reachable (Manager.one_page_run 1 "title/0001.jpg")
           [Manager.Setup; Manager.SpawnerSpawn; Manager.WorkerSave 0;
            Manager.MainGot; Manager.WorkerEnd 0; Manager.WorkerFree 0;
            Manager.SpawnerWaited; Manager.MainDone]
           (Manager.initial (Manager.one_page_run 1 "title/0001.jpg")));
    [apply Manager.reach_initial|reflexivity].
Defined.

(** X15.  The main loop takes [<-done] as readily as [<-got]: a run with
    one worker slot or more and one downloader that saves a page and returns
    nil can end with [Download] returning no error and an empty list, the
    saved path still waiting in the channel [got]. *)
Theorem Download_can_drop_saved_path (maxWorkers : Z) (path : string) :
  1 <= maxWorkers ->
  exists s,
    Manager.run (Manager.one_page_run maxWorkers path)
      [Manager.Setup; Manager.SpawnerSpawn; Manager.WorkerSave 0;
       Manager.WorkerEnd 0; Manager.WorkerFree 0; Manager.SpawnerWaited;
       Manager.MainDone]
      (Manager.initial (Manager.one_page_run maxWorkers path)) = Some s
    /\ Manager.main s = Manager.MReturned [] None
    /\ Manager.cleanups s = [None]
    /\ Manager.got s = [path]
    /\ flat_map Manager.saves
         (Manager.downloaders (Manager.one_page_run maxWorkers path)) = [path].
Proof.
  intros Hm.
  assert (Hneg : (maxWorkers <? 0) = false) by (apply Z.ltb_ge; lia).
  assert (Hcap : exists k, Z.to_nat maxWorkers = S k).
  { exists (Nat.pred (Z.to_nat maxWorkers)). lia. }
  destruct Hcap as [k Hcap].
  unfold Manager.one_page_run, Manager.run, Manager.step, Manager.cap,
    Manager.initial.
  cbn -[Z.ltb Z.to_nat Nat.ltb].
  rewrite Hneg. cbn -[Z.ltb Z.to_nat Nat.ltb]. rewrite !Hcap.
  cbn -[Z.ltb Z.to_nat].
  eexists. split; [reflexivity|]. cbn. repeat split; reflexivity.
Qed.

Lemma Download_can_drop_saved_path_witness :
  exists s,
    Manager.run (Manager.one_page_run 10 "title/0001.jpg")
      [Manager.Setup; Manager.SpawnerSpawn; Manager.WorkerSave 0;
       Manager.WorkerEnd 0; Manager.WorkerFree 0; Manager.SpawnerWaited;
       Manager.MainDone]
      (Manager.initial (Manager.one_page_run 10 "title/0001.jpg")) = Some s
    /\ Manager.main s = Manager.MReturned [] None
    /\ Manager.got s = ["title/0001.jpg"%string].
Proof.
  destruct (Download_can_drop_saved_path 10 "title/0001.jpg" ltac:(lia))
    as (s & H1 & H2 & _ & H3 & _).
  exists s. repeat split; assumption.
Defined.

(** X16.  With a worker cap of zero the spawner never gets a slot: when
    the plugin yields at least one downloader no worker is ever started and
    [Download] returns only on an interrupt. *)
Theorem Download_needs_a_worker_slot (cfg : Manager.run_config) (s : Manager.state) :
  Manager.maxWorkers cfg = 0 ->
  Manager.downloaders cfg <> [] ->
  Manager.reachable cfg s ->
  Manager.workers s = []
  /\ forall ps err,
       Manager.main s = Manager.MReturned ps err ->
       err = Some Manager.ErrInterrupted.
Proof.
  intros H0 HD HR.
  destruct (idle_inv_reachable cfg H0 HD s HR) as (HW & _ & _ & _ & HM).
  split; assumption.
Qed.

Lemma Download_needs_a_worker_slot_witness :
  exists s,
    Manager.run (Manager.one_page_run 0 "title/0001.jpg")
      [Manager.Setup; Manager.Signal; Manager.MainInterrupt]
      (Manager.initial (Manager.one_page_run 0 "title/0001.jpg")) = Some s
    /\ Manager.main s = Manager.MReturned [] (Some Manager.ErrInterrupted)
    /\ Manager.workers s = [].
Proof.
  eexists. split; [vm_compute; reflexivity|]. split; [reflexivity|].
  apply (Download_needs_a_worker_slot (Manager.one_page_run 0 "title/0001.jpg")).
  - reflexivity.
  - discriminate.
  - apply (run_reachable (Manager.one_page_run 0 "title/0001.jpg")
             [Manager.Setup; Manager.Signal; Manager.MainInterrupt]
             (Manager.initial (Manager.one_page_run 0 "title/0001.jpg"))); [apply Manager.reach_initial|reflexivity].
Defined.

(** X17.  The error [Download] returns is never of its own making: it is
    [ErrInterrupted], the error of the packaging, the spawner's error for a
    plugin that yields no downloader (and only then), the error the
    spawner makes of a panic of the generator ([Spawner panicked: ...]), or
    the error that one of the downloaders of the run returned or the message
    made of its panic and of the number of its worker
    ([Worker #n panicked: ...], downloader [n] being run by worker [n]). *)
Theorem Download_error_provenance
  (cfg : Manager.run_config) (s : Manager.state) (ps : list string)
  (e : Manager.error) :
  Manager.reachable cfg s ->
  Manager.main s = Manager.MReturned ps (Some e) ->
  e = Manager.ErrInterrupted
  \/ (e = Manager.ErrNoDownloaders /\ Manager.downloaders cfg = [])
  \/ (Manager.zipit cfg = true /\ Manager.zip cfg = Manager.ZipErr e)
  \/ (exists n d,
        nth_error (Manager.downloaders cfg) n = Some d
        /\ (Manager.ending d = Manager.ReturnsErr e
            \/ exists r, Manager.ending d = Manager.Panics r
                         /\ e = Manager.worker_panicked n r))
  \/ (exists r, Manager.generator_panic cfg = Some r
                /\ e = Manager.spawner_panicked r).
Proof.
  intros HR Hm.
  destruct (errors_inv_reachable cfg s HR) as (_ & _ & _ & HM).
  destruct (HM ps e Hm) as [H|[H|[H|[H|H]]]];
    [now left|right; now left|right; right; now left| |do 4 right; exact H].
  right. right. right. left. destruct H as (n & d & Hn & Hd).
  exists n, d. split; [exact Hn|]. unfold Manager.reported in Hd.
  destruct (Manager.ending d) as [|e'|r]; [discriminate| |].
  - left. congruence.
  - right. exists r. split; [reflexivity|congruence].
Qed.

Lemma Download_error_provenance_witness :
  exists s,
    Manager.run Manager.generator_panic_run
      [Manager.Setup; Manager.SpawnerSpawn; Manager.MainDone]
      (Manager.initial Manager.generator_panic_run) = Some s
    /\ Manager.main s
       = Manager.MReturned [] (Some (Manager.spawner_panicked "no session"))
    /\ (Manager.spawner_panicked "no session" = Manager.ErrInterrupted
        \/ (Manager.spawner_panicked "no session" = Manager.ErrNoDownloaders
            /\ Manager.downloaders Manager.generator_panic_run = [])
        \/ (Manager.zipit Manager.generator_panic_run = true
            /\ Manager.zip Manager.generator_panic_run
               = Manager.ZipErr (Manager.spawner_panicked "no session"))
        \/ (exists n d,
              nth_error (Manager.downloaders Manager.generator_panic_run) n = Some d
              /\ (Manager.ending d
                  = Manager.ReturnsErr (Manager.spawner_panicked "no session")
                  \/ exists r, Manager.ending d = Manager.Panics r
                               /\ Manager.spawner_panicked "no session"
                                  = Manager.worker_panicked n r))
        \/ (exists r, Manager.generator_panic Manager.generator_panic_run = Some r
                      /\ Manager.spawner_panicked "no session"
                         = Manager.spawner_panicked r)).
Proof.
  eexists. split; [vm_compute; reflexivity|]. split; [reflexivity|].
  eapply (Download_error_provenance Manager.generator_panic_run _ []).
  - apply (run_reachable Manager.generator_panic_run
             [Manager.Setup; Manager.SpawnerSpawn; Manager.MainDone]
             (Manager.initial Manager.generator_panic_run));
      [apply Manager.reach_initial|reflexivity].
  - reflexivity.
Defined.

(** X18.  A worker whose downloader failed is never kept waiting at its
    send on [ec]: the errors waiting there are fewer than the slots that the
    failed workers hold for good, so the channel, as large as the worker
    cap, has room.  Hence a failing worker always reaches [wg.Done()]. *)
Theorem Download_error_report_never_blocks
  (cfg : Manager.run_config) (s : Manager.state) (n : nat) (w : Manager.worker)
  (e : Manager.error) :
  Manager.reachable cfg s ->
  nth_error (Manager.workers s) n = Some w ->
  Manager.wpc w = Manager.WErr e ->
  (List.length (Manager.ec s) < Manager.cap cfg)%nat
  /\ exists s', Manager.step cfg (Manager.WorkerReport n) s = Some s'.
Proof.
  intros HR Hn Hw.
  pose proof (reports_inv_reachable cfg s HR) as HI. unfold Manager.reports_inv in HI.
  destruct (slots_inv_reachable cfg s HR) as [HL HC].
  assert (H1 : (1 <= Manager.count Manager.at_err (Manager.workers s))%nat).
  { eapply count_pos; eauto. unfold Manager.at_err. now rewrite Hw. }
  assert (H2 : (Manager.count Manager.stuck (Manager.workers s)
                <= Manager.count Manager.holds_slot (Manager.workers s))%nat).
  { apply count_le. intros w0. unfold Manager.stuck, Manager.holds_slot.
    destruct (Manager.wpc w0); auto. }
  assert (HLt : (List.length (Manager.ec s) < Manager.cap cfg)%nat) by lia.
  split; [exact HLt|].
  unfold Manager.step. rewrite Hn. destruct w as [t o pc]. cbn in Hw. subst pc.
  apply Nat.ltb_lt in HLt. rewrite HLt. eauto.
Qed.

Lemma Download_error_report_never_blocks_witness :
  exists s,
    Manager.run Manager.failing_run
      [Manager.Setup; Manager.SpawnerSpawn; Manager.WorkerEnd 0]
      (Manager.initial Manager.failing_run) = Some s
    /\ (List.length (Manager.ec s) < Manager.cap Manager.failing_run)%nat
    /\ exists s', Manager.step Manager.failing_run (Manager.WorkerReport 0) s = Some s'.
Proof.
  eexists. split; [vm_compute; reflexivity|].
  refine (Download_error_report_never_blocks Manager.failing_run
            _ 0%nat _ "HTTP 403"%string _ _ _).
  - apply (run_reachable Manager.failing_run
             [Manager.Setup; Manager.SpawnerSpawn; Manager.WorkerEnd 0]
             (Manager.initial Manager.failing_run)); [apply Manager.reach_initial|reflexivity].
  - reflexivity.
  - reflexivity.
Defined.

Section CipherKey.
Import Cipher.

Lemma makeKey_pos (cid k : string) : 0 < makeKey cid k < 2 ^ 31.
Proof.
  pose proof (spec_seed_range cid k) as HR. rewrite <- makeKey_seed in HR.
  split; [|lia].
  assert (makeKey cid k <> 0); [|lia].
  unfold makeKey. cbv zeta.
  destruct (Z.eqb_spec
    (Z.land
       (fold_left
          (fun res ic => add32 res (shl32 (u32 (snd ic)) (Z.rem (fst ic) 16)))
          (range_string (cid ++ ":" ++ k)) 0) 0x7FFFFFFF) 0) as [E|E];
    cbn [negb]; [discriminate|exact E].
Qed.

Lemma nextKey_pos (key : Z) : 0 < key < 2 ^ 31 -> 0 < nextKey key < 2 ^ 31.
Proof.
  intros Hk. pose proof (spec_step_range key ltac:(lia)) as HR.
  rewrite <- nextKey_step in HR. split; [|lia].
  assert (nextKey key <> 0); [|lia].
  rewrite nextKey_step. unfold spec_step. intros E.
  apply Z.lxor_eq in E.
  assert (Hs : 0 <= Z.shiftr key 1 < 2 ^ 30).
  { rewrite Z.shiftr_div_pow2 by lia. change (2 ^ 1) with 2.
    split; [apply Z.div_pos; lia|]. apply Z.div_lt_upper_bound; lia. }
  destruct (Z.odd key) eqn:O; [lia|].
  assert (key / 2 = 0).
  { rewrite Z.shiftr_div_pow2 in E by lia. exact E. }
  pose proof (Zmod_odd key) as M. rewrite O in M.
  pose proof (Z.div_mod key 2 ltac:(lia)). lia.
Qed.

Lemma keyAfter_pos (cid k : string) (n : nat) : 0 < keyAfter cid k n < 2 ^ 31.
Proof.
  unfold keyAfter. induction n as [|n IH]; [apply makeKey_pos|].
  cbn [Nat.iter]. now apply nextKey_pos.
Qed.

Lemma outByte_small (c key : Z) :
  0x20 <= c < 0x7E -> 0 <= key < 2 ^ 31 ->
  outByte c key = (c - 0x20 + key) mod 0x5E + 0x20.
Proof.
  intros Hc Hk. rewrite outByte_combine. unfold spec_combine.
  rewrite (Z.mod_small (c - 32 + key)) by lia. reflexivity.
Qed.

Lemma outByte_inj (a b key : Z) :
  0x20 <= a < 0x7E -> 0x20 <= b < 0x7E -> 0 <= key < 2 ^ 31 ->
  outByte a key = outByte b key -> a = b.
Proof.
  intros Ha Hb Hk E. rewrite !outByte_small in E by assumption.
  pose proof (Z.div_mod (a - 32 + key) 94 ltac:(lia)).
  pose proof (Z.div_mod (b - 32 + key) 94 ltac:(lia)).
  lia.
Qed.

Lemma decryptLoop_inj (c1 : list Z) :
  forall c2 key,
    0 < key < 2 ^ 31 ->
    Forall (fun c => 0x20 <= c < 0x7E) c1 ->
    Forall (fun c => 0x20 <= c < 0x7E) c2 ->
    decryptLoop key c1 [] = decryptLoop key c2 [] -> c1 = c2.
Proof.
  induction c1 as [|a c1 IH]; intros [|b c2] key Hk H1 H2 E.
  - reflexivity.
  - rewrite decryptLoop_cons in E. discriminate.
  - rewrite decryptLoop_cons in E. discriminate.
  - rewrite !decryptLoop_cons in E. inversion E as [[E1 E2]].
    inversion H1; subst. inversion H2; subst.
    pose proof (nextKey_pos key Hk).
    f_equal.
    + eapply outByte_inj; eauto. lia.
    + eapply IH; eauto.
Qed.

Lemma printable_Forall (s : string) :
  printable s = true -> Forall (fun c => 0x20 <= c < 0x7E) (bytes_of s).
Proof.
  unfold printable. rewrite forallb_forall, Forall_forall.
  intros H c Hc. specialize (H c Hc). apply andb_true_iff in H. lia.
Qed.

Lemma printable_ascii (s : string) : printable s = true -> is_ascii s = true.
Proof.
  unfold printable, is_ascii. rewrite !forallb_forall.
  intros H c Hc. specialize (H c Hc). apply andb_true_iff in H. lia.
Qed.

Lemma bytes_of_inj (s t : string) : bytes_of s = bytes_of t -> s = t.
Proof.
  revert t. induction s as [|a s IH]; intros [|b t] E; try discriminate.
  - reflexivity.
  - unfold bytes_of in E. cbn [list_ascii_of_string map] in E.
    inversion E as [[E1 E2]]. apply byte_val_inj in E1. subst b.
    f_equal. now apply IH.
Qed.

End CipherKey.

(** X19.  The key of [decryptData] never becomes zero and never leaves 31
    bits, however long the data: the loop never reaches the one key that
    the update leaves unchanged and that would write every printable
    character as it is read. *)
Theorem decryptData_key_never_zero (cid k : string) (n : nat) :
  0 < Cipher.keyAfter cid k n < 2 ^ 31
  /\ Cipher.nextKey 0 = 0
  /\ forall c, 0x20 <= c < 0x7E -> Cipher.outByte c 0 = c.
Proof.
  split; [apply keyAfter_pos|]. split; [reflexivity|].
  intros c Hc. rewrite outByte_small by lia.
  rewrite Z.mod_small by lia. lia.
Qed.

Lemma decryptData_key_never_zero_witness :
  0 < Cipher.keyAfter "cid" "k" 1000 < 2 ^ 31 /\ Cipher.outByte 0x41 0 = 0x41.
Proof.
  destruct (decryptData_key_never_zero "cid" "k" 1000) as (H1 & _ & H3).
  split; [exact H1|]. apply H3. lia.
Defined.

(** X20.  [decryptData] loses nothing on printable text: under one [cid]
    and one [k], two different texts written with the characters [0x20] to
    [0x7D] are never turned into the same bytes. *)
Theorem decryptData_injective (cid k d1 d2 : string) :
  Cipher.printable d1 = true -> Cipher.printable d2 = true ->
  d1 <> d2 ->
  Cipher.decryptData cid k d1 <> Cipher.decryptData cid k d2.
Proof.
  intros P1 P2 Hne E. apply Hne. unfold Cipher.decryptData in E.
  apply Ok_inj in E.
  rewrite !runes_ascii in E by now apply printable_ascii.
  apply bytes_of_inj.
  eapply decryptLoop_inj; [apply makeKey_pos| | |exact E];
    now apply printable_Forall.
Qed.

Lemma decryptData_injective_witness :
  Cipher.decryptData "cid" "k" "page-1" <> Cipher.decryptData "cid" "k" "page-2".
Proof.
  apply (decryptData_injective "cid" "k" "page-1" "page-2").
  - reflexivity.
  - reflexivity.
  - discriminate.
Defined.

Section CopyProofs.
Import Reporter.

Variable World : Type.

Lemma add_small (a b : Z) : - 2 ^ 63 <= a + b < 2 ^ 63 -> add a b = a + b.
Proof. intros H. unfold add. now apply wrap64_small. Qed.

Lemma total_Last (chunk : list Z) (er : read_end) :
  total (Last chunk er) = Z.of_nat (List.length chunk).
Proof. reflexivity. Qed.

Lemma total_Then (chunk : list Z) (rest : source) :
  total (Then chunk rest) = Z.of_nat (List.length chunk) + total rest.
Proof. unfold total. cbn [data]. rewrite length_app. lia. Qed.

Lemma total_nonneg (src : source) : 0 <= total src.
Proof. unfold total. lia. Qed.

(** A chunk whose handling does not break the loop was counted in full. *)
Lemma write_chunk_continue (ioctrl : IOController World) (chunk : list Z)
  (written written' : Z) (w w' : World) :
  write_chunk World ioctrl chunk written w = Ok (written', None, w') ->
  0 <= written -> written + Z.of_nat (List.length chunk) < 2 ^ 63 ->
  written' = written + Z.of_nat (List.length chunk).
Proof.
  unfold write_chunk. intros H H0 Hb.
  destruct (Z.ltb_spec 0 (Z.of_nat (List.length chunk))) as [Hp|Hp]; [|inversion H; lia].
  destruct (bufSize <? _); [discriminate|].
  destruct (Write World ioctrl chunk w) as [[nw ew] w1].
  destruct ew as [e|]; [discriminate|].
  destruct (Z.eqb_spec (Z.of_nat (List.length chunk)) nw) as [E|E];
    cbn [negb] in H; [|discriminate].
  inversion H; subst. 
  destruct (Z.ltb_spec 0 (Z.of_nat (List.length chunk))); [|lia].
  apply add_small. lia.
Qed.

Lemma copy_loop_nil (ioctrl : IOController World) (src : source) :
  forall written w written' w',
    copy_loop World ioctrl src written w = Ok ((written', None), w') ->
    0 <= written -> written + total src < 2 ^ 63 ->
    written' = written + total src /\ end_of src = EOF.
Proof.
  induction src as [chunk er|chunk rest IH]; intros written w written' w' H H0 Hb;
    cbn [copy_loop] in H.
  - destruct (write_chunk World ioctrl chunk written w) as [[[wr1 brk] w1]| |] eqn:E;
      cbn [bind] in H; try discriminate.
    destruct brk as [e|]; [discriminate|].
    rewrite total_Last in *.
    apply write_chunk_continue in E; [|lia|lia].
    destruct er; cbn [end_error] in H; [|discriminate].
    inversion H; subst. split; reflexivity.
  - destruct (write_chunk World ioctrl chunk written w) as [[[wr1 brk] w1]| |] eqn:E;
      cbn [bind] in H; try discriminate.
    destruct brk as [e|]; [discriminate|].
    rewrite total_Then in *. pose proof (total_nonneg rest).
    apply write_chunk_continue in E; [|lia|lia].
    apply IH in H; [|lia|lia].
    cbn [end_of]. destruct H as [-> HE]. split; [lia|exact HE].
Qed.

(** The controller of [copy]: its destination and its callbacks. *)
Lemma fold_Register (cbs : list (IODataHandler World)) :
  forall ioctrl,
    fold_left (RegisterDataCallback World) cbs ioctrl
    = mkIOController World (writer World ioctrl) (dataCallbacks World ioctrl ++ cbs).
Proof.
  induction cbs as [|cb cbs IH]; intros [wr l]; cbn [fold_left].
  - cbn. now rewrite app_nil_r.
  - rewrite IH. unfold RegisterDataCallback. cbn. now rewrite <- app_assoc.
Qed.

Lemma controller_eq (dr : DownloadReporter World) (dst : option (Writer World))
  (report : bool) :
  controller World dr dst report
  = mkIOController World dst
      (callbacks World dr ++ if report then [reportCallback World dr] else []).
Proof.
  unfold controller. rewrite fold_Register. cbn.
  destruct report; [|now rewrite app_nil_r]. reflexivity.
Qed.

Section Destination.

Variable content : World -> list Z.
Variable wr : Writer World.
Hypothesis wr_appends : appends World content wr.

Lemma run_callbacks_keeps (cbs : list (IODataHandler World)) (p : list Z) :
  Forall (keeps World content) cbs ->
  forall w, content (snd (run_callbacks World cbs p w)) = content w.
Proof.
  induction 1 as [|cb cbs Hcb _ IH]; intros w; cbn [run_callbacks]; [reflexivity|].
  specialize (Hcb p w). destruct (cb p w) as [[e|] w1]; cbn [snd] in *.
  - exact Hcb.
  - now rewrite IH.
Qed.

Lemma run_callbacks_accepts (cbs : list (IODataHandler World)) (p : list Z) :
  Forall (accepts World) cbs ->
  forall w, fst (run_callbacks World cbs p w) = None.
Proof.
  induction 1 as [|cb cbs Hcb _ IH]; intros w; cbn [run_callbacks]; [reflexivity|].
  specialize (Hcb p w). destruct (cb p w) as [[e|] w1]; cbn [fst] in *.
  - discriminate.
  - apply IH.
Qed.

(** One call of [Write] on a controller over the destination: the chunk is
    appended whole, or a callback refused it and nothing is. *)
Lemma Write_appends (cbs : list (IODataHandler World)) (p : list Z) (w : World) :
  Forall (keeps World content) cbs ->
  let r := Write World (mkIOController World (Some wr) cbs) p w in
  (fst r = (Z.of_nat (List.length p), None) /\ content (snd r) = content w ++ p)
  \/ (exists e, fst r = (0, Some e) /\ content (snd r) = content w).
Proof.
  intros Hk. cbv zeta. unfold Write. cbn [dataCallbacks writer].
  pose proof (run_callbacks_keeps cbs p Hk w) as HC.
  destruct (run_callbacks World cbs p w) as [[e|] w1]; cbn [snd] in HC.
  - right. exists e. split; [reflexivity|exact HC].
  - left. destruct (wr_appends p w1) as [H1 H2]. split; [exact H1|].
    now rewrite H2, HC.
Qed.

Lemma Write_accepts (cbs : list (IODataHandler World)) (p : list Z) (w : World) :
  Forall (accepts World) cbs ->
  fst (Write World (mkIOController World (Some wr) cbs) p w)
  = (Z.of_nat (List.length p), None).
Proof.
  intros Ha. unfold Write. cbn [dataCallbacks writer].
  pose proof (run_callbacks_accepts cbs p Ha w) as HC.
  destruct (run_callbacks World cbs p w) as [[e|] w1]; cbn [fst] in HC;
    [discriminate|].
  apply wr_appends.
Qed.

Lemma firstn_data_app (a b : list Z) (n : Z) :
  0 <= n ->
  firstn (Z.to_nat (Z.of_nat (List.length a) + n)) (a ++ b) = a ++ firstn (Z.to_nat n) b.
Proof.
  intros Hn. rewrite Z2Nat.inj_add by lia. rewrite Nat2Z.id.
  now rewrite firstn_app_2.
Qed.

(** The loop keeps the destination in step with [written]. *)
Lemma copy_loop_appends (cbs : list (IODataHandler World)) (src : source) :
  Forall (keeps World content) cbs ->
  Forall (fun c => Z.of_nat (List.length c) <= bufSize) (chunks src) ->
  forall written w,
    0 <= written -> written + total src < 2 ^ 63 ->
    exists n err w',
      copy_loop World (mkIOController World (Some wr) cbs) src written w
      = Ok ((written + n, err), w')
      /\ 0 <= n <= total src
      /\ content w' = content w ++ firstn (Z.to_nat n) (data src)
      /\ (err = None -> n = total src /\ end_of src = EOF)
      /\ (Forall (accepts World) cbs -> n = total src /\ err = end_error (end_of src)).
Proof.
  intros Hk.
  assert (Hstep : forall chunk written w,
    Z.of_nat (List.length chunk) <= bufSize ->
    0 <= written -> written + Z.of_nat (List.length chunk) < 2 ^ 63 ->
    (exists w',
       write_chunk World (mkIOController World (Some wr) cbs) chunk written w
       = Ok (written + Z.of_nat (List.length chunk), None, w')
       /\ content w' = content w ++ chunk)
    \/ (exists e w',
          write_chunk World (mkIOController World (Some wr) cbs) chunk written w
          = Ok (written, Some e, w')
          /\ content w' = content w
          /\ ~ Forall (accepts World) cbs)).
  { intros chunk written w Hc H0 Hb. unfold write_chunk.
    destruct (Z.ltb_spec 0 (Z.of_nat (List.length chunk))) as [Hp|Hp].
    - destruct (Z.ltb_spec bufSize (Z.of_nat (List.length chunk))); [lia|].
      pose proof (Write_appends cbs chunk w Hk) as HW. cbv zeta in HW.
      pose proof (Write_accepts cbs chunk w) as HA.
      destruct (Write World (mkIOController World (Some wr) cbs) chunk w)
        as [[nw ew] w1]; cbn [fst snd] in HW, HA.
      destruct HW as [[E HC]|(e & E & HC)]; inversion E; subst.
      + left. exists w1. rewrite Z.eqb_refl. cbn [negb].
        destruct (Z.ltb_spec 0 (Z.of_nat (List.length chunk))); [|lia].
        rewrite add_small by lia. split; [reflexivity|exact HC].
      + right. exists e, w1. cbn. split; [reflexivity|]. split; [exact HC|].
        intros Ha. specialize (HA Ha). inversion HA.
    - left. exists w. split.
      + f_equal. f_equal. f_equal. lia.
      + assert (chunk = []) by (destruct chunk; [reflexivity|cbn in Hp; lia]).
        subst. now rewrite app_nil_r. }
  induction src as [chunk er|chunk rest IH]; intros Hc written w H0 Hb;
    cbn [chunks] in Hc; inversion Hc as [|? ? Hc1 Hc2]; subst; cbn [copy_loop].
  - rewrite total_Last in *.
    destruct (Hstep chunk written w Hc1 H0 Hb) as [(w' & E & HC)|(e & w' & E & HC & HN)];
      rewrite E; cbn [bind].
    + exists (Z.of_nat (List.length chunk)), (end_error er), w'.
      split; [reflexivity|]. split; [lia|]. split.
      { cbn [data]. rewrite Nat2Z.id, firstn_all. exact HC. }
      split.
      { intros He. split; [reflexivity|]. cbn [end_of].
        destruct er; [reflexivity|discriminate]. }
      intros _. split; reflexivity.
    + exists 0, (Some e), w'. rewrite Z.add_0_r. split; [reflexivity|].
      split; [lia|]. split.
      { cbn [Z.to_nat firstn]. now rewrite app_nil_r. }
      split; [discriminate|]. intros Ha. now elim HN.
  - rewrite total_Then in *. pose proof (total_nonneg rest) as Hr.
    destruct (Hstep chunk written w Hc1 H0 ltac:(lia))
      as [(w1 & E & HC)|(e & w1 & E & HC & HN)]; rewrite E; cbn [bind].
    + destruct (IH Hc2 (written + Z.of_nat (List.length chunk)) w1 ltac:(lia) ltac:(lia))
        as (n & err & w' & E' & Hn & HC' & He & Ha).
      exists (Z.of_nat (List.length chunk) + n), err, w'.
      split; [rewrite E'; f_equal; f_equal; f_equal; lia|].
      split; [lia|]. split.
      { cbn [data]. rewrite firstn_data_app by lia.
        rewrite HC', HC. now rewrite app_assoc. }
      split.
      { intros Hnil. destruct (He Hnil) as [-> HE]. split; [reflexivity|exact HE]. }
      intros Hacc. destruct (Ha Hacc) as [-> HE]. split; [reflexivity|exact HE].
    + exists 0, (Some e), w1. rewrite Z.add_0_r. split; [reflexivity|].
      split; [lia|]. split.
      { cbn [Z.to_nat firstn]. now rewrite app_nil_r. }
      split; [discriminate|]. intros Ha. now elim HN.
Qed.

End Destination.

End CopyProofs.

(** X21.  [copy] returns a nil error only for a source read to [io.EOF]
    and written in full: whatever the destination and the callbacks do, a
    short write or an error of any of them is never passed over, and
    [written] is then the number of bytes the source delivered. *)
Theorem copy_nil_error_is_complete (World : Type)
  (dr : Reporter.DownloadReporter World) (dst : option (Reporter.Writer World))
  (src : Reporter.source) (report : bool) (w w' : World) (written : Z) :
  Reporter.total src < 2 ^ 63 ->
  Reporter.copy World dr dst src report w = Ok ((written, None), w') ->
  written = Reporter.total src /\ Reporter.end_of src = Reporter.EOF.
Proof.
  intros Hb H. unfold Reporter.copy in H.
  apply copy_loop_nil in H; [|lia|lia]. destruct H as [-> ->]. split; [lia|reflexivity].
Qed.

Lemma copy_nil_error_is_complete_witness :
  exists w',
    Reporter.copy (list Z * Z)
      (Reporter.mkDownloadReporter _ Reporter.counting [])
      (Some Reporter.file_writer)
      (Reporter.Then [1; 2; 3] (Reporter.Then [] (Reporter.Last [4; 5] Reporter.EOF)))
      true ([], 0) = Ok ((5, None), w')
    /\ 5 = Reporter.total
             (Reporter.Then [1; 2; 3] (Reporter.Then [] (Reporter.Last [4; 5] Reporter.EOF))).
Proof.
  eexists. split; [vm_compute; reflexivity|].
  refine (proj1 (copy_nil_error_is_complete (list Z * Z)
                   (Reporter.mkDownloadReporter _ Reporter.counting [])
                   (Some Reporter.file_writer)
                   (Reporter.Then [1; 2; 3]
                      (Reporter.Then [] (Reporter.Last [4; 5] Reporter.EOF)))
                   true ([], 0) _ 5 _ _)).
  - vm_compute. reflexivity.
  - vm_compute. reflexivity.
Defined.

(** X22.  Into a destination that appends all it is given (a file), with
    callbacks that leave it alone, [copy] of chunks that fit the buffer
    always returns, and the destination then holds, after what it held,
    exactly the first [written] bytes of the source, in order: a chunk a
    callback refuses is not written.  When no callback refuses, that is the
    whole of the source and the error is the reader's own (nil at
    [io.EOF]). *)
Theorem copy_delivers_written_bytes (World : Type) (content : World -> list Z)
  (dr : Reporter.DownloadReporter World) (wr : Reporter.Writer World)
  (src : Reporter.source) (report : bool) (w : World) :
  Reporter.appends World content wr ->
  Forall (Reporter.keeps World content)
         (Reporter.reportCallback World dr :: Reporter.callbacks World dr) ->
  Forall (fun c => Z.of_nat (List.length c) <= Reporter.bufSize) (Reporter.chunks src) ->
  Reporter.total src < 2 ^ 63 ->
  exists written err w',
    Reporter.copy World dr (Some wr) src report w = Ok ((written, err), w')
    /\ 0 <= written <= Reporter.total src
    /\ content w' = content w ++ firstn (Z.to_nat written) (Reporter.data src)
    /\ (Forall (Reporter.accepts World)
               (Reporter.reportCallback World dr :: Reporter.callbacks World dr) ->
        written = Reporter.total src
        /\ content w' = content w ++ Reporter.data src
        /\ err = Reporter.end_error (Reporter.end_of src)).
Proof.
  intros Hw Hk Hc Hb. unfold Reporter.copy. rewrite controller_eq.
  inversion Hk as [|? ? Hk1 Hk2]; subst.
  assert (Hk' : Forall (Reporter.keeps World content)
                  (Reporter.callbacks World dr ++
                   (if report then [Reporter.reportCallback World dr] else []))).
  { apply Forall_app. split; [exact Hk2|]. destruct report; auto. }
  destruct (copy_loop_appends World content wr Hw _ src Hk' Hc 0 w ltac:(lia) ltac:(lia))
    as (n & err & w' & E & Hn & HC & _ & Ha).
  exists n, err, w'. rewrite E. split; [reflexivity|]. split; [exact Hn|].
  split; [exact HC|]. intros Hacc.
  inversion Hacc as [|? ? Ha1 Ha2]; subst.
  destruct Ha as [-> ->].
  { apply Forall_app. split; [exact Ha2|]. destruct report; auto. }
  split; [reflexivity|]. split; [|reflexivity].
  rewrite HC. f_equal. unfold Reporter.total. rewrite Nat2Z.id. apply firstn_all.
Qed.

Lemma copy_delivers_written_bytes_witness :
  exists written err w',
    Reporter.copy (list Z * Z)
      (Reporter.mkDownloadReporter _ Reporter.counting [Reporter.refusing "stop"%string])
      (Some Reporter.file_writer)
      (Reporter.Then [1; 2; 3] (Reporter.Last [4; 5] Reporter.EOF))
      true ([9], 0) = Ok ((written, err), w')
    /\ 0 <= written <= 5
    /\ fst w' = [9] ++ firstn (Z.to_nat written) [1; 2; 3; 4; 5].
Proof.
  destruct (copy_delivers_written_bytes (list Z * Z) fst
              (Reporter.mkDownloadReporter _ Reporter.counting [Reporter.refusing "stop"%string])
              Reporter.file_writer
              (Reporter.Then [1; 2; 3] (Reporter.Last [4; 5] Reporter.EOF))
              true ([9], 0))
    as (written & err & w' & E & Hn & HC & _).
  - intros p w. split; reflexivity.
  - repeat constructor.
  - repeat constructor; cbn; unfold Reporter.bufSize; lia.
  - vm_compute. reflexivity.
  - exists written, err, w'. split; [exact E|]. split; [exact Hn|exact HC].
Defined.

Section PathProofs.
Import Reporter.

Lemma IsPathSeparator_eq (c : ascii) : IsPathSeparator c = true <-> c = "/"%char.
Proof. unfold IsPathSeparator. apply Ascii.eqb_eq. Qed.

Lemma lastSeparator_none (p : list ascii) :
  sep_free p -> forall n, (n <= List.length p)%nat -> lastSeparator p n = -1.
Proof.
  intros Hp. induction n as [|n IH]; intros Hn; [reflexivity|].
  cbn [lastSeparator]. destruct (nth_error p n) as [c|] eqn:E; [|apply IH; lia].
  apply nth_error_In in E. unfold sep_free in Hp. rewrite Forall_forall in Hp.
  rewrite (Hp c E). apply IH. lia.
Qed.

Lemma lastSeparator_found (q f : list ascii) :
  sep_free f ->
  forall m, (m <= List.length f)%nat ->
    lastSeparator (q ++ "/"%char :: f) (List.length q + 1 + m)
    = Z.of_nat (List.length q).
Proof.
  intros Hf. induction m as [|m IH]; intros Hm.
  - rewrite Nat.add_0_r, Nat.add_1_r. cbn [lastSeparator].
    rewrite nth_error_app2 by lia. rewrite Nat.sub_diag. cbn [nth_error].
    reflexivity.
  - replace (List.length q + 1 + S m)%nat with (S (List.length q + 1 + m)) by lia.
    cbn [lastSeparator].
    rewrite nth_error_app2 by lia.
    replace (List.length q + 1 + m - List.length q)%nat with (S m) by lia.
    cbn [nth_error].
    destruct (nth_error f m) as [c|] eqn:E.
    + apply nth_error_In in E. unfold sep_free in Hf. rewrite Forall_forall in Hf.
      rewrite (Hf c E). apply IH. lia.
    + apply IH. lia.
Qed.

(** A byte sequence has no separator, or a last one. *)
Lemma last_separator_cases (p : list ascii) :
  sep_free p \/ exists q f, p = q ++ "/"%char :: f /\ sep_free f.
Proof.
  induction p as [|c p IH]; [left; constructor|].
  destruct IH as [Hp|(q & f & -> & Hf)].
  - destruct (IsPathSeparator c) eqn:E.
    + right. exists [], p. apply IsPathSeparator_eq in E. subst c. split; auto.
    + left. constructor; assumption.
  - right. exists (c :: q), f. split; auto.
Qed.

Lemma Split_none (path : string) :
  sep_free (list_ascii_of_string path) -> Split path = (EmptyString, path).
Proof.
  intros Hp. unfold Split. rewrite lastSeparator_none by (auto; lia).
  change (-1 + 1) with 0. change (Z.to_nat 0) with O.
  cbn [firstn skipn string_of_list_ascii].
  now rewrite string_of_list_ascii_of_string.
Qed.

Lemma list_ascii_app (a b : string) :
  list_ascii_of_string (a ++ b) = list_ascii_of_string a ++ list_ascii_of_string b.
Proof. induction a as [|c a IH]; cbn; [reflexivity|]. now rewrite IH. Qed.

Lemma string_of_app (a b : list ascii) :
  string_of_list_ascii (a ++ b)
  = (string_of_list_ascii a ++ string_of_list_ascii b)%string.
Proof. induction a as [|c a IH]; cbn; [reflexivity|]. now rewrite IH. Qed.

Lemma Split_found (q f : list ascii) :
  sep_free f ->
  Split (string_of_list_ascii (q ++ "/"%char :: f))
  = (string_of_list_ascii (q ++ ["/"%char]), string_of_list_ascii f).
Proof.
  intros Hf. unfold Split. rewrite list_ascii_of_string_of_list_ascii.
  replace (List.length (q ++ "/"%char :: f))
    with (List.length q + 1 + List.length f)%nat
    by (rewrite length_app; cbn [List.length]; lia).
  rewrite lastSeparator_found by (auto; lia).
  replace (Z.to_nat (Z.of_nat (List.length q) + 1))
    with (List.length (q ++ ["/"%char]))
    by (rewrite length_app; cbn [List.length]; lia).
  replace (q ++ "/"%char :: f) with ((q ++ ["/"%char]) ++ f)
    by (rewrite <- app_assoc; reflexivity).
  rewrite firstn_app, Nat.sub_diag, firstn_all. cbn [firstn]. rewrite app_nil_r.
  rewrite skipn_app, Nat.sub_diag, skipn_all. cbn [skipn app].
  reflexivity.
Qed.

Lemma plain_sep_free (s : string) :
  plain s = true <-> sep_free (list_ascii_of_string s).
Proof.
  unfold sep_free. induction s as [|c s IH]; cbn [plain list_ascii_of_string].
  - split; [constructor|reflexivity].
  - rewrite andb_true_iff, negb_true_iff, IH. split.
    + intros [H1 H2]. constructor; assumption.
    + intros H. inversion H; subst. split; assumption.
Qed.

Lemma string_eqb_empty (s : string) : String.eqb s "" = true <-> s = EmptyString.
Proof. apply String.eqb_eq. Qed.

Lemma string_of_nil (l : list ascii) : string_of_list_ascii l = EmptyString -> l = [].
Proof. destruct l; [reflexivity|discriminate]. Qed.

(** The three checks of [assertValidPath], by the shape of the path. *)
Lemma assertValidPath_cases (path : string) :
  (IsAbs path = true /\ assertValidPath path = Some ErrNotRelative)
  \/ (IsAbs path = false /\ plain path = true
      /\ assertValidPath path = Some ErrNoParent)
  \/ (IsAbs path = false
      /\ (exists parent, path = (parent ++ "/")%string)
      /\ assertValidPath path = Some ErrNotFile)
  \/ (IsAbs path = false
      /\ (exists parent file,
            path = (parent ++ "/" ++ file)%string
            /\ file <> EmptyString /\ plain file = true)
      /\ assertValidPath path = None).
Proof.
  unfold assertValidPath. destruct (IsAbs path) eqn:A; [left; auto|right].
  destruct (last_separator_cases (list_ascii_of_string path)) as [Hp|(q & f & E & Hf)].
  - left. rewrite Split_none by exact Hp. cbn [String.eqb].
    split; [reflexivity|]. split; [now apply plain_sep_free|reflexivity].
  - right.
    assert (EP : path = string_of_list_ascii (q ++ "/"%char :: f)).
    { rewrite <- E. now rewrite string_of_list_ascii_of_string. }
    pose proof (Split_found q f Hf) as HS. rewrite <- EP in HS. rewrite HS.
    destruct (String.eqb (string_of_list_ascii (q ++ ["/"%char])) "") eqn:D.
    { apply string_eqb_empty, string_of_nil in D. destruct q; discriminate. }
    destruct (String.eqb (string_of_list_ascii f) "") eqn:F.
    + left. split; [reflexivity|]. split; [|reflexivity].
      apply string_eqb_empty, string_of_nil in F. subst f.
      exists (string_of_list_ascii q). rewrite EP. apply string_of_app.
    + right. split; [reflexivity|]. split; [|reflexivity].
      exists (string_of_list_ascii q), (string_of_list_ascii f).
      split; [rewrite EP; apply (string_of_app q ("/"%char :: f))|].
      split.
      * intros Z0. rewrite Z0 in F. discriminate.
      * apply plain_sep_free. now rewrite list_ascii_of_string_of_list_ascii.
Qed.

Lemma assertValidPath_accept (parent file : string) :
  IsAbs (parent ++ "/" ++ file) = false ->
  file <> EmptyString -> plain file = true ->
  assertValidPath (parent ++ "/" ++ file) = None.
Proof.
  intros A Hf Hp. unfold assertValidPath. rewrite A.
  assert (E : (parent ++ "/" ++ file)%string
              = string_of_list_ascii
                  (list_ascii_of_string parent ++ "/"%char :: list_ascii_of_string file)).
  { rewrite (string_of_app _ ("/"%char :: _)). cbn [string_of_list_ascii].
    now rewrite !string_of_list_ascii_of_string. }
  rewrite E. rewrite Split_found by now apply plain_sep_free.
  rewrite string_of_app. rewrite !string_of_list_ascii_of_string.
  cbn [string_of_list_ascii].
  destruct (String.eqb (parent ++ "/") "") eqn:D.
  { apply string_eqb_empty in D. destruct parent; discriminate. }
  destruct (String.eqb file "") eqn:F.
  { apply string_eqb_empty in F. contradiction. }
  reflexivity.
Qed.

Lemma assertValidPath_directory (parent : string) :
  IsAbs (parent ++ "/") = false ->
  assertValidPath (parent ++ "/") = Some ErrNotFile.
Proof.
  intros A. unfold assertValidPath. rewrite A.
  assert (E : (parent ++ "/")%string
              = string_of_list_ascii (list_ascii_of_string parent ++ "/"%char :: [])).
  { rewrite (string_of_app _ ["/"%char]). cbn [string_of_list_ascii].
    now rewrite !string_of_list_ascii_of_string. }
  rewrite E. rewrite Split_found by constructor.
  rewrite string_of_app. rewrite !string_of_list_ascii_of_string.
  cbn [string_of_list_ascii].
  destruct (String.eqb (parent ++ "/") "") eqn:D.
  { apply string_eqb_empty in D. destruct parent; discriminate. }
  reflexivity.
Qed.

Lemma assertValidPath_plain (path : string) :
  IsAbs path = false -> plain path = true ->
  assertValidPath path = Some ErrNoParent.
Proof.
  intros A Hp. unfold assertValidPath. rewrite A.
  rewrite Split_none by now apply plain_sep_free. reflexivity.
Qed.

End PathProofs.

Section Grouping.
Import Reporter.

Lemma strings_Split_cons (s : string) : exists h t, strings_Split s = h :: t.
Proof.
  destruct s as [|c s]; cbn [strings_Split]; [eauto|].
  destruct (IsPathSeparator c); [eauto|].
  destruct (strings_Split s); eauto.
Qed.

(** [strings.Join] undoes [strings.Split]. *)
Lemma Join_Split (s : string) : strings_Join (strings_Split s) = s.
Proof.
  induction s as [|c s IH]; [reflexivity|]. cbn [strings_Split].
  destruct (strings_Split_cons s) as (h & t & E). rewrite E in *.
  destruct (IsPathSeparator c) eqn:S.
  - apply IsPathSeparator_eq in S. subst c.
    change (strings_Join (EmptyString :: h :: t))
      with (("" ++ "/" ++ strings_Join (h :: t))%string).
    rewrite IH. reflexivity.
  - destruct t as [|h' t].
    + cbn [strings_Join] in *. now rewrite IH.
    + change (strings_Join (String c h :: h' :: t))
        with (String c (h ++ "/" ++ strings_Join (h' :: t))%string).
      change (strings_Join (h :: h' :: t))
        with ((h ++ "/" ++ strings_Join (h' :: t))%string) in IH.
      now rewrite IH.
Qed.

Lemma strings_Split_plain (s : string) :
  plain s = true -> strings_Split s = [s].
Proof.
  induction s as [|c s IH]; [reflexivity|]. cbn [plain strings_Split].
  intros H. apply andb_true_iff in H. destruct H as [H1 H2].
  apply negb_true_iff in H1. rewrite H1, (IH H2). reflexivity.
Qed.

Lemma strings_Split_sep (s : string) :
  plain s = false -> exists h h' t, strings_Split s = h :: h' :: t.
Proof.
  induction s as [|c s IH]; [discriminate|]. cbn [plain strings_Split].
  destruct (strings_Split_cons s) as (h & t & E).
  destruct (IsPathSeparator c); cbn [negb andb].
  - intros _. rewrite E. eauto.
  - intros H. destruct (IH H) as (a & b & r & E'). rewrite E'. eauto.
Qed.

Lemma top_of_plain (s : string) : plain (top_of s) = true.
Proof.
  unfold top_of. induction s as [|c s IH]; [reflexivity|]. cbn [strings_Split].
  destruct (strings_Split_cons s) as (h & t & E). rewrite E in *.
  destruct (IsPathSeparator c) eqn:S; cbn [hd] in *; [reflexivity|].
  cbn [plain]. now rewrite S, IH.
Qed.

(** A path is its first component, a separator and what is below. *)
Lemma top_below (s : string) :
  (plain s = true -> top_of s = s /\ below s = EmptyString)
  /\ (plain s = false -> s = (top_of s ++ "/" ++ below s)%string).
Proof.
  unfold top_of, below. split; intros H.
  - rewrite (strings_Split_plain s H). split; reflexivity.
  - destruct (strings_Split_sep s H) as (h & h' & t & E).
    pose proof (Join_Split s) as J. rewrite E in *. cbn [hd tl].
    symmetry. exact J.
Qed.

Lemma cutPrefix_app (d x : string) : cutPrefix (d ++ x) d = Some x.
Proof.
  induction d as [|c d IH]; cbn [cutPrefix String.append].
  - destruct x; reflexivity.
  - now rewrite Ascii.eqb_refl.
Qed.

Lemma TrimPrefix_app (d x : string) : TrimPrefix (d ++ x) d = x.
Proof. unfold TrimPrefix. now rewrite cutPrefix_app. Qed.

(** The loop body never fails: [split] has a first element. *)
Lemma group_file_Ok (directory : string) (files : file_map) (file : string) :
  group_file directory files file
  = Ok (append_file files (top_of (TrimPrefix file directory))
                          (below (TrimPrefix file directory))).
Proof.
  unfold group_file, top_of, below.
  destruct (strings_Split_cons (TrimPrefix file directory)) as (h & t & E).
  rewrite E. unfold slice_from.
  replace (1 <=? Z.of_nat (List.length (h :: t))) with true
    by (symmetry; apply Z.leb_le; cbn [List.length]; lia).
  reflexivity.
Qed.

Lemma lookup_store_key (files : file_map) (d d' : string) (v : list string) :
  lookup (store_key files d v) d'
  = if String.eqb d d' then v else lookup files d'.
Proof.
  induction files as [|[k fs] files IH]; cbn [store_key lookup].
  - destruct (String.eqb d d'); reflexivity.
  - destruct (String.eqb_spec k d) as [->|N]; cbn [lookup].
    + destruct (String.eqb d d'); reflexivity.
    + rewrite IH. destruct (String.eqb_spec d d') as [->|N'].
      * destruct (String.eqb_spec k d'); [contradiction|reflexivity].
      * reflexivity.
Qed.

Lemma store_key_keys (files : file_map) (d : string) (v : list string) :
  forall k, In k (map fst (store_key files d v)) <-> k = d \/ In k (map fst files).
Proof.
  induction files as [|[k0 fs] files IH]; intros k; cbn [store_key map fst In].
  - intuition.
  - destruct (String.eqb_spec k0 d) as [->|N]; cbn [map fst In].
    + intuition.
    + rewrite IH. intuition.
Qed.

Lemma store_key_NoDup (files : file_map) (d : string) (v : list string) :
  NoDup (map fst files) -> NoDup (map fst (store_key files d v)).
Proof.
  induction files as [|[k0 fs] files IH]; intros H; cbn [store_key map fst].
  - constructor; [intros []|constructor].
  - cbn [map fst] in H. inversion H as [|? ? Hn Hd]; subst.
    destruct (String.eqb_spec k0 d) as [->|N]; cbn [map fst].
    + constructor; assumption.
    + constructor; [|now apply IH].
      rewrite store_key_keys. intros [E|E]; [now elim N|contradiction].
Qed.

(** What the map holds after the loop over [paths], begun with [files]. *)
Lemma group_files_from (directory : string) (paths : list string) :
  forall files,
    NoDup (map fst files) ->
    exists files',
      Loop.foldM (group_file directory) paths files = Ok files'
      /\ NoDup (map fst files')
      /\ (forall d, In d (map fst files') <->
                    In d (map fst files)
                    \/ exists file, In file paths
                                    /\ top_of (TrimPrefix file directory) = d)
      /\ forall d, lookup files' d
                   = lookup files d
                     ++ map below
                          (under d (map (fun f => TrimPrefix f directory) paths)).
Proof.
  induction paths as [|file paths IH]; intros files Hnd; cbn [Loop.foldM].
  - exists files. split; [reflexivity|]. split; [exact Hnd|]. split.
    + intros d. split; [auto|]. intros [H|(f & [] & _)]. exact H.
    + intros d. cbn. now rewrite app_nil_r.
  - rewrite group_file_Ok. cbn [bind].
    set (t := TrimPrefix file directory).
    destruct (IH (append_file files (top_of t) (below t))) as (files' & E & N & K & L).
    { now apply store_key_NoDup. }
    exists files'. split; [exact E|]. split; [exact N|]. split.
    + intros d. rewrite K. unfold append_file. rewrite store_key_keys.
      split.
      * intros [[H|H]|(f & Hf & Ht)].
        -- right. exists file. split; [now left|]. now subst.
        -- now left.
        -- right. exists f. split; [now right|exact Ht].
      * intros [H|(f & [Hf|Hf] & Ht)].
        -- left. now right.
        -- subst f. left. left. now subst.
        -- right. eauto.
    + intros d. rewrite L. unfold append_file. rewrite lookup_store_key.
      cbn [map]. fold t. unfold under. cbn [filter].
      destruct (String.eqb_spec (top_of t) d) as [->|Ne].
      * cbn [map]. rewrite <- app_assoc. reflexivity.
      * reflexivity.
Qed.

(** Paths that go on from [directory] with a separator all land under the
    empty key. *)
Lemma group_files_empty_key (directory : string) (rels : list string) :
  forall acc,
    Loop.foldM (group_file directory)
               (map (fun r => (directory ++ "/" ++ r)%string) rels)
               [(EmptyString, acc)]
    = Ok [(EmptyString, acc ++ rels)].
Proof.
  induction rels as [|r rels IH]; intros acc; cbn [map Loop.foldM].
  - now rewrite app_nil_r.
  - rewrite group_file_Ok. cbn [bind]. rewrite TrimPrefix_app.
    assert (T : top_of ("/" ++ r) = EmptyString /\ below ("/" ++ r) = r).
    { unfold top_of, below. cbn [String.append strings_Split].
      change (IsPathSeparator "/") with true. cbn [hd tl].
      split; [reflexivity|apply Join_Split]. }
    destruct T as [-> ->].
    unfold append_file. cbn [store_key lookup String.eqb].
    rewrite IH. now rewrite <- app_assoc.
Qed.

End Grouping.

(** X23.  [assertValidPath] looks at separators only.  It accepts a path
    exactly when the path does not begin with a separator and is a parent,
    a separator and a file name that is not empty and holds no separator;
    it answers [ErrNotRelative] exactly for a path that begins with a
    separator, [ErrNoParent] for one without any, and [ErrNotFile] for one
    that ends with it.  The components are not looked at: a path that
    begins with [../] is accepted like any other. *)
Theorem assertValidPath_by_shape (path : string) :
  (Reporter.assertValidPath path = None <->
   Reporter.IsAbs path = false
   /\ exists parent file,
        path = (parent ++ "/" ++ file)%string
        /\ file <> EmptyString /\ Reporter.plain file = true)
  /\ (Reporter.assertValidPath path = Some Reporter.ErrNotRelative <->
      Reporter.IsAbs path = true)
  /\ (Reporter.assertValidPath path = Some Reporter.ErrNoParent <->
      Reporter.IsAbs path = false /\ Reporter.plain path = true)
  /\ (Reporter.assertValidPath path = Some Reporter.ErrNotFile <->
      Reporter.IsAbs path = false /\ exists parent, path = (parent ++ "/")%string)
  /\ forall file,
       file <> EmptyString -> Reporter.plain file = true ->
       Reporter.assertValidPath ("../" ++ file) = None.
Proof.
  pose proof (assertValidPath_cases path) as HC.
  split; [|split; [|split; [|split]]].
  - split.
    + intros H. rewrite H in HC.
      destruct HC as [(_ & E)|[(_ & _ & E)|[(_ & _ & E)|(A & S & _)]]];
        try discriminate. split; assumption.
    + intros (A & parent & file & -> & Hf & Hp). now apply assertValidPath_accept.
  - split.
    + intros H. rewrite H in HC.
      destruct HC as [(A & _)|[(_ & _ & E)|[(_ & _ & E)|(_ & _ & E)]]];
        try discriminate. exact A.
    + intros A. unfold Reporter.assertValidPath. now rewrite A.
  - split.
    + intros H. rewrite H in HC.
      destruct HC as [(_ & E)|[(A & P & _)|[(_ & _ & E)|(_ & _ & E)]]];
        try discriminate. split; assumption.
    + intros [A P]. now apply assertValidPath_plain.
  - split.
    + intros H. rewrite H in HC.
      destruct HC as [(_ & E)|[(_ & _ & E)|[(A & P & _)|(_ & _ & E)]]];
        try discriminate. split; assumption.
    + intros (A & parent & ->). now apply assertValidPath_directory.
  - intros file Hf Hp.
    apply (assertValidPath_accept ".." file); [reflexivity|exact Hf|exact Hp].
Qed.

Lemma assertValidPath_by_shape_witness :
  Reporter.assertValidPath "title/0001.jpg" = None
  /\ Reporter.assertValidPath "../0001.jpg" = None.
Proof.
  split.
  - apply (proj1 (assertValidPath_by_shape "title/0001.jpg")).
    split; [reflexivity|]. exists "title"%string, "0001.jpg"%string.
    split; [reflexivity|]. split; [discriminate|reflexivity].
  - apply (proj2 (proj2 (proj2 (proj2 (assertValidPath_by_shape ""))))).
    + discriminate.
    + reflexivity.
Defined.

(** X24.  The first loop of [ZipDownloads] never panics and files every
    saved path once: after it the map holds, for each first component of
    a path (taken after [dm.directory] is cut off its front), the rest of
    every path under that component, in the order of [dm.paths], and holds
    no other key.  A path with a separator is its key, a separator and its
    entry; a path without one is filed whole as a key, with an empty
    entry. *)
Theorem ZipDownloads_groups_by_top_directory (directory : string) (paths : list string) :
  exists files,
    Reporter.group_files directory paths = Ok files
    /\ NoDup (map fst files)
    /\ (forall d, In d (map fst files) <->
                  exists file, In file paths
                               /\ Reporter.top_of (Reporter.TrimPrefix file directory) = d)
    /\ (forall d,
          Reporter.lookup files d
          = map Reporter.below
              (Reporter.under d
                 (map (fun f => Reporter.TrimPrefix f directory) paths)))
    /\ forall t,
         Reporter.plain (Reporter.top_of t) = true
         /\ (Reporter.plain t = false ->
             t = (Reporter.top_of t ++ "/" ++ Reporter.below t)%string)
         /\ (Reporter.plain t = true ->
             Reporter.top_of t = t /\ Reporter.below t = EmptyString).
Proof.
  destruct (group_files_from directory paths [] (NoDup_nil _))
    as (files & E & N & K & L).
  exists files. split; [exact E|]. split; [exact N|]. split.
  - intros d. rewrite K. cbn [map In]. intuition.
  - split; [intros d; now rewrite L|].
    intros t. split; [apply top_of_plain|]. destruct (top_below t). split; assumption.
Qed.

Lemma ZipDownloads_groups_by_top_directory_witness :
  exists files,
    Reporter.group_files "downloads/"
      ["downloads/a/1.jpg"; "downloads/b/1.jpg"; "downloads/a/2.jpg"]%string = Ok files
    /\ Reporter.lookup files "a" = ["1.jpg"; "2.jpg"]%string.
Proof.
  destruct (ZipDownloads_groups_by_top_directory "downloads/"
              ["downloads/a/1.jpg"; "downloads/b/1.jpg"; "downloads/a/2.jpg"]%string)
    as (files & E & _ & _ & L & _).
  exists files. split; [exact E|]. rewrite L. reflexivity.
Defined.

(** X25.  [dm.directory] is cut off as a plain prefix.  When the saved
    paths go on from it with a separator (the directory was given without
    its final separator), the first component of every path is the empty
    string: all the files land in one group under the empty name, each
    with its whole relative path, and it is from that empty name that
    [ZipDownloads] makes the archive name [dir+".zip"] and the directory it
    removes when [deleteAfter] is set. *)
Theorem ZipDownloads_directory_without_separator
  (directory : string) (rels : list string) :
  rels <> [] ->
  Reporter.group_files directory
    (map (fun r => (directory ++ "/" ++ r)%string) rels)
  = Ok [(EmptyString, rels)].
Proof.
  intros Hne. destruct rels as [|r rels]; [contradiction|].
  unfold Reporter.group_files. cbn [map Loop.foldM].
  rewrite group_file_Ok. cbn [bind]. rewrite TrimPrefix_app.
  assert (T : Reporter.top_of ("/" ++ r) = EmptyString
              /\ Reporter.below ("/" ++ r) = r).
  { unfold Reporter.top_of, Reporter.below.
    cbn [String.append Reporter.strings_Split].
    change (Reporter.IsPathSeparator "/") with true. cbn [hd tl].
    split; [reflexivity|apply Join_Split]. }
  destruct T as [-> ->].
  unfold Reporter.append_file. cbn [Reporter.store_key Reporter.lookup app].
  apply (group_files_empty_key directory rels [r]).
Qed.

Lemma ZipDownloads_directory_without_separator_witness :
  Reporter.group_files "downloads"
    ["downloads/a/1.jpg"; "downloads/b/1.jpg"]%string
  = Ok [(EmptyString, ["a/1.jpg"; "b/1.jpg"]%string)].
Proof.
  apply (ZipDownloads_directory_without_separator "downloads"
           ["a/1.jpg"; "b/1.jpg"]%string).
  discriminate.
Defined.

Section CoordinatorProgress.
Import Manager.

Variable cfg : run_config.

Ltac step_inv H :=
  unfold step, cleanup_and_return, recovered, set_worker, set_spawner,
         set_main, log_cleanup in H;
  repeat match type of H with
  | context [match ?x with _ => _ end] => destruct x eqn:?; try discriminate H
  end;
  inversion H; subst; clear H;
  cbn [main paths cleanups spawner remaining dlCount workers limiter ec got
       interrupt] in *.



Lemma sum_store {A : Type} (f : A -> nat) (l : list A) :
  forall n w w',
    nth_error l n = Some w ->
    (list_sum (map f (store l n w')) + f w = list_sum (map f l) + f w')%nat.
Proof.
  induction l as [|a l IH]; intros [|n] w w' H; cbn in H; try discriminate.
  - inversion H; subst a. unfold list_sum. cbn. lia.
  - specialize (IH n w w' H). unfold list_sum in *. cbn. lia.
Qed.

Lemma sum_snoc {A : Type} (f : A -> nat) (l : list A) (a : A) :
  list_sum (map f (l ++ [a])) = (list_sum (map f l) + f a)%nat.
Proof. rewrite map_app, list_sum_app. cbn. lia. Qed.

(** Every step but the arrival of a signal uses up the bound. *)
Lemma steps_left_step (l : label) (s s' : state) :
  step cfg l s = Some s' -> l <> Signal ->
  (steps_left s' < steps_left s)%nat.
Proof.
  intros H Hl. unfold steps_left.
  destruct l; try (now elim Hl); step_inv H;
    rewrite ?sum_snoc, ?length_app;
    try match goal with
        | Hn : nth_error ?ws ?n = Some ?w |- context [store ?ws ?n ?w'] =>
          pose proof (sum_store worker_steps ws n w w' Hn) as HS
        end;
    unfold worker_steps, downloader_steps in *;
    cbn [main_steps spawner_steps map List.length todo wpc saves] in *;
    unfold list_sum in *; cbn [fold_right map] in *; lia.
Qed.

Lemma steps_left_signal (s s' : state) :
  step cfg Signal s = Some s' -> steps_left s' = steps_left s.
Proof. intros H. cbn in H. inversion H; subst. reflexivity. Qed.

Lemma run_steps_left (ls : list label) :
  forall s s',
    run cfg ls s = Some s' -> (acts ls + steps_left s' <= steps_left s)%nat.
Proof.
  unfold acts. induction ls as [|l ls IH]; intros s s' H; cbn [run] in H.
  - inversion H; subst. cbn. lia.
  - destruct (step cfg l s) as [s1|] eqn:E; [|discriminate].
    specialize (IH s1 s' H). cbn [filter].
    destruct l;
      try (pose proof (steps_left_step _ s s1 E ltac:(discriminate));
           cbn [List.length]; lia).
    rewrite <- (steps_left_signal s s1 E). lia.
Qed.



Section WithSlot.

Hypothesis some_slot : 1 <= maxWorkers cfg.





End WithSlot.

End CoordinatorProgress.



(** X27.  No goroutine of [Download] spins: a run takes, arrivals of
    signals apart, at most eight steps and, for each downloader, three
    steps and two for each path it saves; what is counted includes the
    steps the workers and the spawner take after [Download] has exited. *)
Theorem Download_steps_bounded
  (cfg : Manager.run_config) (ls : list Manager.label) (s : Manager.state) :
  Manager.run cfg ls (Manager.initial cfg) = Some s ->
  (Manager.acts ls + Manager.steps_left s
   <= 8 + list_sum (map Manager.downloader_steps (Manager.downloaders cfg)))%nat.
Proof.
  intros H. apply run_steps_left in H.
  assert (E : Manager.steps_left (Manager.initial cfg)
              = (8 + list_sum (map Manager.downloader_steps
                                   (Manager.downloaders cfg)))%nat).
  { unfold Manager.steps_left, Manager.initial.
    cbn [Manager.main Manager.spawner Manager.workers Manager.remaining
         Manager.got Manager.main_steps Manager.spawner_steps map List.length].
    change (list_sum []) with 0%nat. lia. }
  rewrite E in H. exact H.
Qed.

Lemma Download_steps_bounded_witness :
  exists s,
    Manager.run (Manager.one_page_run 1 "title/0001.jpg")
      [Manager.Setup; Manager.Signal; Manager.SpawnerSpawn; Manager.WorkerSave 0;
       Manager.MainGot; Manager.WorkerEnd 0; Manager.WorkerFree 0;
       Manager.SpawnerWaited; Manager.MainDone]
      (Manager.initial (Manager.one_page_run 1 "title/0001.jpg")) = Some s
    /\ (8 + Manager.steps_left s <= 8 + 5)%nat.
Proof.
  eexists. split; [vm_compute; reflexivity|].
  refine (Download_steps_bounded (Manager.one_page_run 1 "title/0001.jpg")
            [Manager.Setup; Manager.Signal; Manager.SpawnerSpawn;
             Manager.WorkerSave 0; Manager.MainGot; Manager.WorkerEnd 0;
             Manager.WorkerFree 0; Manager.SpawnerWaited; Manager.MainDone]
            _ _).
  vm_compute. reflexivity.
Defined.

